(* ===== verification/_CoqProject ===== *)
-Q . S2P
Prelude.v
SortOn.v
GoStrings.v
GoErrors.v
Url.v
Float64.v
Http.v
Json.v
JsonDecode.v
JsonCompact.v
RpcSummary.v
Config.v
Policy.v
RateLimit.v
Sha256.v
Canonical.v
Lock.v
PromptProof.v
Coproc.v
ResponseFilter.v
FilterSafety.v
FilterBodies.v
SseRewrite.v
SseDrain.v
SseEvents.v
SseSafety.v
AuditTrail.v
LockInit.v
LockText.v
LockInitSafety.v
Proxy.v
Gateway.v
GatewaySafety.v
Concurrent.v
ConcurrentSafety.v
Serializable.v
GatewayBuild.v
Startup.v
Cli.v
Lifecycle.v
EndToEnd.v
Scenarios.v
