(* ===== verification/Prelude.v ===== *)
(** * mcp-gateway-lite: a verification library

mcp-gateway-lite (Go, under src/) is a reverse proxy for MCP servers.  A
request to /mcp/<name> is limited, its body is read for metadata, a tool
policy may refuse it, the upstream answers, the answer to a tools/list is
verified against a lockfile and filtered and the answer to a tools/call is
scanned for prompt injection, and one line goes to the audit trail.  This
library models that program from its sources, executably, and proves what it
promises: what reaches an upstream is what was judged, what reaches a client
under strict processing is allowed, and the trail says what happened.

** Files and sources

Foundations, the parts of Go's standard library that the program uses:
- [Prelude]: bytes, literals ("..." for Go strings, '...'%js for JSON with
  single quotes), order, tactics, the hint database [golib].
- [SortOn], [GoStrings] (package strings, UTF-8, strconv.Itoa), [GoErrors]
  (the error monad [result], fmt.Errorf, strconv.Quote), [Url] (url.Parse),
  [Float64] (binary64 and durations), [Http] (headers, bodies).
- [Json] (the grammar of encoding/json and its parser, accepted documents are
  exactly those of the grammar), [JsonDecode] (Unmarshal into typed values,
  with case-insensitive names and duplicate members as Go has them; Marshal),
  [JsonCompact] (compaction does not show in decoders), [Sha256].

Components (all sources are in src/gateway unless said otherwise):
- [RpcSummary]: jsonrpc.go, [summarizeRPC].
- [Config]: config.go, [Load], [Validate], [ParseUpstreamFlag].
- [Policy]: policy.go, [newToolPolicy], [blockReason], [allows].
- [RateLimit]: ratelimit.go, over any type with the arithmetic of the class
  [Num]; instances are binary64 and the rationals.
- [Canonical]: canonical.go.  [Lock]: lock.go, fingerprints, loading,
  preparing, verifying.  [LockInit], [LockText], [LockInitSafety]: lockinit.go
  and writeLockFile.
- [PromptProof]: promptproof.go, configuration, frames, reports, collected
  strings, and the pool of coprocesses as a step relation.  [Coproc]: its
  ppProc, with descriptors, children and the goroutines that os/exec starts to
  copy an error stream as resources of the system.
- [ResponseFilter], [FilterSafety], [FilterBodies]: responsefilter.go.
- [SseRewrite], [SseDrain], [SseEvents], [SseSafety]: sserewrite.go, its
  refinement of a line-by-line specification, its termination, what it does
  event by event, and what a client is shown.  The rewriter knows its message
  handler through the class [MessageHandler] only; the filter is an instance.
- [AuditTrail]: audit.go.
- [Proxy]: gateway.go (newProxy and its hooks, joinPath, countingWriter) with
  what they use of net/http/httputil; the network is the class [Transport].
  The client's [writer] is net/http's: it takes as much as its client takes,
  and sends no body in answer to a HEAD or with a status that has none.
- [Gateway]: gateway.go (New, ServeHTTP and the handlers) and wellknown.go.
  [GatewaySafety], [GatewayBuild], [EndToEnd]: the theorems about it.
- [Concurrent]: the handlers as threads that share a gateway, with the mutexes
  of ratelimit.go and audit.go, and schedules of their steps; each request
  brings the answers it will get from its upstream and the scanners, so they
  may depend on whatever happened before.  [ConcurrentSafety],
  [Serializable]: the invariants of their interleavings and the theorems.
- [Startup]: [New] with the coprocesses it starts, and [Gateway.Close].
- [Cli]: src/cmd/mcp-gateway-lite/main.go, arguments and [run] up to serving.
  [Lifecycle]: [run] with its deferred calls to the end, and [main].
- [Scenarios]: concrete gateways, requests and upstreams.

** State

Go's pointers to shared structures are records passed along: the gateway
([Gateway]) holds the limiters and the auditor and is returned by its
handlers; [Concurrent] has it shared, with the phase each handler is in, and
[ConcurrentSafety] compares gateways up to their limiters and trail
([same_rules], with [Proper] instances for what handlers decide outside the
mutexes); the response state ([rewriteState]) goes through the filter; the
rewriter's buffer, the client's writer and the counting writer are records.
Maps are stdpp's [gmap]; where Go's order of iteration could show, it is an
argument ([moment]'s [session_order], [ScanEnv]'s [map_range]).  A panic that
unwinds the handler is the flag [ex_aborted].  The clock, the outcome of a
write, of starting a coprocess and of a scan, and the answers of servers are
arguments or class members, so theorems hold for all of them.

** What the theorems show

- Requests: [forwarded_is_judged], [sent_intact], [refusal_complete],
  [routes_isolated].
- Responses: [strict_end_to_end] for a client of the whole gateway, from
  [strict_body_safe] and [sse_strict_safe]; [body_exact] and [sse_local] that
  nothing else changes; [scan_body_safe], [scan_sees_everything];
  [sse_read_all], a refinement of a line-by-line specification for every way
  the stream is cut but one, and [sse_read_terminates]; [no_newline_passes];
  [error_wellformed].
- Side by side: [serializable], a refinement of the sequential gateway, in the
  order of the limiters, by every interleaving of its handlers; [handlers_finish], no deadlock and no run
  without end; [lines_whole], the trail at any moment.
- Audit: [audit_accurate], [audit_trail_roundtrip], [trail_is_metadata_only].
- Locks: [lock_detail_sound], [lock_init_roundtrip] (what is fetched, written,
  loaded and prepared accepts what was fetched), [fetch_all_pages],
  [lock_init_bounded]; [canonical_roundtrip], [canonical_faithful], the lemma
  [decoded_wellformed].  That SHA-256 collides is no hypothesis but a disjunct,
  which names the two texts.
- Limits: [bucket_rate_bound] in exact arithmetic, [bucket_float_safe] in
  binary64, [session_table_bounded], [session_isolation].
- Start and end: [validation_exact] (the documented constraints, [config_ok],
  and what the check takes, [config_taken], differ in NaN), [New_configures], [New_accounts] (what a
  construction leaves running), [run_serves], [run_cleans_up].
- The pool: [pool_exclusive], [scan_after_close_blocks] (what [Close] does and
  what becomes of later scans), [coprocesses_leak_nothing].
- Behaviour that comments or intent contradict: [broken_body_unaudited], and
  the lemmas [allowlist_case_bypass], [sse_cr_bypass], [nan_rate_taken],
  [lock_case_blind], [shared_id_bypass], [close_leaks_process], [early_hint_hides_failure],
  [response_case_bypass], [sse_chunk_dependence], [truncated_body_forwarded],
  [New_leaks_scanners], [unfinished_unaudited].

** Bounds and fuel

The JSON parser's fuel is the length of the text plus one; [parse_doc_spec]
shows that it is never what stops it.  [udigits] has the digits of a 64-bit
integer.  [scan_strings] recurses on the parsed value.  Fetching pages has
the fuel of the code's own loop, [maxLockPages].  [read_all] takes a number of
reads and [sse_read_terminates] gives one that is enough for every source.
A run of handlers has no fuel: [handlers_finish] shows its steps well-founded.
Integers are [Z]; where the code's width shows (durations, the timeout, the
conversion of a float) the wrap-around or saturation is written out.

** Not modelled

Listening, signals, dialling and TLS: operating system and network; how serving
ends is an argument of [Lifecycle].  The buffered reader over a coprocess's output;
a reader that outlives a timeout touches closed pipes only.  A [Wait] that does
not return, as long as something keeps a coprocess's error stream open: the
theorems about coprocesses are of the calls that have returned.  A write beyond a
declared Content-Length.  In [Concurrent] the exchange with the upstream is
one step, since nothing in it is shared but the scanner; the scanner's pool is
a transition system of its own, and a scan's answer an argument.  Flushing of
streams does not change what is delivered and is left out.  The texts of decoding
errors are a parameter ([GoLib]).  A slice decoded over a longer earlier value
keeps no stale elements ([dec_each]).  Header and URL parsing of incoming
requests is net/http's; a request is what the handler receives. *)

From Stdlib Require Export Strings.Byte ZArith Lia.
From stdpp Require Export base tactics option list gmap sets sorting.

#[export] Set Warnings "-via-type-remapping,-via-type-mismatch,-register-all,-clear-no-such-hyp,-level-tolerance".

(** ** Bytes and Go strings

A Go [string] or [[]byte] is a finite sequence of bytes.  Both are modelled
by [bytes]; nothing forces the contents to be UTF-8. *)

Abbreviation bytes := (list byte).

(** The numeric value of a byte, and the byte of a number modulo 256. *)
Definition bz (b : byte) : Z := Z.of_N (Byte.to_N b).

Definition zb (z : Z) : byte :=
  match Byte.of_N (Z.to_N (z mod 256)) with Some b => b | None => x00 end.

(** Length as an unbounded integer (Go's [len]; a buffer cannot be longer
than the address space, so the [int] result never wraps). *)
Definition len {A} (l : list A) : Z := Z.of_nat (length l).

#[export] Instance byte_eq_dec : EqDecision byte := Byte.byte_eq_dec.

#[export] Instance byte_countable : Countable byte :=
  inj_countable Byte.to_N Byte.of_N Byte.of_to_N.

#[global] Arguments Byte.eqb : simpl never.
#[global] Arguments bz : simpl never.
#[global] Arguments zb : simpl never.

(** ** Literals

[go_scope] reads a string literal as the sequence of its bytes.
[json_scope] does the same with the single quote standing for the double
quote, so that JSON text can be written without escapes. *)

Declare Scope go_scope.
Delimit Scope go_scope with go.
Declare Scope json_scope.
Delimit Scope json_scope with js.

Inductive lit := lit_nil | lit_cons (b : byte) (l : lit).

Fixpoint lit_of_bytes (s : bytes) : lit :=
  match s with [] => lit_nil | b :: s => lit_cons b (lit_of_bytes s) end.

Fixpoint bytes_of_lit (l : lit) : bytes :=
  match l with lit_nil => [] | lit_cons b l => b :: bytes_of_lit l end.

Definition swap_quote (a b c : byte) : byte := if Byte.eqb c a then b else c.

Definition lit_of_json (s : bytes) : lit := lit_of_bytes (map (swap_quote x27 x22) s).

Definition json_of_lit (l : lit) : option bytes :=
  let s := bytes_of_lit l in
  if existsb (Byte.eqb x27) s then None else Some (map (swap_quote x22 x27) s).

Definition gostring : Type := list byte.

String Notation gostring lit_of_bytes bytes_of_lit
  (via lit mapping [[nil] => lit_nil, [cons] => lit_cons]) : go_scope.
String Notation gostring lit_of_json json_of_lit
  (via lit mapping [[nil] => lit_nil, [cons] => lit_cons]) : json_scope.

(** ** Facts about bytes *)

Lemma bz_range b : (0 <= bz b < 256)%Z.
Proof. unfold bz. pose proof (Byte.to_N_bounded b). lia. Qed.

Lemma bz_inj a b : bz a = bz b -> a = b.
Proof.
  unfold bz. intros H%N2Z.inj.
  assert (Some a = Some b) as [= ->]; [|done].
  by rewrite <- (Byte.of_to_N a), <- (Byte.of_to_N b), H.
Qed.

Lemma bz_zb z : bz (zb z) = (z mod 256)%Z.
Proof.
  unfold bz, zb. pose proof (Z.mod_pos_bound z 256 ltac:(lia)).
  destruct (Byte.of_N (Z.to_N (z mod 256))) as [b|] eqn:E.
  - apply Byte.to_of_N in E. rewrite E. lia.
  - apply Byte.of_N_None_iff in E. lia.
Qed.

Lemma bz_zb_small z : (0 <= z < 256)%Z -> bz (zb z) = z.
Proof. intros. rewrite bz_zb. by apply Z.mod_small. Qed.

Lemma zb_bz b : zb (bz b) = b.
Proof. apply bz_inj. apply bz_zb_small, bz_range. Qed.

Lemma zb_unique z b : (0 <= z < 256)%Z -> z = bz b -> zb z = b.
Proof. intros ? ->. apply zb_bz. Qed.

(** ** Tactics *)

(** Split every boolean test of the goal and the context, and let [lia] and
[done] discharge what is left. *)
Ltac zbool :=
  repeat match goal with
  | H : (_ <? _)%Z = true |- _ => apply Z.ltb_lt in H
  | H : (_ <? _)%Z = false |- _ => apply Z.ltb_ge in H
  | H : (_ <=? _)%Z = true |- _ => apply Z.leb_le in H
  | H : (_ <=? _)%Z = false |- _ => apply Z.leb_gt in H
  | H : (_ =? _)%Z = true |- _ => apply Z.eqb_eq in H
  | H : (_ =? _)%Z = false |- _ => apply Z.eqb_neq in H
  | H : _ && _ = true |- _ => apply andb_true_iff in H; destruct H
  | H : _ || _ = false |- _ => apply orb_false_iff in H; destruct H
  | H : negb _ = true |- _ => apply negb_true_iff in H
  | H : negb _ = false |- _ => apply negb_false_iff in H
  end.

(** Case analysis on the scrutinee of a [match] or [if] of the goal or of a
hypothesis, keeping the equation. *)
Ltac case_in_goal :=
  match goal with
  | |- context [match ?x with _ => _ end] => destruct x eqn:?
  end.

Ltac case_in H :=
  match type of H with
  | context [match ?x with _ => _ end] => destruct x eqn:?
  end.

(** Brings the range of every byte value of the context into scope. *)
Ltac byte_ranges :=
  repeat match goal with
  | _ : context [bz ?b] |- _ =>
      lazymatch goal with
      | _ : (0 <= bz b < 256)%Z |- _ => fail
      | _ => pose proof (bz_range b)
      end
  | |- context [bz ?b] =>
      lazymatch goal with
      | _ : (0 <= bz b < 256)%Z |- _ => fail
      | _ => pose proof (bz_range b)
      end
  end.

Ltac byte_lia := byte_ranges; lia.

(** ** Hint databases

[golib] holds the facts of the standard-library model that close side
conditions; [gorw] the equations that normalise byte and list terms. *)

Create HintDb golib discriminated.
Create Rewrite HintDb gorw.
#[export] Hint Resolve bz_range : golib.
#[export] Hint Rewrite bz_zb zb_bz : gorw.

(** ** Lists *)

Lemma len_app {A} (l k : list A) : len (l ++ k) = (len l + len k)%Z.
Proof. unfold len. rewrite length_app. lia. Qed.

Lemma len_cons {A} (x : A) l : len (x :: l) = (1 + len l)%Z.
Proof. unfold len. simpl. lia. Qed.

Lemma len_nonneg {A} (l : list A) : (0 <= len l)%Z.
Proof. unfold len. lia. Qed.

Lemma len_nil {A} : len (@nil A) = 0%Z.
Proof. done. Qed.

#[export] Hint Rewrite @len_app @len_cons @len_nil : gorw.
#[export] Hint Resolve len_nonneg : golib.

Lemma forallb_Forall {A} (f : A -> bool) l :
  forallb f l = true <-> Forall (fun x => f x = true) l.
Proof. rewrite forallb_forall, Forall_forall. setoid_rewrite list_elem_of_In. done. Qed.

Lemma existsb_Exists {A} (f : A -> bool) l :
  existsb f l = true <-> Exists (fun x => f x = true) l.
Proof. rewrite existsb_exists, Exists_exists. setoid_rewrite list_elem_of_In. done. Qed.

(** [bytes.Join] and [strings.Join]. *)
Fixpoint join (sep : bytes) (l : list bytes) : bytes :=
  match l with
  | [] => []
  | [x] => x
  | x :: l => x ++ sep ++ join sep l
  end.

Lemma join_cons sep x l : l <> [] -> join sep (x :: l) = x ++ sep ++ join sep l.
Proof. by destruct l. Qed.

(** The lexicographic order of byte sequences: Go's [<] on strings. *)
Fixpoint bytes_ltb (a b : bytes) : bool :=
  match a, b with
  | _, [] => false
  | [], _ :: _ => true
  | x :: a, y :: b => (bz x <? bz y)%Z || ((bz x =? bz y)%Z && bytes_ltb a b)
  end.

Definition bytes_le (a b : bytes) : Prop := bytes_ltb b a = false.

#[export] Instance bytes_le_dec : RelDecision bytes_le.
Proof. intros a b. unfold bytes_le. apply _. Defined.

Lemma bytes_ltb_irrefl a : bytes_ltb a a = false.
Proof.
  induction a as [|x a IH]; [done|]. simpl. rewrite IH, Z.ltb_irrefl, andb_false_r. done.
Qed.

Lemma bytes_ltb_trans a b c :
  bytes_ltb a b = true -> bytes_ltb b c = true -> bytes_ltb a c = true.
Proof.
  revert b c. induction a as [|x a IH]; intros [|y b] [|z c]; simpl; try done.
  rewrite !orb_true_iff, !andb_true_iff, !Z.ltb_lt, !Z.eqb_eq.
  intros [?|[? ?]] [?|[? ?]]; try (left; lia). right. split; [lia|eauto].
Qed.

Lemma bytes_ltb_total a b : bytes_ltb a b = false -> bytes_ltb b a = false -> a = b.
Proof.
  revert b. induction a as [|x a IH]; intros [|y b]; simpl; try done.
  rewrite !orb_false_iff, !andb_false_iff, !Z.ltb_ge, !Z.eqb_neq.
  intros [? H1] [? H2]. assert (bz x = bz y) as E by lia.
  apply bz_inj in E as ->. f_equal. apply IH; [destruct H1|destruct H2]; done || lia.
Qed.

Lemma bytes_ltb_asym a b : bytes_ltb a b = true -> bytes_ltb b a = false.
Proof.
  intros H. destruct (bytes_ltb b a) eqn:E; [|done].
  pose proof (bytes_ltb_trans _ _ _ H E) as F. by rewrite bytes_ltb_irrefl in F.
Qed.

#[export] Instance bytes_le_total : Total bytes_le.
Proof.
  intros a b. unfold bytes_le. destruct (bytes_ltb b a) eqn:E; [right|by left].
  by apply bytes_ltb_asym.
Qed.

#[export] Instance bytes_le_trans : Transitive bytes_le.
Proof.
  unfold bytes_le. intros a b c Hab Hbc. destruct (bytes_ltb c a) eqn:E; [|done].
  destruct (bytes_ltb a b) eqn:E2.
  - pose proof (bytes_ltb_trans _ _ _ E E2). congruence.
  - pose proof (bytes_ltb_total _ _ E2 Hab) as ->. congruence.
Qed.

#[export] Instance bytes_le_antisym : AntiSymm (=) bytes_le.
Proof. intros a b ??. by apply bytes_ltb_total. Qed.
