(* ===== verification/SortOn.v ===== *)
(** * Sorting by a string key

A stable sort on a byte-string key: [sort.Strings] on distinct keys and
[sort.SliceStable]. *)

From S2P Require Export Prelude.

Section sort_on.
Context {A : Type} (key : A -> bytes).

Fixpoint insert_on (x : A) (l : list A) : list A :=
  match l with
  | [] => [x]
  | y :: t => if bytes_ltb (key y) (key x) then y :: insert_on x t else x :: l
  end.

(** An element goes before the later ones of the same key. *)
Definition sort_on (l : list A) : list A := fold_right insert_on [] l.

Definition key_le (x y : A) : Prop := bytes_le (key x) (key y).

#[local] Instance key_le_trans : Transitive key_le.
Proof. intros x y z. unfold key_le. apply bytes_le_trans. Qed.

Lemma insert_on_perm x l : insert_on x l ≡ₚ x :: l.
Proof.
  induction l as [|y t IH]; [done|]. simpl. destruct (bytes_ltb (key y) (key x)); [|done].
  rewrite IH. apply Permutation_swap.
Qed.

Lemma sort_on_perm l : sort_on l ≡ₚ l.
Proof. induction l as [|x l IH]; [done|]. simpl. by rewrite insert_on_perm, IH. Qed.

Lemma insert_on_sorted x l : StronglySorted key_le l -> StronglySorted key_le (insert_on x l).
Proof.
  induction 1 as [|y t Ht IH Hy]; simpl; [by repeat constructor|].
  destruct (bytes_ltb (key y) (key x)) eqn:E.
  - constructor; [done|]. apply Forall_forall. intros z Hz.
    rewrite insert_on_perm in Hz. apply elem_of_cons in Hz as [->|Hz].
    + unfold key_le, bytes_le. by apply bytes_ltb_asym.
    + by eapply Forall_forall.
  - constructor; [by constructor|]. constructor; [done|].
    eapply Forall_impl; [exact Hy|]. intros z Hz. by transitivity y.
Qed.

Lemma sort_on_sorted l : StronglySorted key_le (sort_on l).
Proof. induction l as [|x l IH]; [constructor|]. by apply insert_on_sorted. Qed.

(** Sorting forgets the order of elements with distinct keys. *)
Lemma sort_on_unique l k : NoDup (map key l) -> l ≡ₚ k -> sort_on l = sort_on k.
Proof.
  intros Hnd Hp. apply (StronglySorted_unique_strong key_le); try apply sort_on_sorted.
  - intros x y Hx Hy Hxy Hyx. rewrite sort_on_perm in Hx, Hy. rewrite <- Hp in Hy.
    assert (E : key x = key y) by (by apply bytes_le_antisym).
    clear -Hnd Hx Hy E. induction l as [|z l IH]; [by apply elem_of_nil in Hx|].
    simpl in Hnd. apply NoDup_cons in Hnd as [Hz Hnd].
    apply elem_of_cons in Hx, Hy. destruct Hx as [->|Hx], Hy as [->|Hy]; auto.
    + destruct Hz. rewrite E. by apply list_elem_of_fmap_2.
    + destruct Hz. rewrite <- E. by apply list_elem_of_fmap_2.
  - by rewrite !sort_on_perm.
Qed.

Lemma sort_on_id l : StronglySorted key_le l -> sort_on l = l.
Proof.
  induction 1 as [|x l Hl IH Hx]; [done|]. simpl. rewrite IH. destruct l as [|y t]; [done|].
  simpl. apply Forall_cons in Hx as [Hx _]. unfold key_le, bytes_le in Hx. by rewrite Hx.
Qed.

Lemma sort_on_idemp l : sort_on (sort_on l) = sort_on l.
Proof. apply sort_on_id, sort_on_sorted. Qed.

End sort_on.

(** Sorting commutes with a map that keeps the keys. *)
Lemma sort_on_map {A B} (f : A -> B) (ka : A -> bytes) (kb : B -> bytes) l :
  (forall x, kb (f x) = ka x) -> sort_on kb (map f l) = map f (sort_on ka l).
Proof.
  intros Hk. induction l as [|x l IH]; [done|]. simpl. rewrite IH. clear IH.
  induction (sort_on ka l) as [|y t IH]; [done|]. simpl. rewrite !Hk.
  destruct (bytes_ltb (ka y) (ka x)); [|done]. simpl. by rewrite IH.
Qed.
