(* ===== verification/GoStrings.v ===== *)
(** * The parts of Go's standard library on text

Go strings and byte slices ([strings], [bytes], [strconv], [unicode/utf8],
[unicode/utf16]) as the gateway uses them, on [bytes]. *)

From S2P Require Export Prelude.
Local Open Scope Z_scope.
Local Open Scope go_scope.

(** ** Searching and trimming *)

Fixpoint has_prefix (s p : bytes) {struct p} : bool :=
  match p, s with
  | [], _ => true
  | _ :: _, [] => false
  | x :: p, y :: s => Byte.eqb x y && has_prefix s p
  end.

Arguments has_prefix : simpl nomatch.

Definition has_suffix (s p : bytes) : bool := has_prefix (reverse s) (reverse p).

Definition trim_prefix (s p : bytes) : bytes :=
  if has_prefix s p then drop (length p) s else s.

Definition trim_suffix (s p : bytes) : bytes :=
  if has_suffix s p then take (length s - length p) s else s.

(** [strings.Cut]: the text before and after the first [sep], and whether
[sep] occurs. *)
Fixpoint cut (s sep : bytes) : bytes * bytes * bool :=
  if has_prefix s sep then ([], drop (length sep) s, true)
  else match s with
       | [] => ([], [], false)
       | c :: t => let '(a, b, ok) := cut t sep in (c :: a, b, ok)
       end.

(** [bytes.IndexByte]: the text up to the first [c] and the text after it. *)
Fixpoint split_byte (c : byte) (s : bytes) : option (bytes * bytes) :=
  match s with
  | [] => None
  | x :: t =>
      if Byte.eqb x c then Some ([], t)
      else match split_byte c t with Some (a, b) => Some (x :: a, b) | None => None end
  end.

Definition is_ascii (b : byte) : bool := bz b <? 0x80.

(** [strings.ToLower] on text whose bytes are all ASCII (its only callers
apply it to a name that matched an ASCII pattern). *)
Definition to_lower_byte (b : byte) : byte :=
  if (0x41 <=? bz b) && (bz b <=? 0x5A) then zb (bz b + 32) else b.

Definition to_lower (s : bytes) : bytes := map to_lower_byte s.

(** ** Numbers *)

Definition hex_digit (n : Z) : byte :=
  if n <? 10 then zb (0x30 + n) else zb (0x61 + (n - 10)).

Definition hex_val (b : byte) : option Z :=
  let c := bz b in
  if (0x30 <=? c) && (c <=? 0x39) then Some (c - 0x30)
  else if (0x61 <=? c) && (c <=? 0x66) then Some (c - 0x61 + 10)
  else if (0x41 <=? c) && (c <=? 0x46) then Some (c - 0x41 + 10)
  else None.

Definition is_hex (b : byte) : bool := match hex_val b with Some _ => true | None => false end.

(** Two and four lower-case hexadecimal digits, as [%02x] and [%04x] print a
number below 256 and 65536. *)
Definition hex2 (n : Z) : bytes := [hex_digit (n / 16 mod 16); hex_digit (n mod 16)].

Definition hex4 (n : Z) : bytes := hex2 (n / 256 mod 256) ++ hex2 (n mod 256).

Definition is_digit (b : byte) : bool := (0x30 <=? bz b) && (bz b <=? 0x39).

(** The decimal digits of a non-negative number; [fuel] bounds the number of
digits. *)
Fixpoint udigits (fuel : nat) (n : Z) (acc : bytes) : bytes :=
  match fuel with
  | O => acc
  | S fuel =>
      let acc := zb (0x30 + n mod 10) :: acc in
      if n <? 10 then acc else udigits fuel (n / 10) acc
  end.

(** [strconv.Itoa] on a 64-bit integer: at most 19 digits and a sign. *)
Definition itoa (n : Z) : bytes :=
  if n <? 0 then "-" ++ udigits 20 (- n) [] else udigits 20 n [].

(** The value of a string of digits ([strconv.ParseInt] base 10 without its
range check). *)
Definition digit_step (acc : Z) (b : byte) : Z := acc * 10 + (bz b - 0x30).

Definition udecimal (s : bytes) : Z := fold_left digit_step s 0.

(** ** UTF-8 *)

Definition rune_error : Z := 0xFFFD.

Definition is_surrogate (r : Z) : bool := (0xD800 <=? r) && (r <=? 0xDFFF).

(** A Unicode scalar value: what [utf8.ValidRune] accepts. *)
Definition scalar (r : Z) : Prop := 0 <= r < 0xD800 \/ 0xE000 <= r <= 0x10FFFF.

Definition in_range (lo hi : Z) (b : byte) : bool := (lo <=? bz b) && (bz b <=? hi).

Definition cont := in_range 0x80 0xBF.

(** [utf8.DecodeRune]: the first rune and its width; [(RuneError, 1)] for a
byte that starts no well-formed sequence, [(RuneError, 0)] for no input. *)
Definition decode2 (a : Z) (t : bytes) : Z * nat :=
  match t with
  | c1 :: _ => if cont c1 then (a mod 32 * 64 + bz c1 mod 64, 2%nat) else (rune_error, 1%nat)
  | [] => (rune_error, 1%nat)
  end.

Definition decode3 (lo hi a : Z) (t : bytes) : Z * nat :=
  match t with
  | c1 :: c2 :: _ =>
      if in_range lo hi c1 && cont c2
      then (a mod 16 * 4096 + bz c1 mod 64 * 64 + bz c2 mod 64, 3%nat)
      else (rune_error, 1%nat)
  | _ => (rune_error, 1%nat)
  end.

Definition decode4 (lo hi a : Z) (t : bytes) : Z * nat :=
  match t with
  | c1 :: c2 :: c3 :: _ =>
      if in_range lo hi c1 && cont c2 && cont c3
      then (a mod 8 * 262144 + bz c1 mod 64 * 4096 + bz c2 mod 64 * 64 + bz c3 mod 64, 4%nat)
      else (rune_error, 1%nat)
  | _ => (rune_error, 1%nat)
  end.

Definition decode_rune (s : bytes) : Z * nat :=
  match s with
  | [] => (rune_error, 0%nat)
  | c0 :: t =>
      let a := bz c0 in
      if a <? 0x80 then (a, 1%nat)
      else if a <? 0xC2 then (rune_error, 1%nat)
      else if a <? 0xE0 then decode2 a t
      else if a =? 0xE0 then decode3 0xA0 0xBF a t
      else if a =? 0xED then decode3 0x80 0x9F a t
      else if a <? 0xF0 then decode3 0x80 0xBF a t
      else if a =? 0xF0 then decode4 0x90 0xBF a t
      else if a <? 0xF4 then decode4 0x80 0xBF a t
      else if a =? 0xF4 then decode4 0x80 0x8F a t
      else (rune_error, 1%nat)
  end.

(** [utf8.AppendRune]: surrogates and out-of-range values become U+FFFD. *)
Definition encode_rune (r : Z) : bytes :=
  if (r <? 0) || (0x10FFFF <? r) || is_surrogate r then [xef; xbf; xbd]
  else if r <? 0x80 then [zb r]
  else if r <? 0x800 then [zb (0xC0 + r / 64); zb (0x80 + r mod 64)]
  else if r <? 0x10000 then
    [zb (0xE0 + r / 4096); zb (0x80 + r / 64 mod 64); zb (0x80 + r mod 64)]
  else
    [zb (0xF0 + r / 262144); zb (0x80 + r / 4096 mod 64); zb (0x80 + r / 64 mod 64);
     zb (0x80 + r mod 64)].

(** A [for ... range] loop over a string: each step decodes a rune at the
current offset and moves past it; [skip] counts the bytes still to pass. *)
Fixpoint runes_skip (skip : nat) (s : bytes) : list Z :=
  match s with
  | [] => []
  | _ :: t =>
      match skip with
      | S k => runes_skip k t
      | O => let '(r, n) := decode_rune s in r :: runes_skip (pred n) t
      end
  end.

Definition runes (s : bytes) : list Z := runes_skip 0 s.

Definition encode_runes (l : list Z) : bytes := concat (map encode_rune l).

(** The text with every ill-formed byte replaced by U+FFFD. *)
Definition sanitize (s : bytes) : bytes := encode_runes (runes s).

Definition valid_utf8 (s : bytes) : Prop := sanitize s = s.

(** [strings.ContainsRune(s, utf8.RuneError)]. *)
Definition contains_rune_error (s : bytes) : bool := existsb (Z.eqb rune_error) (runes s).

(** ** UTF-16 surrogate pairs *)

Definition utf16_encode (r : Z) : Z * Z :=
  (0xD800 + (r - 0x10000) / 1024, 0xDC00 + (r - 0x10000) mod 1024).

Definition utf16_decode (hi lo : Z) : Z :=
  if (0xD800 <=? hi) && (hi <? 0xDC00) && (0xDC00 <=? lo) && (lo <? 0xE000)
  then (hi - 0xD800) * 1024 + (lo - 0xDC00) + 0x10000
  else rune_error.

(** ** White space *)

(** The multi-byte encodings of the runes [unicode.IsSpace] accepts: U+0085,
U+00A0, U+1680, U+2000..U+200A, U+2028, U+2029, U+202F, U+205F, U+3000. *)
Definition is_space2 (a b : byte) : bool := (bz a =? 0xC2) && ((bz b =? 0x85) || (bz b =? 0xA0)).

Definition is_space3 (a b c : byte) : bool :=
  let '(x, y, z) := (bz a, bz b, bz c) in
  ((x =? 0xE1) && (y =? 0x9A) && (z =? 0x80))
  || ((x =? 0xE2) && (y =? 0x80)
      && (((0x80 <=? z) && (z <=? 0x8A)) || (z =? 0xA8) || (z =? 0xA9) || (z =? 0xAF)))
  || ((x =? 0xE2) && (y =? 0x81) && (z =? 0x9F))
  || ((x =? 0xE3) && (y =? 0x80) && (z =? 0x80)).

Definition is_space_ascii (b : byte) : bool :=
  (bz b =? 0x20) || ((0x09 <=? bz b) && (bz b <=? 0x0D)).

Fixpoint trim_left (s : bytes) : bytes :=
  match s with
  | [] => []
  | a :: t =>
      if is_space_ascii a then trim_left t
      else match t with
           | [] => s
           | b :: u =>
               if is_space2 a b then trim_left u
               else match u with
                    | [] => s
                    | c :: v => if is_space3 a b c then trim_left v else s
                    end
           end
  end.

(** The same from the right, on the reversed text: [utf8.DecodeLastRune]
finds a space rune exactly when the text ends with its encoding. *)
Fixpoint trim_right_rev (s : bytes) : bytes :=
  match s with
  | [] => []
  | a :: t =>
      if is_space_ascii a then trim_right_rev t
      else match t with
           | [] => s
           | b :: u =>
               if is_space2 b a then trim_right_rev u
               else match u with
                    | [] => s
                    | c :: v => if is_space3 c b a then trim_right_rev v else s
                    end
           end
  end.

(** [strings.TrimSpace] and [bytes.TrimSpace]. *)
Definition trim_space (s : bytes) : bytes :=
  reverse (trim_right_rev (reverse (trim_left s))).

(** ** Prefixes and searching *)

Lemma byte_eqb_eq a b : Byte.eqb a b = true <-> a = b.
Proof. split; [apply Byte.byte_dec_bl|apply Byte.byte_dec_lb]. Qed.

Lemma byte_eqb_refl a : Byte.eqb a a = true.
Proof. by apply byte_eqb_eq. Qed.

Lemma byte_eqb_neq a b : Byte.eqb a b = false <-> a <> b.
Proof. rewrite <- not_true_iff_false, byte_eqb_eq. done. Qed.

#[export] Hint Rewrite byte_eqb_refl : gorw.

Lemma has_prefix_spec s p : has_prefix s p = true <-> exists t, s = p ++ t.
Proof.
  revert s. induction p as [|x p IH]; intros s.
  - split; [by exists s|by destruct s].
  - destruct s as [|y s]; simpl; [split; [done|by intros [? ?]]|].
    rewrite andb_true_iff, byte_eqb_eq, IH. split.
    + intros [-> [t ->]]. by exists t.
    + intros [t [= -> ->]]. eauto.
Qed.

Lemma has_prefix_app p t : has_prefix (p ++ t) p = true.
Proof. apply has_prefix_spec. by exists t. Qed.

Lemma trim_prefix_app p t : trim_prefix (p ++ t) p = t.
Proof. unfold trim_prefix. rewrite has_prefix_app. apply drop_app_length. Qed.

Lemma has_suffix_app s p : has_suffix (s ++ p) p = true.
Proof. unfold has_suffix. rewrite reverse_app. apply has_prefix_app. Qed.

Lemma has_suffix_spec s p : has_suffix s p = true <-> exists t, s = t ++ p.
Proof.
  unfold has_suffix. rewrite has_prefix_spec. split.
  - intros [t H]. exists (reverse t). rewrite <- (reverse_involutive s), H, reverse_app.
    by rewrite reverse_involutive.
  - intros [t ->]. exists (reverse t). by rewrite reverse_app.
Qed.

Lemma trim_suffix_app s p : trim_suffix (s ++ p) p = s.
Proof.
  unfold trim_suffix. rewrite has_suffix_app, length_app.
  replace (length s + length p - length p)%nat with (length s) by lia. apply take_app_length.
Qed.

Lemma trim_suffix_none s p : has_suffix s p = false -> trim_suffix s p = s.
Proof. unfold trim_suffix. by intros ->. Qed.

(** [cut] at a separator that occurs: the parts rebuild the text and the
first part does not contain it. *)
Lemma cut_found s sep a b : cut s sep = (a, b, true) -> s = a ++ sep ++ b.
Proof.
  revert a b. induction s as [|c t IH]; intros a b; simpl.
  - destruct (has_prefix [] sep) eqn:E; [|done]. intros [= <- <-].
    apply has_prefix_spec in E as [u E]. symmetry in E.
    apply app_eq_nil in E as [-> ->]. done.
  - destruct (has_prefix (c :: t) sep) eqn:E.
    + intros [= <- <-]. apply has_prefix_spec in E as [u ->].
      simpl. by rewrite drop_app_length.
    + destruct (cut t sep) as [[a' b'] ok] eqn:Ec. intros [= <- <- ->].
      by rewrite (IH _ _ eq_refl).
Qed.

Lemma cut_not_found s sep a b : cut s sep = (a, b, false) -> a = s /\ b = [].
Proof.
  revert a b. induction s as [|c t IH]; intros a b; simpl.
  - destruct (has_prefix [] sep); [done|]. by intros [= <- <-].
  - destruct (has_prefix (c :: t) sep); [done|].
    destruct (cut t sep) as [[a' b'] ok] eqn:Ec. intros [= <- <- ->].
    by destruct (IH _ _ eq_refl) as [-> ->].
Qed.

(** [cut] at a single byte that does not occur in the first part. *)
Lemma cut_byte a c b : c ∉ a -> cut (a ++ c :: b) [c] = (a, b, true).
Proof.
  induction a as [|x a IH]; intros Hc.
  - simpl. by rewrite byte_eqb_refl.
  - simpl. assert (Byte.eqb c x = false) as ->.
    { apply byte_eqb_neq. intros ->. apply Hc. left. }
    simpl. rewrite IH; [done|]. intros ?. apply Hc. by right.
Qed.

Lemma cut_byte_absent a c : c ∉ a -> cut a [c] = (a, [], false).
Proof.
  induction a as [|x a IH]; intros Hc; [done|].
  simpl. assert (Byte.eqb c x = false) as ->.
  { apply byte_eqb_neq. intros ->. apply Hc. left. }
  simpl. rewrite IH; [done|]. intros ?. apply Hc. by right.
Qed.

Lemma cut_byte_first s c a b ok : cut s [c] = (a, b, ok) -> c ∉ a.
Proof.
  revert a b ok. induction s as [|x s IH]; intros a b ok; simpl.
  - intros [= <- <- <-]. apply not_elem_of_nil.
  - destruct (Byte.eqb c x) eqn:E; simpl.
    + intros [= <- <- <-]. apply not_elem_of_nil.
    + destruct (cut s [c]) as [[a' b'] ok'] eqn:Ec. intros [= <- <- <-].
      apply byte_eqb_neq in E. rewrite elem_of_cons. intros [?|?]; [done|].
      by eapply IH.
Qed.

Lemma split_byte_Some c s a b :
  split_byte c s = Some (a, b) <-> s = a ++ c :: b /\ c ∉ a.
Proof.
  split.
  - revert a b. induction s as [|x t IH]; intros a b; [done|]. simpl.
    destruct (Byte.eqb x c) eqn:E.
    + intros [= <- <-]. apply byte_eqb_eq in E as ->. split; [done|apply not_elem_of_nil].
    + destruct (split_byte c t) as [[a' b']|] eqn:Es; [|done]. intros [= <- <-].
      destruct (IH _ _ eq_refl) as [-> Hn]. split; [done|].
      apply byte_eqb_neq in E. rewrite elem_of_cons. intros [->|?]; done.
  - intros [-> Hn]. induction a as [|x a IH]; simpl.
    + by rewrite byte_eqb_refl.
    + rewrite not_elem_of_cons in Hn. destruct Hn as [Hx Ha].
      assert (Byte.eqb x c = false) as -> by (apply byte_eqb_neq; congruence).
      by rewrite IH.
Qed.

Lemma split_byte_None c s : split_byte c s = None <-> c ∉ s.
Proof.
  split.
  - intros H Hin. apply list_elem_of_split in Hin as (a & b & ->).
    destruct (decide (c ∈ a)) as [Hin|Hn].
    + apply list_elem_of_split_l in Hin as (a1 & a2 & -> & Hn).
      rewrite <- app_assoc in H. simpl in H.
      assert (split_byte c (a1 ++ c :: a2 ++ c :: b) = Some (a1, a2 ++ c :: b)) as E.
      { by apply split_byte_Some. } congruence.
    + assert (split_byte c (a ++ c :: b) = Some (a, b)) as E by by apply split_byte_Some.
      congruence.
  - intros Hn. destruct (split_byte c s) as [[a b]|] eqn:E; [|done].
    apply split_byte_Some in E as [-> _]. exfalso. apply Hn. set_solver.
Qed.

(** ** UTF-8: encoding and decoding are inverse *)

#[global] Arguments decode_rune : simpl never.
#[global] Arguments encode_rune : simpl never.

(** Evaluates the tests of [decode_rune] on a first byte of known range. *)
Ltac decide_ranges :=
  repeat match goal with
  | |- context [(?a <? ?b)%Z] =>
      first [ replace (a <? b)%Z with true by (symmetry; apply Z.ltb_lt; byte_lia)
            | replace (a <? b)%Z with false by (symmetry; apply Z.ltb_ge; byte_lia) ]
  | |- context [(?a =? ?b)%Z] =>
      first [ replace (a =? b)%Z with true by (symmetry; apply Z.eqb_eq; byte_lia)
            | replace (a =? b)%Z with false by (symmetry; apply Z.eqb_neq; byte_lia) ]
  | |- context [(?a <=? ?b)%Z] =>
      first [ replace (a <=? b)%Z with true by (symmetry; apply Z.leb_le; byte_lia)
            | replace (a <=? b)%Z with false by (symmetry; apply Z.leb_gt; byte_lia) ]
  end; simpl.

Lemma decode_rune_ascii c t : bz c < 0x80 -> decode_rune (c :: t) = (bz c, 1%nat).
Proof. intros. unfold decode_rune. by decide_ranges. Qed.

Lemma decode2_spec a t r n :
  decode2 a t = (r, n) ->
  (r, n) = (rune_error, 1%nat) \/
  exists c1 u, t = c1 :: u /\ n = 2%nat /\ 0x80 <= bz c1 <= 0xBF /\
               r = a mod 32 * 64 + bz c1 mod 64.
Proof.
  unfold decode2, cont, in_range. destruct t as [|c1 u]; [by intros [= <- <-]; left|].
  case_match eqn:E; intros [= <- <-]; [right|by left]. zbool. eauto 10.
Qed.

Lemma decode3_spec lo hi a t r n :
  decode3 lo hi a t = (r, n) ->
  (r, n) = (rune_error, 1%nat) \/
  exists c1 c2 u, t = c1 :: c2 :: u /\ n = 3%nat /\ lo <= bz c1 <= hi /\
    0x80 <= bz c2 <= 0xBF /\ r = a mod 16 * 4096 + bz c1 mod 64 * 64 + bz c2 mod 64.
Proof.
  unfold decode3, cont, in_range.
  destruct t as [|c1 [|c2 u]]; try by intros [= <- <-]; left.
  case_match eqn:E; intros [= <- <-]; [right|by left]. zbool. eauto 12.
Qed.

Lemma decode4_spec lo hi a t r n :
  decode4 lo hi a t = (r, n) ->
  (r, n) = (rune_error, 1%nat) \/
  exists c1 c2 c3 u, t = c1 :: c2 :: c3 :: u /\ n = 4%nat /\ lo <= bz c1 <= hi /\
    0x80 <= bz c2 <= 0xBF /\ 0x80 <= bz c3 <= 0xBF /\
    r = a mod 8 * 262144 + bz c1 mod 64 * 4096 + bz c2 mod 64 * 64 + bz c3 mod 64.
Proof.
  unfold decode4, cont, in_range.
  destruct t as [|c1 [|c2 [|c3 u]]]; try by intros [= <- <-]; left.
  case_match eqn:E; intros [= <- <-]; [right|by left]. zbool. eauto 14.
Qed.

(** The five shapes of the first element of a non-empty text. *)
Inductive decoded (s : bytes) : Z -> nat -> Prop :=
| dec_bad c t : s = c :: t -> 0x80 <= bz c -> decoded s rune_error 1
| dec_1 c t : s = c :: t -> bz c < 0x80 -> decoded s (bz c) 1
| dec_2 c c1 t : s = c :: c1 :: t -> 0xC2 <= bz c < 0xE0 -> 0x80 <= bz c1 <= 0xBF ->
    decoded s (bz c mod 32 * 64 + bz c1 mod 64) 2
| dec_3 c c1 c2 t : s = c :: c1 :: c2 :: t -> 0xE0 <= bz c < 0xF0 ->
    0x80 <= bz c1 <= 0xBF -> 0x80 <= bz c2 <= 0xBF ->
    (bz c = 0xE0 -> 0xA0 <= bz c1) -> (bz c = 0xED -> bz c1 <= 0x9F) ->
    decoded s (bz c mod 16 * 4096 + bz c1 mod 64 * 64 + bz c2 mod 64) 3
| dec_4 c c1 c2 c3 t : s = c :: c1 :: c2 :: c3 :: t -> 0xF0 <= bz c <= 0xF4 ->
    0x80 <= bz c1 <= 0xBF -> 0x80 <= bz c2 <= 0xBF -> 0x80 <= bz c3 <= 0xBF ->
    (bz c = 0xF0 -> 0x90 <= bz c1) -> (bz c = 0xF4 -> bz c1 <= 0x8F) ->
    decoded s (bz c mod 8 * 262144 + bz c1 mod 64 * 4096 + bz c2 mod 64 * 64 + bz c3 mod 64) 4.

Ltac decoded_case lem :=
  let H := fresh "H" in
  intros H; apply lem in H;
  destruct H as [[= -> ->]|H];
  [eapply dec_bad; [done|lia]
  |destruct_and?; repeat match goal with H : exists _, _ |- _ => destruct H end;
   destruct_and?; subst].

Lemma decode_rune_decoded s r n : s <> [] -> decode_rune s = (r, n) -> decoded s r n.
Proof.
  destruct s as [|c t]; [done|]. intros _. unfold decode_rune.
  repeat (case_match; zbool; [|]).
  - intros [= <- <-]. eapply dec_1; [done|lia].
  - intros [= <- <-]. eapply dec_bad; [done|lia].
  - decoded_case decode2_spec. eapply dec_2; [done|lia|lia].
  - decoded_case decode3_spec. eapply dec_3; (done || lia).
  - decoded_case decode3_spec. eapply dec_3; (done || lia).
  - decoded_case decode3_spec. eapply dec_3; (done || lia).
  - decoded_case decode4_spec. eapply dec_4; (done || lia).
  - decoded_case decode4_spec. eapply dec_4; (done || lia).
  - decoded_case decode4_spec. eapply dec_4; (done || lia).
  - intros [= <- <-]. eapply dec_bad; [done|lia].
Qed.

Lemma decode_rune_width s r n :
  s <> [] -> decode_rune s = (r, n) -> (1 <= n <= 4)%nat /\ (n <= length s)%nat.
Proof.
  intros Hs H. apply decode_rune_decoded in H; [|done].
  inversion H; subst; simpl; lia.
Qed.

Lemma decode_rune_scalar s r n : decode_rune s = (r, n) -> scalar r.
Proof.
  destruct s as [|c t]; [unfold decode_rune, scalar; intros [= <- <-]; right; done|].
  intros H. apply decode_rune_decoded in H; [|done]. unfold scalar.
  inversion H; subst; try (unfold rune_error; lia); byte_ranges; Z.div_mod_to_equations; lia.
Qed.

(** Encoding a scalar value and decoding it returns it, whatever follows. *)
Lemma decode_encode r t :
  scalar r -> decode_rune (encode_rune r ++ t) = (r, length (encode_rune r)).
Proof.
  unfold scalar, encode_rune, is_surrogate. intros Hr.
  destruct ((r <? 0) || (1114111 <? r) || ((55296 <=? r) && (r <=? 57343))) eqn:E0.
  { exfalso. rewrite !orb_true_iff, andb_true_iff, !Z.ltb_lt, !Z.leb_le in E0. lia. }
  clear E0. repeat (case_match; zbool; [|]);
    unfold decode_rune, decode2, decode3, decode4, cont, in_range; cbn [app];
    cbv beta iota zeta; rewrite !bz_zb_small by (Z.div_mod_to_equations; lia).
  - decide_ranges. done.
  - assert (194 <= 192 + r / 64 < 224) by (Z.div_mod_to_equations; lia).
    assert (0 <= r mod 64 < 64) by (Z.div_mod_to_equations; lia).
    decide_ranges. f_equal. Z.div_mod_to_equations; lia.
  - assert (0 <= r mod 64 < 64) by (Z.div_mod_to_equations; lia).
    assert (0 <= r / 64 mod 64 < 64) by (Z.div_mod_to_equations; lia).
    assert (224 <= 224 + r / 4096 < 240) by (Z.div_mod_to_equations; lia).
    assert (Hval : (224 + r / 4096) mod 16 * 4096 + (128 + r / 64 mod 64) mod 64 * 64
                   + (128 + r mod 64) mod 64 = r) by (Z.div_mod_to_equations; lia).
    destruct (Z.eqb_spec (224 + r / 4096) 224) as [E1|E1].
    { assert (32 <= r / 64 mod 64) by (Z.div_mod_to_equations; lia).
      decide_ranges. by rewrite Hval. }
    destruct (Z.eqb_spec (224 + r / 4096) 237) as [E2|E2].
    { assert (r / 64 mod 64 < 32) by (Z.div_mod_to_equations; lia).
      decide_ranges. by rewrite Hval. }
    decide_ranges. by rewrite Hval.
  - assert (0 <= r mod 64 < 64) by (Z.div_mod_to_equations; lia).
    assert (0 <= r / 64 mod 64 < 64) by (Z.div_mod_to_equations; lia).
    assert (0 <= r / 4096 mod 64 < 64) by (Z.div_mod_to_equations; lia).
    assert (240 <= 240 + r / 262144 <= 244) by (Z.div_mod_to_equations; lia).
    assert (Hval : (240 + r / 262144) mod 8 * 262144 + (128 + r / 4096 mod 64) mod 64 * 4096
                   + (128 + r / 64 mod 64) mod 64 * 64 + (128 + r mod 64) mod 64 = r)
      by (Z.div_mod_to_equations; lia).
    destruct (Z.eqb_spec (240 + r / 262144) 240) as [E1|E1].
    { assert (16 <= r / 4096 mod 64) by (Z.div_mod_to_equations; lia).
      decide_ranges. by rewrite Hval. }
    destruct (Z.ltb_spec (240 + r / 262144) 244) as [E2|E2].
    { decide_ranges. by rewrite Hval. }
    assert (r / 4096 mod 64 < 16) by (Z.div_mod_to_equations; lia).
    decide_ranges. by rewrite Hval.
Qed.

(** Decoding a well-formed sequence and encoding the rune rebuilds it. *)
Lemma encode_decode s r n :
  s <> [] -> decode_rune s = (r, n) -> (r, n) <> (rune_error, 1%nat) ->
  encode_rune r = take n s.
Proof.
  intros Hs H Hne. apply decode_rune_decoded in H; [|done].
  assert (Hsc : forall r, 0 <= r < 0xD800 \/ 0xE000 <= r <= 0x10FFFF ->
    ((r <? 0) || (1114111 <? r) || is_surrogate r) = false).
  { intros x Hx. unfold is_surrogate. destruct Hx; decide_ranges; done. }
  unfold encode_rune.
  inversion H; subst; [done| | | |]; rewrite Hsc by (byte_ranges; Z.div_mod_to_equations; lia);
    byte_ranges.
  - decide_ranges. by rewrite zb_bz.
  - assert (128 <= bz c mod 32 * 64 + bz c1 mod 64 < 2048) by (Z.div_mod_to_equations; lia).
    decide_ranges. repeat f_equal; apply zb_unique; Z.div_mod_to_equations; lia.
  - assert (2048 <= bz c mod 16 * 4096 + bz c1 mod 64 * 64 + bz c2 mod 64 < 65536)
      by (Z.div_mod_to_equations; lia).
    decide_ranges. repeat f_equal; apply zb_unique; Z.div_mod_to_equations; lia.
  - set (v := bz c mod 8 * 262144 + _ + _ + _).
    assert (65536 <= v <= 0x10FFFF) by (subst v; Z.div_mod_to_equations; lia).
    decide_ranges. subst v.
    repeat f_equal; apply zb_unique; Z.div_mod_to_equations; lia.
Qed.

Lemma encode_rune_nonnil r : encode_rune r <> [].
Proof. unfold encode_rune. repeat case_match; done. Qed.

Lemma encode_rune_ascii r : 0 <= r < 0x80 -> encode_rune r = [zb r].
Proof. intros. unfold encode_rune, is_surrogate. by decide_ranges. Qed.

(** ** The rune loop *)

Lemma runes_skip_drop k s : runes_skip k s = runes (drop k s).
Proof.
  revert k. induction s as [|c t IH]; intros [|k]; try done. simpl. by rewrite IH.
Qed.

Lemma runes_nil : runes [] = [].
Proof. done. Qed.

Lemma runes_step s r n :
  s <> [] -> decode_rune s = (r, n) -> runes s = r :: runes (drop n s).
Proof.
  intros Hs H. pose proof (decode_rune_width _ _ _ Hs H) as [? ?].
  destruct s as [|c t]; [done|]. unfold runes at 1. simpl. rewrite H, runes_skip_drop.
  destruct n; [lia|]. done.
Qed.

(** Induction along a rune loop. *)
Lemma rune_ind (P : bytes -> Prop) :
  P [] ->
  (forall s r n, s <> [] -> decode_rune s = (r, n) -> P (drop n s) -> P s) ->
  forall s, P s.
Proof.
  intros H0 HS s. induction (well_founded_ltof _ (@length byte) s) as [s _ IH].
  destruct s as [|c t]; [done|]. destruct (decode_rune (c :: t)) as [r n] eqn:E.
  pose proof (decode_rune_width (c :: t) r n ltac:(done) E) as [? ?].
  eapply HS; [done|exact E|]. apply IH. unfold ltof. rewrite length_drop. simpl in *. lia.
Qed.

Lemma runes_scalar s : Forall scalar (runes s).
Proof.
  induction s as [|s r n Hs Hd IH] using rune_ind; [constructor|].
  rewrite (runes_step _ _ _ Hs Hd). constructor; [by eapply decode_rune_scalar|done].
Qed.

Lemma runes_encode_app r t : scalar r -> runes (encode_rune r ++ t) = r :: runes t.
Proof.
  intros Hr. rewrite (runes_step _ r (length (encode_rune r))).
  - by rewrite drop_app_length.
  - pose proof (encode_rune_nonnil r). by destruct (encode_rune r).
  - by apply decode_encode.
Qed.

Lemma encode_runes_cons r l : encode_runes (r :: l) = encode_rune r ++ encode_runes l.
Proof. done. Qed.

Lemma runes_encode_runes l : Forall scalar l -> runes (encode_runes l) = l.
Proof.
  induction 1 as [|r l Hr Hl IH]; [done|].
  by rewrite encode_runes_cons, runes_encode_app, IH.
Qed.

Lemma sanitize_valid s : valid_utf8 (sanitize s).
Proof. unfold valid_utf8, sanitize. by rewrite runes_encode_runes by apply runes_scalar. Qed.

Lemma encode_runes_inj l k :
  Forall scalar l -> Forall scalar k -> encode_runes l = encode_runes k -> l = k.
Proof.
  intros Hl Hk H. rewrite <- (runes_encode_runes l), <- (runes_encode_runes k) by done.
  by rewrite H.
Qed.

(** Text without U+FFFD, decoded or literal, is well-formed UTF-8. *)
Lemma no_rune_error_valid s : contains_rune_error s = false -> valid_utf8 s.
Proof.
  unfold contains_rune_error, valid_utf8, sanitize.
  induction s as [|s r n Hs Hd IH] using rune_ind; [done|].
  rewrite (runes_step _ _ _ Hs Hd). simpl. intros [Hr Hrest]%orb_false_iff.
  rewrite encode_runes_cons, IH by done. rewrite (encode_decode _ _ _ Hs Hd).
  - by rewrite take_drop.
  - intros [= -> _]. by vm_compute in Hr.
Qed.

Lemma is_ascii_cons_decode c t : is_ascii c = true -> decode_rune (c :: t) = (bz c, 1%nat).
Proof. unfold is_ascii. intros H%Z.ltb_lt. by apply decode_rune_ascii. Qed.

Lemma ascii_valid_utf8 s : forallb is_ascii s = true -> valid_utf8 s.
Proof.
  unfold valid_utf8, sanitize. induction s as [|c t IH]; [done|]. simpl.
  intros [Hc Ht]%andb_true_iff. rewrite (runes_step _ (bz c) 1); [|done|by apply is_ascii_cons_decode].
  change (drop 1 (c :: t)) with t. rewrite encode_runes_cons, IH by done. unfold is_ascii in Hc. apply Z.ltb_lt in Hc.
  rewrite encode_rune_ascii by byte_lia. simpl. by rewrite zb_bz.
Qed.

#[export] Hint Resolve runes_scalar decode_rune_scalar sanitize_valid no_rune_error_valid : golib.

(** ** Trimming *)

Lemma trim_left_head c t :
  is_ascii c = true -> is_space_ascii c = false -> trim_left (c :: t) = c :: t.
Proof.
  intros Ha Hs. cbn [trim_left]. rewrite Hs. apply Z.ltb_lt in Ha.
  destruct t as [|b u]; [done|].
  assert (is_space2 c b = false) as -> by (unfold is_space2; by decide_ranges).
  destruct u as [|d v]; [done|].
  assert (is_space3 c b d = false) as ->; [|done]. unfold is_space3. by decide_ranges.
Qed.

Lemma trim_right_rev_head c t :
  is_ascii c = true -> is_space_ascii c = false -> trim_right_rev (c :: t) = c :: t.
Proof.
  intros Ha Hs. cbn [trim_right_rev]. rewrite Hs. apply Z.ltb_lt in Ha.
  destruct t as [|b u]; [done|].
  assert (is_space2 b c = false) as ->.
  { unfold is_space2. decide_ranges. by rewrite andb_false_r. }
  destruct u as [|d v]; [done|].
  assert (is_space3 d b c = false) as ->; [|done].
  unfold is_space3. decide_ranges. by rewrite !andb_false_r.
Qed.

(** Text between two visible ASCII bytes has nothing to trim. *)
Lemma trim_space_id a s b :
  is_ascii a = true -> is_space_ascii a = false -> is_ascii b = true -> is_space_ascii b = false ->
  trim_space (a :: s ++ [b]) = a :: s ++ [b].
Proof.
  intros Ha1 Ha2 Hb1 Hb2. unfold trim_space. rewrite trim_left_head by done.
  change (a :: s ++ [b]) with ((a :: s) ++ [b]). rewrite reverse_snoc.
  rewrite trim_right_rev_head by done. by rewrite reverse_cons, reverse_involutive.
Qed.

(** ** Decimal numerals *)

Lemma udigits_value fuel n acc :
  0 <= n < 10 ^ Z.of_nat fuel ->
  fold_left digit_step (udigits fuel n acc) 0 = fold_left digit_step acc n.
Proof.
  revert n acc. induction fuel as [|fuel IH]; intros n acc Hn.
  - simpl in Hn. assert (n = 0) as -> by lia. done.
  - rewrite Nat2Z.inj_succ, Z.pow_succ_r in Hn by lia. cbn [udigits].
    assert (Hd : forall k, digit_step k (zb (0x30 + n mod 10)) = 10 * k + n mod 10).
    { intros k. unfold digit_step. rewrite bz_zb_small; [lia|]. pose proof (Z.mod_pos_bound n 10). lia. }
    destruct (n <? 10) eqn:E; zbool.
    + cbn [fold_left]. rewrite Hd. f_equal. rewrite Z.mod_small by lia. lia.
    + rewrite IH by (split; [apply Z.div_pos; lia|apply Z.div_lt_upper_bound; lia]).
      cbn [fold_left]. rewrite Hd. f_equal. pose proof (Z.div_mod n 10). lia.
Qed.

Lemma udigits_digits fuel n acc :
  0 <= n -> forallb is_digit acc = true -> forallb is_digit (udigits fuel n acc) = true.
Proof.
  revert n acc. induction fuel as [|fuel IH]; intros n acc Hn Ha; [done|]. cbn [udigits].
  pose proof (Z.mod_pos_bound n 10 ltac:(lia)).
  assert (Hd : is_digit (zb (0x30 + n mod 10)) = true).
  { unfold is_digit. rewrite bz_zb_small by lia. apply andb_true_iff. rewrite !Z.leb_le. lia. }
  destruct (n <? 10); [|apply IH; [apply Z.div_pos; lia|]]; simpl; by rewrite Hd.
Qed.

(** What [itoa] writes for a natural number: digits that read back as it. *)
Lemma itoa_nat n : 0 <= n < 10 ^ 20 -> forallb is_digit (itoa n) = true /\ udecimal (itoa n) = n.
Proof.
  intros Hn. unfold itoa. assert ((n <? 0) = false) as -> by (apply Z.ltb_ge; lia).
  split; [apply udigits_digits; [lia|done]|]. by apply (udigits_value 20).
Qed.
