(* ===== verification/GoErrors.v ===== *)
(** * Errors and formatting of the Go standard library

The error values the program builds, the [%q] verb, and the part of the
standard library whose exact text the model leaves open: the wording of
decoding errors and the Unicode table behind [strconv.IsPrint]. *)

From S2P Require Export GoStrings.
Local Open Scope Z_scope.
Local Open Scope go_scope.

(** ** Errors

[ENew] is [errors.New] or a formatted text, [EWrap] wraps an error behind a
prefix, [EDecode] is what [encoding/json] reports when [input] does not
decode into the type called [what]. *)
Inductive goerror :=
| ENew (text : bytes)
| EWrap (pre : bytes) (e : goerror)
| EDecode (what input : bytes).

Inductive result (A : Type) :=
| Ok (a : A)
| Err (e : goerror).
#[global] Arguments Ok {A} _.
#[global] Arguments Err {A} _.

#[export] Instance result_ret : MRet result := @Ok.
#[export] Instance result_bind : MBind result := fun A B f r =>
  match r with Ok a => f a | Err e => Err e end.
#[export] Instance result_fmap : FMap result := fun A B f r =>
  match r with Ok a => Ok (f a) | Err e => Err e end.

(** [if cond { return err }]. *)
Definition check (c : bool) (e : goerror) : result unit := if c then Err e else Ok tt.

(** [fmt.Errorf("pre%w", err)] on the error path. *)
Definition wrap {A} (pre : bytes) (r : result A) : result A :=
  match r with Ok a => Ok a | Err e => Err (EWrap pre e) end.

(** The loop [for i, x := range l { if err := f(i, x) ... }] with an
accumulator. *)
Fixpoint foldM {A B} (f : A -> B -> result A) (acc : A) (l : list B) : result A :=
  match l with
  | [] => Ok acc
  | x :: l => match f acc x with Ok acc => foldM f acc l | Err e => Err e end
  end.

Definition opt_or {A} (o : option A) (e : goerror) : result A :=
  match o with Some a => Ok a | None => Err e end.

Class GoLib := {
  uni_print : Z -> bool;
  decode_text : bytes -> bytes -> bytes
}.

Fixpoint Error {L : GoLib} (e : goerror) : bytes :=
  match e with
  | ENew t => t
  | EWrap pre e => pre ++ Error e
  | EDecode what input => decode_text what input
  end.

(** ** [strconv.Quote] *)

Section quote.
Context {L : GoLib}.

Definition is_print (r : Z) : bool :=
  if r <? 0x80 then (0x20 <=? r) && (r <=? 0x7E) else uni_print r.

Definition hex8 (n : Z) : bytes := hex4 (n / 65536 mod 65536) ++ hex4 (n mod 65536).

Definition quote_rune (r : Z) : bytes :=
  if (r =? 0x22) || (r =? 0x5C) then [x5c; zb r]
  else if is_print r then encode_rune r
  else if r =? 7 then "\a" else if r =? 8 then "\b" else if r =? 12 then "\f"
  else if r =? 10 then "\n" else if r =? 13 then "\r" else if r =? 9 then "\t"
  else if r =? 11 then "\v"
  else if (r <? 0x20) || (r =? 0x7F) then "\x" ++ hex2 r
  else if r <? 0x10000 then "\u" ++ hex4 r
  else "\U" ++ hex8 r.

(** A byte that starts no valid encoding is written in hexadecimal. *)
Fixpoint quote_skip (skip : nat) (s : bytes) : bytes :=
  match s with
  | [] => []
  | c :: t =>
      match skip with
      | S k => quote_skip k t
      | O =>
          let '(r, w) := decode_rune s in
          (if (Nat.eqb w 1) && (r =? rune_error) then "\x" ++ hex2 (bz c) else quote_rune r)
          ++ quote_skip (w - 1) t
      end
  end.

Definition quote (s : bytes) : bytes := [x22] ++ quote_skip 0 s ++ [x22].

End quote.

(** ** Facts *)

Lemma result_bind_ok {A B} (r : result A) (f : A -> result B) b :
  (r ≫= f) = Ok b <-> exists a, r = Ok a /\ f a = Ok b.
Proof.
  destruct r as [a|e]; simpl.
  - split; [by exists a|by intros (? & [= <-] & ?)].
  - split; [done|by intros (? & ? & ?)].
Qed.

Lemma check_ok c e u : check c e = Ok u <-> c = false.
Proof. destruct u. unfold check. by destruct c. Qed.

Lemma wrap_ok {A} pre (r : result A) a : wrap pre r = Ok a <-> r = Ok a.
Proof. by destruct r. Qed.

Lemma opt_or_ok {A} (o : option A) e a : opt_or o e = Ok a <-> o = Some a.
Proof. destruct o; simpl; split; congruence. Qed.

(** An invariant carried through a loop that succeeds. *)
Lemma foldM_inv {A B} (P : A -> list B -> Prop) (f : A -> B -> result A) l acc acc' :
  (forall acc done x, P acc done -> forall acc', f acc x = Ok acc' -> P acc' (done ++ [x])) ->
  P acc [] -> foldM f acc l = Ok acc' -> P acc' l.
Proof.
  intros Hstep. enough (H : forall done acc, P acc done -> foldM f acc l = Ok acc' -> P acc' (done ++ l))
    by apply (H []).
  induction l as [|x l IH]; intros dn a Ha H; simpl in H.
  - injection H as [= <-]. by rewrite app_nil_r.
  - destruct (f a x) as [a1|] eqn:E; [|done].
    rewrite cons_middle, app_assoc. eapply IH; [|exact H]. by eapply Hstep.
Qed.

Lemma foldM_app {A B} (f : A -> B -> result A) l k acc :
  foldM f acc (l ++ k) = match foldM f acc l with Ok a => foldM f a k | Err e => Err e end.
Proof.
  revert acc. induction l as [|x l IH]; intros acc; [done|]. simpl. by destruct (f acc x).
Qed.

(** A library in which every rune prints and decoding errors have one text:
an instance for concrete runs. *)
Definition plain_lib : GoLib := {| uni_print := fun _ => true; decode_text := fun _ _ => "decode error" |}.
