(* ===== verification/Url.v ===== *)
(** * URLs

[net/url.Parse] of Go 1.22, as the configuration and the proxy use it:
scheme, user information, host, path, raw query and fragment of an absolute or
relative reference, with the errors it reports.  The fragment's own encoding
([RawFragment]) is left out: no fragment is ever sent. *)

From S2P Require Export GoErrors.
Local Open Scope Z_scope.
Local Open Scope go_scope.

(** [Userinfo]: the name, and the password if one is set. *)
Record Userinfo := MkUser { username : bytes; password : option bytes }.

Record url := Url {
  Scheme : bytes;
  Opaque : bytes;
  User : option Userinfo;
  Host : bytes;
  UrlPath : bytes;
  RawPath : bytes;
  ForceQuery : bool;
  RawQuery : bytes;
  Fragment : bytes
}.

Definition is_alpha (b : byte) : bool :=
  ((0x61 <=? bz b) && (bz b <=? 0x7A)) || ((0x41 <=? bz b) && (bz b <=? 0x5A)).

Definition one_of (set : bytes) (b : byte) : bool := existsb (Byte.eqb b) set.

(** ** Percent decoding *)

Inductive encoding := EncPath | EncHost | EncZone | EncUserPassword | EncFragment.

#[export] Instance encoding_eq_dec : EqDecision encoding.
Proof. solve_decision. Defined.

(** [shouldEscape] for the host modes, the only ones decoding asks about. *)
Definition should_escape_host (c : byte) : bool :=
  negb (is_alpha c || is_digit c || one_of "!$&'()*+,;=:[]<>" c || Byte.eqb c x22 || one_of "-_.~" c).

Definition hex_pair (a b : byte) : option Z :=
  match hex_val a, hex_val b with Some x, Some y => Some (16 * x + y) | _, _ => None end.

Section parse.
Context {L : GoLib}.

Definition escape_error (s : bytes) : goerror := ENew ("invalid URL escape " ++ quote s).
Definition host_error (s : bytes) : goerror := ENew ("invalid character " ++ quote s ++ " in host name").

Definition host_mode (m : encoding) : bool := bool_decide (m = EncHost) || bool_decide (m = EncZone).

(** One decoded triple, or the error it is. *)
Definition unescape_triple (m : encoding) (a b : byte) : result byte :=
  match hex_pair a b with
  | None => Err (escape_error [x25; a; b])
  | Some v =>
      if bool_decide (m = EncHost) && (default 0 (hex_val a) <? 8) && negb (v =? 0x25)
      then Err (escape_error [x25; a; b])
      else if bool_decide (m = EncZone) && negb (v =? 0x25) && negb (v =? 0x20)
                && should_escape_host (zb v)
      then Err (escape_error [x25; a; b])
      else Ok (zb v)
  end.

Fixpoint unescape (m : encoding) (s : bytes) : result bytes :=
  match s with
  | [] => Ok []
  | c :: t =>
      if Byte.eqb c x25 then
        match t with
        | a :: b :: u =>
            v ← unescape_triple m a b; r ← unescape m u; mret (v :: r)
        | _ => Err (escape_error (c :: t))
        end
      else if host_mode m && is_ascii c && should_escape_host c then Err (host_error [c])
      else r ← unescape m t; mret (c :: r)
  end.

(** ** The parts of a reference *)

(** [getScheme]: [i] counts the bytes read. *)
Fixpoint get_scheme (i : nat) (pre s : bytes) : result (bytes * bytes) :=
  match s with
  | [] => Ok ([], reverse pre)
  | c :: t =>
      if is_alpha c then get_scheme (S i) (c :: pre) t
      else if is_digit c || one_of "+-." c then
        match i with O => Ok ([], reverse pre ++ s) | _ => get_scheme (S i) (c :: pre) t end
      else if Byte.eqb c x3a then
        match i with
        | O => Err (ENew "missing protocol scheme")
        | _ => Ok (reverse pre, t)
        end
      else Ok ([], reverse pre ++ s)
  end.

(** The text before and from the last occurrence of a byte. *)
Definition cut_last (c : byte) (s : bytes) : option (bytes * bytes) :=
  match split_byte c (reverse s) with
  | Some (post, pre) => Some (reverse pre, reverse post)
  | None => None
  end.

Definition valid_optional_port (s : bytes) : bool :=
  match s with [] => true | c :: t => Byte.eqb c x3a && forallb is_digit t end.

Definition port_error (s : bytes) : goerror := ENew ("invalid port " ++ quote s ++ " after host").

Definition parse_host (host : bytes) : result bytes :=
  if has_prefix host "[" then
    match cut_last x5d host with
    | None => Err (ENew "missing ']' in host")
    | Some (lit, port) =>
        if negb (valid_optional_port port) then Err (port_error port)
        else
          let '(h1, zone, found) := cut lit "%25" in
          if found then
            a ← unescape EncHost h1;
            b ← unescape EncZone ("%25" ++ zone);
            c ← unescape EncHost ("]" ++ port);
            mret (a ++ b ++ c)
          else unescape EncHost host
    end
  else
    match cut_last x3a host with
    | Some (_, port) =>
        if negb (valid_optional_port (x3a :: port)) then Err (port_error (x3a :: port))
        else unescape EncHost host
    | None => unescape EncHost host
    end.

Definition valid_userinfo (s : bytes) : bool :=
  forallb (fun c => is_alpha c || is_digit c || one_of "-._:~!$&'()*+,;=%@" c) s.

Definition parse_userinfo (info : bytes) : result Userinfo :=
  if negb (valid_userinfo info) then Err (ENew "net/url: invalid userinfo")
  else
    let '(user, pass, found) := cut info ":" in
    if found then
      user ← unescape EncUserPassword user;
      pass ← unescape EncUserPassword pass;
      mret (MkUser user (Some pass))
    else user ← unescape EncUserPassword info; mret (MkUser user None).

Definition parse_authority (authority : bytes) : result (option Userinfo * bytes) :=
  match cut_last x40 authority with
  | None => h ← parse_host authority; mret (None, h)
  | Some (info, host) => h ← parse_host host; user ← parse_userinfo info; mret (Some user, h)
  end.

(** [escape] for paths. *)
Definition path_byte (c : byte) : bool := is_alpha c || is_digit c || one_of "-_.~$&+,/:;=@" c.

Definition upper_digit (n : Z) : byte := zb (if n <? 10 then 0x30 + n else 0x37 + n).

Definition escape_path (s : bytes) : bytes :=
  concat (map (fun c => if path_byte c then [c] else [x25; upper_digit (bz c / 16); upper_digit (bz c mod 16)]) s).

(** [setPath]: the decoded path, and the text itself when it is not the default
encoding of that path. *)
Definition set_path (p : bytes) : result (bytes * bytes) :=
  path ← unescape EncPath p;
  mret (path, if bool_decide (p = escape_path path) then [] else p).

Definition count_byte (c : byte) (s : bytes) : nat := length (filter (fun b => b = c) s).

(** The query: a lone trailing question mark is not one. *)
Definition cut_query (rest : bytes) : bytes * bool * bytes :=
  if has_suffix rest "?" && Nat.eqb (count_byte x3f rest) 1 then (trim_suffix rest "?", true, [])
  else let '(a, q, _) := cut rest "?" in (a, false, q).

Definition has_ctl (s : bytes) : bool := existsb (fun b => (bz b <? 0x20) || (bz b =? 0x7F)) s.

Definition parse_ref (raw : bytes) : result url :=
  if has_ctl raw then Err (ENew "net/url: invalid control character in URL")
  else if bool_decide (raw = "*") then Ok (Url [] [] None [] "*" [] false [] [])
  else
    '(scheme, rest) ← get_scheme 0 [] raw;
    let scheme := to_lower scheme in
    let '(rest, force, query) := cut_query rest in
    if negb (has_prefix rest "/") && negb (bool_decide (scheme = []))
    then Ok (Url scheme rest None [] [] [] force query [])
    else if negb (has_prefix rest "/") && existsb (Byte.eqb x3a) (fst (fst (cut rest "/")))
    then Err (ENew "first path segment in URL cannot contain colon")
    else if (negb (bool_decide (scheme = [])) || negb (has_prefix rest "///")) && has_prefix rest "//" then
      let body := trim_prefix rest "//" in
      let '(authority, path) :=
        match split_byte x2f body with
        | Some (a, p) => (a, x2f :: p)
        | None => (body, [])
        end in
      '(user, host) ← parse_authority authority;
      '(path, raw_path) ← set_path path;
      mret (Url scheme [] user host path raw_path force query [])
    else
      '(path, raw_path) ← set_path rest;
      mret (Url scheme [] None [] path raw_path force query []).

Definition url_error (raw : bytes) {A} (r : result A) : result A :=
  wrap ("parse " ++ quote raw ++ ": ") r.

(** [url.Parse]. *)
Definition url_parse (raw : bytes) : result url :=
  let '(u, frag, _) := cut raw "#" in
  parsed ← url_error u (parse_ref u);
  if bool_decide (frag = []) then mret parsed
  else
    frag ← url_error raw (unescape EncFragment frag);
    mret (Url (Scheme parsed) (Opaque parsed) (User parsed) (Host parsed) (UrlPath parsed) (RawPath parsed)
            (ForceQuery parsed) (RawQuery parsed) frag).

End parse.
