(* ===== verification/Float64.v ===== *)
(** * float64

Go's [float64] as IEEE 754 binary64, on the Standard Library's floating
point numbers: arithmetic with one rounding per operation
(amd64; other targets may fuse a multiplication and an addition), conversions
to and from integers, and [strconv.ParseFloat].  The second part gives the
facts on signs, order and exact integers the rate limiter relies on. *)

From Stdlib Require Export SpecFloat.
From Stdlib Require PrimFloat FloatOps FloatAxioms Uint63.
From S2P Require Export GoErrors.
Local Open Scope Z_scope.

Abbreviation float64 := PrimFloat.float.

(** The sign, mantissa and exponent of a number, and back. *)
Abbreviation Prim2SF := FloatOps.Prim2SF.
Abbreviation SF2Prim := FloatOps.SF2Prim.

Definition fadd : float64 -> float64 -> float64 := PrimFloat.add.
Definition fsub : float64 -> float64 -> float64 := PrimFloat.sub.
Definition fmul : float64 -> float64 -> float64 := PrimFloat.mul.
Definition fdiv : float64 -> float64 -> float64 := PrimFloat.div.
Definition fltb : float64 -> float64 -> bool := PrimFloat.ltb.
Definition fleb : float64 -> float64 -> bool := PrimFloat.leb.

Definition f_zero : float64 := PrimFloat.zero.
Definition f_one : float64 := PrimFloat.one.

(** [float64(n)]. *)
Definition sf_of_int (n : Z) : spec_float := binary_normalize 53 1024 n 0 false.
Definition f_of_int (n : Z) : float64 := SF2Prim (sf_of_int n).

(** [math.Min]. *)
Definition fmin (x y : float64) : float64 :=
  match Prim2SF x, Prim2SF y with
  | S754_infinity true, _ => x
  | _, S754_infinity true => y
  | S754_nan, _ => x
  | _, S754_nan => y
  | S754_zero s, S754_zero _ => if s then x else y
  | _, _ => if fltb x y then x else y
  end.

(** The integer part of a finite number, towards zero. *)
Definition sf_trunc (x : spec_float) : option Z :=
  match x with
  | S754_zero _ => Some 0
  | S754_finite s m e =>
      let a := if 0 <=? e then Z.shiftl (Zpos m) e else Z.shiftr (Zpos m) (- e) in
      Some (if s then - a else a)
  | _ => None
  end.

(** [math.Ceil]. *)
Definition fceil (x : float64) : float64 :=
  match Prim2SF x with
  | S754_finite s m e =>
      if 0 <=? e then x
      else
        let a := Z.shiftr (Zpos m) (- e) in
        if s then (if a =? 0 then SF2Prim (S754_zero true) else f_of_int (- a))
        else if Z.shiftl a (- e) =? Zpos m then f_of_int a else f_of_int (a + 1)
  | _ => x
  end.

(** [int64(x)]: what an out-of-range conversion gives is up to the
processor. *)
Definition int64_ok (n : Z) : bool := (- 2 ^ 63 <=? n) && (n <? 2 ^ 63).

Class Arch := { conv_oor : float64 -> Z }.

Definition f_to_int {A : Arch} (x : float64) : Z :=
  match sf_trunc (Prim2SF x) with
  | Some n => if int64_ok n then n else conv_oor x
  | None => conv_oor x
  end.

(** ** [strconv.ParseFloat] on a JSON number *)

Fixpoint take_digits (s : bytes) : bytes * bytes :=
  match s with
  | c :: t => if is_digit c then let '(a, b) := take_digits t in (c :: a, b) else ([], s)
  | [] => ([], [])
  end.

(** The exponent stops growing beyond 10000, as in the library. *)
Definition exp_step (e : Z) (c : byte) : Z := if e <? 10000 then e * 10 + (bz c - 0x30) else e.

Definition one_e (c : byte) : bool := Byte.eqb c x65 || Byte.eqb c x45.

Definition parse_exp (s : bytes) : Z :=
  match s with
  | c :: t =>
      if one_e c then
        match t with
        | g :: u =>
            if Byte.eqb g x2d then - fold_left exp_step u 0
            else if Byte.eqb g x2b then fold_left exp_step u 0
            else fold_left exp_step t 0
        | [] => 0
        end
      else 0
  | [] => 0
  end.

(** [sign * mant * 10^e], correctly rounded. *)
Definition sf_of_decimal (sign : bool) (mant e : Z) : spec_float :=
  match mant with
  | Zpos m =>
      match e with
      | Zneg d => SFdiv 53 1024 (S754_finite sign m 0) (S754_finite false (10 ^ d)%positive 0)
      | Z0 => binary_round 53 1024 sign m 0
      | Zpos d => binary_round 53 1024 sign (m * 10 ^ d) 0
      end
  | _ => S754_zero sign
  end.

Definition parse_float (lit : bytes) : option float64 :=
  let '(sign, s) := match lit with c :: t => if Byte.eqb c x2d then (true, t) else (false, lit) | [] => (false, []) end in
  let '(ip, s) := take_digits s in
  let '(fp, s) := match s with c :: t => if Byte.eqb c x2e then take_digits t else ([], s) | [] => ([], []) end in
  match sf_of_decimal sign (udecimal (ip ++ fp)) (parse_exp s - len fp) with
  | S754_infinity _ | S754_nan => None
  | x => Some (SF2Prim x)
  end.

(** ** Exact results

[sf_exact m e] is the number [m * 2^e], for a positive [m] of at most 53
bits, in the representation binary64 uses. *)

Definition pdigits (m : positive) : Z := Zpos (digits2_pos m).

Lemma pdigits_bound m : 2 ^ (pdigits m - 1) <= Zpos m < 2 ^ pdigits m.
Proof.
  unfold pdigits. induction m as [m IH|m IH|]; simpl digits2_pos; [| |done];
    rewrite Pos2Z.inj_succ; replace (Z.succ (Zpos (digits2_pos m)) - 1) with (Zpos (digits2_pos m)) by lia;
    rewrite Z.pow_succ_r by lia;
    replace (2 ^ Zpos (digits2_pos m)) with (2 * 2 ^ (Zpos (digits2_pos m) - 1)) in * by
      (rewrite <- Z.pow_succ_r by lia; f_equal; lia); lia.
Qed.

Lemma pdigits_unique m d : 2 ^ (d - 1) <= Zpos m < 2 ^ d -> pdigits m = d.
Proof.
  intros H. pose proof (pdigits_bound m).
  assert (0 < d) by (destruct (decide (0 < d)); [done|]; assert (2 ^ d <= 1); [|lia];
    apply (Z.pow_le_mono_r 2 d 0); lia).
  destruct (Z.lt_trichotomy (pdigits m) d) as [E|[E|E]]; [|done|].
  - assert (2 ^ pdigits m <= 2 ^ (d - 1)) by (apply Z.pow_le_mono_r; lia). lia.
  - assert (2 ^ d <= 2 ^ (pdigits m - 1)) by (apply Z.pow_le_mono_r; lia). lia.
Qed.

Lemma pdigits_pos m : 0 < pdigits m.
Proof. unfold pdigits. lia. Qed.

Lemma pdigits_iter k m : pdigits (Pos.iter xO m k) = pdigits m + Zpos k.
Proof.
  unfold pdigits. induction k as [|k IH] using Pos.peano_ind; [simpl; lia|].
  rewrite Pos.iter_succ. simpl. lia.
Qed.

Lemma iter_xO k m : Zpos (Pos.iter xO m k) = Zpos m * 2 ^ Zpos k.
Proof.
  induction k as [|k IH] using Pos.peano_ind; [simpl; lia|].
  rewrite Pos.iter_succ, Pos2Z.inj_xO, IH, Pos2Z.inj_succ, Z.pow_succ_r by lia. lia.
Qed.

(** Shifting right undoes shifting left, with nothing lost. *)
Lemma iter_pos_comm {A} (f : A -> A) k x : SpecFloat.iter_pos f k (f x) = f (SpecFloat.iter_pos f k x).
Proof.
  revert x. induction k as [k IH|k IH|]; intros x; simpl; [by rewrite !IH|by rewrite !IH|done].
Qed.

Lemma iter_pos_succ {A} (f : A -> A) k x : SpecFloat.iter_pos f (Pos.succ k) x = f (SpecFloat.iter_pos f k x).
Proof.
  revert x. induction k as [k IH|k IH|]; intros x; simpl; [|by rewrite !iter_pos_comm|done].
  by rewrite !IH, !iter_pos_comm.
Qed.

Lemma shr_iter k m :
  SpecFloat.iter_pos shr_1 k (Build_shr_record (Zpos (Pos.iter xO m k)) false false)
  = Build_shr_record (Zpos m) false false.
Proof.
  induction k as [|k IH] using Pos.peano_ind; [done|].
  rewrite Pos.iter_succ, iter_pos_succ, <- iter_pos_comm. simpl. exact IH.
Qed.

Definition pshl (m : positive) (k : Z) : positive :=
  match k with Zpos p => Pos.iter xO m p | _ => m end.

Lemma pshl_value m k : 0 <= k -> Zpos (pshl m k) = Zpos m * 2 ^ k.
Proof. intros. destruct k as [|k|k]; simpl pshl; [lia|by rewrite iter_xO|lia]. Qed.

Lemma pshl_pshl m a b : 0 <= a -> 0 <= b -> pshl (pshl m a) b = pshl m (a + b).
Proof.
  intros. apply Pos2Z.inj. rewrite !pshl_value, Z.pow_add_r by lia. lia.
Qed.

Lemma pdigits_pshl m k : 0 <= k -> pdigits (pshl m k) = pdigits m + k.
Proof. intros. destruct k as [|k|k]; simpl pshl; [lia|apply pdigits_iter|lia]. Qed.

(** Rounding a mantissa of 53 bits followed by zeros drops the zeros. *)
Lemma round_aux_exact s m e n :
  pdigits m = 53 -> -1074 <= e <= 971 -> 0 <= n ->
  binary_round_aux 53 1024 s (Zpos (pshl m n)) (e - n) loc_Exact = S754_finite s m e.
Proof.
  intros Hd He Hn. unfold binary_round_aux, shr_fexp.
  assert (Hz : forall k, 0 <= k -> fexp 53 1024 (Zdigits2 (Zpos (pshl m k)) + (e - k)) = e).
  { intros k Hk. change (Zdigits2 (Zpos (pshl m k))) with (pdigits (pshl m k)).
    rewrite pdigits_pshl, Hd by done. unfold fexp, emin. lia. }
  rewrite Hz by done. replace (e - (e - n)) with n by lia.
  assert (Hs : shr (shr_record_of_loc (Zpos (pshl m n)) loc_Exact) (e - n) n
               = (Build_shr_record (Zpos m) false false, e)).
  { destruct n as [|n|n]; [simpl; f_equal; lia| |lia]. unfold shr. simpl shr_record_of_loc.
    simpl pshl. rewrite shr_iter. f_equal. lia. }
  rewrite Hs. cbn [shr_m loc_of_shr_record round_nearest_even].
  specialize (Hz 0 ltac:(lia)). simpl pshl in Hz. rewrite Z.sub_0_r in Hz. rewrite Hz, Z.sub_diag.
  cbn. change (1024 - 53) with 971. assert (H9 : (e <=? 971) = true) by lia. by rewrite H9.
Qed.

(** [m * 2^e], written with a mantissa of 53 bits. *)
Definition sf_exact (s : bool) (m : positive) (e : Z) : spec_float :=
  S754_finite s (pshl m (53 - pdigits m)) (pdigits m + e - 53).

Lemma round_exact s m e k :
  pdigits m <= 53 -> -1074 <= pdigits m + e - 53 <= 971 -> 0 <= k ->
  binary_round 53 1024 s (pshl m k) (e - k) = sf_exact s m e.
Proof.
  intros Hd He Hk. unfold binary_round, sf_exact.
  replace (fexp 53 1024 (Zpos (digits2_pos (pshl m k)) + (e - k))) with (pdigits m + e - 53).
  2:{ change (Zpos (digits2_pos (pshl m k))) with (pdigits (pshl m k)).
      rewrite pdigits_pshl by done. unfold fexp, emin. lia. }
  set (E := pdigits m + e - 53) in *. pose proof (pdigits_pos m).
  assert (H53 : pdigits (pshl m (53 - pdigits m)) = 53) by (rewrite pdigits_pshl by lia; lia).
  unfold shl_align. destruct (E - (e - k)) as [|n|n] eqn:En.
  - replace (pshl m k) with (pshl m (53 - pdigits m)) by (f_equal; lia).
    replace (e - k) with (E - 0) by lia. by apply (round_aux_exact s _ E 0).
  - replace (pshl m k) with (pshl (pshl m (53 - pdigits m)) (Zpos n)) by
      (rewrite pshl_pshl by lia; f_equal; lia).
    replace (e - k) with (E - Zpos n) by lia. by apply round_aux_exact.
  - change (Pos.iter xO (pshl m k) n) with (pshl (pshl m k) (Zpos n)).
    rewrite pshl_pshl by lia. replace (k + Zpos n) with (53 - pdigits m) by lia.
    rewrite <- (Z.sub_0_r E) at 1. by apply (round_aux_exact s _ E 0).
Qed.

Lemma sf_exact_valid s m e :
  pdigits m <= 53 -> -1074 <= pdigits m + e - 53 <= 971 ->
  valid_binary 53 1024 (sf_exact s m e) = true.
Proof.
  intros. simpl. unfold bounded, canonical_mantissa.
  change (Zpos (digits2_pos (pshl m (53 - pdigits m)))) with (pdigits (pshl m (53 - pdigits m))).
  rewrite pdigits_pshl by lia. unfold fexp, emin. rewrite andb_true_iff, Z.eqb_eq, Z.leb_le. lia.
Qed.

(** ** Integers *)

Definition exact_int (n : Z) : Prop := 0 <= n < 2 ^ 53.

Lemma exact_int_digits m : exact_int (Zpos m) -> 0 < pdigits m <= 53.
Proof.
  intros [_ H]. pose proof (pdigits_pos m). pose proof (pdigits_bound m). split; [done|].
  apply Z.lt_succ_r, (Z.pow_lt_mono_r_iff 2 _ _); [lia|lia|].
  destruct (decide (53 <= pdigits m - 1)) as [E|E].
  - apply (Z.pow_le_mono_r 2) in E; lia.
  - apply Z.pow_lt_mono_r; lia.
Qed.

Definition sf_int (n : Z) : spec_float :=
  match n with Zpos m => sf_exact false m 0 | Zneg m => sf_exact true m 0 | Z0 => S754_zero false end.

Lemma sf_of_int_exact n : exact_int n -> sf_of_int n = sf_int n.
Proof.
  intros H. destruct n as [|m|m]; [done| |by destruct H]. simpl.
  pose proof (exact_int_digits m H). apply (round_exact false m 0 0); lia.
Qed.

Lemma f_of_int_SF n : exact_int n -> Prim2SF (f_of_int n) = sf_int n.
Proof.
  intros H. unfold f_of_int. rewrite sf_of_int_exact by done. apply FloatAxioms.Prim2SF_SF2Prim.
  destruct n as [|m|m]; [done| |by destruct H]. pose proof (exact_int_digits m H).
  apply sf_exact_valid; lia.
Qed.

(** A difference of integers in the exact range is exact. *)
Lemma fsub_int a b : exact_int a -> exact_int b -> b <= a -> fsub (f_of_int a) (f_of_int b) = f_of_int (a - b).
Proof.
  intros Ha Hb Hle. apply FloatAxioms.Prim2SF_inj. unfold fsub. rewrite FloatAxioms.sub_spec.
  assert (Hab : exact_int (a - b)) by (unfold exact_int in *; lia).
  rewrite !f_of_int_SF by done.
  destruct b as [|q|q]; [rewrite Z.sub_0_r; by destruct a| |by destruct Hb].
  destruct a as [|p|p]; [lia| |by destruct Ha].
  pose proof (exact_int_digits p Ha) as Hp. pose proof (exact_int_digits q Hb) as Hq.
  unfold FloatAxioms.SF64sub. cbn [sf_int]. unfold sf_exact, SFsub.
  set (ez := Z.min (pdigits p + 0 - 53) (pdigits q + 0 - 53)).
  assert (Hal : forall m, 0 < pdigits m <= 53 -> ez <= pdigits m + 0 - 53 ->
    Zpos (fst (shl_align (pshl m (53 - pdigits m)) (pdigits m + 0 - 53) ez)) = Zpos m * 2 ^ (- ez)).
  { intros m Hm Hez. unfold shl_align. destruct (ez - (pdigits m + 0 - 53)) as [|n|n] eqn:En; [|lia|]; simpl fst.
    - rewrite pshl_value by lia. do 2 f_equal. lia.
    - change (Pos.iter xO (pshl m (53 - pdigits m)) n) with (pshl (pshl m (53 - pdigits m)) (Zpos n)).
      rewrite !pshl_value, <- Z.mul_assoc, <- Z.pow_add_r by lia. do 2 f_equal. lia. }
  unfold cond_Zopp. rewrite !Hal by lia. rewrite <- Z.mul_sub_distr_r.
  destruct (Zpos p - Zpos q) as [|m|m] eqn:E; [done| |lia].
  pose proof (exact_int_digits m Hab). rewrite <- pshl_value by lia. simpl binary_normalize.
  replace ez with (0 - - ez) at 2 by lia. apply round_exact; lia.
Qed.

(** ** Signs and order *)

(** The numbers that are not below zero, and are numbers. *)
Definition sf_nonneg (x : spec_float) : bool :=
  match x with
  | S754_zero _ => true
  | S754_infinity s | S754_finite s _ _ => negb s
  | S754_nan => false
  end.

Definition f_nonneg (x : float64) : Prop := fleb f_zero x = true.

Definition f_finite (x : float64) : Prop :=
  match Prim2SF x with S754_zero _ | S754_finite _ _ _ => True | _ => False end.

Lemma f_nonneg_SF x : f_nonneg x <-> sf_nonneg (Prim2SF x) = true.
Proof.
  unfold f_nonneg, fleb. rewrite FloatAxioms.leb_spec.
  change (FloatOps.Prim2SF f_zero) with (S754_zero false).
  by destruct (Prim2SF x) as [s|s| |s m e]; try destruct s.
Qed.

Lemma shr_1_nonneg r : 0 <= shr_m r -> 0 <= shr_m (shr_1 r).
Proof. destruct r as [[|[p|p|]|[p|p|]] ? ?]; simpl; lia. Qed.

Lemma shr_nonneg r e n : 0 <= shr_m r -> 0 <= shr_m (fst (shr r e n)).
Proof.
  intros H. destruct n as [|n|n]; [done| |done]. simpl. revert r H.
  induction n as [n IH|n IH|]; intros r H; simpl; auto using shr_1_nonneg.
Qed.

Lemma round_aux_nonneg m e l : 0 <= m -> sf_nonneg (binary_round_aux 53 1024 false m e l) = true.
Proof.
  intros Hm. unfold binary_round_aux, shr_fexp.
  set (n1 := fexp 53 1024 (Zdigits2 m + e) - e).
  assert (H1 : 0 <= shr_m (fst (shr (shr_record_of_loc m l) e n1))).
  { apply shr_nonneg. by destruct l as [|[]]. }
  destruct (shr (shr_record_of_loc m l) e n1) as [r1 e1]. simpl in H1.
  set (m2 := round_nearest_even (shr_m r1) (loc_of_shr_record r1)).
  assert (H2 : 0 <= m2).
  { unfold m2, round_nearest_even. destruct (loc_of_shr_record r1) as [|[]]; try done; try lia.
    destruct (Z.even (shr_m r1)); lia. }
  set (n2 := fexp 53 1024 (Zdigits2 m2 + e1) - e1).
  pose proof (shr_nonneg (shr_record_of_loc m2 loc_Exact) e1 n2 H2) as H3.
  destruct (shr (shr_record_of_loc m2 loc_Exact) e1 n2) as [r2 e2]. simpl in H3 |- *.
  destruct (shr_m r2) as [|p|p]; [done| |lia]. by case_in_goal.
Qed.

Lemma normalize_nonneg m e : 0 <= m -> sf_nonneg (binary_normalize 53 1024 m e false) = true.
Proof.
  intros H. destruct m as [|m|m]; [done| |lia]. simpl. unfold binary_round.
  destruct (shl_align _ _ _) as [mz ez]. by apply round_aux_nonneg.
Qed.

Lemma fadd_nonneg x y : f_nonneg x -> f_nonneg y -> f_nonneg (fadd x y).
Proof.
  rewrite !f_nonneg_SF. unfold fadd. rewrite FloatAxioms.add_spec. unfold FloatAxioms.SF64add.
  destruct (Prim2SF x) as [[]|[]| |[] m e], (Prim2SF y) as [[]|[]| |[] m' e'];
    intros Hx Hy; try done.
  unfold SFadd. apply normalize_nonneg. unfold cond_Zopp. lia.
Qed.

Lemma fmul_nonneg x y : f_nonneg x -> f_nonneg y -> f_finite x -> f_finite y -> f_nonneg (fmul x y).
Proof.
  rewrite !f_nonneg_SF. unfold f_finite, fmul. rewrite FloatAxioms.mul_spec. unfold FloatAxioms.SF64mul.
  destruct (Prim2SF x) as [[]|[]| |[] m e], (Prim2SF y) as [[]|[]| |[] m' e'];
    intros Hx Hy Fx Fy; try done.
  unfold SFmul. by apply round_aux_nonneg.
Qed.

(** Order on positive finite numbers is order on their values. *)
Lemma bounded_digits m e : bounded 53 1024 m e = true -> -1074 <= e /\ pdigits m <= 53 /\ (-1074 < e -> pdigits m = 53).
Proof.
  unfold bounded, canonical_mantissa, fexp, emin. change (Zpos (digits2_pos m)) with (pdigits m).
  rewrite andb_true_iff, Z.eqb_eq, Z.leb_le. lia.
Qed.

Lemma shl_align_value m e ez : ez <= e -> Zpos (fst (shl_align m e ez)) = Zpos m * 2 ^ (e - ez).
Proof.
  intros H. unfold shl_align. destruct (ez - e) as [|n|n] eqn:E; [|lia|]; simpl fst.
  - replace (e - ez) with 0 by lia. lia.
  - change (Pos.iter xO m n) with (pshl m (Zpos n)). rewrite pshl_value by lia. do 2 f_equal. lia.
Qed.

Lemma finite_le_value m1 e1 m2 e2 :
  bounded 53 1024 m1 e1 = true -> bounded 53 1024 m2 e2 = true ->
  SFleb (S754_finite false m1 e1) (S754_finite false m2 e2) = true ->
  Zpos m1 * 2 ^ (e1 - Z.min e1 e2) <= Zpos m2 * 2 ^ (e2 - Z.min e1 e2).
Proof.
  intros H1%bounded_digits H2%bounded_digits. unfold SFleb, SFcompare.
  destruct (Z.compare_spec e1 e2) as [->|He|He]; [|intros _|done].
  - intros H. rewrite Z.min_id. apply Z.mul_le_mono_nonneg_r; [lia|].
    change (Pos.compare_cont Eq m1 m2) with (Pos.compare m1 m2) in H.
    destruct (Pos.compare_spec m1 m2); [subst|..]; done || lia.
  - rewrite Z.min_l, Z.sub_diag by lia.
    pose proof (pdigits_bound m1) as B1. pose proof (pdigits_bound m2) as B2.
    replace (pdigits m2) with 53 in B2 by (symmetry; apply H2; lia).
    assert (2 ^ pdigits m1 <= 2 ^ 53) by (apply Z.pow_le_mono_r; lia).
    assert (2 ^ 1 <= 2 ^ (e2 - e1)) by (apply Z.pow_le_mono_r; lia). nia.
Qed.

Lemma fsub_nonneg x y : f_nonneg y -> f_finite y -> fleb y x = true -> f_nonneg (fsub x y).
Proof.
  rewrite !f_nonneg_SF. unfold f_finite, fsub, fleb.
  rewrite FloatAxioms.leb_spec, FloatAxioms.sub_spec. unfold FloatAxioms.SF64sub.
  pose proof (FloatAxioms.Prim2SF_valid x) as Vx. pose proof (FloatAxioms.Prim2SF_valid y) as Vy.
  destruct (Prim2SF x) as [[]|[]| |[] m e], (Prim2SF y) as [[]|[]| |[] m' e'];
    intros Hy Fy Hle; try done.
  unfold SFsub. apply normalize_nonneg. unfold cond_Zopp. rewrite !shl_align_value by lia.
  pose proof (finite_le_value _ _ _ _ Vy Vx Hle) as H. rewrite Z.min_comm in H. lia.
Qed.

Lemma fdiv_nonneg x y : f_nonneg x -> f_finite x -> fltb f_zero y = true -> f_nonneg (fdiv x y).
Proof.
  rewrite !f_nonneg_SF. unfold f_finite, fdiv, fltb.
  rewrite FloatAxioms.ltb_spec, FloatAxioms.div_spec. unfold FloatAxioms.SF64div.
  change (FloatOps.Prim2SF f_zero) with (S754_zero false).
  destruct (Prim2SF x) as [[]|[]| |[] m e], (Prim2SF y) as [[]|[]| |[] m' e'];
    intros Hx Fx Hy; try done.
  unfold SFdiv, SFdiv_core_binary. set (m1 := match _ with Zpos _ => _ | _ => _ end).
  assert (Hm1 : 0 <= m1).
  { unfold m1. case_in_goal; [lia| |lia]. apply Z.shiftl_nonneg. lia. }
  pose proof (Z_div_mod m1 (Zpos m') ltac:(lia)) as Hdiv.
  destruct (Z.div_eucl m1 (Zpos m')) as [q r]. destruct Hdiv as [-> Hr].
  apply round_aux_nonneg. nia.
Qed.

(** Comparison is total on numbers. *)
Lemma SFcompare_swap x y : SFcompare y x = CompOpp <$> SFcompare x y.
Proof.
  destruct x as [[]|[]| |[] m e], y as [[]|[]| |[] m' e']; try done; simpl;
    rewrite (Z.compare_antisym e e'); destruct (e ?= e'); try done; simpl;
    change (Pos.compare_cont Eq m' m) with (Pos.compare m' m);
    change (Pos.compare_cont Eq m m') with (Pos.compare m m');
    by rewrite (Pos.compare_antisym m m'); destruct (Pos.compare m m').
Qed.

Lemma SFcompare_refl x : x <> S754_nan -> SFcompare x x = Some Eq.
Proof.
  intros H. destruct x as [[]|[]| |[] m e]; try done; simpl; rewrite Z.compare_refl;
    change (Pos.compare_cont Eq m m) with (Pos.compare m m); by rewrite Pos.compare_refl.
Qed.

Lemma fleb_refl x : f_nonneg x -> fleb x x = true.
Proof.
  rewrite f_nonneg_SF. unfold fleb. rewrite FloatAxioms.leb_spec. unfold SFleb. intros H.
  rewrite SFcompare_refl; [done|]. by intros E; rewrite E in H.
Qed.

Lemma fltb_fleb x y : fltb x y = true -> fleb x y = true.
Proof.
  unfold fltb, fleb. rewrite FloatAxioms.ltb_spec, FloatAxioms.leb_spec. unfold SFltb, SFleb.
  by destruct (SFcompare _ _) as [[]|].
Qed.

(** A number that is not at least [x] is below [x]. *)
Lemma fleb_total x y : f_nonneg x -> f_nonneg y -> fltb x y = false -> fleb y x = true.
Proof.
  rewrite !f_nonneg_SF. unfold fltb, fleb. rewrite FloatAxioms.ltb_spec, FloatAxioms.leb_spec.
  unfold SFltb, SFleb. rewrite (SFcompare_swap (Prim2SF x)).
  destruct (SFcompare (Prim2SF x) (Prim2SF y)) as [[]|] eqn:E; try done.
  destruct (Prim2SF x) as [[]|[]| |[] m e], (Prim2SF y) as [[]|[]| |[] m' e']; done.
Qed.

(** ** The minimum *)

Lemma fmin_nonneg x y : f_nonneg x -> f_nonneg y -> f_nonneg (fmin x y).
Proof.
  intros Hx Hy. unfold fmin.
  destruct (Prim2SF x) as [[]|[]| |[] m e], (Prim2SF y) as [[]|[]| |[] m' e'];
    try done; by destruct (fltb x y).
Qed.

Lemma fmin_le_l x y : f_nonneg x -> f_nonneg y -> fleb (fmin x y) x = true.
Proof.
  intros Hx Hy. pose proof (fleb_refl x Hx) as R. pose proof (fleb_total x y Hx Hy) as T.
  unfold fmin. pose proof Hx as Hx'. pose proof Hy as Hy'. rewrite f_nonneg_SF in Hx', Hy'.
  assert (Hz : forall a b, Prim2SF x = S754_zero a -> Prim2SF y = S754_zero b -> fleb y x = true).
  { intros a b Ea Eb. unfold fleb. rewrite FloatAxioms.leb_spec, Ea, Eb. done. }
  destruct (Prim2SF x) as [[]|[]| |[] m e], (Prim2SF y) as [[]|[]| |[] m' e'];
    try done; eauto; destruct (fltb x y) eqn:E; eauto.
Qed.

(** ** Products, quotients and conversions of positive numbers *)

Definition f_pos (y : float64) : Prop := fltb f_zero y = true /\ f_finite y.

Lemma f_pos_SF y : f_pos y -> exists m e, Prim2SF y = S754_finite false m e.
Proof.
  intros [H F]. unfold fltb in H. rewrite FloatAxioms.ltb_spec in H.
  change (FloatOps.Prim2SF f_zero) with (S754_zero false) in H. unfold f_finite in F.
  destruct (Prim2SF y) as [[]|[]| |[] m e]; try done. by exists m, e.
Qed.

Lemma fmul_nonneg_pos x y : f_nonneg x -> f_pos y -> f_nonneg (fmul x y).
Proof.
  intros Hx (m & e & Hy)%f_pos_SF. rewrite f_nonneg_SF in *. unfold fmul.
  rewrite FloatAxioms.mul_spec. unfold FloatAxioms.SF64mul. rewrite Hy.
  destruct (Prim2SF x) as [[]|[]| |[] m' e']; try done. by apply round_aux_nonneg.
Qed.

Lemma fdiv_nonneg_pos x y : f_nonneg x -> f_pos y -> f_nonneg (fdiv x y).
Proof.
  intros Hx Hy. destruct (f_pos_SF _ Hy) as (m & e & E).
  destruct (Prim2SF x) as [a|a| |a m' e'] eqn:Ex.
  2:{ rewrite f_nonneg_SF in *. unfold fdiv. rewrite FloatAxioms.div_spec. unfold FloatAxioms.SF64div.
      rewrite E. rewrite Ex in *. by destruct a. }
  2:{ rewrite f_nonneg_SF, Ex in Hx. done. }
  all: apply fdiv_nonneg; [done|unfold f_finite; by rewrite Ex|apply Hy].
Qed.

Lemma fleb_finite x y : f_nonneg x -> fleb x y = true -> f_finite y -> f_finite x.
Proof.
  rewrite f_nonneg_SF. unfold fleb, f_finite. rewrite FloatAxioms.leb_spec.
  destruct (Prim2SF x) as [[]|[]| |[] m e], (Prim2SF y) as [[]|[]| |[] m' e']; done.
Qed.

Lemma f_to_int_nonneg {A : Arch} x :
  f_nonneg x ->
  0 <= f_to_int x \/
  (f_to_int x = conv_oor x /\ forall n, sf_trunc (Prim2SF x) = Some n -> 2 ^ 63 <= n).
Proof.
  rewrite f_nonneg_SF. unfold f_to_int. destruct (sf_trunc (Prim2SF x)) as [n|] eqn:E; [|by right].
  intros Hx. assert (0 <= n).
  { destruct (Prim2SF x) as [[]|[]| |[] m e]; try done; injection E as <-; try lia.
    case_in_goal; [apply Z.shiftl_nonneg|apply Z.shiftr_nonneg]; lia. }
  unfold int64_ok. destruct (n <? 2 ^ 63) eqn:Hn; zbool.
  - left. assert ((- 2 ^ 63 <=? n) = true) as -> by lia. done.
  - right. rewrite andb_false_r. split; [done|]. by intros ? [= <-].
Qed.

(** Among exact integers, [1 <= n] is what it says. *)
Lemma one_leb_int n : exact_int n -> fleb (f_of_int 1) (f_of_int n) = (1 <=? n).
Proof.
  intros H. unfold fleb. rewrite FloatAxioms.leb_spec, !f_of_int_SF by (done || by split).
  destruct n as [|m|m]; [done| |by destruct H]. assert ((1 <=? Zpos m) = true) as -> by (by destruct m).
  cbn [sf_int]. unfold sf_exact, SFleb, SFcompare.
  pose proof (exact_int_digits m H). change (pdigits 1) with 1.
  destruct (Z.compare_spec (1 + 0 - 53) (pdigits m + 0 - 53)) as [Hd|Hd|Hd]; [|done|lia].
  assert (m = 1%positive) as ->; [|done].
  pose proof (pdigits_bound m) as B. replace (pdigits m) with 1 in B by lia. lia.
Qed.

(** ** Numbers

A literal is never read as NaN, and of a number that is not NaN the tests
below and above zero tell the truth. *)
Definition f_number (x : float64) : Prop := Prim2SF x <> S754_nan.

Lemma f_nonneg_number x : f_nonneg x -> f_number x.
Proof. rewrite f_nonneg_SF. unfold f_number. by intros H E; rewrite E in H. Qed.

Lemma SF2Prim_number v : v <> S754_nan -> f_number (SF2Prim v).
Proof.
  destruct v as [[]|[]| |s m e]; intros Hv; try done; [by vm_compute..|]. cbn [FloatOps.SF2Prim].
  set (f := PrimFloat.of_uint63 _). assert (Hf : f_nonneg f).
  { rewrite f_nonneg_SF. unfold f. rewrite FloatAxioms.of_uint63_spec. by apply normalize_nonneg, Uint63.to_Z_bounded. }
  assert (H : f_nonneg (FloatOps.Z.ldexp f e)).
  { rewrite f_nonneg_SF in *. unfold FloatOps.Z.ldexp. rewrite FloatAxioms.ldshiftexp_spec.
    destruct (Prim2SF f) as [s'|s'| |[] m' e']; try done. unfold SFldexp. by apply (normalize_nonneg (Zpos m')). }
  destruct s; [|by apply f_nonneg_number]. unfold f_number. rewrite FloatAxioms.opp_spec.
  apply f_nonneg_number in H. unfold f_number in H. by destruct (Prim2SF (FloatOps.Z.ldexp f e)).
Qed.

Lemma parse_float_number lit x : parse_float lit = Some x -> f_number x.
Proof.
  unfold parse_float. destruct (match lit with [] => _ | _ => _ end) as [sign s]. destruct (take_digits s) as [ip s1].
  destruct (match s1 with [] => _ | _ => _ end) as [fp s2]. destruct (sf_of_decimal _ _ _) as [z|z| |z m e] eqn:E; [|done..|];
    intros H; injection H as <-; [by destruct z; vm_compute|].
  by apply (SF2Prim_number (S754_finite z m e)).
Qed.

Lemma f_above_zero x : f_number x -> fleb x f_zero = false <-> fltb f_zero x = true.
Proof.
  unfold f_number, fleb, fltb. rewrite FloatAxioms.leb_spec, FloatAxioms.ltb_spec.
  change (FloatOps.Prim2SF f_zero) with (S754_zero false). by destruct (Prim2SF x) as [[]|[]| |[] m e].
Qed.
