(* ===== verification/Http.v ===== *)
(** * HTTP values

The parts of [net/http] and [io] the gateway handles: canonical header maps,
byte streams that end in EOF or in an error, limited reads, and responses. *)

From S2P Require Export GoErrors.
Local Open Scope Z_scope.
Local Open Scope go_scope.

(** ** Headers *)

Definition to_upper_byte (b : byte) : byte :=
  if (0x61 <=? bz b) && (bz b <=? 0x7A) then zb (bz b - 32) else b.

(** [textproto.CanonicalMIMEHeaderKey] on a valid key. *)
Fixpoint canonical_from (upper : bool) (k : bytes) : bytes :=
  match k with
  | [] => []
  | c :: t => (if upper then to_upper_byte c else to_lower_byte c) :: canonical_from (Byte.eqb c x2d) t
  end.

Definition canonical_key (k : bytes) : bytes := canonical_from true k.

Abbreviation header := (gmap bytes (list bytes)).

Definition h_get (h : header) (k : bytes) : bytes :=
  match h !! canonical_key k with Some (v :: _) => v | _ => [] end.

Definition h_set (h : header) (k v : bytes) : header := <[canonical_key k := [v]]> h.

Definition h_del (h : header) (k : bytes) : header := delete (canonical_key k) h.

Lemma h_get_set h k v : h_get (h_set h k v) k = v.
Proof. unfold h_get, h_set. by rewrite lookup_insert_eq. Qed.

Lemma h_get_set_ne h k k' v : canonical_key k <> canonical_key k' -> h_get (h_set h k v) k' = h_get h k'.
Proof. intros. unfold h_get, h_set. by rewrite lookup_insert_ne. Qed.

Lemma h_get_del_ne h k k' : canonical_key k <> canonical_key k' -> h_get (h_del h k) k' = h_get h k'.
Proof. intros. unfold h_get, h_del. by rewrite lookup_delete_ne. Qed.

Lemma h_get_del h k : h_get (h_del h k) k = [].
Proof. unfold h_get, h_del. by rewrite lookup_delete_eq. Qed.

(** ** Streams *)

(** What a reader yields until it is exhausted, and the error it ends with
([None] is EOF). *)
Record source := Source { src_data : bytes; src_err : option goerror }.

(** [io.Copy(&buf, io.LimitReader(r, n))]: the bytes read, the error, and
what is left in [r]. *)
Definition read_limited (n : Z) (s : source) : bytes * option goerror * source :=
  if n <=? len (src_data s)
  then (take (Z.to_nat n) (src_data s), None, Source (drop (Z.to_nat n) (src_data s)) (src_err s))
  else (src_data s, src_err s, Source [] (src_err s)).

Lemma read_limited_split n s buf e rest :
  read_limited n s = (buf, e, rest) -> src_data s = buf ++ src_data rest /\ src_err rest = src_err s.
Proof.
  unfold read_limited. destruct (n <=? len (src_data s)); intros [= <- <- <-]; simpl.
  - by rewrite take_drop.
  - by rewrite app_nil_r.
Qed.

(** ** Responses *)

(** A response body is read as it is, or through the event-stream rewriter. *)
Inductive body :=
| Plain (s : source)
| Rewritten (s : source).

Record response := MkResponse {
  StatusCode : Z;
  Status : bytes;
  Header : header;
  Body : body;
  ContentLength : Z;
  TransferEncoding : list bytes
}.

Definition with_body (b : body) (r : response) : response :=
  MkResponse (StatusCode r) (Status r) (Header r) b (ContentLength r) (TransferEncoding r).

Definition with_header (h : header) (r : response) : response :=
  MkResponse (StatusCode r) (Status r) h (Body r) (ContentLength r) (TransferEncoding r).

(** [http.StatusText] on the codes the gateway uses. *)
Definition StatusText (code : Z) : bytes :=
  if code =? 200 then "OK" else if code =? 403 then "Forbidden" else [].

(** [http.StatusOK] and the other codes by name. *)
Definition StatusOK : Z := 200.
Definition StatusForbidden : Z := 403.
Definition StatusNotFound : Z := 404.
Definition StatusTooManyRequests : Z := 429.
Definition StatusBadGateway : Z := 502.
