(* ===== verification/Json.v ===== *)
(** * JSON documents

The grammar of JSON as Go's [encoding/json] reads it: a concrete syntax
tree that keeps white space, number literals and string escapes as they
stand in the source, so that a sub-document's original bytes (a
[json.RawMessage]) are its rendering; and the parser, with the theorem that
it accepts exactly the documents of the grammar. *)

From S2P Require Export GoStrings.
Local Open Scope Z_scope.
Local Open Scope go_scope.


(** ** Lexical grammar *)

Definition is_ws (b : byte) : bool :=
  (bz b =? 0x20) || (bz b =? 0x09) || (bz b =? 0x0A) || (bz b =? 0x0D).

Definition all_ws (s : bytes) : bool := forallb is_ws s.

Fixpoint take_ws (s : bytes) : bytes * bytes :=
  match s with
  | [] => ([], [])
  | c :: t => if is_ws c then let '(w, r) := take_ws t in (c :: w, r) else ([], s)
  end.

(** The scanner's states inside a number. *)
Inductive num_state := NStart | NNeg | NZero | NInt | NDot | NFrac | NExp | NSign | NExpDigits.

Definition is_digit19 (b : byte) : bool := (0x31 <=? bz b) && (bz b <=? 0x39).

Definition is_e (b : byte) : bool := (bz b =? 0x65) || (bz b =? 0x45).

Definition num_step (st : num_state) (c : byte) : option num_state :=
  match st with
  | NStart =>
      if bz c =? 0x2D then Some NNeg else if bz c =? 0x30 then Some NZero
      else if is_digit19 c then Some NInt else None
  | NNeg => if bz c =? 0x30 then Some NZero else if is_digit19 c then Some NInt else None
  | NZero => if bz c =? 0x2E then Some NDot else if is_e c then Some NExp else None
  | NInt =>
      if is_digit c then Some NInt else if bz c =? 0x2E then Some NDot
      else if is_e c then Some NExp else None
  | NDot => if is_digit c then Some NFrac else None
  | NFrac => if is_digit c then Some NFrac else if is_e c then Some NExp else None
  | NExp =>
      if (bz c =? 0x2B) || (bz c =? 0x2D) then Some NSign
      else if is_digit c then Some NExpDigits else None
  | NSign | NExpDigits => if is_digit c then Some NExpDigits else None
  end.

Definition num_accept (st : num_state) : bool :=
  match st with NZero | NInt | NFrac | NExpDigits => true | _ => false end.

Fixpoint num_run (st : num_state) (s : bytes) : bool :=
  match s with
  | [] => num_accept st
  | c :: t => match num_step st c with Some st' => num_run st' t | None => false end
  end.

Definition num_ok (s : bytes) : bool := num_run NStart s.

(** The longest number at the head of the text. *)
Fixpoint lex_num (st : num_state) (s : bytes) : option (bytes * bytes) :=
  match s with
  | [] => if num_accept st then Some ([], []) else None
  | c :: t =>
      match num_step st c with
      | Some st' => match lex_num st' t with Some (l, r) => Some (c :: l, r) | None => None end
      | None => if num_accept st then Some ([], s) else None
      end
  end.

(** The scanner's states inside a string: in plain text, after a backslash,
with hexadecimal digits still due. *)
Inductive str_state := SIn | SEsc | SHex (due : nat).

Definition is_escape (c : byte) : bool :=
  existsb (Byte.eqb c) [x22; x5c; x2f; x62; x66; x6e; x72; x74].

Definition str_step (st : str_state) (c : byte) : option str_state :=
  match st with
  | SIn =>
      if Byte.eqb c x22 then None else if Byte.eqb c x5c then Some SEsc
      else if bz c <? 0x20 then None else Some SIn
  | SEsc =>
      if Byte.eqb c x75 then Some (SHex 3) else if is_escape c then Some SIn else None
  | SHex due =>
      if is_hex c then Some (match due with O => SIn | S due => SHex due end) else None
  end.

Fixpoint str_run (st : str_state) (s : bytes) : bool :=
  match s with
  | [] => match st with SIn => true | _ => false end
  | c :: t => match str_step st c with Some st' => str_run st' t | None => false end
  end.

Definition str_ok (s : bytes) : bool := str_run SIn s.

(** The body of a string up to its closing quote, and the text after it. *)
Fixpoint lex_str (st : str_state) (s : bytes) : option (bytes * bytes) :=
  match s with
  | [] => None
  | c :: t =>
      match str_step st c with
      | Some st' => match lex_str st' t with Some (b, r) => Some (c :: b, r) | None => None end
      | None =>
          match st with
          | SIn => if Byte.eqb c x22 then Some ([], t) else None
          | _ => None
          end
      end
  end.

(** ** Syntax trees *)

(** White space around an array element. *)
Record gap := Gap { g_pre : bytes; g_post : bytes }.

(** The key of an object member (its body, escapes not decoded) and the white
space around the member's parts. *)
Record mgap := MGap { m_pre : bytes; m_key : bytes; m_mid : bytes; m_sep : bytes; m_post : bytes }.

Inductive json :=
| JNull
| JTrue
| JFalse
| JNum (lit : bytes)
| JStr (body : bytes)
| JArr (w : bytes) (es : list (gap * json))
| JObj (w : bytes) (ms : list (mgap * json)).

Definition render_elem (r : json -> bytes) (e : gap * json) : bytes :=
  g_pre (fst e) ++ r (snd e) ++ g_post (fst e).

Definition quoted (s : bytes) : bytes := x22 :: s ++ [x22].

Definition render_member (r : json -> bytes) (m : mgap * json) : bytes :=
  m_pre (fst m) ++ quoted (m_key (fst m)) ++ m_mid (fst m) ++ ":" ++
  m_sep (fst m) ++ r (snd m) ++ m_post (fst m).

(** The source text of a tree. *)
Fixpoint render (v : json) : bytes :=
  match v with
  | JNull => "null"
  | JTrue => "true"
  | JFalse => "false"
  | JNum l => l
  | JStr s => quoted s
  | JArr w es => "[" ++ w ++ join "," (map (render_elem render) es) ++ "]"
  | JObj w ms => "{" ++ w ++ join "," (map (render_member render) ms) ++ "}"
  end.

(** The tokens of a tree are well-formed, and the white space of an empty
container is used by empty containers only. *)
Definition gap_ok (g : gap) : bool := all_ws (g_pre g) && all_ws (g_post g).

Definition mgap_ok (m : mgap) : bool :=
  all_ws (m_pre m) && str_ok (m_key m) && all_ws (m_mid m) && all_ws (m_sep m) && all_ws (m_post m).

Definition inner_ok {A} (w : bytes) (l : list A) : bool :=
  match l with [] => all_ws w | _ => bool_decide (w = []) end.

Fixpoint wf (v : json) : bool :=
  match v with
  | JNull | JTrue | JFalse => true
  | JNum l => num_ok l
  | JStr s => str_ok s
  | JArr w es => inner_ok w es && forallb (fun e => gap_ok (fst e) && wf (snd e)) es
  | JObj w ms => inner_ok w ms && forallb (fun m => mgap_ok (fst m) && wf (snd m)) ms
  end.

Definition zmax_list (l : list Z) : Z := fold_right Z.max 0 l.

(** Nesting depth: the containers open at the deepest point. *)
Fixpoint depth (v : json) : Z :=
  match v with
  | JArr _ es => 1 + zmax_list (map (fun e => depth (snd e)) es)
  | JObj _ ms => 1 + zmax_list (map (fun m => depth (snd m)) ms)
  | _ => 0
  end.

(** [encoding/json] refuses deeper documents. *)
Definition max_nesting : Z := 10000.

(** ** The parser

[fuel] bounds the recursion; the length of the text is always enough
([parse_doc_spec]).  [d] is the number of containers already open. *)

Definition parse_literal (s lit : bytes) (v : json) : option (json * bytes) :=
  if has_prefix s lit then Some (v, drop (length lit) s) else None.

Definition expect (c : byte) (s : bytes) : option bytes :=
  match s with x :: r => if Byte.eqb x c then Some r else None | [] => None end.

Fixpoint parse_value (fuel : nat) (d : Z) (s : bytes) : option (json * bytes) :=
  match fuel with
  | O => None
  | S fuel =>
      match s with
      | [] => None
      | c :: t =>
          if Byte.eqb c x5b then
            if max_nesting <? d + 1 then None else
            let '(w, t1) := take_ws t in
            match expect x5d t1 with
            | Some r => Some (JArr w [], r)
            | None => match parse_elems fuel (d + 1) t with
                   | Some (es, r) => Some (JArr [] es, r)
                   | None => None
                   end
            end
          else if Byte.eqb c x7b then
            if max_nesting <? d + 1 then None else
            let '(w, t1) := take_ws t in
            match expect x7d t1 with
            | Some r => Some (JObj w [], r)
            | None => match parse_members fuel (d + 1) t with
                   | Some (ms, r) => Some (JObj [] ms, r)
                   | None => None
                   end
            end
          else if Byte.eqb c x22 then
            match lex_str SIn t with Some (b, r) => Some (JStr b, r) | None => None end
          else if Byte.eqb c x74 then parse_literal s "true" JTrue
          else if Byte.eqb c x66 then parse_literal s "false" JFalse
          else if Byte.eqb c x6e then parse_literal s "null" JNull
          else match lex_num NStart s with Some (l, r) => Some (JNum l, r) | None => None end
      end
  end
with parse_elems (fuel : nat) (d : Z) (s : bytes) : option (list (gap * json) * bytes) :=
  match fuel with
  | O => None
  | S fuel =>
      let '(w1, s1) := take_ws s in
      match parse_value fuel d s1 with
      | None => None
      | Some (v, s2) =>
          let '(w2, s3) := take_ws s2 in
          match s3 with
          | [] => None
          | c :: s4 =>
              if Byte.eqb c x2c then
                match parse_elems fuel d s4 with
                | Some (es, r) => Some ((Gap w1 w2, v) :: es, r)
                | None => None
                end
              else if Byte.eqb c x5d then Some ([(Gap w1 w2, v)], s4) else None
          end
      end
  end
with parse_members (fuel : nat) (d : Z) (s : bytes) : option (list (mgap * json) * bytes) :=
  match fuel with
  | O => None
  | S fuel =>
      let '(w1, s1) := take_ws s in
      match s1 with
      | [] => None
      | q :: s1 =>
          if negb (Byte.eqb q x22) then None else
          match lex_str SIn s1 with
          | None => None
          | Some (k, s2) =>
              let '(w2, s3) := take_ws s2 in
              match s3 with
              | [] => None
              | c :: s4 =>
                  if negb (Byte.eqb c x3a) then None else
                  let '(w3, s5) := take_ws s4 in
                  match parse_value fuel d s5 with
                  | None => None
                  | Some (v, s6) =>
                      let '(w4, s7) := take_ws s6 in
                      match s7 with
                      | [] => None
                      | c2 :: s8 =>
                          if Byte.eqb c2 x2c then
                            match parse_members fuel d s8 with
                            | Some (ms, r) => Some ((MGap w1 k w2 w3 w4, v) :: ms, r)
                            | None => None
                            end
                          else if Byte.eqb c2 x7d then Some ([(MGap w1 k w2 w3 w4, v)], s8)
                          else None
                      end
                  end
              end
          end
      end
  end.

(** One value after white space, as [json.Decoder.Decode] reads it: the value
and the text after it. *)
Definition parse_prefix (s : bytes) : option (json * bytes) :=
  let '(_, s1) := take_ws s in parse_value (S (length s)) 0 s1.

(** A whole document, as [json.Unmarshal] accepts it. *)
Definition parse_doc (s : bytes) : option json :=
  match parse_prefix s with
  | Some (v, r) => if all_ws r then Some v else None
  | None => None
  end.

(** [json.Valid]. *)
Definition json_valid (s : bytes) : bool :=
  match parse_doc s with Some _ => true | None => false end.

(** ** Induction on trees *)

Lemma json_nested_ind (P : json -> Prop) :
  P JNull -> P JTrue -> P JFalse -> (forall l, P (JNum l)) -> (forall s, P (JStr s)) ->
  (forall w es, Forall (fun e => P (snd e)) es -> P (JArr w es)) ->
  (forall w ms, Forall (fun m => P (snd m)) ms -> P (JObj w ms)) ->
  forall v, P v.
Proof.
  intros Hn Ht Hf Hnum Hstr Harr Hobj. fix IH 1. intros [| | |l|s|w es|w ms].
  - apply Hn.
  - apply Ht.
  - apply Hf.
  - apply Hnum.
  - apply Hstr.
  - apply Harr. induction es as [|[g v] es IHes]; constructor; [apply IH|apply IHes].
  - apply Hobj. induction ms as [|[g v] ms IHms]; constructor; [apply IH|apply IHms].
Qed.

(** ** Lexical lemmas *)

Lemma take_ws_spec s w r : take_ws s = (w, r) -> s = w ++ r /\ all_ws w = true.
Proof.
  revert w. induction s as [|c t IH]; intros w; simpl; [by intros [= <- <-]|].
  destruct (is_ws c) eqn:E; [|by intros [= <- <-]].
  destruct (take_ws t) as [w' r'] eqn:Et. intros [= <- <-].
  destruct (IH _ eq_refl) as [-> Hw]. simpl. by rewrite E.
Qed.

Definition no_ws (s : bytes) : bool :=
  match s with [] => true | c :: _ => negb (is_ws c) end.

Lemma take_ws_no_ws s : no_ws s = true -> take_ws s = ([], s).
Proof. destruct s as [|c t]; [done|]. simpl. by intros ->%negb_true_iff. Qed.

Lemma take_ws_app w s : all_ws w = true -> no_ws s = true -> take_ws (w ++ s) = (w, s).
Proof.
  intros Hw Hs. induction w as [|c w IH]; simpl in *; [by apply take_ws_no_ws|].
  apply andb_true_iff in Hw as [-> Hw]. by rewrite IH.
Qed.

Lemma take_ws_rest_no_ws s w r : take_ws s = (w, r) -> no_ws r = true.
Proof.
  revert w r. induction s as [|c t IH]; intros w r; simpl; [by intros [= <- <-]|].
  destruct (is_ws c) eqn:E.
  - destruct (take_ws t) as [w' r'] eqn:Et. intros [= <- <-]. by eapply IH.
  - intros [= <- <-]. simpl. by rewrite E.
Qed.

Lemma all_ws_app a b : all_ws (a ++ b) = all_ws a && all_ws b.
Proof. apply forallb_app. Qed.

Lemma lex_num_sound st s l r : lex_num st s = Some (l, r) -> s = l ++ r /\ num_run st l = true.
Proof.
  revert st l. induction s as [|c t IH]; intros st l; simpl.
  - destruct (num_accept st) eqn:E; [|done]. by intros [= <- <-].
  - destruct (num_step st c) as [st'|] eqn:E.
    + destruct (lex_num st' t) as [[l' r']|] eqn:El; [|done]. intros [= <- <-].
      destruct (IH _ _ El) as [-> H]. simpl. by rewrite E.
    + destruct (num_accept st) eqn:Ea; [|done]. by intros [= <- <-].
Qed.

(** What may follow a number: no byte that could extend one. *)
Definition is_num_byte (c : byte) : bool :=
  is_digit c || is_e c || (bz c =? 0x2E) || (bz c =? 0x2B) || (bz c =? 0x2D).

Definition num_stop (s : bytes) : bool :=
  match s with [] => true | c :: _ => negb (is_num_byte c) end.

Lemma not_digit c : is_digit c = false -> is_digit19 c = false /\ (bz c =? 0x30) = false.
Proof.
  unfold is_digit, is_digit19. rewrite !andb_false_iff, !Z.leb_gt, Z.eqb_neq. lia.
Qed.

Lemma num_step_stop st c : is_num_byte c = false -> num_step st c = None.
Proof.
  unfold is_num_byte. intros H. zbool.
  assert (Hd : is_digit19 c = false /\ (bz c =? 0x30) = false) by by apply not_digit.
  destruct Hd as [Hd Hz].
  assert ((bz c =? 0x2E) = false /\ (bz c =? 0x2B) = false /\ (bz c =? 0x2D) = false)
    as (Hdot & Hplus & Hminus) by (rewrite !Z.eqb_neq; auto).
  destruct st; simpl; rewrite ?Hd, ?Hz, ?Hdot, ?Hplus, ?Hminus;
    repeat match goal with H : _ = false |- _ => rewrite H; clear H end; done.
Qed.

Lemma lex_num_complete st l r :
  num_run st l = true -> num_stop r = true -> lex_num st (l ++ r) = Some (l, r).
Proof.
  revert st. induction l as [|c l IH]; intros st Hl Hr; simpl in *.
  - destruct r as [|c r]; simpl in *; rewrite Hl; [done|].
    apply negb_true_iff in Hr. by rewrite (num_step_stop st c Hr).
  - destruct (num_step st c) as [st'|]; [|done]. by rewrite IH.
Qed.

Lemma lex_str_sound st s b r :
  lex_str st s = Some (b, r) -> s = b ++ x22 :: r /\ str_run st b = true.
Proof.
  revert st b. induction s as [|c t IH]; intros st b; simpl; [done|].
  destruct (str_step st c) as [st'|] eqn:E.
  - destruct (lex_str st' t) as [[b' r']|] eqn:El; [|done]. intros [= <- <-].
    destruct (IH _ _ El) as [-> H]. simpl. by rewrite E.
  - destruct st; try done. destruct (Byte.eqb c x22) eqn:Eq; [|done].
    intros [= <- <-]. by apply byte_eqb_eq in Eq as ->.
Qed.

Lemma lex_str_complete st b r :
  str_run st b = true -> lex_str st (b ++ x22 :: r) = Some (b, r).
Proof.
  revert st. induction b as [|c b IH]; intros st H; simpl in *.
  - destruct st; [|done..]. done.
  - destruct (str_step st c) as [st'|]; [|done]. by rewrite IH.
Qed.

(** ** The parser is sound *)

Definition elems_text (es : list (gap * json)) : bytes :=
  join "," (map (render_elem render) es).

Definition members_text (ms : list (mgap * json)) : bytes :=
  join "," (map (render_member render) ms).

Definition elem_ok (e : gap * json) : bool := gap_ok (fst e) && wf (snd e).
Definition member_ok (m : mgap * json) : bool := mgap_ok (fst m) && wf (snd m).

Definition value_sound (n : nat) : Prop := forall d s v r,
  d <= max_nesting -> parse_value n d s = Some (v, r) ->
  s = render v ++ r /\ wf v = true /\ d + depth v <= max_nesting.

Definition elems_sound (n : nat) : Prop := forall d s es r,
  d <= max_nesting -> parse_elems n d s = Some (es, r) ->
  s = elems_text es ++ x5d :: r /\ es <> [] /\ forallb elem_ok es = true /\
  d + zmax_list (map (fun e => depth (snd e)) es) <= max_nesting.

Definition members_sound (n : nat) : Prop := forall d s ms r,
  d <= max_nesting -> parse_members n d s = Some (ms, r) ->
  s = members_text ms ++ x7d :: r /\ ms <> [] /\ forallb member_ok ms = true /\
  d + zmax_list (map (fun m => depth (snd m)) ms) <= max_nesting.

Lemma depth_nonneg v : 0 <= depth v.
Proof.
  assert (H : forall l : list Z, 0 <= zmax_list l) by (induction l; simpl; lia).
  destruct v; simpl; try lia; match goal with |- context [zmax_list ?l] => specialize (H l) end; lia.
Qed.

Lemma parse_literal_spec s l v w r :
  parse_literal s l v = Some (w, r) -> w = v /\ s = l ++ r.
Proof.
  unfold parse_literal. destruct (has_prefix s l) eqn:E; [|done]. intros [= <- <-].
  apply has_prefix_spec in E as [t ->]. by rewrite drop_app_length.
Qed.

Lemma expect_Some c s r : expect c s = Some r -> s = c :: r.
Proof.
  destruct s as [|x s]; [done|]. simpl. destruct (Byte.eqb x c) eqn:E; [|done].
  apply byte_eqb_eq in E as ->. by intros [= ->].
Qed.

Lemma elems_text_cons e es :
  es <> [] -> elems_text (e :: es) = render_elem render e ++ "," ++ elems_text es.
Proof. intros. unfold elems_text. simpl map. apply join_cons. by destruct es. Qed.

Lemma members_text_cons m ms :
  ms <> [] -> members_text (m :: ms) = render_member render m ++ "," ++ members_text ms.
Proof. intros. unfold members_text. simpl map. apply join_cons. by destruct ms. Qed.

Ltac eqb_subst :=
  repeat match goal with
  | H : Byte.eqb _ _ = true |- _ => apply byte_eqb_eq in H; subst
  | H : negb (Byte.eqb _ _) = false |- _ => apply negb_false_iff in H
  | H : take_ws _ = _ |- _ => apply take_ws_spec in H as [-> ?]
  | H : lex_str _ _ = Some _ |- _ => apply lex_str_sound in H as [-> ?]
  end.

Lemma parse_elems_sound n : value_sound n -> elems_sound n -> elems_sound (S n).
Proof.
  intros IHv IHe d s es r Hd. simpl.
  destruct (take_ws s) as [w1 s1] eqn:E1.
  destruct (parse_value n d s1) as [[v s2]|] eqn:Ev; [|done].
  destruct (take_ws s2) as [w2 s3] eqn:E2.
  destruct s3 as [|c s4]; [done|].
  apply IHv in Ev as (-> & Hwf & Hdep); [|done].
  assert (Hok : all_ws w1 = true -> all_ws w2 = true -> elem_ok (Gap w1 w2, v) = true).
  { intros Ha Hb. unfold elem_ok, gap_ok. simpl. by rewrite Ha, Hb, Hwf. }
  destruct (Byte.eqb c x2c) eqn:Ec.
  - destruct (parse_elems n d s4) as [[es' r']|] eqn:Ee; [|done]. intros [= <- <-].
    apply IHe in Ee as (-> & Hne & Hes & Hdep'); [|done]. eqb_subst.
    rewrite elems_text_cons by done. unfold render_elem. simpl.
    rewrite Hok by done.
    split_and!; [by rewrite <- !app_assoc|done|done|lia].
  - destruct (Byte.eqb c x5d) eqn:Ec2; [|done]. intros [= <- <-]. eqb_subst.
    unfold elems_text, render_elem. simpl. rewrite Hok by done.
    pose proof (depth_nonneg v). split_and!; [by rewrite <- !app_assoc|done|done|lia].
Qed.

Lemma parse_members_sound n : value_sound n -> members_sound n -> members_sound (S n).
Proof.
  intros IHv IHm d s ms r Hd. simpl.
  destruct (take_ws s) as [w1 s1] eqn:E1. destruct s1 as [|q s1]; [done|].
  destruct (negb (Byte.eqb q x22)) eqn:Eq; [done|].
  destruct (lex_str SIn s1) as [[k s2]|] eqn:Ek; [|done].
  destruct (take_ws s2) as [w2 s3] eqn:E2. destruct s3 as [|c s4]; [done|].
  destruct (negb (Byte.eqb c x3a)) eqn:Ec; [done|].
  destruct (take_ws s4) as [w3 s5] eqn:E3.
  destruct (parse_value n d s5) as [[v s6]|] eqn:Ev; [|done].
  destruct (take_ws s6) as [w4 s7] eqn:E4. destruct s7 as [|c2 s8]; [done|].
  apply IHv in Ev as (-> & Hwf & Hdep); [|done].
  assert (Hok : all_ws w1 = true -> all_ws w2 = true -> all_ws w3 = true -> all_ws w4 = true ->
    str_ok k = true -> member_ok (MGap w1 k w2 w3 w4, v) = true).
  { intros Ha Hb Hc' Hd' Hk. unfold member_ok, mgap_ok. simpl. by rewrite Ha, Hb, Hc', Hd', Hk, Hwf. }
  destruct (Byte.eqb c2 x2c) eqn:Ec2.
  - destruct (parse_members n d s8) as [[ms' r']|] eqn:Em; [|done]. intros [= <- <-].
    apply IHm in Em as (-> & Hne & Hms & Hdep'); [|done]. eqb_subst.
    rewrite members_text_cons by done. unfold render_member, quoted. simpl.
    rewrite Hok by done.
    split_and!; [by repeat (rewrite <- !app_assoc; simpl)|done|done|lia].
  - destruct (Byte.eqb c2 x7d) eqn:Ec3; [|done]. intros [= <- <-]. eqb_subst.
    unfold members_text, render_member, quoted. simpl. rewrite Hok by done.
    pose proof (depth_nonneg v).
    split_and!; [by repeat (rewrite <- !app_assoc; simpl)|done|done|lia].
Qed.

Lemma parse_value_sound n : elems_sound n -> members_sound n -> value_sound (S n).
Proof.
  intros IHe IHm d s v r Hd. simpl. destruct s as [|c t]; [done|].
  destruct (Byte.eqb c x5b) eqn:E1.
  { destruct (max_nesting <? d + 1) eqn:Ed; [done|]. zbool.
    destruct (take_ws t) as [w t1] eqn:Ew. destruct (expect x5d t1) as [r'|] eqn:Ex.
    - intros [= <- <-]. apply expect_Some in Ex. eqb_subst. cbn [render wf depth].
      split_and!; [by rewrite <- !app_assoc|simpl; by rewrite andb_true_r|simpl; lia].
    - destruct (parse_elems n (d + 1) t) as [[es r']|] eqn:Ee; [|done]. intros [= <- <-].
      apply IHe in Ee as (-> & Hne & Hes & Hdep); [|lia]. clear Ew Ex. eqb_subst. cbn [render wf depth].
      fold (elems_text es). split_and!; [by rewrite <- !app_assoc|by destruct es|lia]. }
  destruct (Byte.eqb c x7b) eqn:E2.
  { destruct (max_nesting <? d + 1) eqn:Ed; [done|]. zbool.
    destruct (take_ws t) as [w t1] eqn:Ew. destruct (expect x7d t1) as [r'|] eqn:Ex.
    - intros [= <- <-]. apply expect_Some in Ex. eqb_subst. cbn [render wf depth].
      split_and!; [by rewrite <- !app_assoc|simpl; by rewrite andb_true_r|simpl; lia].
    - destruct (parse_members n (d + 1) t) as [[ms r']|] eqn:Em; [|done]. intros [= <- <-].
      apply IHm in Em as (-> & Hne & Hms & Hdep); [|lia]. clear Ew Ex. eqb_subst. cbn [render wf depth].
      fold (members_text ms). split_and!; [by rewrite <- !app_assoc|by destruct ms|lia]. }
  destruct (Byte.eqb c x22) eqn:E3.
  { destruct (lex_str SIn t) as [[b r']|] eqn:El; [|done]. intros [= <- <-]. eqb_subst.
    simpl. rewrite <- app_assoc. repeat split; [done|]. lia. }
  destruct (Byte.eqb c x74) eqn:E4.
  { intros [-> ->]%parse_literal_spec. repeat split. simpl. lia. }
  destruct (Byte.eqb c x66) eqn:E5.
  { intros [-> ->]%parse_literal_spec. repeat split. simpl. lia. }
  destruct (Byte.eqb c x6e) eqn:E6.
  { intros [-> ->]%parse_literal_spec. repeat split. simpl. lia. }
  destruct (lex_num NStart (c :: t)) as [[l r']|] eqn:En; [|done]. intros [= <- <-].
  apply lex_num_sound in En as [-> Hl]. repeat split; [done|]. simpl. lia.
Qed.

Lemma parser_sound n : value_sound n /\ elems_sound n /\ members_sound n.
Proof.
  induction n as [|n (IHv & IHe & IHm)]; [split_and!; by intros ????? [=]|].
  split_and!; [by apply parse_value_sound|by apply parse_elems_sound|by apply parse_members_sound].
Qed.

(** ** The parser is complete *)

Definition value_complete (n : nat) : Prop := forall d v r,
  wf v = true -> d + depth v <= max_nesting -> num_stop r = true ->
  (length (render v) <= n)%nat -> parse_value n d (render v ++ r) = Some (v, r).

Definition elems_complete (n : nat) : Prop := forall d es r,
  es <> [] -> forallb elem_ok es = true ->
  d + zmax_list (map (fun e => depth (snd e)) es) <= max_nesting ->
  (length (elems_text es) + 1 <= n)%nat ->
  parse_elems n d (elems_text es ++ x5d :: r) = Some (es, r).

Definition members_complete (n : nat) : Prop := forall d ms r,
  ms <> [] -> forallb member_ok ms = true ->
  d + zmax_list (map (fun m => depth (snd m)) ms) <= max_nesting ->
  (length (members_text ms) + 1 <= n)%nat ->
  parse_members n d (members_text ms ++ x7d :: r) = Some (ms, r).

(** A number starts with a digit or a minus sign. *)
Lemma num_ok_head l :
  num_ok l = true -> exists c t, l = c :: t /\ (bz c = 0x2D \/ 0x30 <= bz c <= 0x39).
Proof.
  unfold num_ok. destruct l as [|c t]; [done|]. simpl. intros H. exists c, t. split; [done|].
  unfold is_digit19 in H. repeat (case_match; zbool; [|]); try done; lia.
Qed.

(** A value starts with a byte that is neither white space nor the end of a
container. *)
Lemma render_head v : wf v = true -> exists c t, render v = c :: t /\ is_ws c = false /\
  c <> x5d /\ c <> x7d.
Proof.
  destruct v; simpl; intros H; try by eexists _, _.
  apply num_ok_head in H as (c & t & -> & Hc). exists c, t. split_and!; [done| |by intros ->; vm_compute in Hc; destruct Hc as [?|[? ?]]..].
  unfold is_ws. decide_ranges. done.
Qed.

Lemma render_no_ws v r : wf v = true -> no_ws (render v ++ r) = true.
Proof. intros H. apply render_head in H as (c & t & -> & Hc & _). simpl. by rewrite Hc. Qed.

Lemma all_ws_num_stop w r : all_ws w = true -> num_stop r = true -> num_stop (w ++ r) = true.
Proof.
  destruct w as [|c w]; [done|]. simpl. intros [Hc _]%andb_true_iff _.
  unfold is_ws in Hc. rewrite !orb_true_iff, !Z.eqb_eq in Hc.
  unfold is_num_byte, is_digit, is_e.
  destruct Hc as [[[E|E]|E]|E]; rewrite E; done.
Qed.

Lemma parse_num_complete n d l r :
  num_ok l = true -> num_stop r = true ->
  parse_value (S n) d (l ++ r) = Some (JNum l, r).
Proof.
  intros Hl Hr. pose proof (num_ok_head _ Hl) as (c & t & -> & Hc). simpl app.
  assert (Hne : forall b, (bz b < 0x2D \/ 0x39 < bz b) -> Byte.eqb c b = false).
  { intros b Hb. apply byte_eqb_neq. intros ->. lia. }
  cbn [parse_value]. rewrite !Hne by (vm_compute; auto).
  change (c :: t ++ r) with ((c :: t) ++ r). by rewrite lex_num_complete.
Qed.

Ltac list_norm :=
  cbn [app fst snd g_pre g_post m_pre m_key m_mid m_sep m_post];
  repeat (rewrite <- !app_assoc; cbn [app]).

Lemma no_ws_sep c r : is_ws c = false -> no_ws (c :: r) = true.
Proof. simpl. by intros ->. Qed.

(** One element (or member value) with the separator after it. *)
Lemma parse_spaced n d pre v post c r :
  value_complete n -> wf v = true -> d + depth v <= max_nesting ->
  all_ws pre = true -> all_ws post = true -> is_ws c = false -> is_num_byte c = false ->
  (length (render v) <= n)%nat ->
  take_ws (pre ++ render v ++ post ++ c :: r) = (pre, render v ++ post ++ c :: r) /\
  parse_value n d (render v ++ post ++ c :: r) = Some (v, post ++ c :: r) /\
  take_ws (post ++ c :: r) = (post, c :: r).
Proof.
  intros IH Hwf Hdep Hpre Hpost Hws Hnum Hlen. split_and!.
  - apply take_ws_app; [done|]. by apply render_no_ws.
  - apply IH; try done. apply all_ws_num_stop; [done|]. simpl. by rewrite Hnum.
  - apply take_ws_app; [done|]. by apply no_ws_sep.
Qed.

Lemma parse_elems_complete n : value_complete n -> elems_complete n -> elems_complete (S n).
Proof.
  intros IHv IHe d [|[[pre post] v] es] r; [done|]. intros _ Hok Hdep Hlen.
  simpl in Hok. apply andb_true_iff in Hok as [He Hes].
  unfold elem_ok, gap_ok in He. simpl in He. zbool. simpl in Hdep.
  assert (Hz : 0 <= zmax_list (map (fun e : gap * json => depth (snd e)) es)).
  { clear. induction es; simpl; [done|lia]. }
  destruct (decide (es = [])) as [->|Hne].
  - unfold elems_text, render_elem in *. simpl in *. rewrite !length_app in Hlen. list_norm.
    destruct (parse_spaced n d pre v post x5d r) as (E1 & E2 & E3); try done; [lia..|].
    cbn [parse_elems]. by rewrite E1, E2, E3.
  - rewrite elems_text_cons in * by done. unfold render_elem in *. simpl fst in *. simpl snd in *.
    rewrite !length_app in Hlen. simpl in Hlen. list_norm.
    destruct (parse_spaced n d pre v post x2c (elems_text es ++ x5d :: r)) as (E1 & E2 & E3);
      try done; [lia..|].
    cbn [parse_elems]. rewrite E1, E2, E3. simpl.
    rewrite (IHe d es r); [done|done|done|lia|lia].
Qed.

Lemma parse_members_complete n : value_complete n -> members_complete n -> members_complete (S n).
Proof.
  intros IHv IHm d [|[[pre k mid sep post] v] ms] r; [done|]. intros _ Hok Hdep Hlen.
  simpl in Hok. apply andb_true_iff in Hok as [Hm Hms].
  unfold member_ok, mgap_ok in Hm. simpl in Hm. zbool. simpl in Hdep.
  assert (Hz : 0 <= zmax_list (map (fun m : mgap * json => depth (snd m)) ms)).
  { clear. induction ms; simpl; [done|lia]. }
  assert (Hkey : forall t, take_ws (pre ++ x22 :: k ++ x22 :: t) = (pre, x22 :: k ++ x22 :: t) /\
    lex_str SIn (k ++ x22 :: t) = Some (k, t)).
  { intros t. split; [by apply take_ws_app|]. by apply lex_str_complete. }
  assert (Hmid : forall t, take_ws (mid ++ x3a :: t) = (mid, x3a :: t)) by (intros; by apply take_ws_app).
  destruct (decide (ms = [])) as [->|Hne].
  - unfold members_text, render_member, quoted in *. simpl in *.
    repeat (rewrite ?length_app in Hlen; simpl in Hlen). list_norm.
    destruct (parse_spaced n d sep v post x7d r) as (E1 & E2 & E3); try done; [lia..|].
    cbn [parse_members]. destruct (Hkey (mid ++ x3a :: sep ++ render v ++ post ++ x7d :: r)) as [-> E].
    simpl. by rewrite E, Hmid, E1, E2, E3.
  - rewrite members_text_cons in * by done. unfold render_member, quoted in *.
    simpl in *. repeat (rewrite ?length_app in Hlen; simpl in Hlen). list_norm.
    destruct (parse_spaced n d sep v post x2c (members_text ms ++ x7d :: r)) as (E1 & E2 & E3);
      try done; [lia..|].
    cbn [parse_members].
    destruct (Hkey (mid ++ x3a :: sep ++ render v ++ post ++ x2c :: members_text ms ++ x7d :: r)) as [-> E].
    simpl. rewrite E, Hmid. simpl. rewrite E1, E2, E3. simpl.
    rewrite (IHm d ms r); [done|done|done|lia|lia].
Qed.

Lemma elems_text_head es : es <> [] -> forallb elem_ok es = true ->
  exists w c t, all_ws w = true /\ elems_text es = w ++ c :: t /\ is_ws c = false /\ c <> x5d.
Proof.
  destruct es as [|[[pre post] v] es]; [done|]. intros _. simpl. intros [He _]%andb_true_iff.
  unfold elem_ok, gap_ok in He. simpl in He. zbool.
  destruct (render_head v) as (c & t & E & Hc & Hn & _); [done|].
  exists pre, c. unfold elems_text. destruct es as [|e es]; simpl.
  - unfold render_elem. simpl. rewrite E. eexists. split_and!; [done|by list_norm|done|done].
  - unfold render_elem at 1. simpl. rewrite E. eexists. split_and!; [done|by list_norm|done|done].
Qed.

Lemma members_text_head ms : ms <> [] -> forallb member_ok ms = true ->
  exists w t, all_ws w = true /\ members_text ms = w ++ x22 :: t.
Proof.
  destruct ms as [|[[pre k mid sep post] v] ms]; [done|]. intros _. simpl. intros [Hm _]%andb_true_iff.
  unfold member_ok, mgap_ok in Hm. simpl in Hm. zbool.
  exists pre. unfold members_text. destruct ms as [|m ms]; simpl;
    unfold render_member at 1, quoted; simpl; eexists; (split; [done|by list_norm]).
Qed.

Lemma parse_value_complete n :
  (forall m, (m < S n)%nat -> elems_complete m /\ members_complete m) -> value_complete (S n).
Proof.
  intros IH d v r Hwf Hdep Hr Hlen. destruct (IH n) as [IHe IHm]; [lia|].
  destruct v as [| | |l|s|w es|w ms]; simpl in Hwf; try done.
  - by apply parse_num_complete.
  - simpl render. unfold quoted. list_norm. cbn [parse_value]. simpl.
    by rewrite lex_str_complete.
  - apply andb_true_iff in Hwf as [Hw Hes]. cbn [render depth] in *.
    fold (elems_text es) in *. fold elem_ok in Hes.
    assert (Hd : (max_nesting <? d + 1) = false).
    { apply Z.ltb_ge. pose proof (depth_nonneg (JArr w es)) as H. cbn [depth] in H.
      assert (0 <= zmax_list (map (fun e : gap * json => depth (snd e)) es)); [|lia].
      clear. induction es; simpl; [done|lia]. }
    rewrite !length_app in Hlen. list_norm. cbn [parse_value]. simpl. rewrite Hd.
    destruct (decide (es = [])) as [->|Hne].
    + simpl in *. rewrite take_ws_app by done. simpl. done.
    + assert (w = []) as -> by (destruct es; [done|]; by apply bool_decide_eq_true in Hw).
      destruct (elems_text_head es) as (w & c & t & Hws & E & Hc & Hc5); [done..|].
      simpl. rewrite E. list_norm. rewrite take_ws_app by (done || simpl; by rewrite Hc).
      simpl. assert (Byte.eqb c x5d = false) as -> by by apply byte_eqb_neq.
      replace (w ++ c :: t ++ x5d :: r) with (elems_text es ++ x5d :: r)
        by (rewrite E; by list_norm).
      rewrite (IHe (d + 1) es r); [done|done|done|lia|simpl in Hlen; lia].
  - apply andb_true_iff in Hwf as [Hw Hms]. cbn [render depth] in *.
    fold (members_text ms) in *. fold member_ok in Hms.
    assert (Hd : (max_nesting <? d + 1) = false).
    { apply Z.ltb_ge.
      assert (0 <= zmax_list (map (fun e : mgap * json => depth (snd e)) ms)); [|lia].
      clear. induction ms; simpl; [done|lia]. }
    rewrite !length_app in Hlen. list_norm. cbn [parse_value]. simpl. rewrite Hd.
    destruct (decide (ms = [])) as [->|Hne].
    + simpl in *. rewrite take_ws_app by done. simpl. done.
    + assert (w = []) as -> by (destruct ms; [done|]; by apply bool_decide_eq_true in Hw).
      destruct (members_text_head ms) as (w & t & Hws & E); [done..|].
      simpl. rewrite E. list_norm. rewrite take_ws_app by done.
      simpl. replace (w ++ x22 :: t ++ x7d :: r) with (members_text ms ++ x7d :: r)
        by (rewrite E; by list_norm).
      rewrite (IHm (d + 1) ms r); [done|done|done|lia|simpl in Hlen; lia].
Qed.

Lemma parser_complete n : value_complete n /\ elems_complete n /\ members_complete n.
Proof.
  induction n as [n IH] using lt_wf_ind. destruct n as [|n].
  - split_and!.
    + intros d v r Hwf _ _ Hlen. apply render_head in Hwf as (c & t & E & _).
      rewrite E in Hlen. simpl in Hlen. lia.
    + intros d es r _ _ _ Hlen. lia.
    + intros d ms r _ _ _ Hlen. lia.
  - destruct (IH n) as (IHv & IHe & IHm); [lia|]. split_and!.
    + apply parse_value_complete. intros m Hm. by apply IH.
    + by apply parse_elems_complete.
    + by apply parse_members_complete.
Qed.

(** ** The accepted documents *)

(** What [json.Unmarshal] accepts: well-formed and not too deep. *)
Definition good (v : json) : Prop := wf v = true /\ depth v <= max_nesting.

Definition document (s : bytes) (v : json) : Prop :=
  exists w1 w2, all_ws w1 = true /\ all_ws w2 = true /\ s = w1 ++ render v ++ w2 /\ good v.

Lemma all_ws_stop w : all_ws w = true -> num_stop w = true.
Proof. intros H. rewrite <- (app_nil_r w). by apply all_ws_num_stop. Qed.

Lemma parse_prefix_complete w v r :
  all_ws w = true -> good v -> num_stop r = true -> parse_prefix (w ++ render v ++ r) = Some (v, r).
Proof.
  intros Hw [Hwf Hd] Hr. unfold parse_prefix.
  rewrite take_ws_app by (done || by apply render_no_ws).
  destruct (parser_complete (S (length (w ++ render v ++ r)))) as (H & _).
  apply H; [done|lia|done|rewrite !length_app; lia].
Qed.

Lemma parse_prefix_sound s v r :
  parse_prefix s = Some (v, r) -> exists w, all_ws w = true /\ s = w ++ render v ++ r /\ good v.
Proof.
  unfold parse_prefix. destruct (take_ws s) as [w s1] eqn:E. intros H.
  apply take_ws_spec in E as [-> Hw]. exists w.
  destruct (parser_sound (S (length (w ++ s1)))) as (Hs & _).
  apply Hs in H as (-> & Hwf & Hd); [|done]. split_and!; [done|done|]. split; [done|lia].
Qed.

(** The parser accepts exactly the documents of the grammar, and each with
its one tree: the bound it puts on the recursion is never what stops it. *)
Lemma parse_doc_spec s v : parse_doc s = Some v <-> document s v.
Proof.
  unfold parse_doc, document. split.
  - destruct (parse_prefix s) as [[v' r]|] eqn:E; [|done].
    destruct (all_ws r) eqn:Er; [|done]. intros [= ->].
    apply parse_prefix_sound in E as (w & Hw & -> & Hg). by exists w, r.
  - intros (w1 & w2 & H1 & H2 & -> & Hg).
    rewrite parse_prefix_complete by (done || by apply all_ws_stop). by rewrite H2.
Qed.

Lemma parse_doc_render v : good v -> parse_doc (render v) = Some v.
Proof.
  intros. apply parse_doc_spec. exists [], []. split_and!; [done|done| |done]. by rewrite app_nil_r.
Qed.

Lemma parse_doc_good s v : parse_doc s = Some v -> good v.
Proof. intros (? & ? & _ & _ & _ & H)%parse_doc_spec. done. Qed.

Lemma render_inj v w : good v -> good w -> render v = render w -> v = w.
Proof.
  intros Hv Hw H. apply parse_doc_render in Hv, Hw. rewrite H in Hv. congruence.
Qed.

Lemma zmax_list_ge x l : x ∈ l -> x <= zmax_list l.
Proof. induction 1; simpl; lia. Qed.

Lemma zmax_list_le l b : 0 <= b -> Forall (fun x => x <= b) l -> zmax_list l <= b.
Proof. induction 2; simpl; lia. Qed.

Lemma zmax_list_nonneg l : 0 <= zmax_list l.
Proof. induction l; simpl; lia. Qed.

Lemma depth_elem w es e : e ∈ es -> depth (snd e) < depth (JArr w es).
Proof.
  intros He. cbn [depth].
  assert (depth (snd e) <= zmax_list (map (fun e => depth (snd e)) es)); [|lia].
  apply zmax_list_ge. by apply (list_elem_of_fmap_2 (fun e => depth (snd e))).
Qed.

Lemma depth_member w ms m : m ∈ ms -> depth (snd m) < depth (JObj w ms).
Proof.
  intros Hm. cbn [depth].
  assert (depth (snd m) <= zmax_list (map (fun m => depth (snd m)) ms)); [|lia].
  apply zmax_list_ge. by apply (list_elem_of_fmap_2 (fun m => depth (snd m))).
Qed.

Lemma good_arr w es e : good (JArr w es) -> e ∈ es -> good (snd e).
Proof.
  intros [Hwf Hd] He. simpl in Hwf. apply andb_true_iff in Hwf as [_ Hwf].
  rewrite forallb_Forall, Forall_forall in Hwf. specialize (Hwf _ He). zbool.
  split; [done|]. cbn [depth] in Hd.
  assert (depth (snd e) <= zmax_list (map (fun e => depth (snd e)) es)); [|lia].
  apply zmax_list_ge. apply (list_elem_of_fmap_2 (fun e => depth (snd e))) in He. done.
Qed.

Lemma good_obj w ms m :
  good (JObj w ms) -> m ∈ ms -> good (snd m) /\ str_ok (m_key (fst m)) = true.
Proof.
  intros [Hwf Hd] Hm. simpl in Hwf. apply andb_true_iff in Hwf as [_ Hwf].
  rewrite forallb_Forall, Forall_forall in Hwf. specialize (Hwf _ Hm).
  unfold mgap_ok in Hwf. zbool. split; [|done]. split; [done|]. cbn [depth] in Hd.
  assert (depth (snd m) <= zmax_list (map (fun m => depth (snd m)) ms)); [|lia].
  apply zmax_list_ge. apply (list_elem_of_fmap_2 (fun m => depth (snd m))) in Hm. done.
Qed.

Lemma len_render v : good v -> (0 <? len (render v)) = true.
Proof. intros [Hwf _]. apply render_head in Hwf as (c & t & -> & _). done. Qed.


#[export] Hint Resolve parse_doc_good parse_doc_render good_arr : golib.
