(* ===== verification/JsonDecode.v ===== *)
(** * Decoding and encoding Go values

How [encoding/json] turns documents into the Go values the gateway declares
(strings, raw messages, structs, maps, [any]) and back: string unescaping,
case-insensitive field matching, [null] as a no-op, last-wins duplicates,
HTML escaping and compaction on the way out. *)

From S2P Require Export Json Float64.
Local Open Scope Z_scope.
Local Open Scope go_scope.

(** ** Strings *)

(** [getu4]: the code unit of a [\uXXXX] escape at the head of the text. *)
Definition getu4 (s : bytes) : option Z :=
  match s with
  | b :: u :: h1 :: h2 :: h3 :: h4 :: _ =>
      if Byte.eqb b x5c && Byte.eqb u x75 then
        match hex_val h1, hex_val h2, hex_val h3, hex_val h4 with
        | Some a, Some b, Some c, Some d => Some (((a * 16 + b) * 16 + c) * 16 + d)
        | _, _, _, _ => None
        end
      else None
  | _ => None
  end.

(** The byte a two-character escape stands for. *)
Definition simple_escape (e : byte) : byte :=
  if Byte.eqb e x62 then x08 else if Byte.eqb e x66 then x0c else if Byte.eqb e x6e then x0a
  else if Byte.eqb e x72 then x0d else if Byte.eqb e x74 then x09 else e.

(** A [\u] escape at the head of the text: what it decodes to and how many
bytes it takes, the low half of a surrogate pair included. *)
Definition unquote_u (s : bytes) (rr : Z) : bytes * nat :=
  if is_surrogate rr then
    let d := utf16_decode rr (default (-1) (getu4 (drop 6 s))) in
    if d =? rune_error then (encode_rune rune_error, 6%nat) else (encode_rune d, 12%nat)
  else (encode_rune rr, 6%nat).

(** One round of [unquoteBytes]'s loop at the head of a non-empty body. *)
Definition unquote_step (c : byte) (t : bytes) : bytes * nat :=
  if Byte.eqb c x5c then
    match t with
    | [] => ([], 1%nat)
    | e :: _ =>
        if Byte.eqb e x75 then
          match getu4 (c :: t) with
          | Some rr => unquote_u (c :: t) rr
          | None => ([], 1%nat)
          end
        else ([simple_escape e], 2%nat)
    end
  else if is_ascii c then ([c], 1%nat)
  else let '(r, n) := decode_rune (c :: t) in (encode_rune r, n).

Fixpoint unquote_skip (skip : nat) (s : bytes) : bytes :=
  match s with
  | [] => []
  | c :: t =>
      match skip with
      | S k => unquote_skip k t
      | O => let '(o, n) := unquote_step c t in o ++ unquote_skip (pred n) t
      end
  end.

(** The Go string a JSON string body denotes; ill-formed UTF-8 and unpaired
surrogates become U+FFFD. *)
Definition unquote (body : bytes) : bytes := unquote_skip 0 body.

(** [htmlSafeSet]. *)
Definition html_safe (c : byte) : bool :=
  (0x20 <=? bz c) && is_ascii c
  && negb (existsb (Byte.eqb c) [x22; x5c; x3c; x3e; x26]).

Definition escape_ascii (c : byte) : bytes :=
  if html_safe c then [c]
  else if Byte.eqb c x5c || Byte.eqb c x22 then [x5c; c]
  else if Byte.eqb c x08 then [x5c; x62] else if Byte.eqb c x0c then [x5c; x66]
  else if Byte.eqb c x0a then [x5c; x6e] else if Byte.eqb c x0d then [x5c; x72]
  else if Byte.eqb c x09 then [x5c; x74]
  else "\u00" ++ hex2 (bz c).

(** One round of [appendString]'s loop. *)
Definition escape_step (c : byte) (t : bytes) : bytes * nat :=
  if is_ascii c then (escape_ascii c, 1%nat)
  else
    let '(r, n) := decode_rune (c :: t) in
    if (r =? rune_error) && (n =? 1)%nat then ("\ufffd", 1%nat)
    else if (r =? 0x2028) || (r =? 0x2029) then ("\u202" ++ [hex_digit (r mod 16)], n)
    else (take n (c :: t), n).

Fixpoint escape_skip (skip : nat) (s : bytes) : bytes :=
  match s with
  | [] => []
  | c :: t =>
      match skip with
      | S k => escape_skip k t
      | O => let '(o, n) := escape_step c t in o ++ escape_skip (pred n) t
      end
  end.

Definition escape_string (s : bytes) : bytes := escape_skip 0 s.

(** [json.Marshal] of a string. *)
Definition marshal_string (s : bytes) : bytes := quoted (escape_string s).

(** ** Decoding into Go values

A decoder for a variable of type [S] takes its current value and a document
and returns the new value with [false] when the document has the wrong type
(encoding/json records the error, goes on, and reports it at the end). *)

Definition decoder (S : Type) : Type := S -> json -> S * bool.

Definition dec_string : decoder bytes := fun cur j =>
  match j with JStr b => (unquote b, true) | JNull => (cur, true) | _ => (cur, false) end.

Definition dec_bool : decoder bool := fun cur j =>
  match j with
  | JTrue => (true, true) | JFalse => (false, true) | JNull => (cur, true) | _ => (cur, false)
  end.

(** An [int]: the literal must be a plain integer that fits 64 bits. *)
Definition int_literal (l : bytes) : option Z :=
  let '(neg, ds) := match l with c :: t => if Byte.eqb c x2d then (true, t) else (false, l) | [] => (false, l) end in
  if forallb is_digit ds && negb (bool_decide (ds = [])) then
    let z := if neg then - udecimal ds else udecimal ds in
    if (- 2 ^ 63 <=? z) && (z <? 2 ^ 63) then Some z else None
  else None.

Definition dec_int : decoder Z := fun cur j =>
  match j with
  | JNum l => match int_literal l with Some z => (z, true) | None => (cur, false) end
  | JNull => (cur, true)
  | _ => (cur, false)
  end.

(** A [float64]. *)
Definition dec_float : decoder float64 := fun cur j =>
  match j with
  | JNum l => match parse_float l with Some x => (x, true) | None => (cur, false) end
  | JNull => (cur, true)
  | _ => (cur, false)
  end.

(** A [json.RawMessage]: any value, with its original bytes. *)
Definition dec_raw : decoder bytes := fun _ j => (render j, true).

(** A pointer to [T]: [null] makes it nil, anything else decodes into it. *)
Definition dec_ptr {T} (zero : T) (d : decoder T) : decoder (option T) := fun cur j =>
  match j with
  | JNull => (None, true)
  | _ => let '(v, ok) := d (default zero cur) j in (Some v, ok)
  end.

(** [[]json.RawMessage]; [None] is the nil slice. *)
Definition dec_raws : decoder (option (list bytes)) := fun cur j =>
  match j with
  | JArr _ es => (Some (map (fun e => render (snd e)) es), true)
  | JNull => (None, true)
  | _ => (cur, false)
  end.

(** A slice: an element position the slice already has is decoded over its
current contents, a new one over the zero value.  (Positions a shorter
earlier value left behind in the array's spare capacity are not tracked.) *)
Fixpoint dec_each {T} (zero : T) (d : decoder T) (olds : list T) (es : list (gap * json)) : list T * bool :=
  match es with
  | [] => ([], true)
  | e :: es =>
      let '(v, ok) := d (hd zero olds) (snd e) in
      let '(vs, oks) := dec_each zero d (tl olds) es in (v :: vs, ok && oks)
  end.

Definition dec_list {T} (zero : T) (d : decoder T) : decoder (option (list T)) := fun cur j =>
  match j with
  | JArr _ es => let '(vs, ok) := dec_each zero d (default [] cur) es in (Some vs, ok)
  | JNull => (None, true)
  | _ => (cur, false)
  end.

(** [map[string]json.RawMessage]; [None] is the nil map. *)
Definition dec_raw_map : decoder (option (gmap bytes bytes)) := fun cur j =>
  match j with
  | JObj _ ms =>
      (Some (fold_left (fun acc m => <[unquote (m_key (fst m)) := render (snd m)]> acc) ms
               (default ∅ cur)), true)
  | JNull => (None, true)
  | _ => (cur, false)
  end.

(** Struct fields match their JSON names exactly or under simple case
folding.  Only the runes that fold to ASCII matter, since every field name is
ASCII: a..z, U+212A KELVIN SIGN and U+017F LATIN SMALL LETTER LONG S. *)
Definition fold_rune (r : Z) : Z :=
  if (0x61 <=? r) && (r <=? 0x7A) then r - 32
  else if r =? 0x212A then 0x4B else if r =? 0x17F then 0x53 else r.

Definition fold_name (k : bytes) : list Z := map fold_rune (runes k).

Definition fields (S : Type) : Type := list (bytes * decoder S).

Definition find_field {S} (fs : fields S) (k : bytes) : option (decoder S) :=
  match find (fun f => bool_decide (fst f = k)) fs with
  | Some f => Some (snd f)
  | None => snd <$> find (fun f => bool_decide (fold_name (fst f) = fold_name k)) fs
  end.

(** One object member decoded into a struct; unknown keys are skipped. *)
Definition dec_member {S} (fs : fields S) (acc : S * bool) (m : mgap * json) : S * bool :=
  match find_field fs (unquote (m_key (fst m))) with
  | Some d => let '(s, ok) := d (fst acc) (snd m) in (s, snd acc && ok)
  | None => acc
  end.

Definition dec_struct {S} (fs : fields S) : decoder S := fun cur j =>
  match j with
  | JObj _ ms => fold_left (dec_member fs) ms (cur, true)
  | JNull => (cur, true)
  | _ => (cur, false)
  end.

(** A struct under [DisallowUnknownFields]: an unknown key is an error. *)
Definition dec_member_strict {S} (fs : fields S) (acc : S * bool) (m : mgap * json) : S * bool :=
  match find_field fs (unquote (m_key (fst m))) with
  | Some _ => dec_member fs acc m
  | None => (fst acc, false)
  end.

Definition dec_struct_strict {S} (fs : fields S) : decoder S := fun cur j =>
  match j with
  | JObj _ ms => fold_left (dec_member_strict fs) ms (cur, true)
  | JNull => (cur, true)
  | _ => (cur, false)
  end.

(** [json.Unmarshal] of [data] into a variable that holds [zero]. *)
Definition unmarshal {S} (d : decoder S) (zero : S) (data : bytes) : option S :=
  match parse_doc data with
  | None => None
  | Some j => let '(v, ok) := d zero j in if ok then Some v else None
  end.

(** ** [any] with [UseNumber] *)

Inductive gval :=
| GNull
| GBool (b : bool)
| GNum (lit : bytes)
| GStr (s : bytes)
| GArr (l : list gval)
| GDict (kvs : list (bytes * gval)).

(** A Go map under iteration is a list of entries with distinct keys, in an
order of the runtime's choosing. *)
Fixpoint assoc_set {V} (k : bytes) (v : V) (l : list (bytes * V)) : list (bytes * V) :=
  match l with
  | [] => [(k, v)]
  | (k', v') :: l => if bool_decide (k = k') then (k, v) :: l else (k', v') :: assoc_set k v l
  end.

Definition assoc_of {V} (l : list (bytes * V)) : list (bytes * V) :=
  fold_left (fun acc kv => assoc_set (fst kv) (snd kv) acc) l [].

Fixpoint to_any (j : json) : gval :=
  match j with
  | JNull => GNull
  | JTrue => GBool true
  | JFalse => GBool false
  | JNum l => GNum l
  | JStr b => GStr (unquote b)
  | JArr _ es => GArr (map (fun e => to_any (snd e)) es)
  | JObj _ ms => GDict (assoc_of (map (fun m => (unquote (m_key (fst m)), to_any (snd m))) ms))
  end.

(** ** Re-encoding raw messages *)

(** The escapes [json.Marshal] introduces when it copies a raw string body. *)
Fixpoint html_escape (s : bytes) : bytes :=
  match s with
  | [] => []
  | c :: t =>
      if existsb (Byte.eqb c) [x3c; x3e; x26] then "\u00" ++ hex2 (bz c) ++ html_escape t
      else
        match t with
        | b1 :: b2 :: u =>
            if Byte.eqb c xe2 && Byte.eqb b1 x80 && (Byte.eqb b2 xa8 || Byte.eqb b2 xa9)
            then "\u202" ++ hex_digit (bz b2 mod 16) :: html_escape u
            else c :: html_escape t
        | _ => c :: html_escape t
        end
  end.

(** [json.Marshal] of a [json.RawMessage]: white space is dropped and HTML
characters in strings are escaped. *)
Definition no_gap : gap := Gap [] [].

Definition compact_mgap (m : mgap) : mgap := MGap [] (html_escape (m_key m)) [] [] [].

Fixpoint compact (j : json) : json :=
  match j with
  | JStr b => JStr (html_escape b)
  | JArr _ es => JArr [] (map (fun e => (no_gap, compact (snd e))) es)
  | JObj _ ms => JObj [] (map (fun m => (compact_mgap (fst m), compact (snd m))) ms)
  | _ => j
  end.

Definition marshal_raw (raw : bytes) : option bytes :=
  match parse_doc raw with Some j => Some (render (compact j)) | None => None end.

(** [json.Marshal] of a [[]json.RawMessage]. *)
Definition marshal_raws (l : list bytes) : option bytes :=
  match mapM marshal_raw l with
  | Some l => Some ("[" ++ join "," l ++ "]")
  | None => None
  end.

(** [json.Marshal] of a [map[string]json.RawMessage]: entries in the order of
their keys. *)
Definition entry_le (a b : bytes * bytes) : Prop := bytes_le (fst a) (fst b).

#[export] Instance entry_le_dec : RelDecision entry_le.
Proof. intros a b. unfold entry_le. apply _. Defined.

Definition sorted_entries (m : gmap bytes bytes) : list (bytes * bytes) :=
  merge_sort entry_le (map_to_list m).

Definition marshal_entry (kv : bytes * bytes) : option bytes :=
  match marshal_raw (snd kv) with
  | Some v => Some (marshal_string (fst kv) ++ ":" ++ v)
  | None => None
  end.

Definition marshal_raw_map (m : gmap bytes bytes) : option bytes :=
  match mapM marshal_entry (sorted_entries m) with
  | Some l => Some ("{" ++ join "," l ++ "}")
  | None => None
  end.

(** ** String loops *)

#[global] Arguments unquote_step : simpl never.
#[global] Arguments escape_step : simpl never.
#[global] Arguments getu4 : simpl never.
#[global] Arguments hex_digit : simpl never.
#[global] Arguments hex_val : simpl never.

Lemma unquote_skip_drop k s : unquote_skip k s = unquote (drop k s).
Proof.
  revert k. induction s as [|c t IH]; intros [|k]; try done. simpl. by rewrite IH.
Qed.

Lemma escape_skip_drop k s : escape_skip k s = escape_string (drop k s).
Proof.
  revert k. induction s as [|c t IH]; intros [|k]; try done. simpl. by rewrite IH.
Qed.

Lemma unquote_nil : unquote [] = [].
Proof. done. Qed.

Lemma unquote_cons c t o n :
  unquote_step c t = (o, S n) -> unquote (c :: t) = o ++ unquote (drop n t).
Proof. intros H. unfold unquote at 1. simpl. by rewrite H, unquote_skip_drop. Qed.

Lemma escape_string_cons c t o n :
  escape_step c t = (o, S n) -> escape_string (c :: t) = o ++ escape_string (drop n t).
Proof. intros H. unfold escape_string at 1. simpl. by rewrite H, escape_skip_drop. Qed.

(** The escapes the encoder emits, read back. *)
Lemma unquote_plain c t : c <> x5c -> is_ascii c = true -> unquote (c :: t) = c :: unquote t.
Proof.
  intros Hc Ha. rewrite (unquote_cons c t [c] 0); [done|]. unfold unquote_step.
  assert (Byte.eqb c x5c = false) as -> by by apply byte_eqb_neq. by rewrite Ha.
Qed.

Lemma unquote_rune r t : scalar r -> 0x80 <= r -> unquote (encode_rune r ++ t) = encode_rune r ++ unquote t.
Proof.
  intros Hr Hge. pose proof (decode_encode r t Hr) as E.
  pose proof (encode_rune_nonnil r) as Hne.
  destruct (encode_rune r) as [|c u] eqn:Er; [done|]. simpl app in *.
  assert (Ha : is_ascii c = false).
  { unfold is_ascii. destruct (bz c <? 0x80) eqn:El; [|done]. zbool.
    rewrite decode_rune_ascii in E by done. injection E as E _. byte_lia. }
  rewrite (unquote_cons c (u ++ t) (c :: u) (length u)).
  - by rewrite drop_app_length.
  - unfold unquote_step. rewrite Ha, E, Er.
    assert (Byte.eqb c x5c = false) as ->; [|done].
    apply byte_eqb_neq. intros ->. done.
Qed.

Lemma hex_val_digit n : 0 <= n < 16 -> hex_val (hex_digit n) = Some n.
Proof.
  intros H. unfold hex_val, hex_digit. destruct (n <? 10) eqn:E; zbool;
    rewrite !bz_zb_small by lia; decide_ranges; f_equal; lia.
Qed.

Lemma is_hex_digit n : 0 <= n < 16 -> is_hex (hex_digit n) = true.
Proof. intros. unfold is_hex. by rewrite hex_val_digit. Qed.

Lemma getu4_hex a b c d t :
  0 <= a < 16 -> 0 <= b < 16 -> 0 <= c < 16 -> 0 <= d < 16 ->
  getu4 (x5c :: x75 :: hex_digit a :: hex_digit b :: hex_digit c :: hex_digit d :: t)
  = Some (((a * 16 + b) * 16 + c) * 16 + d).
Proof. intros. unfold getu4. by rewrite !hex_val_digit. Qed.

(** A [\uXXXX] escape of a code unit that is no surrogate. *)
Lemma unquote_u4 a b c d t :
  0 <= a < 16 -> 0 <= b < 16 -> 0 <= c < 16 -> 0 <= d < 16 ->
  is_surrogate (((a * 16 + b) * 16 + c) * 16 + d) = false ->
  unquote (x5c :: x75 :: hex_digit a :: hex_digit b :: hex_digit c :: hex_digit d :: t)
  = encode_rune (((a * 16 + b) * 16 + c) * 16 + d) ++ unquote t.
Proof.
  intros Ha Hb Hc Hd Hs. erewrite (unquote_cons _ _ _ 5); [done|].
  unfold unquote_step. rewrite byte_eqb_refl. simpl. rewrite getu4_hex by done.
  unfold unquote_u. by rewrite Hs.
Qed.

Lemma unquote_simple e t : e <> x75 -> unquote (x5c :: e :: t) = simple_escape e :: unquote t.
Proof.
  intros He. rewrite (unquote_cons _ _ [simple_escape e] 1); [done|]. unfold unquote_step.
  rewrite byte_eqb_refl. assert (Byte.eqb e x75 = false) as -> by by apply byte_eqb_neq. done.
Qed.

(** Sixteen-bit code units written with [hex2] and [hex4]. *)
Lemma nibble n k : 0 < k -> 0 <= n / k mod 16 < 16.
Proof. intros. apply Z.mod_pos_bound. lia. Qed.

Lemma unquote_hex2 n t : 0 <= n < 0x80 -> unquote ("\u00" ++ hex2 n ++ t) = zb n :: unquote t.
Proof.
  intros Hn. unfold hex2. simpl app. change x30 with (hex_digit 0).
  rewrite unquote_u4; [|lia|lia|apply nibble; lia|apply Z.mod_pos_bound; lia|].
  - replace (((0 * 16 + 0) * 16 + n / 16 mod 16) * 16 + n mod 16) with n
      by (Z.div_mod_to_equations; lia). rewrite encode_rune_ascii by lia. done.
  - replace (((0 * 16 + 0) * 16 + n / 16 mod 16) * 16 + n mod 16) with n
      by (Z.div_mod_to_equations; lia). unfold is_surrogate. decide_ranges. done.
Qed.

Lemma unquote_hex4 n t :
  0 <= n < 0x10000 -> is_surrogate n = false ->
  unquote ("\u" ++ hex4 n ++ t) = encode_rune n ++ unquote t.
Proof.
  intros Hn Hs. unfold hex4, hex2. simpl app.
  assert (E : (((n / 256 mod 256 / 16 mod 16 * 16 + (n / 256 mod 256) mod 16) * 16
                + n mod 256 / 16 mod 16) * 16 + (n mod 256) mod 16) = n)
    by (Z.div_mod_to_equations; lia).
  rewrite unquote_u4; rewrite ?E; try done; apply Z.mod_pos_bound; lia.
Qed.

Lemma unquote_surrogates r t :
  0x10000 <= r <= 0x10FFFF ->
  unquote ("\u" ++ hex4 (fst (utf16_encode r)) ++ "\u" ++ hex4 (snd (utf16_encode r)) ++ t)
  = encode_rune r ++ unquote t.
Proof.
  intros Hr. unfold utf16_encode. cbn [fst snd].
  set (hi := 0xD800 + (r - 0x10000) / 1024). set (lo := 0xDC00 + (r - 0x10000) mod 1024).
  assert (Hhi : 0xD800 <= hi < 0xDC00) by (subst hi; Z.div_mod_to_equations; lia).
  assert (Hlo : 0xDC00 <= lo < 0xE000) by (subst lo; Z.div_mod_to_equations; lia).
  assert (Hv : (hi - 0xD800) * 1024 + (lo - 0xDC00) + 0x10000 = r)
    by (subst hi lo; Z.div_mod_to_equations; lia).
  clearbody hi lo.
  assert (E : forall n u, 0 <= n < 0x10000 -> getu4 ("\u" ++ hex4 n ++ u) = Some n).
  { intros n u Hn. unfold hex4, hex2. simpl app. rewrite getu4_hex by (apply Z.mod_pos_bound; lia).
    f_equal. Z.div_mod_to_equations; lia. }
  pose proof (E hi ("\u" ++ hex4 lo ++ t) ltac:(lia)) as E1.
  pose proof (E lo t ltac:(lia)) as E2. unfold hex4, hex2 in *. simpl app in *.
  erewrite (unquote_cons _ _ _ 11); [done|].
  unfold unquote_step. rewrite byte_eqb_refl, E1. simpl. unfold unquote_u.
  simpl drop. rewrite E2. simpl. unfold is_surrogate, utf16_decode. decide_ranges.
  rewrite Hv. unfold rune_error. by decide_ranges.
Qed.

(** ** Encoding strings *)

(** A piece of a string body that starts and ends in plain text. *)
Definition chunk (o : bytes) : Prop := forall r, str_run SIn (o ++ r) = str_run SIn r.

Lemma chunk_app a b : chunk a -> chunk b -> chunk (a ++ b).
Proof. intros Ha Hb r. by rewrite <- app_assoc, Ha, Hb. Qed.

Lemma chunk_nil : chunk [].
Proof. done. Qed.

Lemma chunk_plain c : 0x20 <= bz c -> c <> x22 -> c <> x5c -> chunk [c].
Proof.
  intros Hc Hq Hb r. simpl. unfold str_step.
  assert (Byte.eqb c x22 = false) as -> by by apply byte_eqb_neq.
  assert (Byte.eqb c x5c = false) as -> by by apply byte_eqb_neq. by decide_ranges.
Qed.

Lemma chunk_simple e : is_escape e = true -> chunk [x5c; e].
Proof.
  intros He r. simpl. assert (Byte.eqb e x75 = false) as -> ; [|by rewrite He].
  apply byte_eqb_neq. intros ->. done.
Qed.

Lemma chunk_u a b c d :
  is_hex a = true -> is_hex b = true -> is_hex c = true -> is_hex d = true ->
  chunk [x5c; x75; a; b; c; d].
Proof.
  intros Ha Hb Hc Hd r. simpl. rewrite Ha. simpl. rewrite Hb. simpl. rewrite Hc. simpl.
  by rewrite Hd.
Qed.

Lemma chunk_hex2 n : chunk ("\u00" ++ hex2 n).
Proof.
  unfold hex2. simpl app. change x30 with (hex_digit 0).
  apply chunk_u; apply is_hex_digit; (lia || apply Z.mod_pos_bound; lia).
Qed.

Lemma chunk_hex4 n : chunk ("\u" ++ hex4 n).
Proof. unfold hex4, hex2. simpl app. apply chunk_u; apply is_hex_digit, Z.mod_pos_bound; lia. Qed.

Lemma chunk_high s : Forall (fun c => 0x80 <= bz c) s -> chunk s.
Proof.
  induction 1 as [|c s Hc Hs IH]; [apply chunk_nil|].
  apply (chunk_app [c] s); [|done]. apply chunk_plain; [lia|intros ->; done..].
Qed.

Lemma encode_rune_high r : scalar r -> 0x80 <= r -> Forall (fun c => 0x80 <= bz c) (encode_rune r).
Proof.
  unfold scalar. intros Hr Hge. unfold encode_rune. repeat (case_match; zbool; [|]).
  - repeat constructor; done.
  - lia.
  - repeat constructor; rewrite bz_zb_small; Z.div_mod_to_equations; lia.
  - repeat constructor; rewrite bz_zb_small; Z.div_mod_to_equations; lia.
  - repeat constructor; rewrite bz_zb_small; Z.div_mod_to_equations; lia.
Qed.

Lemma chunk_rune r : scalar r -> 0x80 <= r -> chunk (encode_rune r).
Proof. intros. by apply chunk_high, encode_rune_high. Qed.

#[export] Hint Resolve chunk_app chunk_nil chunk_simple chunk_hex2 chunk_hex4 chunk_rune : golib.

Lemma str_ok_chunks o s : chunk o -> str_ok s = true -> str_ok (o ++ s) = true.
Proof. unfold str_ok. intros Ho. by rewrite Ho. Qed.

(** What one escaped ASCII byte decodes to, and that it is well-formed. *)
Lemma escape_ascii_spec c t :
  is_ascii c = true -> unquote (escape_ascii c ++ t) = c :: unquote t /\ chunk (escape_ascii c).
Proof.
  intros Ha. assert (Hlt : 0 <= bz c < 0x80) by (apply Z.ltb_lt in Ha; byte_lia).
  unfold escape_ascii. destruct (html_safe c) eqn:Es.
  - unfold html_safe in Es. zbool. simpl in *. zbool.
    repeat match goal with H : Byte.eqb _ _ = false |- _ => apply byte_eqb_neq in H end.
    split; [by apply unquote_plain|]. by apply chunk_plain.
  - repeat (case_match; [|]);
      repeat match goal with
      | H : _ || _ = true |- _ => apply orb_true_iff in H as [H|H]
      | H : Byte.eqb _ _ = true |- _ => apply byte_eqb_eq in H; subst
      end; try (split; [by simpl app; rewrite unquote_simple|by apply chunk_simple]).
    split; [|apply chunk_hex2]. rewrite <- app_assoc, unquote_hex2 by done. by rewrite zb_bz.
Qed.

Lemma escape_string_spec s :
  unquote (escape_string s) = sanitize s /\ str_ok (escape_string s) = true.
Proof.
  unfold sanitize. induction s as [|s r n Hs Hd [IH1 IH2]] using rune_ind; [done|].
  pose proof (decode_rune_width _ _ _ Hs Hd) as [Hn _].
  rewrite (runes_step _ _ _ Hs Hd), encode_runes_cons.
  destruct s as [|c t]; [done|]. clear Hs.
  destruct (is_ascii c) eqn:Ha.
  { rewrite is_ascii_cons_decode in Hd by done. injection Hd as <- <-.
    rewrite (escape_string_cons c t (escape_ascii c) 0) by (unfold escape_step; by rewrite Ha).
    destruct (escape_ascii_spec c (escape_string (drop 0 t)) Ha) as [-> Hc].
    split; [|by apply str_ok_chunks]. unfold is_ascii in Ha. zbool.
    rewrite encode_rune_ascii by byte_lia. simpl in *. by rewrite IH1, zb_bz. }
  pose proof (decode_rune_scalar _ _ _ Hd) as Hsc.
  assert (Hge : 0x80 <= r).
  { apply decode_rune_decoded in Hd; [|done]. unfold is_ascii in Ha. zbool.
    inversion Hd; simplify_eq; try lia; try (unfold rune_error; lia);
      byte_ranges; Z.div_mod_to_equations; lia. }
  destruct n as [|n]; [lia|]. cbn [drop] in *.
  destruct ((r =? rune_error) && (S n =? 1)%nat) eqn:Eb.
  { apply andb_true_iff in Eb as [ ->%Z.eqb_eq En%Nat.eqb_eq]. injection En as ->.
    rewrite (escape_string_cons c t "\ufffd" 0)
      by (unfold escape_step; by rewrite Ha, Hd, Z.eqb_refl).
    change "\ufffd" with ("\u" ++ hex4 0xFFFD). rewrite <- app_assoc, unquote_hex4, IH1 by done.
    split; [done|]. rewrite app_assoc. by apply str_ok_chunks; [apply chunk_hex4|]. }
  destruct ((r =? 0x2028) || (r =? 0x2029)) eqn:El.
  { rewrite (escape_string_cons c t ("\u202" ++ [hex_digit (r mod 16)]) n)
      by (unfold escape_step; by rewrite Ha, Hd, Eb, El).
    assert ("\u202" ++ [hex_digit (r mod 16)] = "\u" ++ hex4 r) as ->.
    { apply orb_true_iff in El as [ ->%Z.eqb_eq| ->%Z.eqb_eq]; done. }
    rewrite <- app_assoc, unquote_hex4, IH1.
    - split; [done|]. rewrite app_assoc. by apply str_ok_chunks; [apply chunk_hex4|].
    - apply orb_true_iff in El as [ ->%Z.eqb_eq| ->%Z.eqb_eq]; done.
    - apply orb_true_iff in El as [ ->%Z.eqb_eq| ->%Z.eqb_eq]; done. }
  rewrite (escape_string_cons c t (encode_rune r) n).
  - rewrite unquote_rune, IH1 by done. split; [done|]. apply str_ok_chunks; [by apply chunk_rune|done].
  - unfold escape_step. rewrite Ha, Hd, Eb, El.
    rewrite (encode_decode (c :: t) r (S n)); [done|done|done|]. by intros [= -> ->].
Qed.

Lemma unquote_escape s : unquote (escape_string s) = sanitize s.
Proof. apply escape_string_spec. Qed.

Lemma escape_string_ok s : str_ok (escape_string s) = true.
Proof. apply escape_string_spec. Qed.

#[export] Hint Resolve escape_string_ok : golib.

(** ** HTML escaping keeps the meaning of a string body *)

(** The first item of a well-formed string body. *)
Inductive body_view : bytes -> Prop :=
| body_nil : body_view []
| body_escape e t : is_escape e = true -> str_ok t = true -> body_view (x5c :: e :: t)
| body_unicode h1 h2 h3 h4 t :
    is_hex h1 = true -> is_hex h2 = true -> is_hex h3 = true -> is_hex h4 = true ->
    str_ok t = true -> body_view (x5c :: x75 :: h1 :: h2 :: h3 :: h4 :: t)
| body_plain c t : c <> x22 -> c <> x5c -> 0x20 <= bz c -> str_ok t = true -> body_view (c :: t).

Lemma str_run_hex n c t :
  str_run (SHex n) (c :: t) = true ->
  is_hex c = true /\ str_run (match n with O => SIn | S k => SHex k end) t = true.
Proof. simpl. destruct (is_hex c); [|done]. by destruct n. Qed.

Lemma body_cases s : str_ok s = true -> body_view s.
Proof.
  destruct s as [|c t]; [constructor|]. unfold str_ok. simpl.
  destruct (Byte.eqb c x22) eqn:Eq; [done|].
  destruct (Byte.eqb c x5c) eqn:Eb.
  - apply byte_eqb_eq in Eb as ->. destruct t as [|e t]; [done|]. simpl.
    destruct (Byte.eqb e x75) eqn:Eu.
    + apply byte_eqb_eq in Eu as ->. intros H.
      destruct t as [|h1 t]; [done|]. apply str_run_hex in H as [H1 H].
      destruct t as [|h2 t]; [done|]. apply str_run_hex in H as [H2 H].
      destruct t as [|h3 t]; [done|]. apply str_run_hex in H as [H3 H].
      destruct t as [|h4 t]; [done|]. apply str_run_hex in H as [H4 H].
      by constructor.
    + destruct (is_escape e) eqn:Ee; [|done]. intros H. by constructor.
  - destruct (bz c <? 0x20) eqn:El; [done|]. zbool. intros H.
    apply byte_eqb_neq in Eq, Eb. by constructor.
Qed.

Definition html_special (c : byte) : bool := existsb (Byte.eqb c) [x3c; x3e; x26; xe2].

Lemma html_escape_plain c t : html_special c = false -> html_escape (c :: t) = c :: html_escape t.
Proof.
  unfold html_special. simpl. intros H. zbool.
  repeat match goal with H : Byte.eqb _ _ = false |- _ => rewrite H end. simpl.
  by destruct t as [|b1 [|b2 u]].
Qed.

Lemma html_escape_app k t :
  forallb (fun c => negb (html_special c)) k = true -> html_escape (k ++ t) = k ++ html_escape t.
Proof.
  induction k as [|c k IH]; [done|]. simpl app. cbn [forallb]. intros [Hc Hk]%andb_true_iff.
  apply negb_true_iff in Hc. rewrite html_escape_plain by done. by rewrite IH.
Qed.

Lemma is_escape_not_special e : is_escape e = true -> html_special e = false.
Proof.
  unfold is_escape. simpl. rewrite !orb_true_iff, !byte_eqb_eq. intros H.
  repeat destruct H as [H|H]; by subst.
Qed.

Lemma hex_not_special h : is_hex h = true -> html_special h = false.
Proof.
  unfold html_special. simpl. intros H.
  repeat match goal with
  | |- context [Byte.eqb h ?x] => destruct (Byte.eqb h x) eqn:E; [apply byte_eqb_eq in E as ->; done|]; clear E
  end. done.
Qed.

Lemma cont_not_special c : 0x80 <= bz c <= 0xBF -> html_special c = false.
Proof.
  unfold html_special. simpl. intros H.
  repeat match goal with
  | |- context [Byte.eqb c ?x] =>
      destruct (Byte.eqb c x) eqn:E; [apply byte_eqb_eq in E as ->; vm_compute in H; by destruct H|]; clear E
  end. done.
Qed.

Definition is_cont (c : byte) : Prop := 0x80 <= bz c <= 0xBF.

Lemma cont_all_plain k : Forall is_cont k -> forallb (fun c => negb (html_special c)) k = true.
Proof.
  intros H. apply forallb_Forall. eapply Forall_impl; [exact H|]. intros c Hc. simpl.
  by rewrite cont_not_special.
Qed.

(** A continuation byte at the head of escaped text stood there before. *)
Lemma html_escape_cont_head s c u :
  html_escape s = c :: u -> is_cont c -> exists t, s = c :: t /\ u = html_escape t.
Proof.
  unfold is_cont. destruct s as [|x t]; [done|]. cbn [html_escape].
  destruct (existsb (Byte.eqb x) [x3c; x3e; x26]).
  { intros [= <- _]. by intros [? ?]. }
  destruct t as [|b1 [|b2 v]]; [by intros [= <- <-]; eexists| |].
  - intros [= <- <-] _. by eexists.
  - destruct (Byte.eqb x xe2 && Byte.eqb b1 x80 && (Byte.eqb b2 xa8 || Byte.eqb b2 xa9)).
    { intros [= <- _]. by intros [? ?]. }
    intros [= <- <-] _. by eexists.
Qed.

Lemma html_escape_cont k s u :
  html_escape s = k ++ u -> Forall is_cont k -> exists t, s = k ++ t /\ u = html_escape t.
Proof.
  intros H Hk. revert s H. induction Hk as [|c k Hc Hk IH]; intros s H; [by exists s|].
  simpl in H. apply html_escape_cont_head in H as (t & -> & H); [|done].
  apply eq_sym, IH in H as (t' & -> & ->). by exists t'.
Qed.

(** The bytes after the first of an encoded rune. *)
Lemma encode_rune_tail r c k : scalar r -> encode_rune r = c :: k -> Forall is_cont k.
Proof.
  unfold scalar, is_cont. intros Hr. unfold encode_rune.
  repeat (case_match; zbool; [|]); intros [= <- <-]; repeat constructor;
    first [done|rewrite bz_zb_small by (Z.div_mod_to_equations; lia); Z.div_mod_to_equations; lia].
Qed.

Lemma decode_rune_rebuild c t r n :
  decode_rune (c :: t) = (r, n) -> (r, n) <> (rune_error, 1%nat) ->
  exists k u, encode_rune r = c :: k /\ t = k ++ u /\ n = S (length k) /\ Forall is_cont k.
Proof.
  intros Hd Hne. pose proof (encode_decode (c :: t) r n ltac:(done) Hd Hne) as E.
  pose proof (decode_rune_width (c :: t) r n ltac:(done) Hd) as [Hn Hl].
  destruct n as [|n]; [lia|]. simpl in E, Hl. exists (take n t), (drop n t).
  split_and!; [done|by rewrite take_drop|rewrite length_take; lia|].
  eapply encode_rune_tail; [by eapply decode_rune_scalar|exact E].
Qed.

(** Escaping does not turn an ill-formed sequence into a well-formed one. *)
Lemma decode_rune_html_bad c t :
  decode_rune (c :: t) = (rune_error, 1%nat) -> is_ascii c = false ->
  decode_rune (c :: html_escape t) = (rune_error, 1%nat).
Proof.
  intros Hd Ha. destruct (decode_rune (c :: html_escape t)) as [r n] eqn:E.
  destruct (decide ((r, n) = (rune_error, 1%nat))) as [H|Hne]; [done|].
  pose proof (decode_rune_scalar _ _ _ E) as Hsc.
  apply decode_rune_rebuild in E as (k & u & Er & Eh & -> & Hk); [|done].
  apply html_escape_cont in Eh as (v & -> & _); [|done].
  pose proof (decode_encode r v Hsc) as H. rewrite Er in H. simpl in H. congruence.
Qed.

Lemma unquote_bad c t :
  decode_rune (c :: t) = (rune_error, 1%nat) -> is_ascii c = false ->
  unquote (c :: t) = encode_rune rune_error ++ unquote t.
Proof.
  intros Hd Ha. rewrite (unquote_cons c t (encode_rune rune_error) 0); [done|].
  unfold unquote_step. assert (Byte.eqb c x5c = false) as ->.
  { apply byte_eqb_neq. by intros ->. } by rewrite Ha, Hd.
Qed.

Lemma scalar_high c t r n :
  decode_rune (c :: t) = (r, n) -> is_ascii c = false -> 0x80 <= r.
Proof.
  intros Hd Ha. apply decode_rune_decoded in Hd; [|done]. unfold is_ascii in Ha. zbool.
  inversion Hd; simplify_eq; try lia; try (unfold rune_error; lia);
    byte_ranges; Z.div_mod_to_equations; lia.
Qed.

(** The code unit an escape at the head of the text gives cannot become the
low half of a surrogate pair by escaping. *)
Lemma html_escape_low rr s :
  str_ok s = true -> utf16_decode rr (default (-1) (getu4 s)) = rune_error ->
  utf16_decode rr (default (-1) (getu4 (html_escape s))) = rune_error.
Proof.
  assert (Hsmall : forall lo, lo < 0xDC00 -> utf16_decode rr lo = rune_error).
  { intros lo Hlo. unfold utf16_decode. decide_ranges. by rewrite andb_false_r. }
  intros Hs H. destruct (body_cases _ Hs) as [|e t He Ht|h1 h2 h3 h4 t H1 H2 H3 H4 Ht|c t Hq Hb Hc Ht].
  - done.
  - rewrite html_escape_plain, html_escape_plain by (done || by apply is_escape_not_special).
    unfold getu4. assert (Byte.eqb e x75 = false) as E.
    { apply byte_eqb_neq. intros ->. done. }
    destruct (html_escape t) as [|a1 [|a2 [|a3 [|a4 u]]]]; simpl; rewrite ?E; by apply Hsmall.
  - rewrite !html_escape_plain by (done || by apply hex_not_special). exact H.
  - assert (Hcb : forall u, getu4 (c :: u) = None).
    { intros u. unfold getu4. destruct u as [|? [|? [|? [|? [|? ?]]]]]; try done.
      assert (Byte.eqb c x5c = false) as ->; [by apply byte_eqb_neq|done]. }
    cbn [html_escape]. destruct (existsb (Byte.eqb c) [x3c; x3e; x26]) eqn:E.
    { simpl in E. rewrite !orb_true_iff, !byte_eqb_eq in E.
      destruct E as [ -> |[ -> |[ -> |?]]]; [..|done]; by apply Hsmall. }
    destruct t as [|b1 [|b2 u]]; [rewrite Hcb; by apply Hsmall..|].
    destruct (Byte.eqb c xe2 && Byte.eqb b1 x80 && (Byte.eqb b2 xa8 || Byte.eqb b2 xa9)) eqn:E2;
      [|rewrite Hcb; by apply Hsmall].
    zbool. apply orb_true_iff in H1. rewrite !byte_eqb_eq in H1.
    destruct H1 as [ -> | -> ]; by apply Hsmall.
Qed.

Lemma unquote_u_step s t rr o n :
  getu4 (x5c :: x75 :: t) = Some rr -> unquote_u (x5c :: x75 :: t) rr = (o, S n) ->
  s = x5c :: x75 :: t -> unquote s = o ++ unquote (drop (S n) s).
Proof.
  intros Hg Hu ->. rewrite (unquote_cons x5c (x75 :: t) o n); [done|].
  unfold unquote_step. rewrite byte_eqb_refl. by rewrite Hg.
Qed.

Lemma hex_getu4 h1 h2 h3 h4 :
  is_hex h1 = true -> is_hex h2 = true -> is_hex h3 = true -> is_hex h4 = true ->
  exists rr, forall t, getu4 (x5c :: x75 :: h1 :: h2 :: h3 :: h4 :: t) = Some rr.
Proof.
  unfold is_hex. intros H1 H2 H3 H4. unfold getu4. simpl.
  destruct (hex_val h1), (hex_val h2), (hex_val h3), (hex_val h4); try done. eauto.
Qed.

(** How far one [\u] escape reaches, by the kind of its code unit. *)
Section unicode_escape.
Variables (h1 h2 h3 h4 : byte) (rr : Z).
Hypothesis Hrr : forall t, getu4 (x5c :: x75 :: h1 :: h2 :: h3 :: h4 :: t) = Some rr.

Definition u_text (t : bytes) : bytes := x5c :: x75 :: h1 :: h2 :: h3 :: h4 :: t.

Definition u_low (t : bytes) : Z := utf16_decode rr (default (-1) (getu4 t)).

Lemma unquote_u_bmp t :
  is_surrogate rr = false -> unquote (u_text t) = encode_rune rr ++ unquote t.
Proof.
  intros Hs. rewrite (unquote_u_step (u_text t) _ rr (encode_rune rr) 5 (Hrr t)); [done| |done].
  unfold unquote_u. by rewrite Hs.
Qed.

Lemma unquote_u_lone t :
  is_surrogate rr = true -> u_low t = rune_error ->
  unquote (u_text t) = encode_rune rune_error ++ unquote t.
Proof.
  unfold u_low. intros Hs Hl.
  rewrite (unquote_u_step (u_text t) _ rr (encode_rune rune_error) 5 (Hrr t)); [done| |done].
  unfold unquote_u. rewrite Hs. change (drop 6 _) with t. cbv zeta. by rewrite Hl.
Qed.

Lemma unquote_u_pair k1 k2 k3 k4 u :
  let t := x5c :: x75 :: k1 :: k2 :: k3 :: k4 :: u in
  is_surrogate rr = true -> u_low t <> rune_error ->
  unquote (u_text t) = encode_rune (u_low t) ++ unquote u.
Proof.
  intros t Hs Hl. unfold u_low in *.
  rewrite (unquote_u_step (u_text t) _ rr (encode_rune (u_low t)) 11 (Hrr t)); [done| |done].
  unfold unquote_u. rewrite Hs. change (drop 6 _) with t. cbv zeta. apply Z.eqb_neq in Hl. by rewrite Hl.
Qed.

End unicode_escape.

Lemma u_low_some rr t : u_low rr t <> rune_error -> is_Some (getu4 t).
Proof.
  unfold u_low. destruct (getu4 t); [by eexists|]. intros H. exfalso. apply H.
  simpl. unfold utf16_decode. decide_ranges. by rewrite andb_false_r.
Qed.

Lemma getu4_some_cases t :
  is_Some (getu4 t) -> str_ok t = true ->
  exists k1 k2 k3 k4 u, t = x5c :: x75 :: k1 :: k2 :: k3 :: k4 :: u /\ str_ok u = true /\
    is_hex k1 = true /\ is_hex k2 = true /\ is_hex k3 = true /\ is_hex k4 = true.
Proof.
  intros [x Hg] Ht. unfold getu4 in Hg.
  destruct (body_cases _ Ht) as [|e u He Hu|k1 k2 k3 k4 u K1 K2 K3 K4 Hu|c u Hq Hb Hc Hu].
  - done.
  - destruct u as [|? [|? [|? [|? ?]]]]; try done. simpl in Hg.
    destruct (Byte.eqb e x75) eqn:E; [|done]. by apply byte_eqb_eq in E as ->.
  - by exists k1, k2, k3, k4, u.
  - destruct u as [|? [|? [|? [|? [|? ?]]]]]; try done.
    assert (E : Byte.eqb c x5c = false) by by apply byte_eqb_neq. by rewrite E in Hg.
Qed.

(** A [\u] escape: the escaped text decodes alike when the text after it does. *)
Lemma html_escape_unicode h1 h2 h3 h4 t :
  is_hex h1 = true -> is_hex h2 = true -> is_hex h3 = true -> is_hex h4 = true -> str_ok t = true ->
  (forall u, (length u <= length t)%nat -> str_ok u = true -> unquote (html_escape u) = unquote u) ->
  unquote (u_text h1 h2 h3 h4 (html_escape t)) = unquote (u_text h1 h2 h3 h4 t).
Proof.
  intros H1 H2 H3 H4 Ht IH. destruct (hex_getu4 h1 h2 h3 h4) as [rr Hrr]; [done..|].
  destruct (is_surrogate rr) eqn:Es.
  2:{ rewrite !(unquote_u_bmp _ _ _ _ _ Hrr) by done. by rewrite IH. }
  destruct (decide (u_low rr t = rune_error)) as [E|E].
  { rewrite !(unquote_u_lone _ _ _ _ _ Hrr) by (done || by apply html_escape_low). by rewrite IH. }
  destruct (getu4_some_cases t) as (k1 & k2 & k3 & k4 & u & -> & Hu & K1 & K2 & K3 & K4);
    [by eapply u_low_some|done|].
  rewrite !html_escape_plain by (done || by apply hex_not_special).
  rewrite !(unquote_u_pair _ _ _ _ _ Hrr) by done.
  rewrite IH by (done || simpl; lia). done.
Qed.

(** The line and paragraph separators, the only multi-byte runes escaped. *)
Definition line_sep (c : byte) (t : bytes) : bool :=
  match t with
  | b1 :: b2 :: _ => Byte.eqb c xe2 && Byte.eqb b1 x80 && (Byte.eqb b2 xa8 || Byte.eqb b2 xa9)
  | _ => false
  end.

Lemma html_escape_other c t :
  existsb (Byte.eqb c) [x3c; x3e; x26] = false -> line_sep c t = false ->
  html_escape (c :: t) = c :: html_escape t.
Proof.
  intros E1 E2. cbn [html_escape]. rewrite E1. unfold line_sep in E2.
  destruct t as [|b1 [|b2 u]]; [done..|]. by rewrite E2.
Qed.

Lemma html_escape_sep c t :
  existsb (Byte.eqb c) [x3c; x3e; x26] = false -> line_sep c t = true ->
  exists r v, c :: t = encode_rune r ++ v /\ html_escape (c :: t) = "\u" ++ hex4 r ++ html_escape v /\
    (r = 0x2028 \/ r = 0x2029).
Proof.
  unfold line_sep. destruct t as [|b1 [|b2 v]]; [done..|]. intros _ E. zbool.
  repeat match goal with H : Byte.eqb _ _ = true |- _ => apply byte_eqb_eq in H; subst end.
  apply orb_true_iff in H0. rewrite !byte_eqb_eq in H0.
  destruct H0 as [ -> | -> ]; [exists 0x2028, v|exists 0x2029, v]; (split_and!; [done|done|auto]).
Qed.

Lemma html_escape_multi c t :
  is_ascii c = false -> str_ok t = true -> unquote (html_escape t) = unquote t ->
  (forall u, (length u <= length t)%nat -> str_ok u = true -> unquote (html_escape u) = unquote u) ->
  unquote (c :: html_escape t) = unquote (c :: t).
Proof.
  intros Ha Ht IHt IH. destruct (decode_rune (c :: t)) as [r n] eqn:Hd.
  destruct (decide ((r, n) = (rune_error, 1%nat))) as [[= -> ->]|Hne].
  { by rewrite !unquote_bad, IHt by (done || by apply decode_rune_html_bad). }
  pose proof (decode_rune_scalar _ _ _ Hd) as Hsc.
  pose proof (scalar_high _ _ _ _ Hd Ha) as Hge.
  apply decode_rune_rebuild in Hd as (k & u & Er & -> & _ & Hk); [|done].
  rewrite html_escape_app by by apply cont_all_plain.
  change (c :: k ++ u) with ((c :: k) ++ u).
  change (c :: k ++ html_escape u) with ((c :: k) ++ html_escape u).
  rewrite <- Er, !unquote_rune by done. f_equal. apply IH; [rewrite length_app; lia|].
  unfold str_ok in *. rewrite <- (chunk_high k); [done|].
  eapply Forall_impl; [exact Hk|]. unfold is_cont. simpl. lia.
Qed.

(** Escaping HTML characters changes neither the string a body denotes nor
its well-formedness. *)
Lemma html_escape_spec s :
  str_ok s = true -> unquote (html_escape s) = unquote s /\ str_ok (html_escape s) = true.
Proof.
  induction (well_founded_ltof _ (@length byte) s) as [s _ IH]. unfold ltof in IH.
  intros Hs. destruct (body_cases _ Hs) as [|e t He Ht|h1 h2 h3 h4 t H1 H2 H3 H4 Ht|c t Hq Hb Hc Ht].
  - done.
  - destruct (IH t) as [IH1 IH2]; [simpl; lia|done|].
    rewrite !html_escape_plain by (done || by apply is_escape_not_special).
    assert (e <> x75) by by intros ->. rewrite !unquote_simple, IH1 by done.
    split; [done|]. by apply (str_ok_chunks [x5c; e]), IH2; apply chunk_simple.
  - rewrite !html_escape_plain by (done || by apply hex_not_special). split.
    + apply html_escape_unicode; try done. intros u Hl Hu. apply IH; [simpl; lia|done].
    + apply (str_ok_chunks [x5c; x75; h1; h2; h3; h4]); [by apply chunk_u|].
      apply IH; [simpl; lia|done].
  - destruct (IH t) as [IH1 IH2]; [simpl; lia|done|].
    destruct (existsb (Byte.eqb c) [x3c; x3e; x26]) eqn:Eh.
    { cbn [html_escape]. rewrite Eh. simpl in Eh. rewrite !orb_true_iff, !byte_eqb_eq in Eh.
      assert (Hlt : 0 <= bz c < 0x80 /\ is_ascii c = true).
      { destruct Eh as [ -> |[ -> |[ -> |?]]]; done. }
      destruct Hlt as [Hlt Ha]. rewrite unquote_hex2, IH1, zb_bz, unquote_plain by done.
      split; [done|]. rewrite app_assoc. by apply str_ok_chunks; [apply chunk_hex2|]. }
    destruct (line_sep c t) eqn:El.
    { destruct (html_escape_sep c t Eh El) as (r & v & E & -> & Hr).
      assert (Hlen : (length v < length (c :: t))%nat).
      { rewrite E, length_app. destruct Hr as [ -> | -> ]; simpl; lia. }
      assert (Hv : str_ok v = true).
      { unfold str_ok in *. rewrite <- (chunk_rune r) by (unfold scalar; lia). by rewrite <- E. }
      destruct (IH v Hlen Hv) as [IHv1 IHv2]. rewrite E, unquote_rune by (unfold scalar; lia).
      rewrite unquote_hex4, IHv1 by (lia || by destruct Hr as [ -> | -> ]).
      split; [done|]. rewrite app_assoc. by apply str_ok_chunks; [apply chunk_hex4|]. }
    rewrite html_escape_other by done. split.
    + destruct (is_ascii c) eqn:Ha; [by rewrite !unquote_plain, IH1|].
      apply html_escape_multi; try done. intros u Hl Hu. apply IH; [simpl; lia|done].
    + apply (str_ok_chunks [c]); [by apply chunk_plain|done].
Qed.

Lemma unquote_html_escape s : str_ok s = true -> unquote (html_escape s) = unquote s.
Proof. intros. by apply html_escape_spec. Qed.

Lemma html_escape_ok s : str_ok s = true -> str_ok (html_escape s) = true.
Proof. intros. by apply html_escape_spec. Qed.

#[export] Hint Resolve html_escape_ok : golib.

(** ** Decoded strings are UTF-8 *)

Definition is_runes (s : bytes) : Prop := exists l, Forall scalar l /\ s = encode_runes l.

Lemma is_runes_valid s : is_runes s -> valid_utf8 s.
Proof. intros (l & Hl & ->). unfold valid_utf8, sanitize. by rewrite runes_encode_runes. Qed.

Lemma is_runes_app r t : scalar r -> is_runes t -> is_runes (encode_rune r ++ t).
Proof. intros Hr (l & Hl & ->). exists (r :: l). split; [by constructor|done]. Qed.

Lemma is_runes_ascii c t : is_ascii c = true -> is_runes t -> is_runes (c :: t).
Proof.
  intros Hc%Z.ltb_lt Ht. replace (c :: t) with (encode_rune (bz c) ++ t).
  - apply is_runes_app; [unfold scalar; byte_lia|done].
  - rewrite encode_rune_ascii by byte_lia. by rewrite zb_bz.
Qed.

Lemma getu4_range h1 h2 h3 h4 rr t :
  getu4 (x5c :: x75 :: h1 :: h2 :: h3 :: h4 :: t) = Some rr -> 0 <= rr < 0x10000.
Proof.
  assert (Hd : forall b v, hex_val b = Some v -> 0 <= v < 16).
  { intros b v. unfold hex_val. repeat case_match; zbool; intros [= <-]; lia. }
  unfold getu4. simpl.
  destruct (hex_val h1) eqn:E1, (hex_val h2) eqn:E2, (hex_val h3) eqn:E3, (hex_val h4) eqn:E4;
    try done. apply Hd in E1, E2, E3, E4. intros [= <-]. lia.
Qed.

Lemma u_low_scalar rr t : u_low rr t <> rune_error -> scalar (u_low rr t).
Proof.
  unfold u_low, utf16_decode. destruct (_ && _) eqn:E; [|done]. intros _. zbool.
  unfold scalar. lia.
Qed.

Lemma unquote_runes s : str_ok s = true -> is_runes (unquote s).
Proof.
  induction (well_founded_ltof _ (@length byte) s) as [s _ IH]. unfold ltof in IH.
  intros Hs. destruct (body_cases _ Hs) as [|e t He Ht|h1 h2 h3 h4 t H1 H2 H3 H4 Ht|c t Hq Hb Hc Ht].
  - by exists [].
  - rewrite unquote_simple by by intros ->. apply is_runes_ascii; [|apply IH; [simpl; lia|done]].
    unfold is_escape in He. simpl in He. rewrite !orb_true_iff, !byte_eqb_eq in He.
    repeat destruct He as [He|He]; by subst.
  - destruct (hex_getu4 h1 h2 h3 h4) as [rr Hrr]; [done..|].
    pose proof (getu4_range _ _ _ _ _ _ (Hrr t)) as Hrange.
    change (x5c :: x75 :: h1 :: h2 :: h3 :: h4 :: t) with (u_text h1 h2 h3 h4 t).
    assert (Hti : is_runes (unquote t)) by (apply IH; [simpl; lia|done]).
    destruct (is_surrogate rr) eqn:Es.
    2:{ rewrite (unquote_u_bmp _ _ _ _ _ Hrr) by done. apply is_runes_app; [|done].
        unfold is_surrogate in Es. rewrite andb_false_iff, !Z.leb_gt in Es. unfold scalar. lia. }
    destruct (decide (u_low rr t = rune_error)) as [E|E].
    { rewrite (unquote_u_lone _ _ _ _ _ Hrr) by done. apply is_runes_app; [by right|done]. }
    destruct (getu4_some_cases t) as (k1 & k2 & k3 & k4 & u & -> & Hu & _); [by eapply u_low_some|done|].
    rewrite (unquote_u_pair _ _ _ _ _ Hrr) by done.
    apply is_runes_app; [by apply u_low_scalar|]. apply IH; [simpl; lia|done].
  - destruct (is_ascii c) eqn:Ha.
    { rewrite unquote_plain by done. apply is_runes_ascii; [done|]. apply IH; [simpl; lia|done]. }
    destruct (decode_rune (c :: t)) as [r n] eqn:Hd.
    pose proof (decode_rune_scalar _ _ _ Hd) as Hsc.
    destruct (decide ((r, n) = (rune_error, 1%nat))) as [[= -> ->]|Hne].
    { rewrite unquote_bad by done. apply is_runes_app; [done|]. apply IH; [simpl; lia|done]. }
    pose proof (scalar_high _ _ _ _ Hd Ha) as Hge.
    apply decode_rune_rebuild in Hd as (k & u & Er & -> & _ & Hk); [|done].
    change (c :: k ++ u) with ((c :: k) ++ u). rewrite <- Er, unquote_rune by done.
    apply is_runes_app; [done|]. apply IH; [simpl; rewrite length_app; lia|].
    unfold str_ok in *. rewrite <- (chunk_high k); [done|].
    eapply Forall_impl; [exact Hk|]. unfold is_cont. simpl. lia.
Qed.

Lemma unquote_valid s : str_ok s = true -> valid_utf8 (unquote s).
Proof. intros. by apply is_runes_valid, unquote_runes. Qed.

(** ** Compaction *)

Lemma compact_depth j : depth (compact j) = depth j.
Proof.
  induction j as [| | | | |w es IH|w ms IH] using json_nested_ind; try done; cbn [compact depth];
    rewrite map_map; f_equal; f_equal; apply map_ext_in; intros e He; simpl;
    rewrite Forall_forall in IH; apply IH, list_elem_of_In, He.
Qed.

Lemma compact_wf j : wf j = true -> wf (compact j) = true.
Proof.
  induction j as [| | | | |w es IH|w ms IH] using json_nested_ind; simpl; try done.
  - apply html_escape_ok.
  - intros [_ H]%andb_true_iff. apply andb_true_iff. split; [by destruct es|].
    rewrite forallb_Forall, Forall_fmap. rewrite forallb_Forall in H.
    rewrite Forall_forall in *. intros e He. simpl. apply IH; [done|]. specialize (H _ He). by zbool.
  - intros [_ H]%andb_true_iff. apply andb_true_iff. split; [by destruct ms|].
    rewrite forallb_Forall, Forall_fmap. rewrite forallb_Forall in H.
    rewrite Forall_forall in *. intros m Hm. specialize (H _ Hm). unfold mgap_ok in H. zbool. simpl.
    apply andb_true_iff. split; [|by apply IH]. unfold mgap_ok. simpl.
    by rewrite html_escape_ok.
Qed.

Lemma compact_good j : good j -> good (compact j).
Proof. intros [Hw Hd]. split; [by apply compact_wf|by rewrite compact_depth]. Qed.

Lemma marshal_raw_spec raw out :
  marshal_raw raw = Some out ->
  exists j, parse_doc raw = Some j /\ out = render (compact j) /\ parse_doc out = Some (compact j).
Proof.
  unfold marshal_raw. destruct (parse_doc raw) as [j|] eqn:E; [|done]. intros [= <-].
  exists j. split_and!; [done|done|]. by apply parse_doc_render, compact_good, parse_doc_good with raw.
Qed.

(** A decoder that does not see the difference between a document and its
compact form. *)
Definition compact_blind {S} (d : decoder S) : Prop :=
  forall cur j, wf j = true -> d cur (compact j) = d cur j.

Lemma dec_string_blind : compact_blind dec_string.
Proof. intros cur [] H; simpl; try done. by rewrite unquote_html_escape. Qed.

Lemma dec_bool_blind : compact_blind dec_bool.
Proof. by intros cur [] H. Qed.

Lemma dec_int_blind : compact_blind dec_int.
Proof. by intros cur [] H. Qed.

Lemma find_field_In {S} (fs : fields S) k d : find_field fs k = Some d -> exists n, (n, d) ∈ fs.
Proof.
  unfold find_field. intros H.
  assert (Hf : forall p f, find p fs = Some f -> snd f = d -> exists n, (n, d) ∈ fs).
  { intros p [n d'] Hp <-. exists n. apply find_some in Hp as [Hp _]. by apply list_elem_of_In. }
  case_match; simplify_eq; [by eapply Hf|].
  destruct (find _ fs) eqn:E in H; simplify_eq/=. by eapply Hf.
Qed.

Lemma dec_struct_blind {S} (fs : fields S) :
  Forall (fun f => compact_blind (snd f)) fs -> compact_blind (dec_struct fs).
Proof.
  intros Hfs cur j Hwf. destruct j as [| | | | | |w ms]; simpl; try done.
  simpl in Hwf. apply andb_true_iff in Hwf as [_ Hwf]. generalize (cur, true).
  induction ms as [|m ms IH]; intros acc; simpl; [done|].
  simpl in Hwf. apply andb_true_iff in Hwf as [Hm Hwf]. rewrite IH by done. f_equal.
  unfold mgap_ok in Hm. zbool. unfold dec_member. simpl. rewrite unquote_html_escape by done.
  destruct (find_field fs _) as [d|] eqn:E; [|done].
  apply find_field_In in E as [n E]. rewrite Forall_forall in Hfs. specialize (Hfs _ E). simpl in Hfs.
  by rewrite Hfs.
Qed.

#[export] Hint Resolve dec_string_blind dec_bool_blind dec_int_blind compact_good : golib.

(** ** Marshalled lists and maps of raw messages *)

Lemma render_no_gap j : render_elem render (no_gap, j) = render j.
Proof. unfold render_elem. simpl. apply app_nil_r. Qed.

Lemma marshal_raws_spec l out :
  marshal_raws l = Some out ->
  exists js, Forall2 (fun raw j => parse_doc raw = Some j) l js /\
    out = render (JArr [] (map (fun j => (no_gap, compact j)) js)).
Proof.
  unfold marshal_raws. destruct (mapM marshal_raw l) as [outs|] eqn:E; [|done]. intros [= <-].
  apply mapM_Some_1 in E.
  assert (exists js, Forall2 (fun raw j => parse_doc raw = Some j) l js /\
    outs = map (fun j => render (compact j)) js) as (js & Hjs & ->).
  { induction E as [|raw o l outs Ho E IH]; [by exists []|]. destruct IH as (js & Hjs & ->).
    apply marshal_raw_spec in Ho as (j & Hj & -> & _). exists (j :: js). by split; [constructor|]. }
  exists js. split; [done|]. simpl. rewrite map_map. do 3 f_equal. apply map_ext. intros j.
  by rewrite render_no_gap.
Qed.

(** The member a map entry is written as. *)
Definition entry_member (k : bytes) (j : json) : mgap * json :=
  (MGap [] (escape_string k) [] [] [], compact j).

Lemma render_entry k j :
  render_member render (entry_member k j) = marshal_string k ++ ":" ++ render (compact j).
Proof. unfold render_member, marshal_string. simpl. by rewrite app_nil_r. Qed.

Definition entry_written (kv : bytes * bytes) (m : mgap * json) : Prop :=
  exists j, parse_doc (snd kv) = Some j /\ m = entry_member (fst kv) j.

Lemma marshal_raw_map_spec (m : gmap bytes bytes) out :
  marshal_raw_map m = Some out ->
  exists ms, Forall2 entry_written (sorted_entries m) ms /\ out = render (JObj [] ms).
Proof.
  unfold marshal_raw_map. destruct (mapM marshal_entry (sorted_entries m)) as [outs|] eqn:E; [|done].
  intros [= <-]. apply mapM_Some_1 in E.
  assert (exists ms, Forall2 entry_written (sorted_entries m) ms /\
    outs = map (render_member render) ms) as (ms & Hms & ->).
  { induction E as [|[k raw] o l outs Ho E IH]; [by exists []|]. destruct IH as (ms & Hms & ->).
    unfold marshal_entry in Ho. simpl in Ho.
    destruct (marshal_raw raw) as [v|] eqn:Er; [|done]. injection Ho as <-.
    apply marshal_raw_spec in Er as (j & Hj & -> & _).
    exists (entry_member k j :: ms). split; [constructor; [by exists j|done]|].
    cbn [map]. by rewrite render_entry. }
  by exists ms.
Qed.

Lemma sorted_entries_perm (m : gmap bytes bytes) : sorted_entries m ≡ₚ map_to_list m.
Proof. apply merge_sort_Permutation. Qed.

Lemma marshal_raws_total l :
  Forall (fun raw => is_Some (parse_doc raw)) l -> is_Some (marshal_raws l).
Proof.
  intros H. unfold marshal_raws. destruct (mapM marshal_raw l) eqn:E; [by eexists|].
  apply mapM_None_1 in E. rewrite Exists_exists in E. destruct E as (raw & Hin & E).
  rewrite Forall_forall in H. destruct (H _ Hin) as [j Hj]. unfold marshal_raw in E. by rewrite Hj in E.
Qed.

Lemma marshal_raw_map_total (m : gmap bytes bytes) :
  (forall k raw, m !! k = Some raw -> is_Some (parse_doc raw)) -> is_Some (marshal_raw_map m).
Proof.
  intros H. unfold marshal_raw_map. destruct (mapM marshal_entry (sorted_entries m)) eqn:E; [by eexists|].
  apply mapM_None_1 in E. rewrite Exists_exists in E. destruct E as ([k raw] & Hin & E).
  rewrite sorted_entries_perm, elem_of_map_to_list in Hin. destruct (H _ _ Hin) as [j Hj].
  unfold marshal_entry, marshal_raw in E. simpl in E. by rewrite Hj in E.
Qed.

(** Reading members into a map: the last member with a key wins. *)
Definition insert_member (acc : gmap bytes bytes) (m : mgap * json) : gmap bytes bytes :=
  <[unquote (m_key (fst m)) := render (snd m)]> acc.

Lemma insert_members_other (ms : list (mgap * json)) (acc : gmap bytes bytes) k :
  Forall (fun m => unquote (m_key (fst m)) <> k) ms ->
  fold_left insert_member ms acc !! k = acc !! k.
Proof.
  intros H. revert acc. induction H as [|m ms Hm H IH]; intros acc; [done|]. simpl.
  rewrite IH. unfold insert_member. by rewrite lookup_insert_ne.
Qed.

Lemma insert_members_split (ms1 : list (mgap * json)) (m : mgap * json) (ms2 : list (mgap * json)) (acc : gmap bytes bytes) k :
  unquote (m_key (fst m)) = k ->
  Forall (fun m => unquote (m_key (fst m)) <> k) ms2 ->
  fold_left insert_member (ms1 ++ m :: ms2) acc !! k = Some (render (snd m)).
Proof.
  intros Hk H. rewrite fold_left_app. simpl. rewrite insert_members_other by done.
  unfold insert_member at 1. rewrite Hk. apply lookup_insert_eq.
Qed.

Lemma insert_members_source (ms : list (mgap * json)) (acc : gmap bytes bytes) k raw :
  fold_left insert_member ms acc !! k = Some raw ->
  acc !! k = Some raw \/ exists m, m ∈ ms /\ unquote (m_key (fst m)) = k /\ raw = render (snd m).
Proof.
  revert acc. induction ms as [|m ms IH]; intros acc; simpl; [by left|].
  intros H. destruct (IH _ H) as [H'|(m' & Hin & Hk & Hr)].
  - unfold insert_member in H'. apply lookup_insert_Some in H' as [[Hk Hr]|[_ H']]; [|by left].
    right. exists m. split_and!; [by left|done|done].
  - right. exists m'. split_and!; [by right|done|done].
Qed.

Lemma dec_raw_map_obj w ms : dec_raw_map None (JObj w ms) = (Some (fold_left insert_member ms ∅), true).
Proof. done. Qed.

(** ** Struct fields *)

(** A field of a struct: its JSON name, its accessors and its type's decoder. *)
Definition fld {S T} (name : bytes) (get : S -> T) (set : T -> S -> S) (d : decoder T) :
    bytes * decoder S :=
  (name, fun s j => let '(v, ok) := d (get s) j in (set v s, ok)).

Lemma fld_blind {S T} name (get : S -> T) set d :
  compact_blind d -> compact_blind (snd (fld name get set d)).
Proof. intros H cur j Hwf. simpl. by rewrite H. Qed.
