(* ===== verification/JsonCompact.v ===== *)
(** * Compaction and decoding

Re-encoding a raw message compacts it and escapes HTML characters.  Decoders
that keep raw messages return compacted ones, all others return the same. *)

From S2P Require Export JsonDecode.
Local Open Scope Z_scope.
Local Open Scope go_scope.

(** Values that differ by compaction of the raw messages they hold. *)
Definition raw_compact (r r' : bytes) : Prop :=
  (r = [] /\ r' = []) \/ exists j, good j /\ r = render j /\ r' = render (compact j).

Definition compact_rel {S} (R : S -> S -> Prop) (d : decoder S) : Prop :=
  forall cur cur' j, R cur cur' -> good j ->
    R (fst (d cur j)) (fst (d cur' (compact j))) /\ snd (d cur' (compact j)) = snd (d cur j).

Lemma compact_rel_eq {S} (d : decoder S) : compact_blind d -> compact_rel (=) d.
Proof. intros H cur cur' j <- Hg. by rewrite H by apply Hg. Qed.

Lemma raw_compact_render j : good j -> raw_compact (render j) (render (compact j)).
Proof. right. by exists j. Qed.

Lemma dec_raw_rel : compact_rel raw_compact dec_raw.
Proof. intros cur cur' j _ Hg. split; [|done]. by apply raw_compact_render. Qed.

Definition raws_compact : option (list bytes) -> option (list bytes) -> Prop := option_Forall2 (Forall2 raw_compact).

Lemma dec_raws_rel : compact_rel raws_compact dec_raws.
Proof.
  intros cur cur' j Hc Hg. destruct j as [| | | | |w es|]; simpl; split; try done; try constructor.
  rewrite map_map. simpl. apply Forall2_fmap_2, Forall_Forall2_diag, Forall_forall. intros e He.
  simpl. apply raw_compact_render. by eapply good_arr.
Qed.

Definition map_compact (m m' : gmap bytes bytes) : Prop := forall k, option_Forall2 raw_compact (m !! k) (m' !! k).

Lemma map_compact_insert m m' k r r' :
  map_compact m m' -> raw_compact r r' -> map_compact (<[k := r]> m) (<[k := r']> m').
Proof.
  intros Hm Hr k'. destruct (decide (k = k')) as [->|Hne]; [rewrite !lookup_insert_eq; by constructor|].
  rewrite !lookup_insert_ne by done. apply Hm.
Qed.

Lemma map_compact_empty : map_compact ∅ ∅.
Proof. intros k. rewrite lookup_empty. constructor. Qed.

Lemma good_members w ms : good (JObj w ms) ->
  Forall (fun m => good (snd m) /\ str_ok (m_key (fst m)) = true) ms.
Proof. intros Hg. apply Forall_forall. intros m Hm. by apply (good_obj w ms). Qed.

Lemma dec_raw_map_rel : compact_rel (option_Forall2 map_compact) dec_raw_map.
Proof.
  intros cur cur' j Hc Hg. destruct j as [| | | | | |w ms]; simpl; split; try done; try constructor.
  apply good_members in Hg.
  assert (H0 : map_compact (default ∅ cur) (default ∅ cur')) by (destruct Hc; [done|apply map_compact_empty]).
  revert H0. generalize (default ∅ cur), (default ∅ cur').
  induction Hg as [|m ms [Hm Hk] _ IH]; intros a a' Ha; [done|]. simpl. apply IH.
  rewrite unquote_html_escape by done. apply map_compact_insert; [done|]. by apply raw_compact_render.
Qed.

Lemma dec_struct_rel {S} (R : S -> S -> Prop) (fs : fields S) :
  Forall (fun f => compact_rel R (snd f)) fs -> compact_rel R (dec_struct fs).
Proof.
  intros Hfs cur cur' j Hc Hg. destruct j as [| | | | | |w ms]; try (by split). cbn [compact dec_struct].
  apply good_members in Hg.
  enough (H : forall ok, let x := fold_left (dec_member fs) ms (cur, ok) in
      let y := fold_left (dec_member fs) (map (fun m => (compact_mgap (fst m), compact (snd m))) ms) (cur', ok) in
      R (fst x) (fst y) /\ snd y = snd x) by apply H.
  revert cur cur' Hc. induction Hg as [|m ms [Hm Hk] _ IH]; intros cur cur' Hc ok; [by split|].
  cbn [map fold_left]. unfold dec_member at 2 4 6 8. cbn [fst snd compact_mgap m_key].
  rewrite unquote_html_escape by done. destruct (find_field fs _) as [d|] eqn:E; [|by apply IH].
  apply find_field_In in E as [n E]. rewrite Forall_forall in Hfs.
  destruct (Hfs _ E cur cur' (snd m) Hc Hm) as [HR Hok]. simpl in HR, Hok.
  destruct (d cur (snd m)) as [v b], (d cur' (compact (snd m))) as [v' b']. simpl in *. subst b'.
  by apply IH.
Qed.

Lemma unmarshal_compact {S} (R : S -> S -> Prop) (d : decoder S) z j :
  compact_rel R d -> R z z -> good j ->
  option_Forall2 R (unmarshal d z (render j)) (unmarshal d z (render (compact j))).
Proof.
  intros Hd Hz Hg. unfold unmarshal. rewrite !parse_doc_render by auto with golib.
  destruct (Hd z z j Hz Hg) as [HR Hok].
  destruct (d z j) as [v b], (d z (compact j)) as [v' b']. simpl in *. subst b'.
  destruct b; by constructor.
Qed.

(** The value of a document survives compaction. *)
Lemma to_any_compact j : wf j = true -> to_any (compact j) = to_any j.
Proof.
  induction j as [| | |l|s|w es IH|w ms IH] using json_nested_ind; intros Hwf; try done.
  - simpl. by rewrite unquote_html_escape.
  - cbn [compact to_any]. rewrite map_map. f_equal. simpl in Hwf. apply andb_true_iff in Hwf as [_ Hwf].
    rewrite forallb_Forall in Hwf. induction Hwf as [|e es He Hwf IHw]; [done|].
    apply Forall_cons in IH as [He' IH]. apply andb_true_iff in He as [_ He]. simpl.
    rewrite He' by done. f_equal. by apply IHw.
  - cbn [compact to_any]. rewrite map_map. do 2 f_equal. simpl in Hwf. apply andb_true_iff in Hwf as [_ Hwf].
    rewrite forallb_Forall in Hwf. induction Hwf as [|m ms Hm Hwf IHw]; [done|].
    apply Forall_cons in IH as [Hm' IH]. apply andb_true_iff in Hm as [Hk Hm]. simpl.
    unfold mgap_ok in Hk. zbool. rewrite Hm', unquote_html_escape by done. f_equal. by apply IHw.
Qed.

Lemma compact_idem j : wf j = true -> to_any (compact (compact j)) = to_any j.
Proof. intros H. by rewrite !to_any_compact by auto using compact_wf. Qed.

#[export] Hint Resolve raw_compact_render dec_raw_rel dec_raws_rel dec_raw_map_rel compact_rel_eq : golib.

(** Reading a raw message and its compacted form. *)
Lemma unmarshal_raw_compact {S} (R : S -> S -> Prop) (d : decoder S) z r r' :
  compact_rel R d -> R z z -> raw_compact r r' ->
  option_Forall2 R (unmarshal d z r) (unmarshal d z r').
Proof.
  intros Hd Hz [[-> ->]|(j & Hg & -> & ->)]; [constructor|]. by apply unmarshal_compact.
Qed.

Lemma raw_compact_good r r' j : raw_compact r r' -> parse_doc r' = Some j ->
  exists j0, good j0 /\ r = render j0 /\ r' = render (compact j0).
Proof. intros [[-> ->]|H] Hp; [done|exact H]. Qed.

(** ** Raw messages with one value *)

Definition same_value (r r' : bytes) : Prop :=
  exists j j', parse_doc r = Some j /\ parse_doc r' = Some j' /\ to_any j = to_any j'.

Lemma same_value_refl r : is_Some (parse_doc r) -> same_value r r.
Proof. intros [j Hj]. by exists j, j. Qed.

Lemma same_value_trans a b c : same_value a b -> same_value b c -> same_value a c.
Proof.
  intros (j1 & j2 & H1 & H2 & E1) (j3 & j4 & H3 & H4 & E2). exists j1, j4. split_and!; [done..|].
  assert (j3 = j2) by congruence. subst. by rewrite E1.
Qed.

Lemma same_value_compact j : good j -> same_value (render j) (render (compact j)).
Proof.
  intros Hg. exists j, (compact j). rewrite !parse_doc_render by auto with golib.
  split_and!; [done..|]. symmetry. apply to_any_compact, Hg.
Qed.

Lemma raw_compact_value r r' : raw_compact r r' -> r <> [] -> same_value r r'.
Proof. intros [[-> _]|(j & Hg & -> & ->)]; [done|]. intros _. by apply same_value_compact. Qed.

(** Raw messages are never empty where a document was read. *)
Definition raw_same (r r' : bytes) : Prop := (r = [] /\ r' = []) \/ same_value r r'.

Lemma raw_compact_same r r' : raw_compact r r' -> raw_same r r'.
Proof. intros [H|(j & Hg & -> & ->)]; [by left|]. right. by apply same_value_compact. Qed.

Lemma raw_same_trans a b c : raw_same a b -> raw_same b c -> raw_same a c.
Proof.
  intros [[-> ->]|H1] [[E ->]|H2]; try (by left); try by right.
  - destruct H1 as (j & j' & _ & H & _). by subst.
  - right. by eapply same_value_trans.
Qed.

#[export] Hint Resolve same_value_refl same_value_compact raw_compact_same : golib.
