(* ===== verification/RpcSummary.v ===== *)
(** * JSON-RPC metadata extraction (gateway/jsonrpc.go)

What the gateway learns from a request body: method names, raw ids and the
tool name of each [tools/call].  The last part shows that nothing else of
the parameters can influence it. *)

From S2P Require Export JsonDecode.
Local Open Scope Z_scope.
Local Open Scope go_scope.

(** ** Data *)

(** [rpcSummary].  [ToolCalls] counts in an [int]; a body of at most 1 MiB
cannot overflow it. *)
Record rpcSummary := RpcSummary {
  Methods : list bytes;
  IDs : list bytes;
  Tools : list bytes;
  ToolCalls : Z;
  ToolsListIDs : list bytes;
  ToolsCallIDs : list bytes;
  Batch : bool;
  Invalid : bool
}.

Definition zero_summary : rpcSummary := RpcSummary [] [] [] 0 [] [] false false.

(** [rpcProbe]; an absent raw message is the empty sequence. *)
Record rpcProbe := RpcProbe { Method : bytes; ID : bytes; Params : bytes }.

Definition zero_probe : rpcProbe := RpcProbe [] [] [].

Definition rpcProbe_fields : fields rpcProbe := [
  fld "method" Method (fun v p => RpcProbe v (ID p) (Params p)) dec_string;
  fld "id" ID (fun v p => RpcProbe (Method p) v (Params p)) dec_raw;
  fld "params" Params (fun v p => RpcProbe (Method p) (ID p) v) dec_raw ].

(** The anonymous struct with the one field [name]. *)
Definition name_fields : fields bytes := [fld "name" id (fun v _ => v) dec_string].

Definition unmarshal_name (raw : bytes) : option bytes := unmarshal (dec_struct name_fields) [] raw.

(** ** Operations *)

Definition hasID (p : rpcProbe) : bool := (0 <? len (ID p)) && negb (bool_decide (ID p = "null")).

(** The tool names [addProbe] appends for a [tools/call] message. *)
Definition probe_tools (p : rpcProbe) : list bytes :=
  if 0 <? len (Params p) then
    match unmarshal_name (Params p) with
    | Some n => if bool_decide (n = []) then [] else [n]
    | None => []
    end
  else [].

Definition addProbe (s : rpcSummary) (p : rpcProbe) : rpcSummary :=
  let ids := if hasID p then [ID p] else [] in
  let s := RpcSummary
    (if bool_decide (Method p = []) then Methods s else Methods s ++ [Method p])
    (IDs s ++ ids) (Tools s) (ToolCalls s)
    (if bool_decide (Method p = "tools/list") then ToolsListIDs s ++ ids else ToolsListIDs s)
    (ToolsCallIDs s) (Batch s) (Invalid s) in
  if bool_decide (Method p = "tools/call") then
    RpcSummary (Methods s) (IDs s) (Tools s ++ probe_tools p) (ToolCalls s + 1) (ToolsListIDs s)
      (ToolsCallIDs s ++ ids) (Batch s) (Invalid s)
  else s.

Definition set_Invalid (s : rpcSummary) : rpcSummary :=
  RpcSummary (Methods s) (IDs s) (Tools s) (ToolCalls s) (ToolsListIDs s) (ToolsCallIDs s)
    (Batch s) true.

Definition set_Batch (s : rpcSummary) : rpcSummary :=
  RpcSummary (Methods s) (IDs s) (Tools s) (ToolCalls s) (ToolsListIDs s) (ToolsCallIDs s)
    true (Invalid s).

Definition dec_probe : decoder rpcProbe := dec_struct rpcProbe_fields.

Definition summarizeRPC (body : bytes) : rpcSummary :=
  let s := zero_summary in
  let body := trim_space body in
  match body with
  | [] => s
  | c :: _ =>
      if Byte.eqb c x7b then
        match unmarshal dec_probe zero_probe body with
        | Some p => addProbe s p
        | None => set_Invalid s
        end
      else if Byte.eqb c x5b then
        match unmarshal (dec_list zero_probe dec_probe) None body with
        | Some (Some (p :: ps)) => fold_left addProbe (p :: ps) (set_Batch s)
        | _ => set_Invalid s
        end
      else set_Invalid s
  end.

(** ** The messages of a body

The messages the gateway reads from a body, [None] when it cannot. *)
Definition body_probes (body : bytes) : option (list rpcProbe) :=
  match trim_space body with
  | [] => Some []
  | c :: t =>
      if Byte.eqb c x7b then
        match unmarshal dec_probe zero_probe (c :: t) with Some p => Some [p] | None => None end
      else if Byte.eqb c x5b then
        match unmarshal (dec_list zero_probe dec_probe) None (c :: t) with
        | Some (Some (p :: ps)) => Some (p :: ps)
        | _ => None
        end
      else None
  end.

(** What one message contributes to the summary. *)
Definition msg_ids (p : rpcProbe) : list bytes := if hasID p then [ID p] else [].

Definition is_call (p : rpcProbe) : bool := bool_decide (Method p = "tools/call").
Definition is_list (p : rpcProbe) : bool := bool_decide (Method p = "tools/list").

Definition summary_of (ps : list rpcProbe) (batch : bool) : rpcSummary :=
  RpcSummary (filter (fun m => m <> []) (map Method ps)) (concat (map msg_ids ps))
    (concat (map probe_tools (filter is_call ps))) (len (filter is_call ps))
    (concat (map msg_ids (filter is_list ps))) (concat (map msg_ids (filter is_call ps)))
    batch false.

Lemma addProbe_summary_of ps b p :
  addProbe (summary_of ps b) p = summary_of (ps ++ [p]) b.
Proof.
  unfold addProbe, summary_of, is_call, is_list, msg_ids. cbn [Methods IDs Tools ToolCalls ToolsListIDs ToolsCallIDs Batch Invalid].
  rewrite !filter_app, !map_app, !filter_app, !concat_app. simpl.
  rewrite !filter_cons, !filter_nil.
  repeat case_bool_decide; repeat case_decide; simpl; rewrite ?app_nil_r; try done;
    unfold len; rewrite ?length_app; simpl; f_equal; try lia; try congruence.
Qed.

Lemma fold_addProbe ps qs b :
  fold_left addProbe ps (summary_of qs b) = summary_of (qs ++ ps) b.
Proof.
  revert qs. induction ps as [|p ps IH]; intros qs; simpl; [by rewrite app_nil_r|].
  rewrite addProbe_summary_of, IH, <- app_assoc. done.
Qed.

(** Each message contributes exactly its method, id and tool name, in order;
an unreadable body contributes the [Invalid] mark and nothing else. *)
Lemma summarizeRPC_spec body :
  match body_probes body with
  | Some ps => exists b, summarizeRPC body = summary_of ps b
  | None => summarizeRPC body = set_Invalid zero_summary
  end.
Proof.
  unfold body_probes, summarizeRPC. destruct (trim_space body) as [|c t]; [by exists false|].
  destruct (Byte.eqb c x7b).
  - destruct (unmarshal dec_probe zero_probe (c :: t)) as [p|]; [|done]. exists false.
    change zero_summary with (summary_of [] false). by rewrite addProbe_summary_of.
  - destruct (Byte.eqb c x5b); [|done].
    destruct (unmarshal (dec_list zero_probe dec_probe) None (c :: t)) as [[[|p ps]|]|]; try done.
    exists true. change (set_Batch zero_summary) with (summary_of [] true).
    by rewrite fold_addProbe.
Qed.

(** ** Only metadata is read

Two bodies have the same metadata when they differ only in members the
gateway does not look at, and, inside [params], only in members that are not
the tool's name. *)

Definition key_is (name : bytes) (m : mgap * json) : bool :=
  bool_decide (unquote (m_key (fst m)) = name)
  || bool_decide (fold_name name = fold_name (unquote (m_key (fst m)))).

Inductive same_params : json -> json -> Prop :=
| same_params_refl v : same_params v v
| same_params_obj w w' ms ms' :
    filter (key_is "name") ms = filter (key_is "name") ms' ->
    same_params (JObj w ms) (JObj w' ms').

Inductive same_member : mgap * json -> mgap * json -> Prop :=
| same_member_read m m' :
    unquote (m_key (fst m)) = unquote (m_key (fst m')) -> snd m = snd m' -> same_member m m'
| same_member_params m m' :
    unquote (m_key (fst m)) = unquote (m_key (fst m')) ->
    key_is "method" m = false -> key_is "id" m = false ->
    same_params (snd m) (snd m') -> same_member m m'
| same_member_other m m' :
    unquote (m_key (fst m)) = unquote (m_key (fst m')) ->
    key_is "method" m = false -> key_is "id" m = false -> key_is "params" m = false ->
    same_member m m'.

Inductive same_message : json -> json -> Prop :=
| same_message_refl v : same_message v v
| same_message_obj w w' ms ms' :
    Forall2 same_member ms ms' -> same_message (JObj w ms) (JObj w' ms').

Inductive same_metadata : json -> json -> Prop :=
| same_meta_single w w' ms ms' :
    same_message (JObj w ms) (JObj w' ms') -> same_metadata (JObj w ms) (JObj w' ms')
| same_meta_batch w w' es es' :
    Forall2 (fun e e' => same_message (snd e) (snd e')) es es' ->
    same_metadata (JArr w es) (JArr w' es').

(** *** Decoding related documents *)

Definition probe_rel (p q : rpcProbe) : Prop :=
  Method p = Method q /\ ID p = ID q /\ probe_tools p = probe_tools q.

Lemma find_field_none {S} (fs : fields S) m :
  Forall (fun f => key_is (fst f) m = false) fs -> find_field fs (unquote (m_key (fst m))) = None.
Proof.
  unfold find_field, key_is. set (k := unquote (m_key (fst m))). intros H.
  assert (E : forall p, (forall f, key_is (fst f) m = false -> p f = false) -> find p fs = None).
  { intros p Hp. induction H as [|f fs Hf H IH]; [done|]. simpl. by rewrite (Hp f Hf). }
  rewrite (E (fun f => bool_decide (fst f = k))).
  - rewrite (E (fun f => bool_decide (fold_name (fst f) = fold_name k))); [done|].
    unfold key_is. intros f Hf. by zbool.
  - unfold key_is. intros f Hf. zbool. rewrite bool_decide_eq_false in *. fold k in H0. congruence.
Qed.

Lemma fold_dec_member_filter {S} (fs : fields S) (P : mgap * json -> bool) ms acc :
  (forall m, P m = false -> find_field fs (unquote (m_key (fst m))) = None) ->
  fold_left (dec_member fs) ms acc = fold_left (dec_member fs) (filter P ms) acc.
Proof.
  intros HP. revert acc. induction ms as [|m ms IH]; intros acc; [done|].
  rewrite filter_cons. case_decide as Hm; simpl; [done|].
  rewrite IH. f_equal. unfold dec_member. rewrite HP; [done|].
  by destruct (P m); [exfalso; apply Hm|].
Qed.

Lemma unmarshal_name_same v v' :
  good v -> good v' -> same_params v v' ->
  unmarshal_name (render v) = unmarshal_name (render v').
Proof.
  intros Hg Hg' H. inversion H as [|w w' ms ms' E]; subst; [done|].
  unfold unmarshal_name, unmarshal. rewrite !parse_doc_render by done. simpl.
  assert (HP : forall m, key_is "name" m = false ->
    find_field name_fields (unquote (m_key (fst m))) = None).
  { intros m Hm. apply find_field_none. by repeat constructor. }
  rewrite (fold_dec_member_filter _ (key_is "name") ms), (fold_dec_member_filter _ (key_is "name") ms')
    by exact HP. by rewrite E.
Qed.

Lemma probe_tools_same v v' m i m' i' :
  good v -> good v' -> same_params v v' ->
  probe_tools (RpcProbe m i (render v)) = probe_tools (RpcProbe m' i' (render v')).
Proof.
  intros. unfold probe_tools. simpl. rewrite !len_render by done.
  by rewrite (unmarshal_name_same v v').
Qed.

Lemma find_probe_field k d :
  find_field rpcProbe_fields k = Some d ->
  (forall m, unquote (m_key (fst m)) = k ->
    (key_is "method" m = true /\ d = snd (nth 0 rpcProbe_fields ([], d))) \/
    (key_is "id" m = true /\ d = snd (nth 1 rpcProbe_fields ([], d))) \/
    (key_is "params" m = true /\ d = snd (nth 2 rpcProbe_fields ([], d)))).
Proof.
  intros H m <-. unfold find_field in H. cbn [find rpcProbe_fields fld fst] in H. unfold key_is.
  repeat case_bool_decide; simplify_eq/=; try congruence; auto;
    rewrite ?orb_true_r; auto.
Qed.

Definition acc_rel (x y : rpcProbe * bool) : Prop := probe_rel (fst x) (fst y) /\ snd x = snd y.

Lemma dec_member_same x y m m' :
  acc_rel x y -> same_member m m' -> good (snd m) -> good (snd m') ->
  acc_rel (dec_member rpcProbe_fields x m) (dec_member rpcProbe_fields y m').
Proof.
  intros [(HM & HI & HT) Hok] Hm Hg Hg'. unfold dec_member.
  assert (Hk : unquote (m_key (fst m)) = unquote (m_key (fst m'))) by by inversion Hm.
  rewrite <- Hk. destruct (find_field rpcProbe_fields (unquote (m_key (fst m)))) as [d|] eqn:E;
    [|done].
  assert (Hread : key_is "method" m = true \/ key_is "id" m = true -> snd m = snd m').
  { intros Hr. inversion Hm; try done; destruct Hr; congruence. }
  assert (Hsame : key_is "params" m = true -> same_params (snd m) (snd m')).
  { intros Hr. inversion Hm as [? ? _ Hv| |]; subst; [rewrite Hv; constructor|done|congruence]. }
  destruct (find_probe_field _ _ E m eq_refl) as [[K ->]|[[K ->]|[K ->]]]; cbn [rpcProbe_fields nth fld snd].
  - rewrite HM, (Hread (or_introl K)), Hok.
    destruct (dec_string (Method (fst y)) (snd m')) as [v ok]. by split.
  - rewrite (Hread (or_intror K)), Hok. by split.
  - simpl. rewrite Hok. split; [|done]. split_and!; [done|done|]. simpl.
    by apply probe_tools_same, Hsame.
Qed.

Lemma dec_probe_same w w' ms ms' :
  Forall2 same_member ms ms' -> good (JObj w ms) -> good (JObj w' ms') ->
  acc_rel (dec_probe zero_probe (JObj w ms)) (dec_probe zero_probe (JObj w' ms')).
Proof.
  intros H Hg Hg'. simpl.
  assert (Hs : Forall2 (fun m m' => same_member m m' /\ good (snd m) /\ good (snd m')) ms ms').
  { apply Forall2_same_length_lookup_2; [by eapply Forall2_length|].
    intros i m m' Hm Hm'. split_and!; [by eapply Forall2_lookup_lr|..].
    - eapply good_obj; [exact Hg|]. by eapply list_elem_of_lookup_2.
    - eapply good_obj; [exact Hg'|]. by eapply list_elem_of_lookup_2. }
  clear H Hg Hg'. assert (Hacc : acc_rel (zero_probe, true) (zero_probe, true)) by by split.
  revert Hacc. generalize (zero_probe, true) at 1 3 as x. generalize (zero_probe, true) as y.
  induction Hs as [|m m' ms ms' (Hm & Hg & Hg') Hs IH]; intros y x Hxy; [done|]. simpl.
  apply IH. by apply dec_member_same.
Qed.

Lemma dec_message_same v v' :
  same_message v v' -> good v -> good v' ->
  acc_rel (dec_probe zero_probe v) (dec_probe zero_probe v').
Proof.
  intros H Hg Hg'. inversion H; subst; [by split|]. by apply dec_probe_same.
Qed.

Lemma dec_each_same es es' :
  Forall2 (fun e e' => same_message (snd e) (snd e') /\ good (snd e) /\ good (snd e')) es es' ->
  Forall2 probe_rel (fst (dec_each zero_probe dec_probe [] es)) (fst (dec_each zero_probe dec_probe [] es'))
  /\ snd (dec_each zero_probe dec_probe [] es) = snd (dec_each zero_probe dec_probe [] es').
Proof.
  induction 1 as [|e e' es es' (Hm & Hg & Hg') H [IH1 IH2]]; [by split|]. cbn [dec_each hd tl].
  destruct (dec_message_same _ _ Hm Hg Hg') as [Hp Hok].
  destruct (dec_probe zero_probe (snd e)) as [p ok], (dec_probe zero_probe (snd e')) as [p' ok'].
  destruct (dec_each zero_probe dec_probe [] es) as [ps oks], (dec_each zero_probe dec_probe [] es') as [ps' oks'].
  simpl in *. subst. by split; [constructor|].
Qed.

Lemma summary_of_rel ps qs b : Forall2 probe_rel ps qs -> summary_of ps b = summary_of qs b.
Proof.
  intros H. unfold summary_of.
  assert (E1 : map Method ps = map Method qs /\ concat (map msg_ids ps) = concat (map msg_ids qs)).
  { induction H as [|p q ps qs (HM & HI & HT) H [IH1 IH2]]; [done|]. simpl.
    rewrite IH1, IH2, HM. unfold msg_ids, hasID. by rewrite HI. }
  assert (E2 : forall t, concat (map msg_ids (filter (fun p => bool_decide (Method p = t)) ps))
                  = concat (map msg_ids (filter (fun p => bool_decide (Method p = t)) qs))).
  { clear E1. intros t. induction H as [|p q ps qs (HM & HI & HT) H IH]; [done|].
    rewrite !filter_cons, HM. case_decide; [|done]. simpl. rewrite IH.
    unfold msg_ids, hasID. by rewrite HI. }
  assert (E3 : concat (map probe_tools (filter is_call ps)) = concat (map probe_tools (filter is_call qs))
               /\ length (filter is_call ps) = length (filter is_call qs)).
  { clear E1 E2. induction H as [|p q ps qs (HM & HI & HT) H [IH1 IH2]]; [done|].
    assert (Hc : is_call p = is_call q) by (unfold is_call; by rewrite HM).
    rewrite !filter_cons. destruct (decide (is_call p)) as [Hp|Hp], (decide (is_call q)) as [Hq|Hq];
      try (rewrite Hc in Hp; by destruct (Hq Hp) || by destruct (Hp Hq)); [|done].
    simpl. by rewrite IH1, IH2, HT. }
  destruct E1 as [-> ->], E3 as [-> E3]. unfold len. rewrite E3. f_equal; apply E2.
Qed.

Lemma trim_space_obj w ms : trim_space (render (JObj w ms)) = render (JObj w ms).
Proof.
  cbn [render]. rewrite (app_assoc w). by apply (trim_space_id x7b _ x7d).
Qed.

Lemma trim_space_arr w es : trim_space (render (JArr w es)) = render (JArr w es).
Proof.
  cbn [render]. rewrite (app_assoc w). by apply (trim_space_id x5b _ x5d).
Qed.

Lemma summary_same_metadata j j' :
  good j -> good j' -> same_metadata j j' -> summarizeRPC (render j) = summarizeRPC (render j').
Proof.
  intros Hg Hg' H. inversion H as [w w' ms ms' Hm|w w' es es' He]; subst; unfold summarizeRPC.
  - rewrite !trim_space_obj. pose proof (dec_message_same _ _ Hm Hg Hg') as [Hp Hok].
    unfold unmarshal. rewrite !parse_doc_render by done. cbn [render app].
    destruct (dec_probe zero_probe (JObj w ms)) as [p ok], (dec_probe zero_probe (JObj w' ms')) as [p' ok'].
    simpl in *. subst ok'. destruct ok; [|done].
    change zero_summary with (summary_of [] false). rewrite !addProbe_summary_of.
    apply (summary_of_rel [p] [p']). by constructor.
  - rewrite !trim_space_arr. unfold unmarshal. rewrite !parse_doc_render by done. cbn [render app dec_list default].
    destruct (dec_each_same es es') as [Hps Hok].
    { apply Forall2_same_length_lookup_2; [by eapply Forall2_length|].
      intros i e e' Hi Hi'. split_and!; [by eapply (Forall2_lookup_lr _ _ _ _ _ _ He)|..].
      - eapply good_arr; [exact Hg|]. by eapply list_elem_of_lookup_2.
      - eapply good_arr; [exact Hg'|]. by eapply list_elem_of_lookup_2. }
    destruct (dec_each zero_probe dec_probe [] es) as [ps oks], (dec_each zero_probe dec_probe [] es') as [ps' oks'].
    simpl in *. subst oks'. destruct oks; [|done].
    destruct Hps as [|p p' ps ps' Hp Hps]; [done|].
    change (fold_left addProbe (p :: ps) (summary_of [] true)
      = fold_left addProbe (p' :: ps') (summary_of [] true)).
    rewrite !fold_addProbe. apply summary_of_rel. by constructor.
Qed.
