(* ===== verification/Config.v ===== *)
(** * Configuration (gateway/config.go)

The configuration records with their JSON decoding, [Validate], the URL
check, [Load] and the [--upstream] flag. *)

From S2P Require Export JsonDecode Url.
Local Open Scope Z_scope.
Local Open Scope go_scope.

(** ** Data *)

Record RateLimitConfig := MkRateLimit {
  RequestsPerSecond : float64;
  Burst : Z;
  PerSession : bool
}.

Record LockConfig := MkLockConfig { File : bytes; Server : bytes; Mode : bytes }.

Record PromptProofConfig := MkPromptProof {
  Enabled : bool;
  Binary : bytes;
  Threshold : bytes;
  Action : bytes;
  SuspiciousAt : Z;
  DangerousAt : Z;
  Pool : Z
}.

Record Upstream := MkUpstream {
  Name : bytes;
  URL : bytes;
  HeaderTimeoutSeconds : Z;
  RateLimit : option RateLimitConfig;
  ToolsAllow : list bytes;
  ToolsDeny : list bytes;
  ToolsLock : option LockConfig;
  PromptProof : option PromptProofConfig;
  AuthorizationServers : list bytes;
  ResourceName : bytes
}.

Record AuditConfig := MkAudit { Path : bytes }.

Record Config := MkConfig {
  Listen : bytes;
  PublicBaseURL : bytes;
  AuditCfg : AuditConfig;
  Upstreams : list Upstream
}.

Definition zero_rate : RateLimitConfig := MkRateLimit f_zero 0 false.
Definition zero_lock : LockConfig := MkLockConfig [] [] [].
Definition zero_pp : PromptProofConfig := MkPromptProof false [] [] [] 0 0 0.
Definition zero_upstream : Upstream := MkUpstream [] [] 0 None [] [] None None [] [].
Definition zero_config : Config := MkConfig [] [] (MkAudit []) [].

Definition DefaultListen : bytes := "127.0.0.1:8385".

(** ** Decoding *)

Definition dec_strings : decoder (list bytes) := fun cur j =>
  let '(v, ok) := dec_list [] dec_string (Some cur) j in (default [] v, ok).

Definition rate_fields : fields RateLimitConfig := [
  fld "requests_per_second" RequestsPerSecond (fun v c => MkRateLimit v (Burst c) (PerSession c)) dec_float;
  fld "burst" Burst (fun v c => MkRateLimit (RequestsPerSecond c) v (PerSession c)) dec_int;
  fld "per_session" PerSession (fun v c => MkRateLimit (RequestsPerSecond c) (Burst c) v) dec_bool ].

Definition lock_fields : fields LockConfig := [
  fld "file" File (fun v c => MkLockConfig v (Server c) (Mode c)) dec_string;
  fld "server" Server (fun v c => MkLockConfig (File c) v (Mode c)) dec_string;
  fld "mode" Mode (fun v c => MkLockConfig (File c) (Server c) v) dec_string ].

Definition pp_fields : fields PromptProofConfig := [
  fld "enabled" Enabled (fun v c => MkPromptProof v (Binary c) (Threshold c) (Action c) (SuspiciousAt c) (DangerousAt c) (Pool c)) dec_bool;
  fld "binary" Binary (fun v c => MkPromptProof (Enabled c) v (Threshold c) (Action c) (SuspiciousAt c) (DangerousAt c) (Pool c)) dec_string;
  fld "threshold" Threshold (fun v c => MkPromptProof (Enabled c) (Binary c) v (Action c) (SuspiciousAt c) (DangerousAt c) (Pool c)) dec_string;
  fld "action" Action (fun v c => MkPromptProof (Enabled c) (Binary c) (Threshold c) v (SuspiciousAt c) (DangerousAt c) (Pool c)) dec_string;
  fld "suspicious_at" SuspiciousAt (fun v c => MkPromptProof (Enabled c) (Binary c) (Threshold c) (Action c) v (DangerousAt c) (Pool c)) dec_int;
  fld "dangerous_at" DangerousAt (fun v c => MkPromptProof (Enabled c) (Binary c) (Threshold c) (Action c) (SuspiciousAt c) v (Pool c)) dec_int;
  fld "pool" Pool (fun v c => MkPromptProof (Enabled c) (Binary c) (Threshold c) (Action c) (SuspiciousAt c) (DangerousAt c) v) dec_int ].

Definition upstream_fields : fields Upstream := [
  fld "name" Name (fun v u => MkUpstream v (URL u) (HeaderTimeoutSeconds u) (RateLimit u) (ToolsAllow u) (ToolsDeny u) (ToolsLock u) (PromptProof u) (AuthorizationServers u) (ResourceName u)) dec_string;
  fld "url" URL (fun v u => MkUpstream (Name u) v (HeaderTimeoutSeconds u) (RateLimit u) (ToolsAllow u) (ToolsDeny u) (ToolsLock u) (PromptProof u) (AuthorizationServers u) (ResourceName u)) dec_string;
  fld "header_timeout_seconds" HeaderTimeoutSeconds (fun v u => MkUpstream (Name u) (URL u) v (RateLimit u) (ToolsAllow u) (ToolsDeny u) (ToolsLock u) (PromptProof u) (AuthorizationServers u) (ResourceName u)) dec_int;
  fld "rate_limit" RateLimit (fun v u => MkUpstream (Name u) (URL u) (HeaderTimeoutSeconds u) v (ToolsAllow u) (ToolsDeny u) (ToolsLock u) (PromptProof u) (AuthorizationServers u) (ResourceName u)) (dec_ptr zero_rate (dec_struct_strict rate_fields));
  fld "tools_allow" ToolsAllow (fun v u => MkUpstream (Name u) (URL u) (HeaderTimeoutSeconds u) (RateLimit u) v (ToolsDeny u) (ToolsLock u) (PromptProof u) (AuthorizationServers u) (ResourceName u)) dec_strings;
  fld "tools_deny" ToolsDeny (fun v u => MkUpstream (Name u) (URL u) (HeaderTimeoutSeconds u) (RateLimit u) (ToolsAllow u) v (ToolsLock u) (PromptProof u) (AuthorizationServers u) (ResourceName u)) dec_strings;
  fld "tools_lock" ToolsLock (fun v u => MkUpstream (Name u) (URL u) (HeaderTimeoutSeconds u) (RateLimit u) (ToolsAllow u) (ToolsDeny u) v (PromptProof u) (AuthorizationServers u) (ResourceName u)) (dec_ptr zero_lock (dec_struct_strict lock_fields));
  fld "promptproof" PromptProof (fun v u => MkUpstream (Name u) (URL u) (HeaderTimeoutSeconds u) (RateLimit u) (ToolsAllow u) (ToolsDeny u) (ToolsLock u) v (AuthorizationServers u) (ResourceName u)) (dec_ptr zero_pp (dec_struct_strict pp_fields));
  fld "authorization_servers" AuthorizationServers (fun v u => MkUpstream (Name u) (URL u) (HeaderTimeoutSeconds u) (RateLimit u) (ToolsAllow u) (ToolsDeny u) (ToolsLock u) (PromptProof u) v (ResourceName u)) dec_strings;
  fld "resource_name" ResourceName (fun v u => MkUpstream (Name u) (URL u) (HeaderTimeoutSeconds u) (RateLimit u) (ToolsAllow u) (ToolsDeny u) (ToolsLock u) (PromptProof u) (AuthorizationServers u) v) dec_string ].

Definition audit_fields : fields AuditConfig := [fld "path" Path (fun v _ => MkAudit v) dec_string].

Definition dec_upstreams : decoder (list Upstream) := fun cur j =>
  let '(v, ok) := dec_list zero_upstream (dec_struct_strict upstream_fields) (Some cur) j in (default [] v, ok).

Definition config_fields : fields Config := [
  fld "listen" Listen (fun v c => MkConfig v (PublicBaseURL c) (AuditCfg c) (Upstreams c)) dec_string;
  fld "public_base_url" PublicBaseURL (fun v c => MkConfig (Listen c) v (AuditCfg c) (Upstreams c)) dec_string;
  fld "audit" AuditCfg (fun v c => MkConfig (Listen c) (PublicBaseURL c) v (Upstreams c)) (dec_struct_strict audit_fields);
  fld "upstreams" Upstreams (fun v c => MkConfig (Listen c) (PublicBaseURL c) (AuditCfg c) v) dec_upstreams ].

(** ** Validation *)

(** [nameRE]: [^[A-Za-z0-9][A-Za-z0-9._-]*$]. *)
Definition name_head (b : byte) : bool := is_alpha b || is_digit b.
Definition name_tail (b : byte) : bool := name_head b || one_of "._-" b.

Definition nameRE (s : bytes) : bool :=
  match s with [] => false | c :: t => name_head c && forallb name_tail t end.

Section validate.
Context {L : GoLib}.

Definition validateHTTPURL (raw : bytes) : result unit :=
  parsed ← wrap "invalid url: " (url_parse raw);
  _ ← check (negb (bool_decide (Scheme parsed = "http")) && negb (bool_decide (Scheme parsed = "https")))
        (ENew ("url scheme must be http or https, got " ++ quote (Scheme parsed)));
  _ ← check (bool_decide (Host parsed = [])) (ENew "url has no host");
  check (negb (bool_decide (RawQuery parsed = [])) || negb (bool_decide (Fragment parsed = [])))
    (ENew "url must not contain a query string or fragment").

Definition up_err (u : Upstream) (msg : bytes) : goerror := ENew ("upstream " ++ quote (Name u) ++ msg).

Definition validate_rate (u : Upstream) : result unit :=
  match RateLimit u with
  | None => mret tt
  | Some r =>
      _ ← check (fleb (RequestsPerSecond r) f_zero)
            (up_err u ": rate_limit.requests_per_second must be > 0");
      check (Burst r <? 1) (up_err u ": rate_limit.burst must be >= 1")
  end.

Definition blank_entry (l : list bytes) : bool := existsb (fun t => bool_decide (trim_space t = [])) l.

Definition validate_lock (u : Upstream) : result unit :=
  match ToolsLock u with
  | None => mret tt
  | Some lc =>
      _ ← check (bool_decide (trim_space (File lc) = [])) (up_err u ": tools_lock.file is required");
      check (negb (existsb (fun m => bool_decide (Mode lc = m)) [[]; "enforce"; "warn"]))
        (up_err u (": tools_lock.mode must be " ++ [x22] ++ "enforce" ++ [x22] ++ " or " ++ [x22] ++ "warn"
                   ++ [x22] ++ ", got " ++ quote (Mode lc)))
  end.

Definition validate_pp (u : Upstream) : result unit :=
  match PromptProof u with
  | None => mret tt
  | Some pp =>
      _ ← check (negb (existsb (fun m => bool_decide (Threshold pp = m)) [[]; "suspicious"; "dangerous"]))
            (up_err u (": promptproof.threshold must be " ++ [x22] ++ "suspicious" ++ [x22] ++ " or " ++ [x22]
                       ++ "dangerous" ++ [x22] ++ ", got " ++ quote (Threshold pp)));
      _ ← check (negb (existsb (fun m => bool_decide (Action pp = m)) [[]; "block"; "flag"]))
            (up_err u (": promptproof.action must be " ++ [x22] ++ "block" ++ [x22] ++ " or " ++ [x22] ++ "flag"
                       ++ [x22] ++ ", got " ++ quote (Action pp)));
      _ ← check ((SuspiciousAt pp <? 0) || (DangerousAt pp <? 0))
            (up_err u ": promptproof score thresholds must be >= 0");
      check (Pool pp <? 0) (up_err u ": promptproof.pool must be >= 0")
  end.

Definition validate_servers (u : Upstream) : result unit :=
  foldM (fun _ a => wrap ("upstream " ++ quote (Name u) ++ ": authorization server " ++ quote a ++ ": ")
                      (validateHTTPURL a)) tt (AuthorizationServers u).

(** One iteration of the loop over the upstreams: the names seen so far and
the index are the loop's state. *)
Definition validate_upstream (st : gset bytes * Z) (u : Upstream) : result (gset bytes * Z) :=
  let '(seen, i) := st in
  _ ← check (negb (nameRE (Name u)))
        (ENew ("upstream " ++ itoa i ++ ": name " ++ quote (Name u) ++ " must match ^[A-Za-z0-9][A-Za-z0-9._-]*$"));
  let key := to_lower (Name u) in
  _ ← check (bool_decide (key ∈ seen)) (ENew ("duplicate upstream name " ++ quote (Name u)));
  _ ← wrap ("upstream " ++ quote (Name u) ++ ": ") (validateHTTPURL (URL u));
  _ ← check (HeaderTimeoutSeconds u <? 0) (up_err u ": header_timeout_seconds must be >= 0");
  _ ← validate_rate u;
  _ ← check ((0 <? len (ToolsAllow u)) && (0 <? len (ToolsDeny u)))
        (up_err u ": tools_allow and tools_deny are mutually exclusive");
  _ ← check (blank_entry (ToolsAllow u)) (up_err u ": tools_allow entries must not be empty");
  _ ← check (blank_entry (ToolsDeny u)) (up_err u ": tools_deny entries must not be empty");
  _ ← validate_lock u;
  _ ← validate_pp u;
  _ ← validate_servers u;
  mret ({[key]} ∪ seen, i + 1).

(** [Validate] fills in the listen address before it checks anything, so the
configuration it leaves behind has it even when the check fails. *)
Definition Validate (c : Config) : Config * result unit :=
  let c := if bool_decide (Listen c = [])
           then MkConfig DefaultListen (PublicBaseURL c) (AuditCfg c) (Upstreams c) else c in
  (c,
   _ ← (if bool_decide (PublicBaseURL c = []) then mret tt
        else wrap "public_base_url: " (validateHTTPURL (PublicBaseURL c)));
   _ ← check (bool_decide (Upstreams c = [])) (ENew "at least one upstream is required");
   _ ← foldM validate_upstream (∅, 0) (Upstreams c);
   mret tt).

(** ** Loading

The decoder reads the first JSON value of the file; [read] is the outcome of
opening and reading it. *)
Definition Load (path : bytes) (read : result bytes) : result Config :=
  data ← read;
  let pre := "config " ++ path ++ ": " in
  match parse_prefix data with
  | None => Err (EWrap pre (EDecode "Config" data))
  | Some (j, _) =>
      let '(cfg, ok) := dec_struct_strict config_fields zero_config j in
      if negb ok then Err (EWrap pre (EDecode "Config" data))
      else
        let '(cfg, err) := Validate cfg in
        _ ← wrap pre err; mret cfg
  end.

(** [ParseUpstreamFlag]. *)
Definition ParseUpstreamFlag (v : bytes) : result Upstream :=
  let '(name, rawURL, ok) := cut v "=" in
  if negb ok || bool_decide (name = []) || bool_decide (rawURL = [])
  then Err (ENew ("upstream flag " ++ quote v ++ ": want name=url"))
  else Ok (MkUpstream name rawURL 0 None [] [] None None [] []).

End validate.

(** ** What validation establishes *)

Section validated.
Context {L : GoLib}.

Definition url_ok (raw : bytes) : Prop :=
  exists u, url_parse raw = Ok u /\ (Scheme u = "http" \/ Scheme u = "https") /\
    Host u <> [] /\ RawQuery u = [] /\ Fragment u = [].

(** The documented constraints on a limit, and those of the check, which NaN
passes. *)
Definition rate_ok (r : RateLimitConfig) : Prop :=
  fltb f_zero (RequestsPerSecond r) = true /\ 1 <= Burst r.

Definition rate_taken (r : RateLimitConfig) : Prop :=
  fleb (RequestsPerSecond r) f_zero = false /\ 1 <= Burst r.

Definition lock_ok (l : LockConfig) : Prop :=
  trim_space (File l) <> [] /\ Mode l ∈ ([[]; "enforce"; "warn"] : list bytes).

Definition pp_ok (p : PromptProofConfig) : Prop :=
  Threshold p ∈ ([[]; "suspicious"; "dangerous"] : list bytes) /\
  Action p ∈ ([[]; "block"; "flag"] : list bytes) /\
  0 <= SuspiciousAt p /\ 0 <= DangerousAt p /\ 0 <= Pool p.

Definition on_some {A} (P : A -> Prop) (o : option A) : Prop := forall a, o = Some a -> P a.

(** What is asked of an upstream and of a configuration, with some constraint
on its limits. *)
Record upstream_fits (P : RateLimitConfig -> Prop) (u : Upstream) : Prop := {
  ok_name : nameRE (Name u) = true;
  ok_url : url_ok (URL u);
  ok_timeout : 0 <= HeaderTimeoutSeconds u;
  ok_rate : on_some P (RateLimit u);
  ok_exclusive : ToolsAllow u = [] \/ ToolsDeny u = [];
  ok_allow : Forall (fun t => trim_space t <> []) (ToolsAllow u);
  ok_deny : Forall (fun t => trim_space t <> []) (ToolsDeny u);
  ok_lock : on_some lock_ok (ToolsLock u);
  ok_pp : on_some pp_ok (PromptProof u);
  ok_servers : Forall url_ok (AuthorizationServers u)
}.

Definition route_key (u : Upstream) : bytes := to_lower (Name u).

Record config_fits (P : RateLimitConfig -> Prop) (c : Config) : Prop := {
  ok_base : PublicBaseURL c = [] \/ url_ok (PublicBaseURL c);
  ok_some_upstream : Upstreams c <> [];
  ok_upstreams : Forall (upstream_fits P) (Upstreams c);
  ok_distinct : NoDup (map route_key (Upstreams c))
}.

(** Documented, and accepted; for a configuration without NaN they are one. *)
Definition config_ok : Config -> Prop := config_fits rate_ok.
Definition config_taken : Config -> Prop := config_fits rate_taken.

Definition rate_number (u : Upstream) : Prop := on_some (fun r => f_number (RequestsPerSecond r)) (RateLimit u).
Definition rates_numbers (c : Config) : Prop := Forall rate_number (Upstreams c).

Lemma config_fits_impl (P Q : RateLimitConfig -> Prop) c :
  (forall u r, u ∈ Upstreams c -> RateLimit u = Some r -> P r -> Q r) -> config_fits P c -> config_fits Q c.
Proof.
  intros H [H1 H2 H3 H4]. constructor; [done..| |done]. rewrite Forall_forall in *. intros u Hu.
  destruct (H3 u Hu). constructor; try done. intros r Hr. eauto.
Qed.

Lemma rate_ok_number r : rate_ok r -> f_number (RequestsPerSecond r).
Proof.
  unfold rate_ok, f_number, fltb. rewrite FloatAxioms.ltb_spec. intros [H _] E. by rewrite E in H.
Qed.

Lemma config_ok_taken c : config_ok c -> config_taken c.
Proof.
  apply config_fits_impl. intros u r _ _ Hr. pose proof (rate_ok_number r Hr) as Hn. destruct Hr as [H1 H2].
  split; [|done]. by apply f_above_zero.
Qed.

Lemma config_taken_ok c : rates_numbers c -> config_taken c -> config_ok c.
Proof.
  intros Hn. apply config_fits_impl. intros u r Hu Hr [H1 H2]. split; [|done]. apply f_above_zero; [|done].
  unfold rates_numbers in Hn. rewrite Forall_forall in Hn. by apply (Hn u Hu).
Qed.

Lemma bind_unit_ok {B} (r : result unit) (k : result B) b :
  (r ≫= fun _ => k) = Ok b <-> r = Ok tt /\ k = Ok b.
Proof. destruct r as [[]|e]; simpl; [tauto|]. split; [done|by intros [? ?]]. Qed.

Lemma validateHTTPURL_ok raw : validateHTTPURL raw = Ok tt <-> url_ok raw.
Proof.
  unfold validateHTTPURL, url_ok. rewrite result_bind_ok. setoid_rewrite wrap_ok.
  setoid_rewrite bind_unit_ok. setoid_rewrite bind_unit_ok. setoid_rewrite check_ok.
  assert (E : forall u, ((negb (bool_decide (Scheme u = "http")) && negb (bool_decide (Scheme u = "https"))) = false
      /\ bool_decide (Host u = []) = false
      /\ (negb (bool_decide (RawQuery u = [])) || negb (bool_decide (Fragment u = []))) = false)
    <-> (Scheme u = "http" \/ Scheme u = "https") /\ Host u <> [] /\ RawQuery u = [] /\ Fragment u = []).
  { intros u. rewrite andb_false_iff, orb_false_iff, !negb_false_iff, !bool_decide_eq_true, bool_decide_eq_false.
    tauto. }
  setoid_rewrite E. done.
Qed.

Lemma existsb_mem (x : bytes) l : existsb (fun m => bool_decide (x = m)) l = true <-> x ∈ l.
Proof.
  rewrite existsb_Exists, Exists_exists. setoid_rewrite bool_decide_eq_true. naive_solver.
Qed.

Lemma validate_rate_ok u : validate_rate u = Ok tt <-> on_some rate_taken (RateLimit u).
Proof.
  unfold validate_rate, on_some. destruct (RateLimit u) as [r|]; [|by split].
  rewrite bind_unit_ok, !check_ok, Z.ltb_ge. unfold rate_taken. split; [by intros ? ? [= <-]|naive_solver].
Qed.

Lemma validate_lock_ok u : validate_lock u = Ok tt <-> on_some lock_ok (ToolsLock u).
Proof.
  unfold validate_lock, on_some. destruct (ToolsLock u) as [l|]; [|by split].
  rewrite bind_unit_ok, !check_ok, negb_false_iff, existsb_mem, bool_decide_eq_false.
  unfold lock_ok. split; [by intros ? ? [= <-]|naive_solver].
Qed.

Lemma validate_pp_ok u : validate_pp u = Ok tt <-> on_some pp_ok (PromptProof u).
Proof.
  unfold validate_pp, on_some. destruct (PromptProof u) as [p|]; [|by split].
  rewrite !bind_unit_ok, !check_ok, !negb_false_iff, !existsb_mem, orb_false_iff, !Z.ltb_ge.
  unfold pp_ok. split; [intros ? ? [= <-]; tauto|intros H; specialize (H p eq_refl); tauto].
Qed.

Lemma foldM_unit_ok {A} (f : A -> result unit) l :
  foldM (fun _ a => f a) tt l = Ok tt <-> Forall (fun a => f a = Ok tt) l.
Proof.
  induction l as [|x l IH]; simpl; [by split|]. rewrite Forall_cons, <- IH.
  destruct (f x) as [[]|e]; naive_solver.
Qed.

Lemma validate_servers_ok u : validate_servers u = Ok tt <-> Forall url_ok (AuthorizationServers u).
Proof.
  unfold validate_servers. rewrite foldM_unit_ok. setoid_rewrite wrap_ok.
  by setoid_rewrite validateHTTPURL_ok.
Qed.

Lemma blank_entry_ok l : blank_entry l = false <-> Forall (fun t => trim_space t <> []) l.
Proof.
  unfold blank_entry. induction l as [|x l IH]; simpl; [by split|].
  rewrite orb_false_iff, bool_decide_eq_false, Forall_cons, IH. done.
Qed.

Lemma exclusive_ok {A B} (l : list A) (k : list B) : ((0 <? len l) && (0 <? len k)) = false <-> l = [] \/ k = [].
Proof. destruct l, k; simpl; naive_solver. Qed.

Lemma validate_upstream_ok seen i u st :
  validate_upstream (seen, i) u = Ok st <->
  upstream_fits rate_taken u /\ route_key u ∉ seen /\ st = (({[route_key u]} ∪ seen), i + 1).
Proof.
  unfold validate_upstream. rewrite !bind_unit_ok, !check_ok, wrap_ok, validateHTTPURL_ok, validate_rate_ok,
    exclusive_ok, !blank_entry_ok, validate_lock_ok, validate_pp_ok, validate_servers_ok,
    negb_false_iff, bool_decide_eq_false, Z.ltb_ge.
  unfold mret, result_ret, route_key. split.
  - intros (?&?&?&?&?&?&?&?&?&?&?&[= <-]). by split_and!.
  - intros ([] & ? & ->). by split_and!.
Qed.

Lemma validate_upstreams_ok l seen i :
  (exists st, foldM validate_upstream (seen, i) l = Ok st) <->
  Forall (upstream_fits rate_taken) l /\ NoDup (map route_key l) /\ Forall (fun u => route_key u ∉ seen) l.
Proof.
  revert seen i. induction l as [|u l IH]; intros seen i; cbn [foldM map].
  - split; [intros _; by repeat constructor|eauto].
  - rewrite !Forall_cons, NoDup_cons. destruct (validate_upstream (seen, i) u) as [st|e] eqn:E.
    + apply validate_upstream_ok in E as (Hu & Hs & ->). rewrite IH.
      assert (Hin : Forall (fun v => route_key v ∉ ({[route_key u]} ∪ seen : gset bytes)) l <->
                    route_key u ∉ map route_key l /\ Forall (fun v => route_key v ∉ seen) l).
      { rewrite !Forall_forall. setoid_rewrite list_elem_of_fmap. set_solver. }
      rewrite Hin. tauto.
    + split; [by intros [? ?]|]. intros ([Hu _] & _ & Hs & _).
      assert (validate_upstream (seen, i) u = Ok ({[route_key u]} ∪ seen, i + 1)) by
        (by apply validate_upstream_ok). congruence.
Qed.

Definition with_listen (c : Config) : Config :=
  if bool_decide (Listen c = []) then MkConfig DefaultListen (PublicBaseURL c) (AuditCfg c) (Upstreams c) else c.

Lemma Validate_fst c : fst (Validate c) = with_listen c.
Proof. done. Qed.

Lemma with_listen_upstreams cfg : Upstreams (with_listen cfg) = Upstreams cfg.
Proof. unfold with_listen. by case_bool_decide. Qed.

(** What [Validate] accepts. *)
Lemma Validate_accepts c : snd (Validate c) = Ok tt <-> config_taken c.
Proof.
  unfold Validate. change (if bool_decide (Listen c = []) then _ else c) with (with_listen c). simpl.
  assert (HB : PublicBaseURL (with_listen c) = PublicBaseURL c /\ Upstreams (with_listen c) = Upstreams c).
  { unfold with_listen. by case_bool_decide. }
  destruct HB as [-> ->]. rewrite !bind_unit_ok, check_ok, bool_decide_eq_false, result_bind_ok.
  assert (Hb : (if bool_decide (PublicBaseURL c = []) then mret tt
      else wrap "public_base_url: " (validateHTTPURL (PublicBaseURL c))) = Ok tt
      <-> PublicBaseURL c = [] \/ url_ok (PublicBaseURL c)).
  { case_bool_decide as Hd; [by split; [left|]|]. rewrite wrap_ok, validateHTTPURL_ok. tauto. }
  rewrite Hb. split.
  - intros (? & ? & st & Hst & _). destruct (proj1 (validate_upstreams_ok _ _ _) (ex_intro _ st Hst)) as (? & ? & _).
    by constructor.
  - intros [? ? ? ?]. split_and!; [done..|].
    destruct (proj2 (validate_upstreams_ok (Upstreams c) ∅ 0)) as [st Hst]; [|by exists st].
    split_and!; [done..|]. apply Forall_forall. set_solver.
Qed.

(** *** What decoding establishes *)

Lemma find_field_elem {S} (fs : fields S) k d : find_field fs k = Some d -> exists n, (n, d) ∈ fs.
Proof.
  unfold find_field. destruct (find _ fs) as [[n d']|] eqn:E.
  - intros [= <-]. apply find_some in E as [Hin _]. exists n. by apply list_elem_of_In.
  - destruct (find (fun f => bool_decide (fold_name _ = _)) fs) as [[n d']|] eqn:E'; [|done].
    intros [= <-]. apply find_some in E' as [Hin _]. exists n. by apply list_elem_of_In.
Qed.

(** An invariant of a struct that every field's decoder keeps. *)
Lemma dec_strict_inv {S} (P : S -> Prop) (fs : fields S) :
  Forall (fun f => forall s j, P s -> P (fst (snd f s j))) fs ->
  forall cur j, P cur -> P (fst (dec_struct_strict fs cur j)).
Proof.
  intros Hf cur [| | |l|s|w es|w ms] Hc; try done. cbn [dec_struct_strict]. generalize true. revert cur Hc.
  induction ms as [|m ms IH]; intros cur Hc ok; [done|]. cbn [fold_left]. unfold dec_member_strict at 2, dec_member.
  destruct (find_field fs (unquote (m_key (fst m)))) as [d|] eqn:E; [|by apply IH].
  apply find_field_elem in E as [n Hn]. rewrite Forall_forall in Hf. specialize (Hf (n, d) Hn cur (snd m) Hc).
  cbn [fst snd] in *. destruct (d cur (snd m)) as [s' ok']. by apply IH.
Qed.

Lemma dec_each_inv {X} (P : X -> Prop) zero (d : decoder X) :
  P zero -> (forall x j, P x -> P (fst (d x j))) ->
  forall es olds, Forall P olds -> Forall P (fst (dec_each zero d olds es)).
Proof.
  intros Hz Hd. induction es as [|e es IH]; intros olds Ho; cbn [dec_each fst]; [constructor|].
  pose proof (Hd (hd zero olds) (snd e)) as H1. specialize (IH (tl olds)).
  destruct (d (hd zero olds) (snd e)) as [v ok]. destruct (dec_each zero d (tl olds) es) as [vs oks]. cbn [fst] in *.
  destruct Ho as [|x olds Hx Ho]; constructor; auto.
Qed.

Lemma dec_rate_number cur j : f_number (RequestsPerSecond cur) ->
  f_number (RequestsPerSecond (fst (dec_struct_strict rate_fields cur j))).
Proof.
  apply (dec_strict_inv (fun r => f_number (RequestsPerSecond r))).
  unfold rate_fields, fld. rewrite !Forall_cons, Forall_nil. split_and!; [..|done]; intros s v Hs; cbn [snd fst].
  - unfold dec_float. destruct v; try done. destruct (parse_float _) eqn:E; [|done]. by eapply parse_float_number.
  - by destruct (dec_int _ v).
  - by destruct (dec_bool _ v).
Qed.

Lemma dec_upstream_number cur j : rate_number cur -> rate_number (fst (dec_struct_strict upstream_fields cur j)).
Proof.
  apply dec_strict_inv. unfold upstream_fields, fld.
  rewrite !Forall_cons, Forall_nil. split_and!; [..|done]; intros s v Hs; cbn [snd].
  4: { unfold rate_number in *. unfold dec_ptr. destruct v; try done;
       match goal with |- context [dec_struct_strict rate_fields ?c ?j] =>
         pose proof (dec_rate_number c j) as Hd; destruct (dec_struct_strict rate_fields c j) as [r ok] end;
       cbn [fst RateLimit] in *; intros r' [= <-]; apply Hd; (destruct (RateLimit s) as [r0|]; [by apply Hs|by vm_compute]). }
  all: match goal with |- context [fst (let '(_, _) := ?d in _)] => by destruct d | _ => idtac end.
Qed.

Lemma decoded_numbers cur j : rates_numbers cur -> rates_numbers (fst (dec_struct_strict config_fields cur j)).
Proof.
  apply dec_strict_inv. unfold config_fields, fld.
  rewrite !Forall_cons, Forall_nil. split_and!; [..|done]; intros s v Hs; cbn [snd].
  4: { unfold rates_numbers in *. unfold dec_upstreams, dec_list. destruct v as [| | |n|b|w es|w ms]; try done.
       pose proof (dec_each_inv rate_number zero_upstream (dec_struct_strict upstream_fields) ltac:(by intros ?)
         dec_upstream_number es (Upstreams s) Hs) as Hd. cbn [default from_option].
       destruct (dec_each _ _ _ _) as [vs ok]. exact Hd. }
  all: match goal with |- context [fst (let '(_, _) := ?d in _)] => by destruct d | _ => idtac end.
Qed.

(** A configuration that [Load] returns meets the documented constraints. *)
Lemma Load_ok path read c : Load path read = Ok c -> config_ok c /\ rates_numbers c.
Proof.
  unfold Load. destruct read as [data|e]; [|done]. cbn [mbind result_bind].
  destruct (parse_prefix data) as [[j rest]|]; [|done].
  pose proof (decoded_numbers zero_config j ltac:(constructor)) as Hn.
  destruct (dec_struct_strict config_fields zero_config j) as [cfg ok]. destruct ok; [|done]. cbn [negb fst] in *.
  pose proof (Validate_accepts cfg) as Ha. pose proof (Validate_fst cfg) as Hf. destruct (Validate cfg) as [c' err].
  cbn [fst snd] in *. subst c'. destruct err as [[]|e]; [|done]. intros [= <-].
  assert (Hl : forall P, config_fits P cfg -> config_fits P (with_listen cfg)).
  { intros P [H1 H2 H3 H4]. unfold with_listen. case_bool_decide; by constructor. }
  split; [by apply Hl, config_taken_ok; [|apply Ha]|]. unfold rates_numbers. by rewrite with_listen_upstreams.
Qed.

(** NaN passes the check. *)
Lemma nan_rate_taken : rate_taken (MkRateLimit PrimFloat.nan 1 false) /\ ~ rate_ok (MkRateLimit PrimFloat.nan 1 false).
Proof. split; [by vm_compute|]. intros [H _]. by vm_compute in H. Qed.

(** C35. The configurations that meet the documented constraints are exactly
those [Validate] accepts that have no NaN for a rate, and it changes nothing
but an empty listen address; every configuration that [Load] returns meets
them, so only one built by hand can have a NaN. *)
Theorem validation_exact (c : Config) :
  (config_ok c <-> snd (Validate c) = Ok tt /\ rates_numbers c) /\ fst (Validate c) = with_listen c /\
  (forall path read, Load path read = Ok c -> config_ok c).
Proof.
  split_and!; [|apply Validate_fst|by intros path read [? _]%Load_ok].
  rewrite Validate_accepts. split; [|by intros [? ?]; apply config_taken_ok].
  intros H. split; [by apply config_ok_taken|]. eapply Forall_impl; [apply H|]. intros u Hu r Hr.
  apply rate_ok_number. by apply Hu.
Qed.

End validated.
