(* ===== verification/Policy.v ===== *)
(** * Tool policies (gateway/policy.go)

The precomputed allow/deny sets of one upstream, the decision on a request
and on a tool name, and what an accepted request can call. *)

From S2P Require Export Config RpcSummary.
Local Open Scope Z_scope.
Local Open Scope go_scope.

(** ** Data

A [map[string]bool] whose values are all [true] is the set of its keys; a nil
map is [None]. *)
Record toolPolicy := MkPolicy {
  allow : option (gset bytes);
  deny : option (gset bytes)
}.

(** ** Operations *)

Definition set_of (l : list bytes) : option (gset bytes) :=
  if 0 <? len l then Some (fold_left (fun s t => s ∪ {[t]}) l ∅) else None.

(** [nil] is [None]. *)
Definition newToolPolicy (u : Upstream) : option toolPolicy :=
  if bool_decide (len (ToolsAllow u) = 0) && bool_decide (len (ToolsDeny u) = 0) then None
  else Some (MkPolicy (set_of (ToolsAllow u)) (set_of (ToolsDeny u))).

(** The loop over the tool names: the first that satisfies [bad] is named. *)
Fixpoint first_blocked (bad : bytes -> bool) (tools : list bytes) : bytes :=
  match tools with
  | [] => []
  | t :: ts => if bad t then "tool blocked by policy: " ++ t else first_blocked bad ts
  end.

Definition mem (t : bytes) (s : gset bytes) : bool := bool_decide (t ∈ s).

(** A reason, or the empty text to let the request through. *)
Definition blockReason (p : option toolPolicy) (sum : rpcSummary) : bytes :=
  match p with
  | None => []
  | Some p =>
      match allow p with
      | Some a =>
          if Invalid sum then "tool policy: body not parseable, allowlist mode is default-deny"
          else if len (Tools sum) <? ToolCalls sum then "tool policy: tools/call without a parseable tool name"
          else first_blocked (fun t => negb (mem t a)) (Tools sum)
      | None => first_blocked (fun t => match deny p with Some d => mem t d | None => false end) (Tools sum)
      end
  end.

Definition allows (p : option toolPolicy) (name : bytes) : bool :=
  match p with
  | None => true
  | Some p =>
      match allow p with
      | Some a => mem name a
      | None => match deny p with Some d => negb (mem name d) | None => true end
      end
  end.

(** ** The decision *)

Lemma first_blocked_nil bad ts : first_blocked bad ts = [] <-> Forall (fun t => bad t = false) ts.
Proof.
  induction ts as [|t ts IH]; simpl; [by split|]. rewrite Forall_cons. destruct (bad t); [|tauto].
  split; [done|by intros [? _]].
Qed.

Lemma mem_true t s : mem t s = true <-> t ∈ s.
Proof. apply bool_decide_eq_true. Qed.

Lemma set_of_elem l s t : set_of l = Some s -> t ∈ s <-> t ∈ l.
Proof.
  unfold set_of. destruct (0 <? len l); [|done]. intros [= <-].
  enough (H : forall acc : gset bytes, t ∈ fold_left (fun s t => s ∪ {[t]}) l acc <-> t ∈ acc \/ t ∈ l).
  { rewrite H. set_solver. }
  induction l as [|x l IH]; intros acc; simpl; [set_solver|]. rewrite IH. set_solver.
Qed.

(** What the policy lets through, request by request: in allow mode a
readable body all of whose calls carry a name, each on the list. *)
Definition passes (p : option toolPolicy) (sum : rpcSummary) : Prop :=
  match p with
  | None => True
  | Some p =>
      match allow p with
      | Some a => Invalid sum = false /\ ToolCalls sum <= len (Tools sum) /\ Forall (fun t => t ∈ a) (Tools sum)
      | None => Forall (fun t => forall d, deny p = Some d -> t ∉ d) (Tools sum)
      end
  end.

Lemma blockReason_nil p sum : blockReason p sum = [] <-> passes p sum.
Proof.
  destruct p as [[[a|] d]|]; simpl; [|..|done].
  - destruct (Invalid sum); [by split; [|intros [? _]]|].
    destruct (len (Tools sum) <? ToolCalls sum) eqn:E; zbool; [split; [done|]; lia|].
    rewrite first_blocked_nil. setoid_rewrite negb_false_iff. setoid_rewrite mem_true. tauto.
  - rewrite first_blocked_nil. apply Forall_proper; [|done]. intros t.
    destruct d as [d|]; [|done]. split.
    + intros H d' [= <-] Hin. apply mem_true in Hin. congruence.
    + intros H. destruct (mem t d) eqn:E; [|done]. apply mem_true in E. by destruct (H d eq_refl).
Qed.

(** The filter of a listing agrees with the decision on calls: a request
whose calls all carry names passes exactly when each name is allowed. *)
Lemma passes_allows p sum :
  Invalid sum = false -> ToolCalls sum <= len (Tools sum) ->
  passes p sum <-> Forall (fun t => allows p t = true) (Tools sum).
Proof.
  intros Hi Hc. rewrite <- blockReason_nil. destruct p as [[[a|] d]|]; simpl.
  - rewrite Hi. replace (len (Tools sum) <? ToolCalls sum) with false by lia.
    rewrite first_blocked_nil. by setoid_rewrite negb_false_iff.
  - rewrite first_blocked_nil. apply Forall_proper; [|done]. intros t.
    destruct d as [d|]; [by rewrite negb_true_iff|done].
  - split; [|done]. intros _. by apply Forall_forall.
Qed.

(** ** Calls of an accepted body *)

Lemma probe_tools_len p : len (probe_tools p) <= 1.
Proof.
  unfold probe_tools. case_in_goal; [|done]. case_in_goal; [|done]. by case_in_goal.
Qed.

(** If every call is counted against a name, every call has its name. *)
Lemma calls_named (ps : list rpcProbe) :
  len ps <= len (concat (map probe_tools ps)) ->
  Forall (fun p => exists n, probe_tools p = [n] /\ n ∈ concat (map probe_tools ps)) ps.
Proof.
  assert (Hle : forall qs, len (concat (map probe_tools qs)) <= len qs).
  { induction qs as [|q qs IH]; [done|]. simpl. rewrite len_app, len_cons.
    pose proof (probe_tools_len q). lia. }
  induction ps as [|p ps IH]; [by constructor|]. simpl. rewrite len_app, len_cons. intros H.
  pose proof (probe_tools_len p). pose proof (Hle ps).
  assert (Hp : exists n, probe_tools p = [n]).
  { destruct (probe_tools p) as [|n [|n' l]]; [rewrite len_nil in *; lia|by exists n|].
    rewrite !len_cons in *. pose proof (len_nonneg l). lia. }
  destruct Hp as [n Hn]. rewrite Hn in *. constructor.
  - exists n. split; [done|]. set_solver.
  - eapply Forall_impl; [apply IH; rewrite len_cons, len_nil in H; lia|]. simpl.
    intros q (m & -> & Hm). exists m. split; [done|]. set_solver.
Qed.

Lemma summary_of_calls ps b :
  ToolCalls (summary_of ps b) <= len (Tools (summary_of ps b)) ->
  Forall (fun p => is_call p = true -> exists n, probe_tools p = [n] /\ n ∈ Tools (summary_of ps b)) ps.
Proof.
  simpl. intros H%calls_named. apply Forall_forall. intros p Hp Hc.
  rewrite Forall_forall in H. apply H. apply list_elem_of_filter. by rewrite Hc.
Qed.

Lemma newToolPolicy_allow u :
  ToolsAllow u <> [] ->
  exists a, (forall t, t ∈ a <-> t ∈ ToolsAllow u) /\ allow <$> newToolPolicy u = Some (Some a).
Proof.
  intros Hu. unfold newToolPolicy. destruct (ToolsAllow u) as [|x l] eqn:E; [done|].
  destruct (set_of (x :: l)) as [a|] eqn:Ea; [|done].
  exists a. split; [intros t; by apply set_of_elem|].
  by rewrite bool_decide_eq_false_2 by done.
Qed.

(** The calls of a body that an allow-mode policy lets through. *)
Lemma allowed_calls pol a body :
  allow pol = Some a -> blockReason (Some pol) (summarizeRPC body) = [] ->
  exists ps, body_probes body = Some ps /\
    Forall (fun p => is_call p = true -> exists n, probe_tools p = [n] /\ n ∈ a) ps.
Proof.
  intros Ha Hb. destruct pol as [al d]. simpl in Ha. subst al. apply blockReason_nil in Hb as (Hi & Hc & Hall).
  pose proof (summarizeRPC_spec body) as Hs. destruct (body_probes body) as [ps|]; [|by rewrite Hs in Hi].
  destruct Hs as [b Hs]. rewrite Hs in *. exists ps. split; [done|].
  eapply Forall_impl; [by apply summary_of_calls|]. intros p Hp Hcall.
  destruct (Hp Hcall) as (n & Hn & Hin). exists n. split; [done|].
  rewrite Forall_forall in Hall. by apply Hall.
Qed.

(** What an allowlist lets through: when a request passes, its body was
readable, and every [tools/call] message the gateway reads in it names
exactly one tool, which is on the upstream's list. *)
Lemma allowlist_sound (u : Upstream) (body : bytes) :
  ToolsAllow u <> [] ->
  blockReason (newToolPolicy u) (summarizeRPC body) = [] ->
  exists ps, body_probes body = Some ps /\
    Forall (fun p => is_call p = true -> exists n, probe_tools p = [n] /\ n ∈ ToolsAllow u) ps.
Proof.
  intros (a & Ha & Hp)%newToolPolicy_allow Hb. destruct (newToolPolicy u) as [pol|]; [|done]. injection Hp as Hp.
  destruct (allowed_calls pol a body Hp Hb) as (ps & Hps & Hall). exists ps. split; [done|].
  eapply Forall_impl; [exact Hall|]. intros p H Hcall. destruct (H Hcall) as (n & Hn & Hin). exists n. by rewrite <- Ha.
Qed.

(** The decision, branch by branch: a request is let through exactly
when its summary meets the policy. *)
Lemma blockReason_decides (p : option toolPolicy) (sum : rpcSummary) :
  blockReason p sum = [] <-> passes p sum.
Proof. apply blockReason_nil. Qed.

(** ** Keys in another case

How a server that compares member names exactly, the last duplicate winning,
reads a message. *)
Definition exact_get (k : bytes) (j : json) : option json :=
  match j with
  | JObj _ ms => snd <$> last (filter (fun m => unquote (m_key (fst m)) = k) ms)
  | _ => None
  end.

Definition exact_string (o : option json) : option bytes :=
  match o with Some (JStr s) => Some (unquote s) | _ => None end.

(** The method and the tool name of a message, read exactly. *)
Definition exact_call (body : bytes) : option bytes * option bytes :=
  match parse_doc body with
  | Some j => (exact_string (exact_get "method" j), exact_string (exact_get "params" j ≫= exact_get "name"))
  | None => (None, None)
  end.

Definition only_tool (u t : bytes) : Upstream := MkUpstream u "http://127.0.0.1:1" 0 None [t] [] None None [] [].

(** Member names are matched regardless of case and the last one wins, so
an allowlist does not bind a server that reads names exactly: a body that
calls an unlisted tool passes. *)
Lemma allowlist_case_bypass :
  exists body,
    blockReason (newToolPolicy (only_tool "s" "read")) (summarizeRPC body) = [] /\
    exact_call body = (Some ("tools/call" : bytes), Some ("delete" : bytes)).
Proof.
  exists "{'jsonrpc':'2.0','id':1,'method':'tools/call','Method':'ping','params':{'name':'delete'}}"%js.
  by vm_compute.
Qed.

(** *** Concrete instances *)

Definition call_read : bytes := "{'jsonrpc':'2.0','id':1,'method':'tools/call','params':{'name':'read'}}"%js.

Lemma allowlist_sound_witness :
  ToolsAllow (only_tool "s" "read") <> [] /\
  exists ps, body_probes call_read = Some ps /\
    Forall (fun p => is_call p = true ->
      exists n, probe_tools p = [n] /\ n ∈ ToolsAllow (only_tool "s" "read")) ps.
Proof.
  split; [discriminate|].
  apply (allowlist_sound (only_tool "s" "read") call_read); [discriminate|by vm_compute].
Defined.
