(* ===== verification/RateLimit.v ===== *)
(** * Rate limiting (gateway/ratelimit.go)

The token bucket and the per-session limiter.  The arithmetic is abstracted
behind a class of number operations: [float64_num] is what the program runs,
[rational_num] the exact arithmetic the program approximates, in which the
quantitative guarantees are stated.  The clock is a source of readings in
nanoseconds, one per call of [now], and every reading is an argument. *)

From Stdlib Require Export QArith Qminmax Qabs.
From S2P Require Export Float64.
From Stdlib Require Import Lqa.
Local Open Scope Z_scope.

Class Num (R : Type) := {
  n_of_int : Z -> R;
  n_add : R -> R -> R;
  n_sub : R -> R -> R;
  n_mul : R -> R -> R;
  n_div : R -> R -> R;
  n_min : R -> R -> R;
  n_ltb : R -> R -> bool;
  n_leb : R -> R -> bool;
  n_to_int : R -> Z
}.

#[export] Instance float64_num {A : Arch} : Num float64 := {|
  n_of_int := f_of_int;
  n_add := fadd; n_sub := fsub; n_mul := fmul; n_div := fdiv; n_min := fmin;
  n_ltb := fltb; n_leb := fleb;
  n_to_int := f_to_int
|}.

#[export] Instance rational_num : Num Q := {|
  n_of_int := inject_Z;
  n_add := Qplus; n_sub := Qminus; n_mul := Qmult; n_div := Qdiv; n_min := Qmin;
  n_ltb := fun x y => negb (Qle_bool y x);
  n_leb := Qle_bool;
  n_to_int := fun x => Z.quot (Qnum x) (Zpos (Qden x))
|}.

(** ** Durations

[time.Duration] counts nanoseconds in 64 bits; [Time.Sub] saturates. *)
Definition Second : Z := 1000000000.

Definition clamp64 (n : Z) : Z := Z.max (- 2 ^ 63) (Z.min n (2 ^ 63 - 1)).

Definition time_sub (t u : Z) : Z := clamp64 (t - u).

Section bucket.
Context {R : Type} `{!Num R}.

Definition Seconds (d : Z) : R :=
  n_add (n_of_int (Z.quot d Second)) (n_div (n_of_int (Z.rem d Second)) (n_of_int Second)).

(** ** The token bucket *)

Record tokenBucket := MkBucket { rps : R; burst : R; tokens : R; last : Z }.

Definition newTokenBucket (rps : R) (burst : Z) (now : Z) : tokenBucket :=
  MkBucket rps (n_of_int burst) (n_of_int burst) now.

(** The part of [allow] that brings the balance up to date. *)
Definition refill (b : tokenBucket) (t : Z) : tokenBucket :=
  let elapsed := Seconds (time_sub t (last b)) in
  if n_ltb (n_of_int 0) elapsed
  then MkBucket (rps b) (burst b) (n_min (burst b) (n_add (tokens b) (n_mul elapsed (rps b)))) t
  else b.

Definition allow (b : tokenBucket) (t : Z) : tokenBucket * (bool * Z) :=
  let b := refill b t in
  if n_leb (n_of_int 1) (tokens b)
  then (MkBucket (rps b) (burst b) (n_sub (tokens b) (n_of_int 1)) (last b), (true, 0))
  else
    let need := n_div (n_sub (n_of_int 1) (tokens b)) (rps b) in
    (b, (false, n_to_int (n_mul need (n_of_int Second)))).

(** A sequence of requests at the given clock readings: the verdicts. *)
Fixpoint run (b : tokenBucket) (ts : list Z) : tokenBucket * list bool :=
  match ts with
  | [] => (b, [])
  | t :: ts =>
      let '(b, (ok, _)) := allow b t in
      let '(b, oks) := run b ts in (b, ok :: oks)
  end.

(** ** The per-session limiter *)

Definition maxSessionBuckets : Z := 4096.

Record sessionLimiter := MkLimiter {
  sl_rps : R;
  sl_burst : Z;
  max : Z;
  buckets : gmap bytes tokenBucket;
  lastSeen : gmap bytes Z
}.

Definition newSessionLimiter (rps : R) (burst max : Z) : sessionLimiter :=
  MkLimiter rps burst (if max <? 1 then maxSessionBuckets else max) ∅ ∅.

(** The scan for the least recently seen session; [order] is the order in
which the runtime happens to range over [lastSeen]. *)
Definition oldest_step (acc : bytes * Z * bool) (kv : bytes * Z) : bytes * Z * bool :=
  let '(oldest, oldestT, first) := acc in
  if first || (snd kv <? oldestT) then (fst kv, snd kv, false) else acc.

Definition scan_oldest (order : list (bytes * Z)) : bytes * Z * bool :=
  fold_left oldest_step order ([], 0, true).

Definition evict (l : sessionLimiter) (order : list (bytes * Z)) : sessionLimiter :=
  let oldest := fst (fst (scan_oldest order)) in
  MkLimiter (sl_rps l) (sl_burst l) (max l) (delete oldest (buckets l)) (delete oldest (lastSeen l)).

(** [sessionLimiter.allow], with the clock readings of [newTokenBucket], of
the recency mark and of the bucket. *)
Definition session_allow (l : sessionLimiter) (session : bytes) (order : list (bytes * Z))
    (t_new t_seen t_allow : Z) : sessionLimiter * (bool * Z) :=
  let '(l, b) :=
    match buckets l !! session with
    | Some b => (l, b)
    | None =>
        let l := if max l <=? Z.of_nat (size (buckets l)) then evict l order else l in
        (l, newTokenBucket (sl_rps l) (sl_burst l) t_new)
    end in
  let '(b, res) := allow b t_allow in
  (MkLimiter (sl_rps l) (sl_burst l) (max l) (<[session := b]> (buckets l))
     (<[session := t_seen]> (lastSeen l)), res).

End bucket.

#[global] Arguments tokenBucket : clear implicits.
#[global] Arguments sessionLimiter : clear implicits.

(** ** Eviction *)

Lemma scan_oldest_spec order s0 t0 :
  match fold_left oldest_step order (s0, t0, false) with
  | (s, t, first) =>
      first = false /\ t <= t0 /\ ((s, t) = (s0, t0) \/ (s, t) ∈ order) /\
      Forall (fun kv => t <= snd kv) order
  end.
Proof.
  revert s0 t0. induction order as [|[k v] order IH]; intros s0 t0; simpl.
  - split_and!; [done|lia|by left|constructor].
  - destruct (v <? t0) eqn:E; zbool;
      [specialize (IH k v)|specialize (IH s0 t0)]; destruct (fold_left _ order _) as [[s t] f];
      destruct IH as (-> & Hle & Hin & Hall); (split_and!; [done|lia| |by constructor; simpl; [lia|]]).
    + right. destruct Hin as [[= -> ->]|Hin]; [by left|by right].
    + destruct Hin as [Hin|Hin]; [by left|by right; right].
Qed.

Lemma scan_oldest_min order s t first :
  order <> [] -> scan_oldest order = (s, t, first) ->
  first = false /\ (s, t) ∈ order /\ Forall (fun kv => t <= snd kv) order.
Proof.
  destruct order as [|[k v] order]; [done|]. intros _ H. unfold scan_oldest in H. simpl in H.
  pose proof (scan_oldest_spec order k v) as Hs. rewrite H in Hs.
  destruct Hs as (-> & Hle & Hin & Hall). split_and!; [done| |by constructor].
  destruct Hin as [[= -> ->]|]; [by left|by right].
Qed.

Section session.
Context {R : Type} `{!Num R}.
Implicit Types l : sessionLimiter R.

Record limiter_ok l : Prop := {
  ok_max : 1 <= max l;
  ok_size : Z.of_nat (size (buckets l)) <= max l;
  ok_dom : dom (buckets l) = dom (lastSeen l)
}.

Lemma limiter_order_nonempty l (order : list (bytes * Z)) :
  limiter_ok l -> order ≡ₚ map_to_list (lastSeen l) ->
  max l <= Z.of_nat (size (buckets l)) -> order <> [].
Proof.
  intros [Hmax _ Hdom] Hperm Hfull ->. apply Permutation_nil_l in Hperm.
  symmetry in Hperm. apply map_to_list_empty_iff in Hperm. rewrite Hperm, dom_empty_L in Hdom.
  apply dom_empty_iff_L in Hdom. rewrite Hdom, map_size_empty in Hfull. lia.
Qed.

(** The evicted session is one of the table, and none was seen earlier. *)
Lemma evict_spec l (order : list (bytes * Z)) :
  limiter_ok l -> order ≡ₚ map_to_list (lastSeen l) -> max l <= Z.of_nat (size (buckets l)) ->
  exists s t, lastSeen l !! s = Some t /\ (forall s' t', lastSeen l !! s' = Some t' -> t <= t') /\
    evict l order = MkLimiter (sl_rps l) (sl_burst l) (max l) (delete s (buckets l)) (delete s (lastSeen l)).
Proof.
  intros Hok Hperm Hfull. pose proof (limiter_order_nonempty l order Hok Hperm Hfull) as Hne.
  unfold evict. destruct (scan_oldest order) as [[s t] f] eqn:E.
  apply scan_oldest_min in E as (_ & Hin & Hall); [|done]. exists s, t. split_and!; [| |done].
  - apply elem_of_map_to_list. by rewrite <- Hperm.
  - intros s' t' H'. rewrite Forall_forall in Hall. apply (Hall (s', t')).
    rewrite Hperm. by apply elem_of_map_to_list.
Qed.

Lemma size_delete_lt {V} (m : gmap bytes V) k : is_Some (m !! k) -> Z.of_nat (size (delete k m)) = Z.of_nat (size m) - 1.
Proof.
  intros [v Hv]. rewrite (map_size_delete_Some k m) by eauto.
  assert (size m <> 0%nat); [|lia]. intros H0%map_size_empty_inv. by rewrite H0, lookup_empty in Hv.
Qed.

Lemma size_insert_le {V} (m : gmap bytes V) k v : Z.of_nat (size (<[k := v]> m)) <= Z.of_nat (size m) + 1.
Proof. rewrite map_size_insert. destruct (m !! k); simpl; lia. Qed.

Lemma size_insert_old {V} (m : gmap bytes V) k v w : m !! k = Some w -> size (<[k := v]> m) = size m.
Proof. intros H. by rewrite map_size_insert, H. Qed.

Lemma evict_ok l order :
  limiter_ok l -> order ≡ₚ map_to_list (lastSeen l) -> max l <= Z.of_nat (size (buckets l)) ->
  max (evict l order) = max l /\ Z.of_nat (size (buckets (evict l order))) <= max l - 1 /\
  dom (buckets (evict l order)) = dom (lastSeen (evict l order)).
Proof.
  intros Hok Hperm Hfull. destruct (evict_spec l order Hok Hperm Hfull) as (s & t & Hs & _ & ->).
  destruct Hok as [_ Hsize Hdom]. simpl. split_and!; [done| |by rewrite !dom_delete_L, Hdom].
  rewrite size_delete_lt; [lia|]. apply elem_of_dom. rewrite Hdom. apply elem_of_dom. eauto.
Qed.

Lemma session_allow_ok l session order t1 t2 t3 :
  limiter_ok l -> order ≡ₚ map_to_list (lastSeen l) ->
  limiter_ok (fst (session_allow l session order t1 t2 t3)).
Proof.
  intros Hok Hperm. unfold session_allow. destruct (buckets l !! session) as [b|] eqn:Eb.
  - destruct (allow b t3) as [b' res]. destruct Hok as [? ? Hd]. constructor; simpl; [done| |].
    + by erewrite size_insert_old.
    + by rewrite !dom_insert_L, Hd.
  - destruct (max l <=? Z.of_nat (size (buckets l))) eqn:E; zbool.
    + destruct (evict_ok l order Hok Hperm) as (Hm & Hs & Hd); [done|].
      destruct (allow _ t3) as [b' res]. destruct Hok. constructor; cbn [fst max buckets lastSeen]; [lia| |].
      * pose proof (size_insert_le (buckets (evict l order)) session b'). lia.
      * by rewrite !dom_insert_L, Hd.
    + destruct (allow _ t3) as [b' res]. destruct Hok as [? ? Hd]. constructor; cbn [fst max buckets lastSeen]; [lia| |].
      * pose proof (size_insert_le (buckets l) session b'). lia.
      * by rewrite !dom_insert_L, Hd.
Qed.

End session.

(** ** Exact arithmetic *)

Section rational.
Open Scope Q_scope.
Implicit Types b : tokenBucket Q.

Definition secs (d : Z) : Q := inject_Z d / inject_Z Second.

Lemma secs_le d e : (d <= e)%Z -> secs d <= secs e.
Proof.
  intros H. unfold secs. apply Qmult_le_compat_r; [by rewrite <- Zle_Qle|]. done.
Qed.

Lemma secs_zero : secs 0 == 0.
Proof. done. Qed.

Lemma secs_add d e : secs (d + e) == secs d + secs e.
Proof. unfold secs. rewrite inject_Z_plus. field. done. Qed.

Lemma Seconds_exact d : Seconds d == secs d.
Proof.
  unfold Seconds, secs. simpl. rewrite (Z.quot_rem' d Second) at 3.
  rewrite inject_Z_plus, inject_Z_mult. field. done.
Qed.

Lemma Qlt_bool_iff (x y : Q) : n_ltb x y = true <-> x < y.
Proof.
  simpl. rewrite negb_true_iff. destruct (Qle_bool y x) eqn:E.
  - apply Qle_bool_iff in E. split; [done|]. intros H. by apply Qlt_not_le in H.
  - split; [intros _|done]. apply Qnot_le_lt. intros H%Qle_bool_iff. congruence.
Qed.

Definition bucket_ok b : Prop := 0 < rps b /\ 0 <= tokens b <= burst b.

(** What a refill can add: never more than the rate times the clock's
advance, which is measured from the last refill. *)
Lemma refill_spec b t :
  bucket_ok b ->
  let b' := refill b t in
  bucket_ok b' /\ rps b' = rps b /\ burst b' = burst b /\
  (last b <= last b' <= Z.max (last b) t)%Z /\
  tokens b <= tokens b' <= tokens b + rps b * secs (last b' - last b).
Proof.
  intros (Hr & Ht0 & Htb). unfold refill.
  set (el := Seconds (time_sub t (last b))).
  assert (He : el == secs (time_sub t (last b))) by apply Seconds_exact.
  destruct (n_ltb (n_of_int 0) el) eqn:E.
  - apply Qlt_bool_iff in E. change (n_of_int 0) with 0 in E.
    assert (Hpos : (0 < time_sub t (last b))%Z).
    { apply Znot_ge_lt. intros Hge. apply (Qlt_not_le _ _ E). rewrite He.
      rewrite <- secs_zero. apply secs_le. lia. }
    assert (Hcl : (last b < t /\ time_sub t (last b) <= t - last b)%Z) by (unfold time_sub, clamp64 in *; lia).
    assert (Hs : el <= secs (t - last b)) by (rewrite He; apply secs_le; lia).
    assert (H0 : 0 <= el * rps b) by nra.
    assert (H1 : el * rps b <= rps b * secs (t - last b)) by nra.
    unfold bucket_ok. cbn [rps burst tokens last n_min n_add n_mul rational_num].
    split_and!; try done; try lia.
    + apply Q.min_glb; nra.
    + apply Q.le_min_l.
    + apply Q.min_glb; nra.
    + eapply Qle_trans; [apply Q.le_min_r|]. nra.
  - unfold bucket_ok. rewrite Z.sub_diag, secs_zero. split_and!; try done; lia || lra.
Qed.

Lemma one_token b : n_leb (n_of_int 1) (tokens b) = true <-> 1 <= tokens b.
Proof. apply Qle_bool_iff. Qed.

Lemma allow_spec b t :
  bucket_ok b ->
  let '(b', (ok, _)) := allow b t in
  bucket_ok b' /\ rps b' = rps b /\ burst b' = burst b /\ (last b <= last b' <= Z.max (last b) t)%Z /\
  inject_Z (if ok then 1 else 0) + tokens b' <= tokens b + rps b * secs (last b' - last b).
Proof.
  intros Hb. destruct (refill_spec b t Hb) as (Hok & Hr & Hbu & Hl & Ht).
  unfold allow. set (c := refill b t) in *. destruct Hok as (Hc & Hc0 & Hcb).
  destruct (n_leb (n_of_int 1) (tokens c)) eqn:E.
  - apply one_token in E. unfold bucket_ok. simpl in *. change (inject_Z 1) with 1.
    split_and!; try done; try lra; lia.
  - unfold bucket_ok. change (inject_Z 0) with 0. split_and!; try done; try lra; lia.
Qed.

Definition granted (oks : list bool) : Z := len (filter (fun ok => ok = true) oks).

Lemma granted_cons ok oks : granted (ok :: oks) = ((if ok then 1 else 0) + granted oks)%Z.
Proof. unfold granted, len. rewrite filter_cons. destruct ok; case_decide; done || simpl; lia. Qed.

Lemma run_spec b ts :
  bucket_ok b ->
  let '(b', oks) := run b ts in
  bucket_ok b' /\ rps b' = rps b /\ burst b' = burst b /\
  (last b <= last b' <= fold_left Z.max ts (last b))%Z /\
  inject_Z (granted oks) + tokens b' <= tokens b + rps b * secs (last b' - last b).
Proof.
  revert b. induction ts as [|t ts IH]; intros b Hb; simpl.
  - split_and!; try done; try lia. rewrite Z.sub_diag, secs_zero. change (inject_Z (granted [])) with 0. lra.
  - pose proof (allow_spec b t Hb) as Ha. destruct (allow b t) as [c [ok d]].
    destruct Ha as (Hc & Hr & Hbu & Hl & Ht). specialize (IH c Hc).
    destruct (run c ts) as [b' oks]. destruct IH as (Hb' & Hr' & Hbu' & Hl' & Ht').
    split_and!; [done|by rewrite Hr'|by rewrite Hbu'|lia| |].
    + assert (Hmono : forall l x y, (x <= y)%Z -> (fold_left Z.max l x <= fold_left Z.max l y)%Z).
      { clear. induction l as [|z l IH]; intros x y H; simpl; [done|]. apply IH. lia. }
      specialize (Hmono ts (last c) (Z.max (last b) t) ltac:(lia)). lia.
    + rewrite granted_cons, inject_Z_plus.
      assert (Hs : secs (last b' - last b) == secs (last c - last b) + secs (last b' - last c)).
      { rewrite <- secs_add. f_equiv. lia. }
      rewrite Hs. rewrite Hr in Ht'. lra.
Qed.

(** C24. The bucket keeps its promise: in any sequence of requests, after any
earlier ones and whatever the clock does, a window of requests is granted no
more than the capacity plus the rate times the time the window spans (from
the bucket's last refill before it to the latest reading in it). *)
Theorem bucket_rate_bound (rate : Q) (cap : Z) (t0 : Z) (before window : list Z) :
  0 < rate -> (1 <= cap)%Z ->
  let b := fst (run (newTokenBucket rate cap t0) before) in
  inject_Z (granted (snd (run b window)))
  <= inject_Z cap + rate * secs (fold_left Z.max window (last b) - last b).
Proof.
  intros Hr Hc. simpl.
  assert (Hb0 : bucket_ok (newTokenBucket rate cap t0)).
  { split; [done|]. simpl. change 0 with (inject_Z 0). rewrite <- Zle_Qle. split; [lia|lra]. }
  pose proof (run_spec _ before Hb0) as H1.
  destruct (run (newTokenBucket rate cap t0) before) as [b oks]. destruct H1 as (Hb & Hrb & Hcb & _ & _).
  simpl in *. pose proof (run_spec b window Hb) as H2.
  destruct (run b window) as [b' oks']. destruct H2 as (Hb' & _ & _ & Hl & Ht). simpl.
  destruct Hb as (_ & _ & Htb), Hb' as (_ & Ht0 & _). rewrite Hrb, Hcb in *.
  assert (Hs : secs (last b' - last b) <= secs (fold_left Z.max window (last b) - last b)) by (apply secs_le; lia).
  nra.
Qed.

Lemma trunc_floor (x : Q) : 0 <= x -> inject_Z (n_to_int x) <= x < inject_Z (n_to_int x + 1).
Proof.
  destruct x as [n d]. simpl. unfold Qle at 1. simpl. rewrite Z.mul_1_r. intros Hn.
  rewrite Z.quot_div_nonneg by lia. pose proof (Z.div_mod n (Zpos d) ltac:(lia)).
  pose proof (Z.mod_pos_bound n (Zpos d) ltac:(lia)).
  split; [unfold Qle|unfold Qlt]; simpl; nia.
Qed.

Lemma grant_iff b t :
  bucket_ok b -> 1 <= burst b -> tokens b < 1 -> (last b <= t < last b + 2 ^ 63)%Z ->
  fst (snd (allow b t)) = true <-> (1 - tokens b) / rps b <= secs (t - last b).
Proof.
  intros (Hr & Ht0 & Htb) Hb1 Ht1 Hl.
  assert (Hq : (1 - tokens b) / rps b * rps b == 1 - tokens b) by (field; lra).
  assert (Hgrant : forall c, fst (snd (if n_leb (n_of_int 1) (tokens c)
      then (MkBucket (rps c) (burst c) (n_sub (tokens c) (n_of_int 1)) (last c), (true, 0%Z))
      else (c, (false, n_to_int (n_mul (n_div (n_sub (n_of_int 1) (tokens c)) (rps c)) (n_of_int Second))))))
      = true <-> 1 <= tokens c).
  { intros c. rewrite <- one_token. by destruct (n_leb _ _). }
  unfold allow. rewrite Hgrant. unfold refill.
  assert (He : Seconds (time_sub t (last b)) == secs (t - last b)).
  { rewrite Seconds_exact. f_equiv. unfold time_sub, clamp64. lia. }
  destruct (n_ltb (n_of_int 0) (Seconds (time_sub t (last b)))) eqn:E.
  - cbn [tokens n_min n_add n_mul rational_num]. set (el := Seconds _) in *. rewrite <- He. split.
    + intros H. pose proof (Q.le_min_r (burst b) (tokens b + el * rps b)).
      apply Qnot_lt_le. intros Hlt. nra.
    + intros H. apply Q.min_glb; [done|]. nra.
  - split; [lra|]. intros H. exfalso.
    assert (H0 : ~ (0 < Seconds (time_sub t (last b)))).
    { intros H0. apply Qlt_bool_iff in H0. change (n_of_int 0) with 0 in E. congruence. }
    rewrite He in H0. apply Qnot_lt_le in H0. nra.
Qed.

(** The delay a refused request is told is the right one: an uncontended
retry is granted from one nanosecond after it on (the delay is rounded down
to nanoseconds) and refused before it. *)
Lemma retry_delay_tight (b b' : tokenBucket Q) (t d t' : Z) :
  bucket_ok b -> 1 <= burst b -> (last b <= t < last b + 2 ^ 63)%Z ->
  allow b t = (b', (false, d)) -> (t <= t' < t + 2 ^ 63)%Z ->
  (0 <= d)%Z /\ ((t + d < t')%Z -> fst (snd (allow b' t')) = true)
  /\ ((t' < t + d)%Z -> fst (snd (allow b' t')) = false).
Proof.
  intros Hb Hb1 Hl Ha Ht'. destruct (refill_spec b t Hb) as (Hok & Hr & Hbu & Hlast & _).
  unfold allow in Ha. set (c := refill b t) in *.
  destruct (n_leb (n_of_int 1) (tokens c)) eqn:E; [done|]. injection Ha as <- Hd.
  change (n_to_int ((1 - tokens c) / rps c * inject_Z Second) = d) in Hd.
  assert (Hlt : tokens c < 1).
  { apply Qnot_le_lt. intros H%one_token. congruence. }
  assert (Hct : last c = t).
  { destruct (decide (last b = t)) as [ <-|Hne]; [lia|]. subst c. unfold refill.
    assert (Hpos : n_ltb (n_of_int 0) (Seconds (time_sub t (last b))) = true).
    { apply Qlt_bool_iff. rewrite Seconds_exact. change (n_of_int 0) with 0.
      assert (Hs : secs 1 <= secs (time_sub t (last b))).
      { apply secs_le. unfold time_sub, clamp64. lia. }
      eapply Qlt_le_trans; [|exact Hs]. done. }
    by rewrite Hpos. }
  set (need := (1 - tokens c) / rps c). pose proof Hok as (Hrc & Hc0 & Hcb).
  assert (Hn : 0 <= need).
  { unfold need. apply Qle_shift_div_l; lra. }
  assert (Hsec : 0 < inject_Z Second) by done.
  destruct (trunc_floor (need * inject_Z Second)) as [H1 H2]; [nra|].
  fold need in Hd. rewrite Hd in H1, H2.
  assert (Hg : fst (snd (allow c t')) = true <-> need <= secs (t' - t)).
  { rewrite <- Hct. apply grant_iff; rewrite ?Hbu, ?Hct; done || lia. }
  assert (Hsecs : forall z, secs z * inject_Z Second == inject_Z z).
  { intros z. unfold secs. field. done. }
  split_and!.
  - assert (Hd0 : inject_Z 0 < inject_Z (d + 1)) by (eapply Qle_lt_trans; [|exact H2]; change (inject_Z 0) with 0; nra).
    rewrite <- Zlt_Qlt in Hd0. lia.
  - intros Hlate. apply Hg. assert (Hz : inject_Z (d + 1) <= inject_Z (t' - t)) by (rewrite <- Zle_Qle; lia).
    specialize (Hsecs (t' - t)%Z). apply Qnot_lt_le. intros Hc. nra.
  - intros Hearly. apply not_true_is_false. intros Hgr%Hg.
    assert (Hz : inject_Z (t' - t) < inject_Z d) by (rewrite <- Zlt_Qlt; lia).
    specialize (Hsecs (t' - t)%Z). nra.
Qed.

End rational.

(** ** The arithmetic the program runs *)

Section binary64.
Context {A : Arch}.
Implicit Types b : tokenBucket float64.

Record fbucket_ok b : Prop := {
  ok_rps : f_pos (rps b);
  ok_burst : f_nonneg (burst b);
  ok_tokens : f_nonneg (tokens b)
}.

Lemma refill_float_ok b t : fbucket_ok b -> fbucket_ok (refill b t).
Proof.
  intros [Hr Hb Ht]. unfold refill. destruct (n_ltb _ _) eqn:E; [|by constructor].
  constructor; simpl; [done..|]. apply fmin_nonneg; [done|]. apply fadd_nonneg; [done|].
  apply fmul_nonneg_pos; [|done]. by apply fltb_fleb.
Qed.

Lemma refill_float_cap b t :
  fbucket_ok b -> refill b t = b \/ fleb (tokens (refill b t)) (burst b) = true.
Proof.
  intros [Hr Hb Ht]. unfold refill. destruct (n_ltb _ _) eqn:E; [right|by left].
  apply fmin_le_l; [done|]. apply fadd_nonneg; [done|].
  apply fmul_nonneg_pos; [|done]. by apply fltb_fleb.
Qed.

Lemma f_one_finite : f_finite (f_of_int 1) /\ f_nonneg (f_of_int 1) /\ f_pos (f_of_int Second).
Proof. by vm_compute. Qed.

(** C25. In floating point, whatever the clock reads, no balance becomes
negative or undefined, a refill never lifts it above the capacity, a granted
request needed a full token, and a refused one is told a delay that is not
negative unless the quotient does not fit a 64-bit count of nanoseconds. *)
Theorem bucket_float_safe (b : tokenBucket float64) (t : Z) :
  fbucket_ok b ->
  (refill b t = b \/ fleb (tokens (refill b t)) (burst b) = true) /\
  match allow b t with
  | (b', (true, d)) => fbucket_ok b' /\ fleb (f_of_int 1) (tokens (refill b t)) = true /\ d = 0
  | (b', (false, d)) => fbucket_ok b' /\ b' = refill b t /\
      (0 <= d \/ exists x, d = conv_oor x /\ forall n, sf_trunc (Prim2SF x) = Some n -> 2 ^ 63 <= n)
  end.
Proof.
  intros Hb. split; [by apply refill_float_cap|].
  pose proof (refill_float_ok b t Hb) as Hc. unfold allow. set (c := refill b t) in *.
  destruct Hc as [Hr Hbu Ht]. destruct f_one_finite as (F1 & N1 & P1).
  destruct (n_leb (n_of_int 1) (tokens c)) eqn:E.
  - split_and!; try done. constructor; simpl; try done. by apply fsub_nonneg.
  - split_and!; try done. simpl.
    assert (Hle : fleb (tokens c) (f_of_int 1) = true).
    { apply fleb_total; try done. destruct (fltb (f_of_int 1) (tokens c)) eqn:El; [|done].
      apply fltb_fleb in El. simpl in E. congruence. }
    assert (Hx : f_nonneg (fmul (fdiv (fsub (f_of_int 1) (tokens c)) (rps c)) (f_of_int Second))).
    { apply fmul_nonneg_pos; [|done]. apply fdiv_nonneg_pos; [|done].
      apply fsub_nonneg; [done| |done]. by eapply fleb_finite. }
    destruct (f_to_int_nonneg _ Hx) as [H|[H1 H2]]; [by left|right; eauto].
Qed.

Lemma refill_same_instant b t : last b = t -> refill b t = b.
Proof.
  intros <-. unfold refill, time_sub. rewrite Z.sub_diag. change (clamp64 0) with 0.
  assert (n_ltb (n_of_int 0) (Seconds (R := float64) 0) = false) as ->; [|done]. by vm_compute.
Qed.

Lemma run_instant r c (n : Z) (m j : nat) t :
  exact_int n -> n = Z.of_nat m ->
  snd (run (MkBucket r c (f_of_int n) t) (replicate (m + j) t)) = replicate m true ++ replicate j false.
Proof.
  intros Hn ->. induction m as [|m IH].
  - induction j as [|j IHj]; [done|]. cbn [Nat.add replicate run]. unfold allow.
    rewrite refill_same_instant by done. cbn [tokens n_leb n_of_int float64_num].
    rewrite one_leb_int by done. simpl Nat.add in IHj. change (Z.of_nat 0) with 0 in *. simpl.
    by destruct (run _ _) as [b oks]; simpl in *; rewrite IHj.
  - cbn [Nat.add replicate run]. unfold allow. rewrite refill_same_instant by done.
    cbn [tokens n_leb n_of_int float64_num]. rewrite one_leb_int by done.
    assert ((1 <=? Z.of_nat (S m)) = true) as -> by (apply Z.leb_le; lia). cbn [rps burst last n_sub float64_num].
    unfold exact_int in Hn.
    rewrite fsub_int by (unfold exact_int; lia). replace (Z.of_nat (S m) - 1) with (Z.of_nat m) by lia.
    specialize (IH ltac:(unfold exact_int; lia)). destruct (run _ _) as [b oks]. simpl in *. by rewrite IH.
Qed.

(** A fresh bucket of capacity [n] grants a burst of exactly [n] requests
at one instant and refuses the rest: counting down in floating point loses
nothing below 2^53. *)
Lemma burst_exact (rate : float64) (n j : nat) (t : Z) :
  Z.of_nat n < 2 ^ 53 ->
  snd (run (newTokenBucket rate (Z.of_nat n) t) (replicate (n + j) t))
  = replicate n true ++ replicate j false.
Proof. intros H. apply run_instant; [|done]. unfold exact_int. lia. Qed.

End binary64.

(** ** The session table *)

Section sessions.
Context {R : Type} `{!Num R}.
Implicit Types l : sessionLimiter R.

(** Everything a client can make the limiter do. *)
Inductive reachable (l0 : sessionLimiter R) : sessionLimiter R -> Prop :=
| reach_init : reachable l0 l0
| reach_step l session order t1 t2 t3 :
    reachable l0 l -> order ≡ₚ map_to_list (lastSeen l) ->
    reachable l0 (fst (session_allow l session order t1 t2 t3)).

(** C27. However many session ids clients mint, the table stays within its
bound and its two maps hold the same sessions. *)
Theorem session_table_bounded (rate : R) (cap bound : Z) (l : sessionLimiter R) :
  reachable (newSessionLimiter rate cap bound) l ->
  Z.of_nat (size (buckets l)) <= (if bound <? 1 then maxSessionBuckets else bound) /\
  dom (buckets l) = dom (lastSeen l).
Proof.
  intros H. assert (Hok : limiter_ok l /\ max l = if bound <? 1 then maxSessionBuckets else bound).
  { induction H as [|l s order t1 t2 t3 _ [IH Hm] Hp].
    - split; [|done]. constructor; simpl; [case_in_goal; zbool; done || lia| |done].
      rewrite map_size_empty. case_in_goal; zbool; done || lia.
    - split; [by apply session_allow_ok|]. rewrite <- Hm. unfold session_allow.
      destruct (buckets l !! s); simpl; [by destruct (allow _ _)|].
      destruct (max l <=? Z.of_nat (size (buckets l))); by destruct (allow _ _). }
  destruct Hok as [[_ Hs Hd] <-]. done.
Qed.

(** C26. A request touches its own session only.  Any other session keeps its
bucket and its recency mark, unless the table was full, the request's session
new, and that other session the least recently seen one. *)
Theorem session_isolation (l : sessionLimiter R) (s s' : bytes) (order : list (bytes * Z)) (t1 t2 t3 : Z) :
  limiter_ok l -> order ≡ₚ map_to_list (lastSeen l) -> s' <> s -> is_Some (buckets l !! s') ->
  let l' := fst (session_allow l s order t1 t2 t3) in
  (buckets l' !! s' = buckets l !! s' /\ lastSeen l' !! s' = lastSeen l !! s') \/
  (buckets l !! s = None /\ Z.of_nat (size (buckets l)) = max l /\ buckets l' !! s' = None /\
   exists t, lastSeen l !! s' = Some t /\ forall s2 t2, lastSeen l !! s2 = Some t2 -> t <= t2).
Proof.
  intros Hok Hperm Hne Hsome. unfold session_allow. simpl. destruct (buckets l !! s) as [b|] eqn:Eb.
  - left. destruct (allow b t3) as [b' res]. simpl. by rewrite !lookup_insert_ne by done.
  - destruct (max l <=? Z.of_nat (size (buckets l))) eqn:E; zbool.
    + destruct (evict_spec l order Hok Hperm) as (o & t & Ho & Hmin & ->); [done|].
      destruct (allow _ t3) as [b' res]. simpl. rewrite !lookup_insert_ne by done.
      destruct (decide (o = s')) as [->|Hos]; [right|left].
      * destruct Hok. split_and!; [done|lia|by rewrite lookup_delete_eq|by exists t].
      * by rewrite !lookup_delete_ne by done.
    + left. destruct (allow _ t3) as [b' res]. simpl. by rewrite !lookup_insert_ne by done.
Qed.

End sessions.

(** ** Concrete instances *)

(** The 64-bit x86 conversion: out-of-range values give the least integer. *)
Definition amd64 : Arch := {| conv_oor := fun _ => - 2 ^ 63 |}.

Lemma bucket_rate_bound_witness :
  (0 < 1)%Q /\ 1 <= 2 /\
  (let b := fst (run (newTokenBucket 1%Q 2 0) [0%Z]) in
   inject_Z (granted (snd (run b [0%Z; 0%Z; Second])))
   <= inject_Z 2 + 1 * secs (fold_left Z.max [0%Z; 0%Z; Second] (last b) - last b))%Q.
Proof.
  split; [reflexivity|]. split; [lia|].
  apply (bucket_rate_bound 1%Q 2 0 [0] [0; 0; Second]); [reflexivity|lia].
Defined.

Definition empty_bucket : tokenBucket Q := MkBucket 1%Q 1%Q 0%Q 0.

Lemma empty_bucket_ok : bucket_ok empty_bucket /\ (1 <= burst empty_bucket)%Q.
Proof. by vm_compute. Qed.

Lemma retry_delay_tight_witness :
  bucket_ok empty_bucket /\ allow empty_bucket 0 = (empty_bucket, (false, Second)) /\
  0 <= Second /\ (0 + Second < Second + 1 -> fst (snd (allow empty_bucket (Second + 1))) = true)
  /\ (Second + 1 < 0 + Second -> fst (snd (allow empty_bucket (Second + 1))) = false).
Proof.
  split; [exact (proj1 empty_bucket_ok)|]. split; [reflexivity|].
  apply (retry_delay_tight empty_bucket empty_bucket 0 Second (Second + 1));
    [exact (proj1 empty_bucket_ok)|exact (proj2 empty_bucket_ok)|vm_compute; by split|reflexivity|vm_compute; by split].
Defined.

Definition half_bucket : tokenBucket float64 := MkBucket (f_of_int 2) (f_of_int 3) (f_of_int 0) 0.

Lemma half_bucket_ok : fbucket_ok half_bucket.
Proof. constructor; by vm_compute. Qed.

Lemma bucket_float_safe_witness :
  fbucket_ok half_bucket /\
  (refill (Num0 := @float64_num amd64) half_bucket Second = half_bucket \/
   fleb (tokens (refill (Num0 := @float64_num amd64) half_bucket Second)) (burst half_bucket) = true).
Proof.
  split; [exact half_bucket_ok|].
  exact (proj1 (bucket_float_safe (A := amd64) half_bucket Second half_bucket_ok)).
Defined.

Lemma burst_exact_witness :
  Z.of_nat 3 < 2 ^ 53 /\
  snd (run (Num0 := @float64_num amd64) (newTokenBucket (Num0 := @float64_num amd64) (f_of_int 1) (Z.of_nat 3) 7)
    (replicate (3 + 2) 7)) = [true; true; true; false; false].
Proof. split; [done|]. by apply (burst_exact (A := amd64) (f_of_int 1) 3 2 7). Defined.

Definition two_sessions : sessionLimiter Q :=
  fst (session_allow (fst (session_allow (newSessionLimiter 1%Q 1 2) [x61] [] 1 2 3)) [x62] [([x61], 2)] 4 5 6).

Lemma two_sessions_reachable : reachable (newSessionLimiter 1%Q 1 2) two_sessions.
Proof.
  apply (reach_step _ _ [x62] [([x61], 2)] 4 5 6); [|by vm_compute].
  apply (reach_step _ _ [x61] [] 1 2 3); [apply reach_init|by vm_compute].
Qed.

Lemma session_table_bounded_witness :
  reachable (newSessionLimiter 1%Q 1 2) two_sessions /\
  (Z.of_nat (size (buckets two_sessions)) <= 2 /\ dom (buckets two_sessions) = dom (lastSeen two_sessions)).
Proof.
  split; [exact two_sessions_reachable|].
  exact (session_table_bounded 1%Q 1 2 two_sessions two_sessions_reachable).
Defined.

Definition seen_order : list (bytes * Z) := map_to_list (lastSeen two_sessions).

Lemma two_sessions_ok : limiter_ok two_sessions.
Proof.
  apply session_allow_ok; [|by vm_compute]. apply session_allow_ok; [|by vm_compute].
  by constructor.
Qed.

Lemma session_isolation_witness :
  limiter_ok two_sessions /\ [x61] <> [x63] /\ is_Some (buckets two_sessions !! [x61]) /\
  let l' := fst (session_allow two_sessions [x63] seen_order 7 8 9) in
  (buckets l' !! [x61] = buckets two_sessions !! [x61] /\ lastSeen l' !! [x61] = lastSeen two_sessions !! [x61]) \/
  (buckets two_sessions !! [x63] = None /\ Z.of_nat (size (buckets two_sessions)) = max two_sessions /\
   buckets l' !! [x61] = None /\
   exists t, lastSeen two_sessions !! [x61] = Some t /\
     forall s2 t2, lastSeen two_sessions !! s2 = Some t2 -> t <= t2).
Proof.
  split; [exact two_sessions_ok|]. split; [done|]. split; [vm_compute; eauto|].
  apply (session_isolation two_sessions [x63] [x61] seen_order 7 8 9);
    [exact two_sessions_ok|done|done|vm_compute; eauto].
Defined.
