(* ===== verification/Sha256.v ===== *)
(** * SHA-256

[crypto/sha256.Sum256] (FIPS 180-4) on byte sequences, executable, with
32-bit words as integers modulo 2^32. *)

From S2P Require Export GoStrings.
Local Open Scope Z_scope.
Local Open Scope go_scope.

Definition w32 (z : Z) : Z := Z.land z 0xFFFFFFFF.
Definition rotr (n x : Z) : Z := w32 (Z.lor (Z.shiftr x n) (Z.shiftl x (32 - n))).

Definition ch (x y z : Z) : Z := Z.lxor (Z.land x y) (Z.land (Z.lxor x 0xFFFFFFFF) z).
Definition maj (x y z : Z) : Z := Z.lxor (Z.land x y) (Z.lxor (Z.land x z) (Z.land y z)).
Definition bsig0 (x : Z) : Z := Z.lxor (rotr 2 x) (Z.lxor (rotr 13 x) (rotr 22 x)).
Definition bsig1 (x : Z) : Z := Z.lxor (rotr 6 x) (Z.lxor (rotr 11 x) (rotr 25 x)).
Definition ssig0 (x : Z) : Z := Z.lxor (rotr 7 x) (Z.lxor (rotr 18 x) (Z.shiftr x 3)).
Definition ssig1 (x : Z) : Z := Z.lxor (rotr 17 x) (Z.lxor (rotr 19 x) (Z.shiftr x 10)).

(** The constants are the first 32 bits of the fractional parts of roots of
the first primes: cube roots for the rounds, square roots for the initial
state. *)
Definition is_prime (n : Z) : bool :=
  forallb (fun d => negb (n mod d =? 0)) (map Z.of_nat (seq 2 (Z.to_nat n - 2))).

Definition primes (bound : nat) : list Z := filter (fun n => is_prime n = true) (map Z.of_nat (seq 2 bound)).

(** The integer cube root, one binary digit at a time. *)
Fixpoint cube_root (bits : nat) (n r : Z) : Z :=
  match bits with
  | O => r
  | S bits =>
      let r' := r + 2 ^ Z.of_nat bits in
      cube_root bits n (if r' * r' * r' <=? n then r' else r)
  end.

Definition sha_k : list Z :=
  Eval vm_compute in map (fun p => w32 (cube_root 36 (p * 2 ^ 96) 0)) (primes 310).

Definition sha_init : list Z :=
  Eval vm_compute in map (fun p => w32 (Z.sqrt (p * 2 ^ 64))) (take 8 (primes 310)).

(** The message schedule, latest word first. *)
Fixpoint schedule (n : nat) (w : list Z) : list Z :=
  match n with
  | O => w
  | S n =>
      let at_ i := nth i w 0 in
      schedule n (w32 (ssig1 (at_ 1%nat) + at_ 6%nat + ssig0 (at_ 14%nat) + at_ 15%nat) :: w)
  end.

Definition round (st : list Z) (kw : Z * Z) : list Z :=
  match st with
  | [a; b; c; d; e; f; g; h] =>
      let t1 := h + bsig1 e + ch e f g + fst kw + snd kw in
      let t2 := bsig0 a + maj a b c in
      [w32 (t1 + t2); a; b; c; w32 (d + t1); e; f; g]
  | _ => st
  end.

Definition compress (h block : list Z) : list Z :=
  let w := reverse (schedule 48 (reverse block)) in
  zip_with (fun x y => w32 (x + y)) h (fold_left round (zip sha_k w) h).

(** ** Padding and words *)

Definition be_word (a b c d : byte) : Z := ((bz a * 256 + bz b) * 256 + bz c) * 256 + bz d.

Fixpoint words (s : bytes) : list Z :=
  match s with
  | a :: b :: c :: d :: s => be_word a b c d :: words s
  | _ => []
  end.

Fixpoint be_bytes (n : nat) (z : Z) : bytes :=
  match n with O => [] | S n => be_bytes n (z / 256) ++ [zb z] end.

Definition sha_pad (s : bytes) : bytes :=
  s ++ x80 :: replicate (Z.to_nat ((55 - len s) mod 64)) x00 ++ be_bytes 8 (8 * len s).

Fixpoint blocks (fuel : nat) (h w : list Z) : list Z :=
  match fuel with
  | O => h
  | S fuel => match w with [] => h | _ => blocks fuel (compress h (take 16 w)) (drop 16 w) end
  end.

(** [sha256.Sum256]. *)
Definition sha256 (s : bytes) : bytes :=
  let w := words (sha_pad s) in
  concat (map (be_bytes 4) (blocks (length w) sha_init w)).

(** [hex.EncodeToString]. *)
Definition hex_encode (s : bytes) : bytes := concat (map (fun b => hex2 (bz b)) s).

Example sha256_abc :
  hex_encode (sha256 "abc") = "ba7816bf8f01cfea414140de5dae2223b00361a396177a9cb410ff61f20015ad".
Proof. vm_compute. reflexivity. Qed.

