(* ===== verification/Canonical.v ===== *)
(** * Canonical JSON (gateway/canonical.go)

The canonical encoding the lockfile hashes are computed over, the decoder
that feeds it and the digest.  A canonical text parses back to the value it
encodes, so two values share an encoding exactly when they are equal up to
the order of map entries. *)

From S2P Require Export JsonDecode SortOn Sha256.
Local Open Scope Z_scope.
Local Open Scope go_scope.

(** ** Operations *)

Definition errReplacementChar : goerror :=
  ENew "canonical: string contains U+FFFD (invalid UTF-8 or an unpaired surrogate escape); cannot guarantee a hash matching mcp-sentinel".

(** [Decoder.More] after a value: there is another token that closes nothing. *)
Definition more (rest : bytes) : bool :=
  match snd (take_ws rest) with
  | [] => false
  | c :: _ => negb (Byte.eqb c x5d) && negb (Byte.eqb c x7d)
  end.

Definition decodeUseNumber (raw : bytes) : result gval :=
  match parse_prefix raw with
  | None => Err (EDecode "any" raw)
  | Some (j, rest) =>
      if more rest then Err (ENew "trailing data after JSON value") else Ok (to_any j)
  end.

(** One rune of [appendPythonString]. *)
Definition python_rune (r : Z) : bytes :=
  if r =? 0x22 then [x5c; x22] else if r =? 0x5C then "\\"
  else if r =? 10 then "\n" else if r =? 13 then "\r" else if r =? 9 then "\t"
  else if r =? 8 then "\b" else if r =? 12 then "\f"
  else if (0x20 <=? r) && (r <=? 0x7E) then [zb r]
  else if r <=? 0xFFFF then "\u" ++ hex4 r
  else let '(hi, lo) := utf16_encode r in "\u" ++ hex4 hi ++ "\u" ++ hex4 lo.

Definition python_body (s : bytes) : bytes := concat (map python_rune (runes s)).

Definition appendPythonString (dst s : bytes) : bytes := dst ++ quoted (python_body s).

(** A member of a map: its key is checked before its value is encoded. *)
Definition canonical_member (kv : bytes * result bytes) : result bytes :=
  if contains_rune_error (fst kv) then Err errReplacementChar
  else v ← snd kv; mret (appendPythonString [] (fst kv) ++ ":" ++ v).

Fixpoint canonical (v : gval) : result bytes :=
  match v with
  | GNull => Ok "null"
  | GBool b => Ok (if b then "true" else "false")
  | GNum l => Ok l
  | GStr s => if contains_rune_error s then Err errReplacementChar else Ok (appendPythonString [] s)
  | GArr l => els ← mapM id (map canonical l); mret ("[" ++ join "," els ++ "]")
  | GDict kvs =>
      ms ← mapM canonical_member (sort_on fst (map (fun kv => (fst kv, canonical (snd kv))) kvs));
      mret ("{" ++ join "," ms ++ "}")
  end.

(** On an error the buffer is abandoned by every caller. *)
Definition canonicalAppend (dst : bytes) (v : gval) : result bytes :=
  t ← canonical v; mret (dst ++ t).

Definition sentinelHash (c : bytes) : bytes := "sha256:" ++ hex_encode (sha256 c).

(** The vectors of canonical_test.go, computed by mcp-sentinel itself. *)
Definition canonical_hash (doc : bytes) : result (bytes * bytes) :=
  v ← decodeUseNumber doc; t ← canonicalAppend [] v; mret (t, sentinelHash t).

Example vector_control_chars :
  canonical_hash "{'name': 'x', 'description': 'line1\nline2\ttab\rcr\bbs\fff\u001funit\u007fdel', 'inputSchema': {}}"%js
  = Ok ("{'description':'line1\nline2\ttab\rcr\bbs\fff\u001funit\u007fdel','inputSchema':{},'name':'x'}"%js, sentinelHash
        "{'description':'line1\nline2\ttab\rcr\bbs\fff\u001funit\u007fdel','inputSchema':{},'name':'x'}"%js).
Proof. vm_compute. reflexivity. Qed.

Example vector_nested :
  canonical_hash "{'name': 'z', 'description': '', 'inputSchema': {'a': [1, {'b': [true, false, null, []], 'a': {}}, 's'], 'empty': {}}}"%js
  = Ok ("{'description':'','inputSchema':{'a':[1,{'a':{},'b':[true,false,null,[]]},'s'],'empty':{}},'name':'z'}"%js,
        "sha256:1be242abffa2559d062dbcba0507d976ddd703f73d04699800fa098da3d8d968").
Proof. vm_compute. reflexivity. Qed.

Example vector_unicode :
  canonical_hash "{'name': 'caf\u00e9', 'description': 'Zo\u00ebk\u00e9 \ud83d\udd27 tool \ud834\udd1e \u6f22\u5b57', 'inputSchema': {}}"%js
  = Ok ("{'description':'Zo\u00ebk\u00e9 \ud83d\udd27 tool \ud834\udd1e \u6f22\u5b57','inputSchema':{},'name':'caf\u00e9'}"%js,
        "sha256:a43e1f8e875a6666f5f7a6180232bbf2bb8183dbdc8d3ea8c0cc5bf0ba4498b8").
Proof. vm_compute. reflexivity. Qed.

(** ** Values

The values [decodeUseNumber] produces: text is UTF-8, numbers are JSON
literals, the keys of a map are distinct. *)

Lemma gval_nested_ind (P : gval -> Prop) :
  P GNull -> (forall b, P (GBool b)) -> (forall l, P (GNum l)) -> (forall s, P (GStr s)) ->
  (forall l, Forall P l -> P (GArr l)) ->
  (forall kvs, Forall (fun kv => P (snd kv)) kvs -> P (GDict kvs)) ->
  forall v, P v.
Proof.
  intros Hn Hb Hnum Hs Ha Hm. fix IH 1. intros [|b|l|s|l|kvs].
  - apply Hn.
  - apply Hb.
  - apply Hnum.
  - apply Hs.
  - apply Ha. induction l as [|v l IHl]; constructor; [apply IH|apply IHl].
  - apply Hm. induction kvs as [|[k v] kvs IHl]; constructor; [apply IH|apply IHl].
Qed.

Inductive gwf : gval -> Prop :=
| gwf_null : gwf GNull
| gwf_bool b : gwf (GBool b)
| gwf_num l : num_ok l = true -> gwf (GNum l)
| gwf_str s : valid_utf8 s -> gwf (GStr s)
| gwf_arr l : Forall gwf l -> gwf (GArr l)
| gwf_map kvs :
    NoDup (map fst kvs) -> Forall (fun kv => valid_utf8 (fst kv)) kvs ->
    Forall (fun kv => gwf (snd kv)) kvs -> gwf (GDict kvs).

(** A value with the entries of its maps in key order: two decoded values are
equal, as Go compares maps, when these forms are. *)
Fixpoint gsort (v : gval) : gval :=
  match v with
  | GArr l => GArr (map gsort l)
  | GDict kvs => GDict (sort_on fst (map (fun kv => (fst kv, gsort (snd kv))) kvs))
  | _ => v
  end.

Fixpoint gdepth (v : gval) : Z :=
  match v with
  | GArr l => 1 + zmax_list (map gdepth l)
  | GDict kvs => 1 + zmax_list (map (fun kv => gdepth (snd kv)) kvs)
  | _ => 0
  end.

(** No string and no key holds U+FFFD. *)
Fixpoint clean (v : gval) : bool :=
  match v with
  | GStr s => negb (contains_rune_error s)
  | GArr l => forallb clean l
  | GDict kvs => forallb (fun kv => negb (contains_rune_error (fst kv)) && clean (snd kv)) kvs
  | _ => true
  end.

(** The document a canonical encoding is. *)
Definition canon_key (k : bytes) : mgap := MGap [] (python_body k) [] [] [].

Fixpoint cst (v : gval) : json :=
  match v with
  | GNull => JNull
  | GBool b => if b then JTrue else JFalse
  | GNum l => JNum l
  | GStr s => JStr (python_body s)
  | GArr l => JArr [] (map (fun x => (no_gap, cst x)) l)
  | GDict kvs =>
      JObj [] (map (fun kv => (canon_key (fst kv), snd kv))
                 (sort_on fst (map (fun kv => (fst kv, cst (snd kv))) kvs)))
  end.

Lemma sort_on_fst_map {V W} (f : V -> W) (kvs : list (bytes * V)) :
  sort_on fst (map (fun kv => (fst kv, f (snd kv))) kvs) = map (fun kv => (fst kv, f (snd kv))) (sort_on fst kvs).
Proof. by apply sort_on_map. Qed.

Lemma forallb_perm {A} (p : A -> bool) l k : l ≡ₚ k -> forallb p l = forallb p k.
Proof.
  intros H. apply eq_true_iff_eq. rewrite !forallb_Forall. by rewrite H.
Qed.

Lemma forallb_fmap {A B} (p : B -> bool) (f : A -> B) l : forallb p (map f l) = forallb (fun x => p (f x)) l.
Proof. induction l as [|x l IH]; [done|]. simpl. by rewrite IH. Qed.

Lemma forallb_ext_elem {A} (p q : A -> bool) l : (forall x, x ∈ l -> p x = q x) -> forallb p l = forallb q l.
Proof.
  induction l as [|x l IH]; intros H; [done|]. simpl. rewrite H, IH; [done| |by left].
  intros y Hy. apply H. by right.
Qed.

Lemma mapM_uniform {A B} (f : A -> result B) (p : A -> bool) (g : A -> B) e l :
  (forall x, x ∈ l -> f x = if p x then Ok (g x) else Err e) ->
  mapM f l = if forallb p l then Ok (map g l) else Err e.
Proof.
  induction l as [|x l IH]; intros H; [done|]. cbn [mapM forallb map].
  rewrite (H x) by by left. destruct (p x); [|done]. simpl.
  rewrite IH by (intros; apply H; by right). by destruct (forallb p l).
Qed.

Lemma mapM_map {A B C} (f : B -> result C) (g : A -> B) l : mapM f (map g l) = mapM (fun x => f (g x)) l.
Proof. induction l as [|x l IH]; [done|]. cbn [mapM map]. by rewrite IH. Qed.

(** An encoding is the text of its document, and is refused only for
U+FFFD. *)
Lemma canonical_eq v :
  canonical v = if clean v then Ok (render (cst v)) else Err errReplacementChar.
Proof.
  induction v as [|b|l|s|l IH|kvs IH] using gval_nested_ind; try done.
  - by destruct b.
  - simpl. by destruct (contains_rune_error s).
  - rewrite Forall_forall in IH. simpl. rewrite mapM_map.
    rewrite (mapM_uniform _ clean (fun x => render (cst x)) errReplacementChar) by (intros; by apply IH).
    destruct (forallb clean l); [|done]. simpl. by rewrite map_map, (map_ext _ _ (fun x => render_no_gap (cst x))).
  - simpl. rewrite !sort_on_fst_map, mapM_map.
    rewrite (mapM_uniform _ (fun kv => negb (contains_rune_error (fst kv)) && clean (snd kv))
      (fun kv => quoted (python_body (fst kv)) ++ ":" ++ render (cst (snd kv))) errReplacementChar).
    + rewrite (forallb_perm _ _ _ (sort_on_perm fst kvs)). case_in_goal; [|done]. simpl.
      rewrite !map_map. do 4 f_equal. apply map_ext. intros kv. unfold render_member. simpl.
      by rewrite app_nil_r.
    + intros kv Hkv. rewrite sort_on_perm in Hkv. rewrite Forall_forall in IH.
      unfold canonical_member. simpl. rewrite IH by done.
      destruct (contains_rune_error (fst kv)); [done|]. by destruct (clean (snd kv)).
Qed.

(** ** Strings *)

Lemma python_rune_spec r : scalar r ->
  chunk (python_rune r) /\ forall t, unquote (python_rune r ++ t) = encode_rune r ++ unquote t.
Proof.
  intros Hs. unfold python_rune.
  assert (Hsimple : forall e c, is_escape e = true -> e <> x75 -> simple_escape e = c -> encode_rune r = [c] ->
    chunk [x5c; e] /\ forall t, unquote ([x5c; e] ++ t) = encode_rune r ++ unquote t).
  { intros e c He Hu Hc Hr. split; [by apply chunk_simple|]. intros t. simpl app.
    rewrite unquote_simple, Hc, Hr by done. done. }
  repeat match goal with
  | |- context [if r =? ?k then _ else _] =>
      destruct (Z.eqb_spec r k) as [->|?]; [by eapply Hsimple|]
  end.
  destruct ((0x20 <=? r) && (r <=? 0x7E)) eqn:Hp; zbool.
  { assert (Hb : bz (zb r) = r) by (apply bz_zb_small; lia).
    assert (Hne : forall c, zb r = c -> r = bz c) by (intros c <-; done).
    split.
    - apply chunk_plain; [lia|intros E%Hne; by compute in E; subst|intros E%Hne; by compute in E; subst].
    - intros t. simpl app. rewrite encode_rune_ascii by lia.
      rewrite unquote_plain; [done|intros E%Hne; by compute in E; subst|].
      unfold is_ascii. rewrite Hb. lia. }
  destruct (r <=? 0xFFFF) eqn:H16; zbool.
  { split; [apply chunk_hex4|]. intros t. rewrite <- app_assoc. apply unquote_hex4.
    - unfold scalar in Hs. lia.
    - unfold scalar, is_surrogate in *. lia. }
  destruct (utf16_encode r) as [hi lo] eqn:E. split.
  - rewrite (app_assoc "\u" (hex4 hi)). apply chunk_app; apply chunk_hex4.
  - intros t. rewrite <- !app_assoc. pose proof (unquote_surrogates r t) as Hu. rewrite E in Hu.
    apply Hu. unfold scalar in Hs. lia.
Qed.

Lemma python_runes_spec l : Forall scalar l ->
  chunk (concat (map python_rune l)) /\
  forall t, unquote (concat (map python_rune l) ++ t) = encode_runes l ++ unquote t.
Proof.
  induction 1 as [|r l Hr Hl [IH1 IH2]]; [by split|]. simpl.
  destruct (python_rune_spec r Hr) as [H1 H2]. split; [by apply chunk_app|].
  intros t. rewrite encode_runes_cons, <- !app_assoc, H2, IH2. done.
Qed.

Lemma python_body_ok s : str_ok (python_body s) = true.
Proof.
  rewrite <- (app_nil_r (python_body s)). apply str_ok_chunks; [|done].
  apply python_runes_spec, runes_scalar.
Qed.

Lemma unquote_python s : valid_utf8 s -> unquote (python_body s) = s.
Proof.
  intros Hv. rewrite <- (app_nil_r (python_body s)). unfold python_body.
  rewrite (proj2 (python_runes_spec (runes s) (runes_scalar s))), unquote_nil, app_nil_r. exact Hv.
Qed.

(** ** The round trip *)

Lemma assoc_set_fresh {V} k (v : V) l : k ∉ map fst l -> assoc_set k v l = l ++ [(k, v)].
Proof.
  induction l as [|[k' v'] l IH]; intros H; [done|]. simpl in *. rewrite not_elem_of_cons in H.
  rewrite bool_decide_eq_false_2 by tauto. by rewrite IH by tauto.
Qed.

Lemma assoc_of_nodup {V} (l : list (bytes * V)) : NoDup (map fst l) -> assoc_of l = l.
Proof.
  unfold assoc_of.
  enough (H : forall acc, NoDup (map fst (acc ++ l)) ->
    fold_left (fun acc kv => assoc_set (fst kv) (snd kv) acc) l acc = acc ++ l) by (intros; by apply (H [])).
  induction l as [|[k v] l IH]; intros acc Hnd; simpl; [by rewrite app_nil_r|].
  rewrite assoc_set_fresh.
  - rewrite IH, <- app_assoc; [done|]. by rewrite <- app_assoc.
  - rewrite map_app in Hnd. apply NoDup_app in Hnd as (_ & Hd & _). intros Hk. apply (Hd k Hk). by left.
Qed.

Lemma zmax_list_map_ext {A} (f g : A -> Z) l : (forall x, x ∈ l -> f x = g x) -> zmax_list (map f l) = zmax_list (map g l).
Proof.
  induction l as [|x l IH]; intros H; [done|]. simpl. rewrite H, IH; [done| |by left].
  intros y Hy. apply H. by right.
Qed.

Lemma zmax_list_perm l k : l ≡ₚ k -> zmax_list l = zmax_list k.
Proof. induction 1; simpl; lia. Qed.

Lemma cst_depth v : depth (cst v) = gdepth v.
Proof.
  induction v as [|b|l|s|l IH|kvs IH] using gval_nested_ind; try done.
  - by destruct b.
  - rewrite Forall_forall in IH. cbn [depth cst gdepth]. rewrite map_map. f_equal.
    by apply zmax_list_map_ext.
  - rewrite Forall_forall in IH. cbn [depth cst gdepth]. rewrite sort_on_fst_map, !map_map. f_equal.
    rewrite <- (zmax_list_perm _ _ (Permutation_map _ (sort_on_perm fst kvs))).
    apply zmax_list_map_ext. intros kv Hkv. rewrite sort_on_perm in Hkv. by apply IH.
Qed.

Lemma cst_wf v : gwf v -> wf (cst v) = true.
Proof.
  induction v as [|b|l|s|l IH|kvs IH] using gval_nested_ind; intros Hw; inversion Hw; subst; try done.
  - by destruct b.
  - simpl. apply python_body_ok.
  - cbn [wf cst]. apply andb_true_iff. split; [by destruct l|].
    apply forallb_Forall, Forall_map. eapply Forall_impl; [apply Forall_and; split; [exact IH|eassumption]|].
    simpl. intros x [Hx ?]. by apply Hx.
  - cbn [wf cst]. rewrite sort_on_fst_map, map_map. apply andb_true_iff. split; [by destruct (sort_on fst kvs)|].
    apply forallb_Forall, Forall_map. rewrite (sort_on_perm fst kvs).
    eapply Forall_impl; [apply Forall_and; split; [exact IH|eassumption]|].
    simpl. intros x [Hx ?]. unfold mgap_ok. simpl. rewrite python_body_ok. by apply Hx.
Qed.

Lemma to_any_cst v : gwf v -> to_any (cst v) = gsort v.
Proof.
  induction v as [|b|l|s|l IH|kvs IH] using gval_nested_ind; intros Hw; inversion Hw; subst; try done.
  - by destruct b.
  - simpl. by rewrite unquote_python.
  - simpl. f_equal. rewrite map_map. apply map_ext_Forall.
    eapply Forall_impl; [apply Forall_and; split; [exact IH|eassumption]|]. simpl. intros x [Hx ?]. by apply Hx.
  - simpl. f_equal. rewrite !sort_on_fst_map, !map_map. simpl.
    rewrite (map_ext_Forall _ (fun kv => (fst kv, gsort (snd kv)))).
    + apply assoc_of_nodup. rewrite map_map. simpl. by rewrite (sort_on_perm fst kvs).
    + rewrite (sort_on_perm fst kvs). inversion Hw as [| | | | |? _ Hv Hg]; subst.
      apply Forall_forall. intros x Hx. rewrite Forall_forall in IH, Hv, Hg.
      by rewrite unquote_python, IH by auto.
Qed.

Lemma decode_canonical v t :
  gwf v -> gdepth v <= max_nesting -> canonical v = Ok t -> decodeUseNumber t = Ok (gsort v).
Proof.
  intros Hw Hd. rewrite canonical_eq. destruct (clean v); [|done]. intros [= <-].
  unfold decodeUseNumber.
  assert (Hg : good (cst v)) by (split; [by apply cst_wf|by rewrite cst_depth]).
  pose proof (parse_prefix_complete [] (cst v) [] eq_refl Hg eq_refl) as Hp.
  rewrite app_nil_r in Hp. simpl app in Hp. rewrite Hp. simpl. by rewrite to_any_cst.
Qed.

Lemma cst_gsort v : cst (gsort v) = cst v.
Proof.
  induction v as [|b|l|s|l IH|kvs IH] using gval_nested_ind; try done; simpl.
  - f_equal. rewrite map_map. apply map_ext_Forall. eapply Forall_impl; [exact IH|].
    simpl. by intros x ->.
  - do 2 f_equal. rewrite !sort_on_fst_map, sort_on_idemp, map_map.
    apply map_ext_Forall. rewrite (sort_on_perm fst kvs). eapply Forall_impl; [exact IH|].
    simpl. by intros x ->.
Qed.

Lemma clean_gsort v : clean (gsort v) = clean v.
Proof.
  induction v as [|b|l|s|l IH|kvs IH] using gval_nested_ind; try done; rewrite Forall_forall in IH; simpl.
  - rewrite forallb_fmap. by apply forallb_ext_elem.
  - rewrite (forallb_perm _ _ _ (sort_on_perm _ _)), forallb_fmap. apply forallb_ext_elem.
    intros x Hx. simpl. by rewrite IH.
Qed.

Lemma canonical_gsort v : canonical (gsort v) = canonical v.
Proof. by rewrite !canonical_eq, cst_gsort, clean_gsort. Qed.

(** *** Decoded values *)

Lemma assoc_set_keys {V} k (v : V) l k' : k' ∈ map fst (assoc_set k v l) -> k' = k \/ k' ∈ map fst l.
Proof.
  induction l as [|[k1 v1] l IH]; simpl; [by intros ?%list_elem_of_singleton; left|].
  case_bool_decide; simpl; rewrite !elem_of_cons; naive_solver.
Qed.

Lemma assoc_set_nodup {V} k (v : V) l : NoDup (map fst l) -> NoDup (map fst (assoc_set k v l)).
Proof.
  induction l as [|[k1 v1] l IH]; simpl; [by repeat constructor; intros ?%elem_of_nil|].
  rewrite NoDup_cons. intros [Hk Hl]. case_bool_decide; simpl; rewrite NoDup_cons; subst; [done|].
  split; [|auto]. intros [?|?]%assoc_set_keys; congruence.
Qed.

Lemma assoc_set_forall {V} (P : bytes * V -> Prop) k v l :
  P (k, v) -> Forall P l -> Forall P (assoc_set k v l).
Proof.
  intros Hp. induction 1 as [|[k1 v1] l H1 Hl IH]; simpl; [by constructor|].
  case_bool_decide; by constructor.
Qed.

Lemma assoc_of_inv {V} (P : bytes * V -> Prop) l :
  Forall P l -> NoDup (map fst (assoc_of l)) /\ Forall P (assoc_of l).
Proof.
  unfold assoc_of. intros Hl.
  enough (H : forall acc, NoDup (map fst acc) -> Forall P acc ->
    NoDup (map fst (fold_left (fun acc kv => assoc_set (fst kv) (snd kv) acc) l acc)) /\
    Forall P (fold_left (fun acc kv => assoc_set (fst kv) (snd kv) acc) l acc)).
  { apply H; constructor. }
  induction Hl as [|[k v] l Hkv Hl IH]; intros acc Hnd Hacc; simpl; [done|].
  apply IH; [by apply assoc_set_nodup|by apply assoc_set_forall].
Qed.

Lemma to_any_gwf j : wf j = true -> gwf (to_any j).
Proof.
  induction j as [| | |l|s|w es IH|w ms IH] using json_nested_ind; intros Hw; simpl; try by constructor.
  - constructor. by apply unquote_valid.
  - simpl in Hw. zbool. rewrite forallb_Forall in H0. constructor. apply Forall_map.
    eapply Forall_impl; [apply Forall_and; split; [exact IH|exact H0]|]. simpl.
    intros e [He ?]. zbool. by apply He.
  - simpl in Hw. zbool. rewrite forallb_Forall in H0.
    destruct (assoc_of_inv (fun kv => valid_utf8 (fst kv) /\ gwf (snd kv))
      (map (fun m => (unquote (m_key (fst m)), to_any (snd m))) ms)) as [Hnd Hall].
    + apply Forall_map. eapply Forall_impl; [apply Forall_and; split; [exact IH|exact H0]|]. simpl.
      intros m [Hm ?]. unfold mgap_ok in *. zbool. split; [by apply unquote_valid|by apply Hm].
    + apply Forall_and in Hall as [??]. by constructor.
Qed.

Lemma assoc_set_depth k (v : gval) l b :
  gdepth v <= b -> Forall (fun kv : bytes * gval => gdepth (snd kv) <= b) l ->
  Forall (fun kv : bytes * gval => gdepth (snd kv) <= b) (assoc_set k v l).
Proof. intros. by apply assoc_set_forall. Qed.

Lemma to_any_depth j : gdepth (to_any j) <= depth j.
Proof.
  induction j as [| | |l|s|w es IH|w ms IH] using json_nested_ind; try done; cbn [to_any gdepth depth].
  - apply Z.add_le_mono_l. rewrite map_map. apply zmax_list_le; [apply zmax_list_nonneg|].
    apply Forall_map, Forall_forall. intros e He. rewrite Forall_forall in IH.
    etrans; [by apply IH|]. apply zmax_list_ge. by apply (list_elem_of_fmap_2 (fun e => depth (snd e))).
  - apply Z.add_le_mono_l. apply zmax_list_le; [apply zmax_list_nonneg|]. apply Forall_map.
    apply (assoc_of_inv (fun kv => gdepth (snd kv) <= zmax_list (map (fun m => depth (snd m)) ms))).
    apply Forall_map, Forall_forall. intros m Hm. rewrite Forall_forall in IH. simpl.
    etrans; [by apply IH|]. apply zmax_list_ge. by apply (list_elem_of_fmap_2 (fun m => depth (snd m))).
Qed.

Lemma decode_gwf raw v : decodeUseNumber raw = Ok v -> gwf v.
Proof.
  unfold decodeUseNumber. destruct (parse_prefix raw) as [[j r]|] eqn:E; [|done].
  destruct (more r); [done|]. intros [= <-]. apply parse_prefix_sound in E as (_ & _ & _ & [Hw _]).
  by apply to_any_gwf.
Qed.

Lemma decode_depth raw v : decodeUseNumber raw = Ok v -> gdepth v <= max_nesting.
Proof.
  unfold decodeUseNumber. destruct (parse_prefix raw) as [[j r]|] eqn:E; [|done].
  destruct (more r); [done|]. intros [= <-]. apply parse_prefix_sound in E as (_ & _ & _ & [_ Hd]).
  pose proof (to_any_depth j). lia.
Qed.

Lemma gsort_keys kvs : map fst (sort_on fst (map (fun kv : bytes * gval => (fst kv, gsort (snd kv))) kvs)) ≡ₚ map fst kvs.
Proof. rewrite (Permutation_map fst (sort_on_perm fst _)), map_map. done. Qed.

Lemma gwf_gsort v : gwf v -> gwf (gsort v).
Proof.
  induction v as [|b|l|s|l IH|kvs IH] using gval_nested_ind; intros Hw; try done; inversion Hw; subst; cbn [gsort].
  - constructor. apply Forall_map. eapply Forall_impl; [apply Forall_and; split; [exact IH|eassumption]|].
    intros x [Hx Hg]. by apply Hx.
  - constructor; [by rewrite gsort_keys|..].
    + rewrite <- (Forall_map fst valid_utf8), gsort_keys, Forall_map. done.
    + rewrite sort_on_perm. apply Forall_map. eapply Forall_impl; [apply Forall_and; split; [exact IH|eassumption]|].
      intros x [Hx Hg]. by apply Hx.
Qed.

Lemma gdepth_gsort v : gdepth (gsort v) = gdepth v.
Proof.
  induction v as [|b|l|s|l IH|kvs IH] using gval_nested_ind; try done; cbn [gsort gdepth]; f_equal.
  - rewrite map_map. f_equal. by apply map_ext_Forall.
  - rewrite (zmax_list_perm _ _ (Permutation_map _ (sort_on_perm fst _))), map_map. f_equal. by apply map_ext_Forall.
Qed.

(** ** Theorems *)

(** What is decoded is well-formed and stays so: strings and keys are
UTF-8, the keys of a map are distinct, numbers are JSON numbers, and the
nesting is bounded, for the value and for its sorted form. *)
Lemma decoded_wellformed (raw : bytes) (v : gval) :
  decodeUseNumber raw = Ok v ->
  gwf v /\ gwf (gsort v) /\ gdepth v <= max_nesting /\ gdepth (gsort v) <= max_nesting.
Proof.
  intros H. pose proof (decode_gwf raw v H) as Hw. pose proof (decode_depth raw v H) as Hd.
  split_and!; [done|by apply gwf_gsort|done|by rewrite gdepth_gsort].
Qed.

(** C29. The canonical encoding loses nothing: decoding it gives the value
back, with the entries of every map in key order. *)
Theorem canonical_roundtrip (raw : bytes) (v : gval) (t : bytes) :
  decodeUseNumber raw = Ok v -> gdepth v <= max_nesting -> canonicalAppend [] v = Ok t ->
  decodeUseNumber t = Ok (gsort v) /\ canonicalAppend [] (gsort v) = Ok t.
Proof.
  intros Hr%decode_gwf Hd Hc. unfold canonicalAppend in *. rewrite canonical_gsort. split; [|done].
  destruct (canonical v) as [t'|e] eqn:E; [|done]. injection Hc as <-. by apply decode_canonical.
Qed.

(** C30. Two decoded values have the same encoding exactly when they are equal
as Go compares them, that is up to the order of map entries. *)
Theorem canonical_faithful (raw raw' : bytes) (v w : gval) (t : bytes) :
  decodeUseNumber raw = Ok v -> decodeUseNumber raw' = Ok w ->
  gdepth v <= max_nesting -> gdepth w <= max_nesting -> canonicalAppend [] v = Ok t ->
  canonicalAppend [] w = Ok t <-> gsort v = gsort w.
Proof.
  intros Hv%decode_gwf Hw%decode_gwf Dv Dw Hc. unfold canonicalAppend in *.
  destruct (canonical v) as [t'|e] eqn:E; [|done]. injection Hc as <-. split.
  - intros H. destruct (canonical w) as [t2|e] eqn:E2; [|done]. injection H as ->.
    pose proof (decode_canonical v t' Hv Dv E) as H1. pose proof (decode_canonical w t' Hw Dw E2) as H2.
    congruence.
  - intros H. by rewrite <- canonical_gsort, <- H, canonical_gsort, E.
Qed.

(** The order in which the runtime ranges over a map does not show in its
encoding. *)
Lemma canonical_order_independent (dst : bytes) (kvs kvs' : list (bytes * gval)) :
  NoDup (map fst kvs) -> kvs ≡ₚ kvs' ->
  canonicalAppend dst (GDict kvs) = canonicalAppend dst (GDict kvs').
Proof.
  intros Hnd Hp. unfold canonicalAppend. simpl. do 2 f_equal.
  rewrite !sort_on_fst_map. by rewrite (sort_on_unique fst kvs kvs' Hnd Hp).
Qed.

(** The encoding is refused exactly for values that hold U+FFFD in a
string or a key, at any depth. *)
Lemma canonical_refuses (dst : bytes) (v : gval) :
  canonicalAppend dst v = Err errReplacementChar <-> clean v = false.
Proof. unfold canonicalAppend. rewrite canonical_eq. by destruct (clean v). Qed.

(** *** Concrete instances *)

Definition doc_ab : bytes := "{'b':[1,{'y':2,'x':'\u00e9'}],'a':null}"%js.
Definition doc_ba : bytes := " {'a' : null, 'b' : [1, {'x':'é','y':2}]}"%js.
Definition decoded (raw : bytes) : gval := match decodeUseNumber raw with Ok v => v | Err _ => GNull end.
Definition canonical_ab : bytes := "{'a':null,'b':[1,{'x':'\u00e9','y':2}]}"%js.

Lemma decoded_wellformed_witness :
  decodeUseNumber doc_ab = Ok (decoded doc_ab) /\ gwf (decoded doc_ab) /\ gdepth (gsort (decoded doc_ab)) <= max_nesting.
Proof.
  split; [reflexivity|]. destruct (decoded_wellformed doc_ab (decoded doc_ab) eq_refl) as (H1 & _ & _ & H2). by split.
Defined.

Lemma canonical_roundtrip_witness :
  decodeUseNumber doc_ab = Ok (decoded doc_ab) /\ canonicalAppend [] (decoded doc_ab) = Ok canonical_ab /\
  (decodeUseNumber canonical_ab = Ok (gsort (decoded doc_ab)) /\
   canonicalAppend [] (gsort (decoded doc_ab)) = Ok canonical_ab).
Proof.
  split; [reflexivity|]. split; [vm_compute; reflexivity|].
  apply (canonical_roundtrip doc_ab (decoded doc_ab) canonical_ab);
    [reflexivity|vm_compute; discriminate|vm_compute; reflexivity].
Defined.

Lemma canonical_faithful_witness :
  decodeUseNumber doc_ab = Ok (decoded doc_ab) /\ decodeUseNumber doc_ba = Ok (decoded doc_ba) /\
  (canonicalAppend [] (decoded doc_ba) = Ok canonical_ab <-> gsort (decoded doc_ab) = gsort (decoded doc_ba)).
Proof.
  split; [reflexivity|]. split; [reflexivity|].
  apply (canonical_faithful doc_ab doc_ba (decoded doc_ab) (decoded doc_ba) canonical_ab);
    [reflexivity|reflexivity|vm_compute; discriminate|vm_compute; discriminate|vm_compute; reflexivity].
Defined.

Lemma canonical_order_independent_witness :
  NoDup (map fst [("k" : bytes, GNull); ("j", GBool true)]) /\
  canonicalAppend [] (GDict [("k" : bytes, GNull); ("j", GBool true)])
  = canonicalAppend [] (GDict [("j" : bytes, GBool true); ("k", GNull)]).
Proof.
  split; [vm_compute; by repeat constructor; set_solver|].
  apply (canonical_order_independent [] [("k" : bytes, GNull); ("j", GBool true)]
           [("j" : bytes, GBool true); ("k", GNull)]).
  - by repeat constructor; set_solver.
  - apply Permutation_swap.
Defined.
