(* ===== verification/PromptProof.v ===== *)
(** * Prompt scanning (gateway/promptproof.go)

The scanner's configuration, the frames it exchanges with a coprocess, the
verdicts it reads back, the strings of a tool result it scans, and the pool
of coprocesses as a transition system in which scans and [Close] interleave. *)

From S2P Require Export Config.
Local Open Scope Z_scope.
Local Open Scope go_scope.

Definition promptProofBlockCode : Z := -32005.
Definition defaultScanPool : Z := 2.

Definition verdictRank (v : bytes) : Z :=
  if bool_decide (v = "suspicious") then 1 else if bool_decide (v = "dangerous") then 2 else 0.

Record scanResult := MkScanResult { Verdict : bytes; Score : Z; Categories : list bytes }.

(** ** Configuration *)

(** The fields of [Scanner] that never change. *)
Record scannerConfig := MkScanner {
  sc_bin : bytes;
  sc_args : list bytes;
  sc_threshold : Z;
  sc_action : bytes;
  sc_size : Z
}.

(** [newScanner] up to the start of the coprocesses. *)
Definition scanner_config (c : PromptProofConfig) : scannerConfig :=
  let threshold := verdictRank (Threshold c) in
  MkScanner
    (if bool_decide (Binary c = []) then "promptproof" else Binary c)
    ((["serve" : bytes]
      ++ (if 0 <? SuspiciousAt c then ["--suspicious-at" : bytes; itoa (SuspiciousAt c)] else []))
      ++ (if 0 <? DangerousAt c then ["--dangerous-at" : bytes; itoa (DangerousAt c)] else []))
    (if threshold =? 0 then verdictRank "dangerous" else threshold)
    (if bool_decide (Action c = []) then "block" else Action c)
    (if Pool c <=? 0 then defaultScanPool else Pool c).

Definition triggers (s : scannerConfig) (verdict : bytes) : bool := sc_threshold s <=? verdictRank verdict.

(** ** Reports *)

Record ppReport := MkReport { rep_verdict : bytes; rep_score : Z; rep_findings : list bytes }.

Definition finding_fields : fields bytes := [fld "category" id (fun v _ => v) dec_string].

Definition ppReport_fields : fields ppReport := [
  fld "verdict" rep_verdict (fun v r => MkReport v (rep_score r) (rep_findings r)) dec_string;
  fld "score" rep_score (fun v r => MkReport (rep_verdict r) v (rep_findings r)) dec_int;
  fld "findings" rep_findings (fun v r => MkReport (rep_verdict r) (rep_score r) v)
    (fun cur j => let '(v, ok) := dec_list [] (dec_struct finding_fields) (Some cur) j in (default [] v, ok)) ].

(** The loop that keeps the first occurrence of each category. *)
Definition category_step (acc : gset bytes * list bytes) (c : bytes) : gset bytes * list bytes :=
  if negb (bool_decide (c = [])) && negb (bool_decide (c ∈ fst acc))
  then ({[c]} ∪ fst acc, snd acc ++ [c]) else acc.

Definition distinct_categories (l : list bytes) : list bytes := snd (fold_left category_step l (∅, [])).

Section report.
Context {L : GoLib}.

Definition parseReport (line : bytes) : result scanResult :=
  let line := trim_space line in
  match line with
  | [] => Err (ENew "promptproof: empty response")
  | _ =>
      rep ← opt_or (unmarshal (dec_struct ppReport_fields) (MkReport [] 0 []) line)
              (EWrap ("promptproof: bad response " ++ quote line ++ ": ") (EDecode "ppReport" line));
      mret (MkScanResult (rep_verdict rep) (rep_score rep) (distinct_categories (rep_findings rep)))
  end.

End report.

(** ** The scanned content *)

(** The recursion descends into the elements of arrays and the values of maps;
[range] is the order in which the runtime ranges over a map.  [null] decodes
into a string without an error, so it contributes the empty string. *)
Fixpoint collectStrings (fuel : nat) (range : gmap bytes bytes -> list (bytes * bytes)) (raw : bytes)
    (out : list bytes) : list bytes :=
  match fuel with
  | O => out
  | S fuel =>
      match unmarshal dec_string [] raw with
      | Some s => out ++ [s]
      | None =>
          match unmarshal dec_raws None raw with
          | Some arr => fold_left (fun out e => collectStrings fuel range e out) (default [] arr) out
          | None =>
              match unmarshal dec_raw_map None raw with
              | Some obj => fold_left (fun out kv => collectStrings fuel range (snd kv) out) (range (default ∅ obj)) out
              | None => out
              end
          end
      end
  end.

Definition scan_strings (range : gmap bytes bytes -> list (bytes * bytes)) (raw : bytes) : list bytes :=
  collectStrings (S (Z.to_nat max_nesting)) range raw [].

(** ** Frames *)

Definition frame (content : bytes) : bytes := itoa (len content) ++ x0a :: content.

(** How a coprocess reads one frame off its input. *)
Definition read_frame (s : bytes) : option (bytes * bytes) :=
  match split_byte x0a s with
  | Some (header, rest) =>
      let n := Z.to_nat (udecimal header) in
      if forallb is_digit header && (n <=? length rest)%nat then Some (take n rest, drop n rest) else None
  | None => None
  end.

(** One scan by one coprocess.  [running] is whether it has been started,
[start] the error of starting it, and the outcome is what the exchange of one
frame for one line came to within the timeout. *)
Inductive io_outcome :=
| IoLine (line : bytes)
| IoError (e : goerror)
| IoTimeout.

Definition proc_scan {L : GoLib} (running : bool) (start : option goerror) (o : io_outcome) (timeout : bytes) :
    bool * result scanResult :=
  match (if running then None else start) with
  | Some e => (running, Err e)
  | None =>
      match o with
      | IoLine line => (true, parseReport line)
      | IoError e => (false, Err (EWrap "promptproof scan I/O: " e))
      | IoTimeout => (false, Err (ENew ("promptproof scan timed out after " ++ timeout)))
      end
  end.

(** A frame ends itself: a coprocess that reads one off its input gets
the content back, whatever bytes it holds and whatever follows. *)
Lemma frame_roundtrip content rest :
  len content < 10 ^ 20 -> read_frame (frame content ++ rest) = Some (content, rest).
Proof.
  intros Hl. destruct (itoa_nat (len content)) as [Hd Hv]; [split; [apply len_nonneg|done]|].
  unfold read_frame, frame.
  assert (Hs : split_byte x0a ((itoa (len content) ++ x0a :: content) ++ rest) = Some (itoa (len content), content ++ rest)).
  { rewrite <- app_assoc. simpl app. generalize Hd. clear. generalize (itoa (len content)) as h.
    induction h as [|c h IH]; [done|]. simpl. intros [Hc Hh]%andb_true_iff.
    assert (Byte.eqb c x0a = false) as -> by (apply byte_eqb_neq; intros ->; done). by rewrite IH. }
  rewrite Hs, Hd, Hv. unfold len. rewrite Nat2Z.id. simpl.
  assert ((length content <=? length (content ++ rest))%nat = true) as -> by (apply Nat.leb_le; rewrite length_app; lia).
  by rewrite take_app_length, drop_app_length.
Qed.

(** ** What is scanned *)

(** The strings a document shows to a reader for whom the last of several
members with one name counts; [null] stands for an empty string. *)
Inductive shown : json -> bytes -> Prop :=
| shown_null : shown JNull []
| shown_string b : shown (JStr b) (unquote b)
| shown_elem w es e s : e ∈ es -> shown (snd e) s -> shown (JArr w es) s
| shown_member w ms1 m ms2 s :
    Forall (fun m' => unquote (m_key (fst m')) <> unquote (m_key (fst m))) ms2 ->
    shown (snd m) s -> shown (JObj w (ms1 ++ m :: ms2)) s.

Lemma insert_members_last (ms : list (mgap * json)) k r :
  fold_left insert_member ms (∅ : gmap bytes bytes) !! k = Some r ->
  exists ms1 m ms2, ms = ms1 ++ m :: ms2 /\ unquote (m_key (fst m)) = k /\ r = render (snd m) /\
    Forall (fun m' => unquote (m_key (fst m')) <> k) ms2.
Proof.
  induction ms as [|m ms IH] using rev_ind; [done|]. rewrite fold_left_app. simpl. unfold insert_member at 1.
  intros [[Hk Hr]|[Hk H]]%lookup_insert_Some.
  - by exists ms, m, [].
  - destruct (IH H) as (ms1 & m' & ms2 & -> & H1 & H2 & H3).
    exists ms1, m', (ms2 ++ [m]). rewrite <- app_assoc. split_and!; try done.
    apply Forall_app. split; [done|]. by repeat constructor.
Qed.

Lemma fold_left_map {A B C} (f : C -> B -> C) (g : A -> B) l acc :
  fold_left f (map g l) acc = fold_left (fun o a => f o (g a)) l acc.
Proof. revert acc. induction l as [|x l IH]; intros acc; [done|]. apply IH. Qed.

Lemma fold_collect {A} (f : A -> list bytes -> list bytes) (P : A -> bytes -> Prop) l out s :
  (forall a o, a ∈ l -> s ∈ f a o <-> s ∈ o \/ P a s) ->
  s ∈ fold_left (fun o a => f a o) l out <-> s ∈ out \/ exists a, a ∈ l /\ P a s.
Proof.
  revert out. induction l as [|a l IH]; intros out H; simpl.
  - split; [by left|]. intros [?|(a & Ha%elem_of_nil & _)]; done.
  - rewrite IH by (intros; apply H; by right). rewrite (H a out) by by left.
    setoid_rewrite elem_of_cons. naive_solver.
Qed.

Section scanned.
Context (range : gmap bytes bytes -> list (bytes * bytes)) (range_perm : forall m, range m ≡ₚ map_to_list m).

Lemma collectStrings_spec fuel j out s :
  good j -> depth j < Z.of_nat fuel ->
  s ∈ collectStrings fuel range (render j) out <-> s ∈ out \/ shown j s.
Proof.
  revert j out. induction fuel as [|fuel IH]; intros j out Hg Hd; [pose proof (depth_nonneg j); lia|].
  cbn [collectStrings]. unfold unmarshal. rewrite parse_doc_render by done.
  destruct j as [| | |l|b|w es|w ms]; simpl dec_string; cbn [fst snd].
  all: try (rewrite elem_of_app, list_elem_of_singleton; split; [intros [?| ->]; [by left|right; constructor]|
            intros [?|H]; [by left|inversion H; subst; by right]]).
  all: try (simpl; split; [by left|intros [?|H]; [done|inversion H]]).
  - simpl dec_raws. cbn [default from_option]. unfold id at 1. rewrite fold_left_map.
    rewrite (fold_collect (fun e o => collectStrings fuel range (render (snd e)) o) (fun e s => shown (snd e) s)).
    + split; (intros [?|H]; [by left|right]).
      * destruct H as (e & He & Hs). by econstructor.
      * inversion H; subst. eauto.
    + intros e o He. apply IH; [by eapply good_arr|]. pose proof (depth_elem w es e He). lia.
  - simpl dec_raws. rewrite dec_raw_map_obj. cbn [default from_option]. unfold id at 1.
    set (obj := fold_left insert_member ms ∅).
    assert (Hgm : forall m, m ∈ ms -> good (snd m)) by (intros m Hm; by eapply good_obj).
    rewrite (fold_collect (fun kv o => collectStrings fuel range (snd kv) o)
      (fun kv s => exists m, m ∈ ms /\ snd kv = render (snd m) /\ shown (snd m) s)).
    + split; (intros [?|H]; [by left|right]).
      * destruct H as ([k r] & Hin & m' & Hm' & Hr & Hs). simpl in Hr. subst r.
        rewrite range_perm in Hin. apply elem_of_map_to_list in Hin.
        apply insert_members_last in Hin as (ms1 & m & ms2 & -> & <- & Hr & Hlast).
        apply render_inj in Hr; [|by apply Hgm|apply Hgm; set_solver].
        rewrite Hr in Hs. by constructor.
      * inversion H as [| | |? ms1 m ms2 ? Hlast Hs]; subst.
        exists (unquote (m_key (fst m)), render (snd m)). split.
        -- rewrite range_perm. apply elem_of_map_to_list. by apply insert_members_split.
        -- exists m. split_and!; [set_solver|done|done].
    + intros [k r] o Hin. simpl. rewrite range_perm in Hin. apply elem_of_map_to_list in Hin.
      apply insert_members_source in Hin as [Hin|(m & Hm & _ & ->)]; [done|].
      rewrite IH; [|by apply Hgm|pose proof (depth_member w ms m Hm); lia].
      split; (intros [?|H]; [by left|right]); [by exists m|].
      destruct H as (m' & Hm' & Hr & Hs). apply render_inj in Hr; [|by apply Hgm..]. by rewrite Hr.
Qed.

(** C28. Nothing shown escapes the scan: the strings handed to the scanner are
exactly the string values of the result, at any depth, as a reader sees them
for whom the last of several equal member names counts, in whatever order the
runtime ranges over maps. *)
Theorem scan_sees_everything (raw : bytes) (j : json) (s : bytes) :
  parse_doc raw = Some j -> render j = raw -> s ∈ scan_strings range raw <-> shown j s.
Proof.
  intros Hg%parse_doc_good <-. unfold scan_strings. rewrite collectStrings_spec; [|done|].
  - split; [intros [?%elem_of_nil|?]; done|by right].
  - destruct Hg as [_ Hd]. unfold max_nesting in *. lia.
Qed.

End scanned.

(** ** The pool

Coprocesses are numbered.  [pool] is the content of the channel, oldest
first, and [cap] its capacity; every scan is a thread that has taken nothing
yet, holds a coprocess, has read [closed] while holding one, or is done;
[Close] sets [closed] and then drains.  [shut] lists the coprocesses that
have been shut down. *)
Inductive scan_phase :=
| SWait
| SHold (p : nat)
| SChecked (p : nat) (closed : bool)
| SDone.

Inductive close_phase := CIdle | CDrain | CDone.

Record pool_state := MkPool {
  pool : list nat;
  cap : nat;
  closed : bool;
  closer : close_phase;
  scans : gmap nat scan_phase;
  shut : list nat
}.

Definition set_scan (t : nat) (ph : scan_phase) (s : pool_state) : pool_state :=
  MkPool (pool s) (cap s) (closed s) (closer s) (<[t := ph]> (scans s)) (shut s).

Definition set_pool (l : list nat) (s : pool_state) : pool_state :=
  MkPool l (cap s) (closed s) (closer s) (scans s) (shut s).

Definition set_shut (p : nat) (s : pool_state) : pool_state :=
  MkPool (pool s) (cap s) (closed s) (closer s) (scans s) (p :: shut s).

Definition set_closer (b : bool) (c : close_phase) (s : pool_state) : pool_state :=
  MkPool (pool s) (cap s) b c (scans s) (shut s).

(** The atomic steps of [Scan] and [Close].  [Scan] receives a coprocess,
uses it, reads [closed] under the mutex, and then sends it back (which waits
for room) or shuts it down; nothing holds between the last two. *)
Inductive pool_step : pool_state -> pool_state -> Prop :=
| step_call s t : scans s !! t = None -> pool_step s (set_scan t SWait s)
| step_take s t p l :
    scans s !! t = Some SWait -> pool s = p :: l ->
    pool_step s (set_scan t (SHold p) (set_pool l s))
| step_check s t p :
    scans s !! t = Some (SHold p) -> pool_step s (set_scan t (SChecked p (closed s)) s)
| step_return s t p :
    scans s !! t = Some (SChecked p false) -> (length (pool s) < cap s)%nat ->
    pool_step s (set_scan t SDone (set_pool (pool s ++ [p]) s))
| step_shutdown s t p :
    scans s !! t = Some (SChecked p true) -> pool_step s (set_scan t SDone (set_shut p s))
| step_close s : closer s = CIdle -> pool_step s (set_closer true CDrain s)
| step_drain s p l : closer s = CDrain -> pool s = p :: l -> pool_step s (set_shut p (set_pool l s))
| step_drained s : closer s = CDrain -> pool s = [] -> pool_step s (set_closer true CDone s).

Definition pool_init (procs : list nat) : pool_state :=
  MkPool procs (length procs) false CIdle ∅ [].

(** *** Starting the pool

[start i] is the error of starting the [i]th coprocess. *)
Fixpoint start_pool {L : GoLib} (start : nat -> option goerror) (bin : bytes) (n i : nat) (procs : list nat) :
    list nat * option goerror :=
  match n with
  | O => (procs, None)
  | S n =>
      match start i with
      | Some e => (procs, Some (EWrap ("promptproof: starting " ++ quote bin ++ ": ") e))
      | None => start_pool start bin n (S i) (procs ++ [i])
      end
  end.

(** The coprocesses shut down again, and the scanner with its full pool. *)
Definition newScanner {L : GoLib} (start : nat -> option goerror) (c : PromptProofConfig) :
    list nat * result (scannerConfig * pool_state) :=
  let s := scanner_config c in
  match start_pool start (sc_bin s) (Z.to_nat (sc_size s)) 0 [] with
  | (procs, Some e) => (procs, Err e)
  | (procs, None) => ([], Ok (s, pool_init procs))
  end.

Lemma start_pool_spec {L : GoLib} start bin n i procs procs' e :
  start_pool start bin n i procs = (procs', e) ->
  match e with
  | None => procs' = procs ++ seq i n /\ forall j, (i <= j < i + n)%nat -> start j = None
  | Some _ => exists k, (k < n)%nat /\ procs' = procs ++ seq i k /\ is_Some (start (i + k)%nat)
  end.
Proof.
  revert i procs. induction n as [|n IH]; intros i procs; cbn [start_pool]; [intros [= <- <-]; rewrite app_nil_r; split; [done|lia]|].
  destruct (start i) as [e'|] eqn:Hi.
  - intros [= <- <-]. exists 0%nat. rewrite app_nil_r, Nat.add_0_r. split_and!; [lia|done|by rewrite Hi].
  - intros H. apply IH in H. destruct e as [e|].
    + destruct H as (k & Hk & -> & Hs). exists (S k). rewrite <- app_assoc. split_and!; [lia|done|].
      by rewrite <- Nat.add_succ_comm.
    + destruct H as [-> Hs]. rewrite <- app_assoc. split; [done|]. intros j Hj.
      destruct (decide (j = i)) as [->|Hne]; [done|]. apply Hs. lia.
Qed.

(** All coprocesses run, or none: when one does not start, exactly the ones
started before it are shut down again. *)
Lemma newScanner_all_or_none {L : GoLib} start c :
  match newScanner start c with
  | (down, Ok (s, p)) => down = [] /\ s = scanner_config c /\ pool p = seq 0 (Z.to_nat (sc_size s)) /\
      forall j, (j < Z.to_nat (sc_size s))%nat -> start j = None
  | (down, Err _) => exists k, down = seq 0 k /\ is_Some (start k) /\ (k < Z.to_nat (sc_size (scanner_config c)))%nat
  end.
Proof.
  unfold newScanner. destruct (start_pool _ _ _ _ _) as [procs [e|]] eqn:H; apply start_pool_spec in H; cbn [app] in H.
  - destruct H as (k & Hk & -> & Hs). by exists k.
  - destruct H as [-> Hs]. split_and!; try done. intros j Hj. apply Hs. lia.
Qed.

Definition pool_reachable (procs : list nat) : pool_state -> Prop := rtc pool_step (pool_init procs).

Definition held_by (ph : scan_phase) : option nat :=
  match ph with SHold p | SChecked p _ => Some p | _ => None end.

Definition held (s : pool_state) : list nat := omap (fun kv => held_by (snd kv)) (map_to_list (scans s)).

Lemma held_at s t ph :
  scans s !! t = Some ph ->
  held s ≡ₚ option_list (held_by ph) ++ omap (fun kv => held_by (snd kv)) (map_to_list (delete t (scans s))).
Proof.
  intros H. unfold held. rewrite <- (map_to_list_delete (scans s) t ph H). simpl. by destruct (held_by ph).
Qed.

Lemma held_set s t ph :
  held (set_scan t ph s)
  ≡ₚ option_list (held_by ph) ++ omap (fun kv => held_by (snd kv)) (map_to_list (delete t (scans s))).
Proof.
  rewrite (held_at (set_scan t ph s) t ph) by (simpl; apply lookup_insert_eq). simpl.
  by rewrite delete_insert_eq.
Qed.

Lemma held_fresh s t ph :
  scans s !! t = None -> held (set_scan t ph s) ≡ₚ option_list (held_by ph) ++ held s.
Proof. intros H. by rewrite held_set, delete_id. Qed.

(** Every coprocess is in one place: the channel, one scan, or shut down. *)
Definition pool_inv (procs : list nat) (s : pool_state) : Prop :=
  pool s ++ held s ++ shut s ≡ₚ procs /\ cap s = length procs.

Lemma pool_inv_step procs s s' : pool_inv procs s -> pool_step s s' -> pool_inv procs s'.
Proof.
  intros [Hp Hc] Hs. split; [|by destruct Hs]. rewrite <- Hp.
  destruct Hs as [s t Hn|s t p l Ht Hl|s t p Ht|s t p Ht Hr|s t p Ht|s Hcl|s p l Hcl Hl|s Hcl Hl]; try done.
  - rewrite held_fresh by done. done.
  - rewrite held_set, (held_at s t _ Ht), Hl. simpl. symmetry. apply Permutation_middle.
  - by rewrite held_set, (held_at s t _ Ht).
  - rewrite held_set, (held_at s t _ Ht). simpl. by rewrite <- app_assoc.
  - rewrite held_set, (held_at s t _ Ht). simpl. apply Permutation_app_head. symmetry. apply Permutation_middle.
  - rewrite Hl. simpl. symmetry. rewrite !app_assoc. apply Permutation_middle.
Qed.

Lemma pool_reachable_inv procs s : pool_reachable procs s -> pool_inv procs s.
Proof.
  intros H. assert (H0 : pool_inv procs (pool_init procs)).
  { split; [|done]. simpl. by rewrite app_nil_r. }
  revert H0. induction H as [|x y z Hxy _ IH]; [done|]. intros Hx. by apply IH, (pool_inv_step _ x).
Qed.

(** C31. A coprocess serves one caller at a time, and handing one back never
waits: in every reachable state the coprocesses in the channel, those held by
scans and those shut down are together the ones the pool started with, and a
scan that holds one finds room in the channel. *)
Theorem pool_exclusive (procs : list nat) (s : pool_state) :
  pool_reachable procs s ->
  pool s ++ held s ++ shut s ≡ₚ procs /\
  (forall t p b, scans s !! t = Some (SChecked p b) -> (length (pool s) < cap s)%nat).
Proof.
  intros [Hp Hc]%pool_reachable_inv. split; [done|]. intros t p b Ht.
  rewrite (held_at s t _ Ht) in Hp. apply Permutation_length in Hp.
  rewrite Hc, <- Hp, !length_app. simpl. lia.
Qed.

Ltac pool_step_by tac := eapply rtc_l; [tac|].

(** [Close] can leave a coprocess running: when a scan has read [closed]
as false before [Close] runs and sends its coprocess back after [Close] has
drained the channel, nothing shuts that coprocess down any more. *)
Lemma close_leaks_process :
  exists s, pool_reachable [0%nat] s /\ closer s = CDone /\ (forall t ph, scans s !! t = Some ph -> ph = SDone) /\
    pool s = [0%nat] /\ shut s = [].
Proof.
  eexists. split; [|split_and!].
  - pool_step_by ltac:(by apply (step_call _ 0%nat)).
    pool_step_by ltac:(by apply (step_take _ 0%nat)).
    pool_step_by ltac:(by apply (step_check _ 0%nat)).
    pool_step_by ltac:(by apply step_close).
    pool_step_by ltac:(by apply step_drained).
    pool_step_by ltac:(apply (step_return _ 0%nat); [done|simpl; lia]).
    apply rtc_refl.
  - done.
  - intros t ph H. simpl in H. destruct (decide (t = 0%nat)) as [->|Hne].
    + rewrite lookup_insert_eq in H. congruence.
    + rewrite !lookup_insert_ne, lookup_empty in H by done. done.
  - done.
  - done.
Qed.

(** While [Close] drains and after: no scan is about to hand its coprocess
back, and once the channel has been found empty it stays so. *)
Record closing (s : pool_state) : Prop := {
  cg_closed : closed s = true;
  cg_closer : closer s <> CIdle;
  cg_kept : forall t p, scans s !! t <> Some (SChecked p false);
  cg_empty : closer s = CDone -> pool s = []
}.

Lemma closing_step s s' : closing s -> pool_step s s' -> closing s'.
Proof.
  intros [Hc Hcl Hk He] Hs. assert (Hset : forall t ph, (forall p, ph <> SChecked p false) ->
    forall t' p, <[t := ph]> (scans s) !! t' <> Some (SChecked p false)).
  { intros t ph Hph t' p. destruct (decide (t' = t)) as [->|Hne]; [rewrite lookup_insert_eq; intros [= E]; by apply (Hph p)|].
    rewrite lookup_insert_ne by done. apply Hk. }
  destruct Hs as [s t Hn|s t p l Ht Hl|s t p Ht|s t p Ht Hr|s t p Ht|s Hi|s p l Hi Hl|s Hi Hl];
    try done; constructor; cbn; try done; try (by apply Hset); try (intros Hd; specialize (He Hd); congruence).
  - apply Hset. rewrite Hc. by intros ? [=].
  - by destruct (Hk t p).
Qed.

Lemma closing_steps s s' : closing s -> rtc pool_step s s' -> closing s'.
Proof. intros H Hr. revert H. induction Hr as [|x y z Hxy _ IH]; [done|]. intros H. by eapply IH, closing_step. Qed.

(** The loop of [Close] ends, one coprocess a round. *)
Lemma close_ends s : closing s -> exists s', rtc pool_step s s' /\ closer s' = CDone.
Proof.
  intros H. destruct (closer s) eqn:Hcl; [by destruct (cg_closer s H)| |by exists s].
  remember (pool s) as l eqn:Hl. clear H. revert s Hcl Hl. induction l as [|p l IH]; intros s Hcl Hl.
  - eexists. split; [by apply rtc_once, step_drained|done].
  - destruct (IH (set_shut p (set_pool l s))) as (s' & Hr & Hd); [done..|]. exists s'. split; [|done].
    eapply rtc_l; [by eapply step_drain|exact Hr].
Qed.

Lemma waits_for_ever t s s' : closing s -> closer s = CDone -> scans s !! t = Some SWait -> rtc pool_step s s' ->
  scans s' !! t = Some SWait.
Proof.
  intros H Hd Ht Hr. revert H Hd Ht. induction Hr as [|x y z Hxy _ IH]; [done|]. intros H Hd Ht.
  pose proof (cg_empty x H Hd) as Hp. apply IH; [by eapply closing_step|destruct Hxy; cbn; congruence|].
  destruct Hxy; cbn; try congruence; rewrite lookup_insert_ne; congruence.
Qed.

(** C37. What [Close] does, and what it does to the scans that come after it:
when no scan is between its look at [closed] and handing its coprocess back,
[Close] ends, however scans go on meanwhile; when it has, the channel is
empty, and every coprocess is shut down but for those a scan still holds; and
a scan that has not got a coprocess by then, like every scan that starts
later, waits for ever, since the channel is never filled again. *)
Theorem scan_after_close_blocks (procs : list nat) (s : pool_state) :
  pool_reachable procs s -> closer s = CIdle -> (forall t p, scans s !! t <> Some (SChecked p false)) ->
  let s1 := set_closer true CDrain s in
  pool_step s s1 /\
  forall s2, rtc pool_step s1 s2 ->
    (exists s3, rtc pool_step s2 s3 /\ closer s3 = CDone) /\
    (closer s2 = CDone -> pool s2 = [] /\ held s2 ++ shut s2 ≡ₚ procs /\
      (forall t s3, scans s2 !! t = Some SWait -> rtc pool_step s2 s3 -> scans s3 !! t = Some SWait) /\
      (forall t s3, scans s2 !! t = None -> rtc pool_step (set_scan t SWait s2) s3 -> scans s3 !! t = Some SWait)).
Proof.
  intros Hr Hi Hk s1. assert (H1 : pool_step s s1) by by apply step_close. split; [done|]. intros s2 H2.
  assert (Hc : closing s2) by (eapply closing_steps; [|exact H2]; by constructor). split; [by apply close_ends|].
  intros Hd. pose proof (cg_empty s2 Hc Hd) as Hp. assert (Hr2 : pool_reachable procs s2).
  { unfold pool_reachable in *. etrans; [exact Hr|]. by eapply rtc_l. }
  apply pool_reachable_inv in Hr2 as [Hinv _]. rewrite Hp in Hinv. split_and!; [done|done| |].
  - intros t s3 Ht. by apply waits_for_ever.
  - intros t s3 Ht. apply waits_for_ever; [|done|apply lookup_insert_eq]. eapply closing_step; [exact Hc|by apply step_call].
Qed.

(** ** Verdicts *)

Lemma category_fold l seen acc :
  (forall c, c ∈ seen <-> c ∈ acc) -> NoDup acc -> Forall (fun c => c <> []) acc ->
  let acc' := snd (fold_left category_step l (seen, acc)) in
  NoDup acc' /\ Forall (fun c => c <> []) acc' /\ (forall c, c ∈ acc' <-> c ∈ acc \/ (c ∈ l /\ c <> [])).
Proof.
  revert seen acc. induction l as [|c l IH]; intros seen acc Hseen Hnd Hne; cbn [fold_left].
  { split_and!; [done..|]. intros c. rewrite elem_of_nil. tauto. }
  destruct (decide (c = [] \/ c ∈ seen)) as [Hskip|Hnew].
  - assert (category_step (seen, acc) c = (seen, acc)) as ->.
    { unfold category_step. simpl. destruct Hskip as [->|Hs]; [done|].
      by rewrite (bool_decide_eq_true_2 (c ∈ seen)), andb_false_r by done. }
    destruct (IH seen acc Hseen Hnd Hne) as (H1 & H2 & H3). split_and!; [done..|].
    intros c'. rewrite H3, elem_of_cons. rewrite Hseen in Hskip. naive_solver.
  - assert (category_step (seen, acc) c = ({[c]} ∪ seen, acc ++ [c])) as ->.
    { unfold category_step. simpl. by rewrite !bool_decide_eq_false_2 by tauto. }
    rewrite Hseen in Hnew. destruct (IH ({[c]} ∪ seen) (acc ++ [c])) as (H1 & H2 & H3).
    + intros c'. rewrite elem_of_union, elem_of_singleton, elem_of_app, list_elem_of_singleton, Hseen. tauto.
    + apply NoDup_app. split_and!; [done| |apply NoDup_singleton]. intros x Hx ->%list_elem_of_singleton. tauto.
    + apply Forall_app. split; [done|]. constructor; [tauto|done].
    + split_and!; [done..|]. intros c'. rewrite H3, elem_of_app, list_elem_of_singleton, elem_of_cons. naive_solver.
Qed.

(** The categories of a report: each non-empty one once. *)
Lemma distinct_categories_spec l :
  NoDup (distinct_categories l) /\ forall c, c ∈ distinct_categories l <-> c ∈ l /\ c <> [].
Proof.
  destruct (category_fold l ∅ []) as (H1 & _ & H3); [set_solver|constructor|constructor|].
  split; [done|]. intros c. rewrite H3, elem_of_nil. tauto.
Qed.

(** Under a validated configuration the action fires for exactly these
verdicts: never for a clean or unknown one, and for a merely suspicious one
only when the threshold says so. *)
Lemma triggers_exactly (c : PromptProofConfig) (verdict : bytes) :
  pp_ok c ->
  triggers (scanner_config c) verdict = true <->
  verdict = "dangerous" \/ (verdict = "suspicious" /\ Threshold c = "suspicious").
Proof.
  intros (Ht & _). unfold triggers, scanner_config. simpl. rewrite Z.leb_le.
  rewrite !elem_of_cons, elem_of_nil in Ht.
  assert (Hr : forall v, verdictRank v = 2 /\ v = "dangerous" \/ verdictRank v = 1 /\ v = "suspicious"
      \/ verdictRank v = 0 /\ v <> "dangerous" /\ v <> "suspicious").
  { intros v. unfold verdictRank. repeat case_bool_decide; subst; tauto. }
  destruct Ht as [Ht|[Ht|[Ht|[]]]]; rewrite Ht;
    destruct (Hr verdict) as [[E ->]|[[E ->]|(E & H1 & H2)]]; rewrite E; vm_compute; intuition congruence.
Qed.

(** *** Concrete instances *)

Definition nested_result : bytes := "{'content':[{'type':'text','text':'hi'},{'text':'old','text':'new'}],'n':1}"%js.

Lemma scan_sees_everything_witness :
  parse_doc nested_result = Some (default JNull (parse_doc nested_result)) /\
  (("new" : bytes) ∈ scan_strings map_to_list nested_result <-> shown (default JNull (parse_doc nested_result)) "new").
Proof.
  split; [reflexivity|].
  apply (scan_sees_everything map_to_list (fun m => Permutation_refl _) nested_result
    (default JNull (parse_doc nested_result)) "new"); vm_compute; reflexivity.
Defined.

Lemma frame_roundtrip_witness :
  len ("a{b" : bytes) < 10 ^ 20 /\ read_frame (frame "a{b" ++ "12") = Some ("a{b" : bytes, "12" : bytes).
Proof. split; [reflexivity|]. apply (frame_roundtrip "a{b" "12"). reflexivity. Defined.

Definition one_taken : pool_state := set_scan 7 (SHold 0) (set_pool [1%nat] (set_scan 7 SWait (pool_init [0%nat; 1%nat]))).

Lemma one_taken_reachable : pool_reachable [0%nat; 1%nat] one_taken.
Proof.
  pool_step_by ltac:(by apply (step_call _ 7%nat)).
  pool_step_by ltac:(by apply (step_take _ 7%nat)). apply rtc_refl.
Qed.

Lemma pool_exclusive_witness :
  pool_reachable [0%nat; 1%nat] one_taken /\
  pool one_taken ++ held one_taken ++ shut one_taken ≡ₚ [0%nat; 1%nat].
Proof.
  split; [exact one_taken_reachable|].
  exact (proj1 (pool_exclusive [0%nat; 1%nat] one_taken one_taken_reachable)).
Defined.

Lemma scan_after_close_blocks_witness :
  pool_reachable [0%nat; 1%nat] one_taken /\ closer one_taken = CIdle /\
  pool_step one_taken (set_closer true CDrain one_taken) /\
  exists s3, rtc pool_step (set_closer true CDrain one_taken) s3 /\ closer s3 = CDone.
Proof.
  assert (Hk : forall t p, scans one_taken !! t <> Some (SChecked p false)).
  { intros t p. cbn. destruct (decide (t = 7%nat)) as [->|Hne]; [by rewrite lookup_insert_eq|].
    by rewrite !lookup_insert_ne, lookup_empty by done. }
  split; [exact one_taken_reachable|]. split; [reflexivity|].
  destruct (scan_after_close_blocks [0%nat; 1%nat] one_taken one_taken_reachable eq_refl Hk) as [H1 H2].
  split; [exact H1|]. exact (proj1 (H2 _ (rtc_refl _ _))).
Defined.

Lemma triggers_exactly_witness :
  pp_ok (MkPromptProof true [] "suspicious" [] 0 0 0) /\
  (triggers (scanner_config (MkPromptProof true [] "suspicious" [] 0 0 0)) "suspicious" = true <->
   ("suspicious" : bytes) = "dangerous" \/ (("suspicious" : bytes) = "suspicious" /\ ("suspicious" : bytes) = "suspicious")).
Proof.
  assert (H : pp_ok (MkPromptProof true [] "suspicious" [] 0 0 0)) by (repeat split; simpl; set_solver || lia).
  split; [exact H|]. exact (triggers_exactly (MkPromptProof true [] "suspicious" [] 0 0 0) "suspicious" H).
Defined.
