(* ===== verification/Coproc.v ===== *)
(** * Coprocesses (gateway/promptproof.go: ppProc)

Starting, using, killing and shutting down the coprocesses of a pool, and
what they hold: the gateway's ends of three pipes, a child that has not been
reaped, and the goroutine that [os/exec] has copy the child's error stream to
[io.Discard], which is no file.  The outcomes of the system calls are arguments.

[Cmd.Wait] returns when the child has exited and its error stream is at its
end; [kill] and [shutdown] give the state once it has.  That it does return is
not said: a process the child left behind can keep the stream open. *)

From S2P Require Export PromptProof.
Local Open Scope Z_scope.
Local Open Scope go_scope.

(** ** The operating system

[live] holds the descriptors that are open, the children that have not been
waited for and the copying goroutines that run; [misuse] says that something
else was closed or waited for. *)
Inductive resource := Fd (n : nat) | Child (n : nat) | Copier (n : nat).

#[export] Instance resource_eq_dec : EqDecision resource.
Proof. solve_decision. Defined.

#[export] Instance resource_countable : Countable resource.
Proof.
  refine (inj_countable' (fun x => match x with Fd d => inl d | Child k => inr (inl k) | Copier d => inr (inr d) end)
    (fun y => match y with inl d => Fd d | inr (inl k) => Child k | inr (inr d) => Copier d end) _). by intros [].
Defined.

Record os := MkOs { live : gset resource; next : nat; misuse : bool }.

Definition acquire (x : resource) (s : os) : os := MkOs ({[x]} ∪ live s) (S (next s)) (misuse s).

Definition release (x : resource) (s : os) : os :=
  MkOs (live s ∖ {[x]}) (next s) (misuse s || negb (bool_decide (x ∈ live s))).

(** [os.Pipe], [File.Close]. *)
Definition Pipe (s : os) : nat * nat * os := (next s, S (next s), acquire (Fd (S (next s))) (acquire (Fd (next s)) s)).
Definition Close (d : nat) (s : os) : os := release (Fd d) s.

(** [exec.Cmd] once it has been started: the child, and the descriptor its
copier reads, until the copier has come to the end. *)
Record Cmd := MkCmd { Process : nat; copying : option nat }.

(** The errors of the two pipes, of the one [Start] makes for the error stream
and of starting the child. *)
Record start_outcome := MkStart {
  pipe_in : option goerror;
  pipe_out : option goerror;
  pipe_err : option goerror;
  start_err : option goerror
}.

(** [Cmd.Start], with an error stream that is not a file. *)
Definition Start (o : start_outcome) (s : os) : result Cmd * os :=
  match pipe_err o with
  | Some e => (Err e, s)
  | None =>
      let '(errR, errW, s) := Pipe s in
      match start_err o with
      | Some e => (Err e, Close errR (Close errW s))
      | None =>
          let k := next s in
          (Ok (MkCmd k (Some errR)), Close errW (acquire (Copier errR) (acquire (Child k) s)))
      end
  end.

(** The copier comes to the end of the error stream: it closes what it read. *)
Definition copier_done (c : Cmd) (s : os) : os :=
  match copying c with Some d => release (Copier d) (Close d s) | None => s end.

(** [Cmd.Wait]. *)
Definition Wait (c : Cmd) (s : os) : os := copier_done c (release (Child (Process c)) s).

(** ** One coprocess

[stdout], the buffered reader over [stdoutR], is left out. *)
Record ppProc := MkProc { cmd : option Cmd; stdin : option nat; stdoutR : option nat }.

Definition fresh_proc : ppProc := MkProc None None None.

Definition running (p : ppProc) : bool := match cmd p with Some _ => true | None => false end.

Definition ensure (o : start_outcome) (p : ppProc) (s : os) : ppProc * os * option goerror :=
  match cmd p with
  | Some _ => (p, s, None)
  | None =>
      match pipe_in o with
      | Some e => (p, s, Some e)
      | None =>
          let '(inR, inW, s) := Pipe s in
          match pipe_out o with
          | Some e => (p, Close inW (Close inR s), Some e)
          | None =>
              let '(outR, outW, s) := Pipe s in
              match Start o s with
              | (Err e, s) => (p, Close outW (Close outR (Close inW (Close inR s))), Some e)
              | (Ok c, s) => (MkProc (Some c) (Some inW) (Some outR), Close outW (Close inR s), None)
              end
          end
      end
  end.

Definition close_opt (d : option nat) (s : os) : os := match d with Some d => Close d s | None => s end.

Definition kill (p : ppProc) (s : os) : ppProc * os :=
  match cmd p with
  | None => (p, s)
  | Some c => (fresh_proc, Wait c (close_opt (stdoutR p) (close_opt (stdin p) s)))
  end.

(** The handles stay behind, closed. *)
Definition shutdown (p : ppProc) (s : os) : ppProc * os :=
  match cmd p with
  | None => (p, s)
  | Some c => (MkProc None (stdin p) (stdoutR p), close_opt (stdoutR p) (Wait c (close_opt (stdin p) s)))
  end.

(** The child closes its error stream, by exiting or before: the copier ends
without the gateway doing anything. *)
Definition stderr_ends (p : ppProc) (s : os) : ppProc * os :=
  match cmd p with
  | None => (p, s)
  | Some c => (MkProc (Some (MkCmd (Process c) None)) (stdin p) (stdoutR p), copier_done c s)
  end.

Section scan.
Context {L : GoLib}.

(** [ppProc.scan]. *)
Definition scan (o : start_outcome) (io : io_outcome) (timeout : bytes) (p : ppProc) (s : os) :
    ppProc * os * result scanResult :=
  match ensure o p s with
  | (p, s, Some e) => (p, s, Err e)
  | (p, s, None) =>
      match io with
      | IoLine line => (p, s, parseReport line)
      | IoError e => (kill p s, Err (EWrap "promptproof scan I/O: " e))
      | IoTimeout => (kill p s, Err (ENew ("promptproof scan timed out after " ++ timeout)))
      end
  end.

(** ** What a coprocess holds *)

Definition copied (c : Cmd) : gset resource :=
  match copying c with Some d => {[Fd d]} ∪ {[Copier d]} | None => ∅ end.

Definition owned (p : ppProc) : gset resource :=
  match cmd p with
  | None => ∅
  | Some c => {[Child (Process c)]} ∪ list_to_set (Fd <$> option_list (stdin p))
      ∪ list_to_set (Fd <$> option_list (stdoutR p)) ∪ copied c
  end.

Definition handles (p : ppProc) : Prop :=
  forall c, cmd p = Some c -> exists i o, stdin p = Some i /\ stdoutR p = Some o /\ i <> o /\
    forall d, copying c = Some d -> d <> i /\ d <> o.

Definition number (x : resource) : nat := match x with Fd d => d | Child k => k | Copier d => d end.

(** Numbers not given out yet are not in use. *)
Definition os_ok (s : os) : Prop := forall x, x ∈ live s -> (number x < next s)%nat.

(** An operation on a coprocess touches what the coprocess holds, and new
things. *)
Record touches (p p' : ppProc) (s s' : os) : Prop := {
  to_ok : os_ok s';
  to_handles : handles p';
  to_live : live s' = (live s ∖ owned p) ∪ owned p';
  to_fresh : owned p' ## live s ∖ owned p;
  to_next : (next s <= next s')%nat;
  to_misuse : misuse s' = misuse s
}.

Lemma number_out s x : os_ok s -> (next s <= number x)%nat -> x ∉ live s.
Proof. intros Hs Hx Hin. specialize (Hs x Hin). lia. Qed.

Lemma release_misuse x s : x ∈ live s -> misuse (release x s) = misuse s.
Proof. intros H. unfold release. cbn. rewrite bool_decide_true by done. apply orb_false_r. Qed.

#[local] Instance Fd_inj : Inj (=) (=) Fd.
Proof. by intros a b [= ->]. Qed.
#[local] Instance Child_inj : Inj (=) (=) Child.
Proof. by intros a b [= ->]. Qed.
#[local] Instance Copier_inj : Inj (=) (=) Copier.
Proof. by intros a b [= ->]. Qed.

Lemma Fd_Child a b : Fd a = Child b <-> False.
Proof. by split. Qed.
Lemma Child_Fd a b : Child a = Fd b <-> False.
Proof. by split. Qed.
Lemma Copier_Fd a b : Copier a = Fd b <-> False.
Proof. by split. Qed.
Lemma Fd_Copier a b : Fd a = Copier b <-> False.
Proof. by split. Qed.
Lemma Copier_Child a b : Copier a = Child b <-> False.
Proof. by split. Qed.
Lemma Child_Copier a b : Child a = Copier b <-> False.
Proof. by split. Qed.

(** Facts about sets of numbered resources, one element at a time. *)
Ltac by_number Hs :=
  let x := fresh "x" in
  try apply set_eq; unfold os_ok; try (intros x; pose proof (Hs x); destruct x as [x|x|x]);
  cbn [number live next misuse acquire release Close Wait copier_done copying Process Start Pipe fst snd option_list fmap list_fmap
    list_to_set owned copied cmd stdin stdoutR close_opt] in *;
  repeat first [rewrite elem_of_union in * | rewrite elem_of_difference in * | rewrite elem_of_singleton in *
    | rewrite elem_of_empty in * | rewrite (inj_iff Fd) in * | rewrite (inj_iff Child) in * | rewrite (inj_iff Copier) in *
    | rewrite Fd_Child in * | rewrite Child_Fd in * | rewrite Copier_Fd in * | rewrite Fd_Copier in *
    | rewrite Copier_Child in * | rewrite Child_Copier in *]; intuition lia.

Lemma owned_running c i o : owned (MkProc (Some c) (Some i) (Some o)) = {[Child (Process c)]} ∪ {[Fd i]} ∪ {[Fd o]} ∪ copied c.
Proof. unfold owned. cbn. by rewrite !(right_id_L ∅ (∪)). Qed.

Lemma ensure_touches o p s p' s' e :
  os_ok s -> handles p -> owned p ⊆ live s -> ensure o p s = (p', s', e) ->
  touches p p' s s' /\ (e = None <-> running p' = true) /\ (e <> None -> p' = p).
Proof.
  intros Hs Hp Ho. unfold ensure. destruct (cmd p) as [c|] eqn:Hk.
  { intros [= <- <- <-]. unfold running. rewrite Hk. split; [|done]. constructor; try done; [|set_solver].
    apply union_difference_L in Ho. set_solver. }
  assert (Hrun : running p = false) by (unfold running; by rewrite Hk).
  assert (Hown : owned p = ∅) by (unfold owned; by rewrite Hk).
  assert (Hsame : touches p p s s) by (constructor; try done; rewrite Hown; set_solver).
  destruct (pipe_in o) as [e1|]; [intros [= <- <- <-]; by rewrite Hrun|]. cbn [Pipe].
  destruct (pipe_out o) as [e1|].
  { intros [= <- <- <-]. rewrite Hrun. split; [|done]. constructor; rewrite ?Hown; try done.
    - by_number Hs.
    - by_number Hs.
    - cbn. lia.
    - unfold Close. rewrite !release_misuse; [done|by_number Hs..]. }
  unfold Start. destruct (pipe_err o) as [e1|]; [|cbn [Pipe next acquire]; destruct (start_err o) as [e1|]]; intros [= <- <- <-].
  1, 2: rewrite Hrun; split; [|done]; constructor; rewrite ?Hown; try done;
    [by_number Hs|by_number Hs|cbn; lia|unfold Close; rewrite !release_misuse; [done|by_number Hs..]].
  split; [|done]. constructor; rewrite ?Hown, ?owned_running; unfold copied; cbn [copying Process]; try done.
  - by_number Hs.
  - intros c' [= <-]. do 2 eexists. split_and!; [done..| |intros d [= <-]]; cbn; lia.
  - by_number Hs.
  - by_number Hs.
  - cbn. lia.
  - unfold Close. rewrite !release_misuse; [done|by_number Hs..].
Qed.

Lemma handles_idle p : cmd p = None -> handles p.
Proof. intros H k. by rewrite H. Qed.

(** A coprocess that is put down gives back everything it holds. *)
Lemma down_touches p s p' s' :
  os_ok s -> handles p -> owned p ⊆ live s -> kill p s = (p', s') \/ shutdown p s = (p', s') ->
  touches p p' s s' /\ running p' = false.
Proof.
  intros Hs Hp Ho H. destruct (cmd p) as [[k cp]|] eqn:Hk.
  2: { assert (p' = p /\ s' = s) as [-> ->] by (unfold kill, shutdown in H; rewrite Hk in H; by destruct H as [[= <- <-]|[= <- <-]]).
       assert (Hown : owned p = ∅) by (unfold owned; by rewrite Hk). unfold running. rewrite Hk. split; [|done].
       constructor; try done; rewrite Hown; set_solver. }
  destruct (Hp _ Hk) as (i & o & Hi & Hout & Hne & Hcp). unfold kill, shutdown in H. rewrite Hk, Hi, Hout in H. cbn [close_opt] in H.
  assert (Hdown : cmd p' = None) by (by destruct H as [[= <- <-]|[= <- <-]]).
  assert (Hown' : owned p' = ∅) by (unfold owned; by rewrite Hdown).
  assert (Hown : owned p = {[Child k]} ∪ {[Fd i]} ∪ {[Fd o]} ∪ copied (MkCmd k cp)).
  { destruct p as [c1 i1 o1]. cbn in Hk, Hi, Hout. subst. apply owned_running. }
  rewrite Hown in Ho. unfold copied in Ho, Hown. cbn [copying] in Ho, Hown, Hcp.
  assert (H1 : Child k ∈ live s) by set_solver. assert (H2 : Fd i ∈ live s) by set_solver.
  assert (H3 : Fd o ∈ live s) by set_solver. unfold running. rewrite Hdown. split; [|done].
  destruct cp as [d|]; [assert (H4 : Fd d ∈ live s) by set_solver; assert (H5 : Copier d ∈ live s) by set_solver;
    destruct (Hcp d eq_refl) as [Hd1 Hd2]|].
  all: constructor; rewrite ?Hown, ?Hown'; try by apply handles_idle.
  all: clear Hcp Hp; destruct H as [[= <- <-]|[= <- <-]]; unfold Wait, copier_done in *; cbn [copying Process] in *; unfold Close in *.
  all: try (cbn; lia); try (lazymatch goal with |- _ =@{gset resource} _ => unfold release; cbn [live]; set_solver end); try by_number Hs.
  all: rewrite !release_misuse; [done|by_number Hs..].
Qed.

(** The end of the error stream takes the copier and what it read. *)
Lemma stderr_touches p s p' s' :
  os_ok s -> handles p -> owned p ⊆ live s -> stderr_ends p s = (p', s') -> touches p p' s s' /\ running p' = running p.
Proof.
  intros Hs Hp Ho. unfold stderr_ends. destruct (cmd p) as [[k cp]|] eqn:Hk.
  2: { intros [= <- <-]. assert (Hown : owned p = ∅) by (unfold owned; by rewrite Hk). split; [|done].
       constructor; try done; rewrite Hown; set_solver. }
  destruct (Hp _ Hk) as (i & o & Hi & Hout & Hne & Hcp). intros [= <- <-]. cbn [Process copying] in *.
  assert (Hown : owned p = {[Child k]} ∪ {[Fd i]} ∪ {[Fd o]} ∪ copied (MkCmd k cp)).
  { destruct p as [c1 i1 o1]. cbn in Hk, Hi, Hout. subst. apply owned_running. }
  rewrite Hi, Hout, Hown in *. unfold running. rewrite Hk. split; [|done]. unfold copied in *. cbn [copying] in *.
  assert (H1 : Child k ∈ live s) by set_solver. assert (H2 : Fd i ∈ live s) by set_solver.
  assert (H3 : Fd o ∈ live s) by set_solver. unfold copier_done. cbn [copying].
  assert (Hh : handles (MkProc (Some (MkCmd k None)) (Some i) (Some o))) by (intros c [= <-]; by exists i, o).
  destruct cp as [d|].
  - assert (H4 : Fd d ∈ live s) by set_solver. assert (H5 : Copier d ∈ live s) by set_solver. destruct (Hcp d eq_refl) as [Hd1 Hd2].
    constructor; rewrite ?Hown, ?owned_running; unfold copied; cbn [copying Process]; try done.
    + clear Hcp Hp Hh. by_number Hs.
    + apply set_eq. intros x. unfold Close, release. cbn [live]. destruct (decide (x ∈ ({[Child k; Fd i; Fd o]} : gset resource))); set_solver.
    + set_solver.
    + unfold Close. rewrite !release_misuse; [done|clear Hcp Hp Hh; by_number Hs..].
  - constructor; rewrite ?Hown, ?owned_running; unfold copied; cbn [copying Process]; try done; [|set_solver].
    apply set_eq. intros x. destruct (decide (x ∈ ({[Child k; Fd i; Fd o]} : gset resource))); set_solver.
Qed.

Lemma touches_trans p p1 p2 s s1 s2 : touches p p1 s s1 -> touches p1 p2 s1 s2 -> touches p p2 s s2.
Proof.
  intros [A1 A2 A3 A4 A5 A6] [B1 B2 B3 B4 B5 B6].
  assert (E : live s1 ∖ owned p1 = live s ∖ owned p).
  { rewrite A3, difference_union_distr_l_L, difference_diag_L, (right_id_L ∅ (∪)). by apply difference_disjoint_L. }
  rewrite E in B3, B4. constructor; try done; [lia|by rewrite B6].
Qed.

(** The first error of starting, if any. *)
Definition first_error (l : list (option goerror)) : option goerror := head (omap id l).

Definition start_error (o : start_outcome) : option goerror := first_error [pipe_in o; pipe_out o; pipe_err o; start_err o].

Lemma ensure_error o p s : snd (ensure o p s) = if running p then None else start_error o.
Proof.
  unfold ensure, running, start_error. destruct (cmd p); [done|]. cbn.
  destruct (pipe_in o); [done|]. cbn. destruct (pipe_out o); [done|]. cbn. unfold Start.
  destruct (pipe_err o); [done|]. cbn. by destruct (start_err o).
Qed.

(** A scan touches its coprocess only, and is what the pool takes it for. *)
Lemma scan_spec o io timeout p s p' s' r :
  os_ok s -> handles p -> owned p ⊆ live s -> scan o io timeout p s = (p', s', r) ->
  touches p p' s s' /\ proc_scan (running p) (start_error o) io timeout = (running p', r).
Proof.
  intros Hs Hp Ho H. unfold scan in H. pose proof (ensure_error o p s) as He.
  destruct (ensure o p s) as [[p1 s1] e] eqn:Hen. cbn [snd] in He.
  destruct (ensure_touches _ _ _ _ _ _ Hs Hp Ho Hen) as (Ht & Hrun & Hsame). unfold proc_scan.
  rewrite <- He. destruct e as [e|].
  { injection H as <- <- <-. split; [done|]. by rewrite Hsame. }
  assert (Hr1 : running p1 = true) by by apply Hrun.
  assert (Hdown : forall p2 s2, kill p1 s1 = (p2, s2) -> touches p p2 s s2 /\ running p2 = false).
  { intros p2 s2 Hk. destruct (down_touches p1 s1 p2 s2) as [Hd Hr2];
      [apply Ht|apply Ht|rewrite (to_live _ _ _ _ Ht); set_solver|by left|].
    split; [by eapply touches_trans|done]. }
  destruct io as [line|e|]; [injection H as <- <- <-; by rewrite Hr1|..]; injection H as Hk <-;
    destruct (Hdown _ _ Hk) as [Hd Hr2]; by rewrite Hr2.
Qed.

(** ** The pool *)

(** The start of a pool, and its end. *)
Fixpoint start_all (outs : list start_outcome) (ps : list ppProc) (s : os) : list ppProc * os * option goerror :=
  match outs with
  | [] => (ps, s, None)
  | o :: outs =>
      match ensure o fresh_proc s with
      | (p, s, Some e) => (ps, s, Some e)
      | (p, s, None) => start_all outs (ps ++ [p]) s
      end
  end.

Fixpoint close_all (ps : list ppProc) (s : os) : os :=
  match ps with [] => s | p :: ps => close_all ps (snd (shutdown p s)) end.

Definition new_pool (outs : list start_outcome) (s : os) : list ppProc * os * option goerror :=
  match start_all outs [] s with
  | (ps, s, Some e) => ([], close_all ps s, Some e)
  | r => r
  end.

(** What is done with a coprocess of the pool. *)
Inductive proc_op := OpScan (o : start_outcome) (io : io_outcome) (timeout : bytes) | OpShutdown | OpStderrEnds.

Definition run_op (st : list ppProc * os) (op : nat * proc_op) : list ppProc * os :=
  match fst st !! fst op with
  | None => st
  | Some p =>
      let '(p, s) := match snd op with OpScan o io t => fst (scan o io t p (snd st)) | OpShutdown => shutdown p (snd st) | OpStderrEnds => stderr_ends p (snd st) end in
      (<[fst op := p]> (fst st), s)
  end.

Definition run_ops (ops : list (nat * proc_op)) (st : list ppProc * os) : list ppProc * os := fold_left run_op ops st.

(** The system holds what it held before, and what the coprocesses hold, each
for itself. *)
Record holds (base : gset resource) (ps : list ppProc) (s : os) : Prop := {
  ho_ok : os_ok s;
  ho_handles : Forall handles ps;
  ho_live : forall x, x ∈ live s <-> x ∈ base \/ exists i p, ps !! i = Some p /\ x ∈ owned p;
  ho_base : forall i p, ps !! i = Some p -> owned p ## base;
  ho_apart : forall i j p q, i <> j -> ps !! i = Some p -> ps !! j = Some q -> owned p ## owned q;
  ho_misuse : misuse s = false
}.

Lemma holds_owned base ps s i p : holds base ps s -> ps !! i = Some p -> owned p ⊆ live s.
Proof. intros H Hi x Hx. apply (ho_live _ _ _ H). right. eauto. Qed.

Lemma holds_insert base ps s i p p' s' :
  holds base ps s -> ps !! i = Some p -> touches p p' s s' -> holds base (<[i := p']> ps) s'.
Proof.
  intros H Hi [T1 T2 T3 T4 T5 T6]. pose proof (lookup_lt_Some _ _ _ Hi) as Hlt.
  assert (Hat : <[i := p']> ps !! i = Some p') by by apply list_lookup_insert_eq.
  assert (Hne : forall j, j <> i -> <[i := p']> ps !! j = ps !! j) by (intros j Hj; by apply list_lookup_insert_ne).
  assert (Hrest : forall x, x ∈ live s ∖ owned p <-> x ∈ base \/ exists j q, j <> i /\ ps !! j = Some q /\ x ∈ owned q).
  { intros x. rewrite elem_of_difference, (ho_live _ _ _ H). split.
    - intros [[?|(j & q & Hj & Hq)] Hn]; [by left|]. right. exists j, q. split_and!; [|done..]. intros ->. congruence.
    - intros [Hb|(j & q & Hj & Hq & Hx)]; (split; [eauto|]).
      + intros Hp. by apply (ho_base _ _ _ H i p Hi x).
      + intros Hp. by apply (ho_apart _ _ _ H i j p q (not_eq_sym Hj) Hi Hq x). }
  constructor; try done.
  - apply Forall_insert; [apply H|done].
  - intros x. rewrite T3, elem_of_union, Hrest. split.
    + intros [[Hb|(j & q & Hj & Hq & Hx)]|Hx]; [by left| |right; exists i, p'; by rewrite Hat].
      right. exists j, q. by rewrite Hne.
    + intros [Hb|(j & q & Hq & Hx)]; [by left; left|]. destruct (decide (j = i)) as [ -> |Hj].
      * rewrite Hat in Hq. injection Hq as <-. by right.
      * rewrite Hne in Hq by done. left. right. by exists j, q.
  - intros j q Hq x Hx Hb. destruct (decide (j = i)) as [ -> |Hj].
    + rewrite Hat in Hq. injection Hq as <-. apply (T4 x Hx), Hrest. by left.
    + rewrite Hne in Hq by done. by apply (ho_base _ _ _ H j q Hq x).
  - intros j k q1 q2 Hjk Hj Hk x Hx1 Hx2.
    destruct (decide (j = i)) as [ -> |Hji]; [|destruct (decide (k = i)) as [ -> |Hki]].
    + rewrite Hat in Hj. injection Hj as <-. rewrite Hne in Hk by done. apply (T4 x Hx1), Hrest. right. by exists k, q2.
    + rewrite Hat in Hk. injection Hk as <-. rewrite Hne in Hj by done. apply (T4 x Hx2), Hrest. right. by exists j, q1.
    + rewrite Hne in Hj, Hk by done. by apply (ho_apart _ _ _ H j k q1 q2 Hjk Hj Hk x).
  - rewrite T6. apply H.
Qed.

Lemma holds_nil s : os_ok s -> misuse s = false -> holds (live s) [] s.
Proof.
  intros Hs Hm. constructor; try done. intros x. split; [by left|]. by intros [?|(i & p & ? & _)].
Qed.

Lemma owned_down p : running p = false -> owned p = ∅.
Proof. unfold running, owned. destruct (cmd p); [done|]. done. Qed.

(** Only coprocesses that hold something count. *)
Lemma holds_same base ps ps' s :
  (forall j q, owned q <> ∅ -> ps !! j = Some q <-> ps' !! j = Some q) -> Forall handles ps' ->
  holds base ps s -> holds base ps' s.
Proof.
  intros Hsame Hh [H1 H2 H3 H4 H5 H6]. constructor; try done.
  - intros x. rewrite H3. split; (intros [Hb|(j & q & Hq & Hx)]; [by left|right]; exists j, q; split; [|done]);
      apply Hsame; [set_solver|done|set_solver|done].
  - intros j q Hq. destruct (decide (owned q = ∅)) as [E|E]; [rewrite E; set_solver|]. by apply (H4 j), Hsame.
  - intros j k q1 q2 Hjk Hj Hk. destruct (decide (owned q1 = ∅)) as [E1|E1]; [rewrite E1; set_solver|].
    destruct (decide (owned q2 = ∅)) as [E2|E2]; [rewrite E2; set_solver|]. by apply (H5 j k); [|apply Hsame..].
Qed.

Lemma lookup_snoc_owner ps p j q : owned p = ∅ -> owned q <> ∅ -> ps !! j = Some q <-> (ps ++ [p]) !! j = Some q.
Proof.
  intros Hp Hq. rewrite lookup_app_Some. split; [by left|]. intros [?|[_ H]]; [done|].
  destruct (j - length ps)%nat; [|done]. by injection H as <-.
Qed.

(** A coprocess that is not running may join or leave the list. *)
Lemma holds_snoc base ps s : holds base ps s <-> holds base (ps ++ [fresh_proc]) s.
Proof.
  split; intros H; (eapply holds_same; [| |exact H]).
  - intros j q Hq. by apply lookup_snoc_owner.
  - apply Forall_app_2; [apply H|]. by apply Forall_singleton, handles_idle.
  - intros j q Hq. symmetry. by apply lookup_snoc_owner.
  - pose proof (ho_handles _ _ _ H) as Hh. by apply Forall_app in Hh as [Hh _].
Qed.

Lemma holds_tail base p ps s : running p = false -> holds base (p :: ps) s -> holds base ps s.
Proof.
  intros Hr%owned_down [H1 H2 H3 H4 H5 H6]. constructor; try done.
  - by apply Forall_cons in H2 as [_ H2].
  - intros x. rewrite H3. split; (intros [Hb|(j & q & Hq & Hx)]; [by left|right]).
    + destruct j as [|j]; [injection Hq as <-; by rewrite Hr in Hx|]. by exists j, q.
    + by exists (S j), q.
  - intros j q Hq. by apply (H4 (S j)).
  - intros j k q1 q2 Hjk Hj Hk. apply (H5 (S j) (S k)); [congruence|done|done].
Qed.

(** Closing some of the coprocesses leaves the others. *)
Lemma close_all_rest base ps qs s : holds base (ps ++ qs) s -> holds base qs (close_all ps s).
Proof.
  revert s. induction ps as [|p ps IH]; intros s H; cbn [close_all app] in *; [done|].
  apply IH. destruct (shutdown p s) as [p' s'] eqn:Hd. cbn [snd].
  pose proof (ho_handles _ _ _ H) as [Hp _]%Forall_cons.
  destruct (down_touches p s p' s') as [Ht Hr];
    [apply H|done|by apply (holds_owned _ _ _ 0%nat p H)|by right|].
  apply (holds_tail _ p'); [done|]. by apply (holds_insert base (p :: ps ++ qs) s 0%nat p p' s' H eq_refl).
Qed.

Lemma close_all_idle base ps s : holds base ps s -> holds base [] (close_all ps s).
Proof. intros H. apply close_all_rest. by rewrite app_nil_r. Qed.

Lemma holds_idle base s : holds base [] s -> live s = base /\ misuse s = false.
Proof.
  intros H. split; [|apply H]. apply set_eq. intros x. rewrite (ho_live _ _ _ H). split; [|by left].
  by intros [?|(i & p & ? & _)].
Qed.

Lemma close_all_holds base ps s : holds base ps s -> live (close_all ps s) = base /\ misuse (close_all ps s) = false.
Proof. intros H. by apply holds_idle, close_all_idle. Qed.

Lemma start_all_holds base outs ps s ps' s' e :
  holds base ps s -> start_all outs ps s = (ps', s', e) ->
  holds base ps' s' /\ (e = None -> length ps' = (length ps + length outs)%nat).
Proof.
  revert ps s. induction outs as [|o outs IH]; intros ps s H Hst; cbn [start_all] in Hst.
  { injection Hst as <- <- <-. split; [done|]. simpl. lia. }
  destruct (ensure o fresh_proc s) as [[p1 s1] e1] eqn:Hen.
  destruct (ensure_touches o fresh_proc s p1 s1 e1) as (Ht & _ & Hsame); [apply H|by apply handles_idle|set_solver|done|].
  assert (H1 : holds base (ps ++ [p1]) s1).
  { replace (ps ++ [p1]) with (<[length ps := p1]> (ps ++ [fresh_proc])).
    - eapply holds_insert; [by apply (proj1 (holds_snoc _ _ _) H)| |exact Ht]. by apply list_lookup_middle.
    - rewrite insert_app_r_alt, Nat.sub_diag by done. done. }
  destruct e1 as [e1|].
  - injection Hst as <- <- <-. split; [|done]. rewrite (Hsame ltac:(done)) in H1. by apply holds_snoc.
  - apply IH in Hst as [Hh Hl]; [|done]. split; [done|]. intros ->%Hl. rewrite length_app. simpl. lia.
Qed.

Lemma run_ops_holds base ops st : holds base (fst st) (snd st) ->
  holds base (fst (run_ops ops st)) (snd (run_ops ops st)).
Proof.
  revert st. induction ops as [|[i op] ops IH]; intros [ps s] H; [done|]. cbn [run_ops fold_left]. apply IH.
  unfold run_op. cbn [fst snd] in *. destruct (ps !! i) as [p|] eqn:Hi; [|done].
  pose proof (holds_owned _ _ _ _ _ H Hi) as Ho. pose proof (ho_handles _ _ _ H) as Hh.
  eapply Forall_lookup_1 in Hh; [|exact Hi]. destruct op as [o io t| |].
  - destruct (scan o io t p s) as [[p' s'] r] eqn:Hsc.
    destruct (scan_spec o io t p s p' s' r) as [Ht _]; [apply H|done|done|done|]. cbn [fst snd]. by eapply holds_insert.
  - destruct (shutdown p s) as [p' s'] eqn:Hsd.
    destruct (down_touches p s p' s') as [Ht _]; [apply H|done|done|by right|]. cbn [fst snd]. by eapply holds_insert.
  - destruct (stderr_ends p s) as [p' s'] eqn:Hsd.
    destruct (stderr_touches p s p' s') as [Ht _]; [apply H|done|done|done|]. cbn [fst snd]. by eapply holds_insert.
Qed.

(** C32. Coprocesses leak nothing: when a pool cannot be started, the system
holds what it held before; and a started pool, whatever calls of [scan] and
[shutdown] have returned since, with whatever failures and timeouts, holds for
each running coprocess what it owns (its child, the two descriptors of its
pipes and, until its error stream has ended, the third and the goroutine that
reads it) and nothing else, never closes or waits for anything twice, and has
given everything back once it is closed and the closing has returned. *)
Theorem coprocesses_leak_nothing (outs : list start_outcome) (ops : list (nat * proc_op)) (s0 s : os) ps e :
  os_ok s0 -> misuse s0 = false -> new_pool outs s0 = (ps, s, e) ->
  match e with
  | Some _ => ps = [] /\ live s = live s0 /\ misuse s = false
  | None =>
      length ps = length outs /\
      let '(ps', s') := run_ops ops (ps, s) in
      misuse s' = false /\
      (forall x, x ∈ live s' <-> x ∈ live s0 \/ exists i p, ps' !! i = Some p /\ x ∈ owned p) /\
      live (close_all ps' s') = live s0 /\ misuse (close_all ps' s') = false
  end.
Proof.
  intros Hs Hm. unfold new_pool. destruct (start_all outs [] s0) as [[ps1 s1] e1] eqn:Hst.
  destruct (start_all_holds (live s0) outs [] s0 ps1 s1 e1) as [Hh Hl]; [by apply holds_nil|done|].
  destruct e1 as [e1|]; intros [= <- <- <-].
  - split; [done|]. by apply close_all_holds.
  - split; [by apply Hl|]. pose proof (run_ops_holds (live s0) ops (ps1, s1) Hh) as Hr.
    destruct (run_ops ops (ps1, s1)) as [ps' s']. cbn [fst snd] in Hr.
    destruct (close_all_holds _ _ _ Hr). by split_and!; [apply Hr|apply Hr|..].
Qed.
End scan.

(** ** A concrete pool *)

Definition starts : start_outcome := MkStart None None None None.
Definition empty_os : os := MkOs ∅ 3 false.

Definition demo_pool : list ppProc * os * option goerror := new_pool [starts; starts] empty_os.

(** One coprocess times out and cannot be started again, then it can. *)
Definition demo_ops : list (nat * proc_op) :=
  [(0, OpScan starts IoTimeout "30s"); (0, OpScan (MkStart None (Some (ENew "no pipe")) None None) IoTimeout "30s");
   (0, OpScan (MkStart None None (Some (ENew "no pipe")) None) IoTimeout "30s"); (1, OpStderrEnds);
   (1, OpScan starts (IoLine "{'verdict':'clean'}"%js) "30s"); (0, OpScan starts (IoError (ENew "EOF")) "30s");
   (0, OpScan starts (IoLine []) "30s"); (1, OpShutdown)]%nat.

Lemma demo_started : new_pool [starts; starts] empty_os = (fst (fst demo_pool), snd (fst demo_pool), None).
Proof.
  assert (H : snd demo_pool = None) by by vm_compute. rewrite <- H. unfold demo_pool. by destruct (new_pool _ _) as [[]].
Qed.

Lemma coprocesses_leak_nothing_witness :
  os_ok empty_os /\ misuse empty_os = false /\
  live (close_all (fst (run_ops (L := plain_lib) demo_ops (fst demo_pool))) (snd (run_ops (L := plain_lib) demo_ops (fst demo_pool)))) = ∅.
Proof.
  assert (H0 : os_ok empty_os) by (intros x; cbn; set_solver). split; [exact H0|]. split; [reflexivity|].
  pose proof (coprocesses_leak_nothing (L := plain_lib) [starts; starts] demo_ops empty_os _ _ None H0 eq_refl demo_started) as [_ H].
  rewrite <- surjective_pairing in H. destruct (run_ops demo_ops (fst demo_pool)) as [ps' s']. by destruct H as (_ & _ & H & _).
Defined.
