(* ===== verification/ResponseFilter.v ===== *)
(** * Response processing (gateway/responsefilter.go)

What happens to the response of a request that carried [tools/list] or
[tools/call]: verification against the lock, filtering by the policy,
scanning of tool results, and the HTTP response that leaves. *)

From S2P Require Export Http Policy Lock PromptProof JsonCompact.
Local Open Scope Z_scope.
Local Open Scope go_scope.

(** [maxRPCPeek] of gateway.go. *)
Definition maxRPCPeek : Z := 1048576.

(** ** Data *)

(** [rewriteState]; [scanned] records the contents handed to the scanner so
far, oldest first. *)
Record rewriteState := MkState {
  ids : list bytes;
  policy : option toolPolicy;
  lock : option preparedLock;
  strict : bool;
  filtered : Z;
  drift : bool;
  note : bytes;
  scanner : option scannerConfig;
  scanIDs : list bytes;
  scanVerdict : bytes;
  scanScore : Z;
  scanCategories : list bytes;
  scanBlocked : bool;
  scanFlagged : bool;
  scanErr : bytes;
  scanned : list bytes
}.

Definition set_filtered (n : Z) (s : rewriteState) : rewriteState :=
  MkState (ids s) (policy s) (lock s) (strict s) n (drift s) (note s) (scanner s) (scanIDs s) (scanVerdict s)
    (scanScore s) (scanCategories s) (scanBlocked s) (scanFlagged s) (scanErr s) (scanned s).
Definition set_drift (s : rewriteState) : rewriteState :=
  MkState (ids s) (policy s) (lock s) (strict s) (filtered s) true (note s) (scanner s) (scanIDs s) (scanVerdict s)
    (scanScore s) (scanCategories s) (scanBlocked s) (scanFlagged s) (scanErr s) (scanned s).
Definition set_note (n : bytes) (s : rewriteState) : rewriteState :=
  MkState (ids s) (policy s) (lock s) (strict s) (filtered s) (drift s) n (scanner s) (scanIDs s) (scanVerdict s)
    (scanScore s) (scanCategories s) (scanBlocked s) (scanFlagged s) (scanErr s) (scanned s).
Definition set_verdict (v : bytes) (n : Z) (s : rewriteState) : rewriteState :=
  MkState (ids s) (policy s) (lock s) (strict s) (filtered s) (drift s) (note s) (scanner s) (scanIDs s) v
    n (scanCategories s) (scanBlocked s) (scanFlagged s) (scanErr s) (scanned s).
Definition set_categories (l : list bytes) (s : rewriteState) : rewriteState :=
  MkState (ids s) (policy s) (lock s) (strict s) (filtered s) (drift s) (note s) (scanner s) (scanIDs s) (scanVerdict s)
    (scanScore s) l (scanBlocked s) (scanFlagged s) (scanErr s) (scanned s).
Definition set_blocked (s : rewriteState) : rewriteState :=
  MkState (ids s) (policy s) (lock s) (strict s) (filtered s) (drift s) (note s) (scanner s) (scanIDs s) (scanVerdict s)
    (scanScore s) (scanCategories s) true (scanFlagged s) (scanErr s) (scanned s).
Definition set_flagged (s : rewriteState) : rewriteState :=
  MkState (ids s) (policy s) (lock s) (strict s) (filtered s) (drift s) (note s) (scanner s) (scanIDs s) (scanVerdict s)
    (scanScore s) (scanCategories s) (scanBlocked s) true (scanErr s) (scanned s).
Definition set_scanErr (e : bytes) (s : rewriteState) : rewriteState :=
  MkState (ids s) (policy s) (lock s) (strict s) (filtered s) (drift s) (note s) (scanner s) (scanIDs s) (scanVerdict s)
    (scanScore s) (scanCategories s) (scanBlocked s) (scanFlagged s) e (scanned s).
Definition add_scanned (c : bytes) (s : rewriteState) : rewriteState :=
  MkState (ids s) (policy s) (lock s) (strict s) (filtered s) (drift s) (note s) (scanner s) (scanIDs s) (scanVerdict s)
    (scanScore s) (scanCategories s) (scanBlocked s) (scanFlagged s) (scanErr s) (scanned s ++ [c]).

Inductive msgVerdict := msgPass | msgRewrite | msgBlock.

Record msgOutcome := MkOutcome {
  verdict : msgVerdict;
  out : bytes;
  oid : bytes;
  code : Z;
  reason : bytes;
  invalid : bool
}.

Definition passOutcome : msgOutcome := MkOutcome msgPass [] [] 0 [] false.
Definition invalidOutcome : msgOutcome := MkOutcome msgPass [] [] 0 [] true.
Definition rewriteOutcome (o : bytes) : msgOutcome := MkOutcome msgRewrite o [] 0 [] false.
Definition blockOutcome (id : bytes) (code : Z) (reason : bytes) : msgOutcome :=
  MkOutcome msgBlock [] id code reason false.

Record rpcResponseProbe := RespProbe { rp_jsonrpc : bytes; rp_id : bytes; rp_result : bytes; rp_error : bytes }.

Definition zero_resp : rpcResponseProbe := RespProbe [] [] [] [].

Definition resp_fields : fields rpcResponseProbe := [
  fld "jsonrpc" rp_jsonrpc (fun v p => RespProbe v (rp_id p) (rp_result p) (rp_error p)) dec_raw;
  fld "id" rp_id (fun v p => RespProbe (rp_jsonrpc p) v (rp_result p) (rp_error p)) dec_raw;
  fld "result" rp_result (fun v p => RespProbe (rp_jsonrpc p) (rp_id p) v (rp_error p)) dec_raw;
  fld "error" rp_error (fun v p => RespProbe (rp_jsonrpc p) (rp_id p) (rp_result p) v) dec_raw ].

Definition resp_probe (m : bytes) : option rpcResponseProbe := unmarshal (dec_struct resp_fields) zero_resp m.

(** The anonymous struct with the one field [id]. *)
Definition id_fields : fields bytes := [fld "id" id (fun v _ => v) dec_raw].

Definition id_probe (m : bytes) : option bytes := unmarshal (dec_struct id_fields) [] m.

(** ** State helpers *)

Definition noteOnce (reason : bytes) (s : rewriteState) : rewriteState :=
  if bool_decide (note s = []) then set_note reason s else s.

Definition policy_allow (p : option toolPolicy) : bool :=
  match p with Some p => match allow p with Some _ => true | None => false end | None => false end.

Definition lock_enforces (l : option preparedLock) : bool :=
  match l with Some l => enforce l | None => false end.

Definition strictCode (s : rewriteState) : Z :=
  if policy_allow (policy s) then -32003
  else if lock_enforces (lock s) then -32004
  else -32003.

Definition containsString (xs : list bytes) (s : bytes) : bool := existsb (fun x => bool_decide (x = s)) xs.

Definition st_hasID (s : rewriteState) (raw : bytes) : bool := containsString (ids s) raw.
Definition st_hasScanID (s : rewriteState) (raw : bytes) : bool := containsString (scanIDs s) raw.

(** A message has an error member that is not [null]. *)
Definition error_response (p : rpcResponseProbe) : bool :=
  (0 <? len (rp_error p)) && negb (bool_decide (rp_error p = "null")).

(** ** Scanning *)

Definition recordScan (res : scanResult) (s : rewriteState) : rewriteState :=
  if verdictRank (Verdict res) =? 0 then s
  else
    let s := if verdictRank (scanVerdict s) <? verdictRank (Verdict res)
             then set_verdict (Verdict res) (Score res) s else s in
    fold_left (fun s c => if containsString (scanCategories s) c then s
                          else set_categories (scanCategories s ++ [c]) s) (Categories res) s.

(** The environment of a run: [Scan]'s answer to the next content, given the
contents before it, and the order in which the runtime ranges over maps. *)
Class ScanEnv := {
  Scan : list bytes -> bytes -> result scanResult;
  map_range : gmap bytes bytes -> list (bytes * bytes);
  map_range_perm : forall m, map_range m ≡ₚ map_to_list m
}.

Section filter.
Context {L : GoLib} {E : ScanEnv}.

Definition scanMessage (sc : scannerConfig) (m : bytes) (s : rewriteState) : rewriteState * msgOutcome :=
  match resp_probe m with
  | None => (s, invalidOutcome)
  | Some probe =>
      if error_response probe then (s, passOutcome)
      else if bool_decide (rp_result probe = []) then (s, passOutcome)
      else
        let content := join [x0a] (scan_strings map_range (rp_result probe)) in
        let answer := Scan (scanned s) content in
        let s := add_scanned content s in
        match answer with
        | Err e =>
            let s := if bool_decide (scanErr s = []) then set_scanErr (Error e) s else s in
            (noteOnce ("promptproof scan error: " ++ Error e) s, passOutcome)
        | Ok res =>
            let s := recordScan res s in
            if negb (triggers sc (Verdict res)) then (s, passOutcome)
            else if bool_decide (sc_action sc = "flag") then (set_flagged s, passOutcome)
            else
              let reason := "tool result blocked by promptproof: " ++ Verdict res
                            ++ " (score " ++ itoa (Score res) ++ ")" in
              (noteOnce reason (set_blocked s), blockOutcome (rp_id probe) promptProofBlockCode reason)
        end
  end.

(** ** Filtering *)

(** One listed tool: [None] when strict processing refuses the listing. *)
Definition keep_step (s : rewriteState) (acc : option (list bytes * Z)) (el : bytes) : option (list bytes * Z) :=
  match acc with
  | None => None
  | Some (kept, removed) =>
      match unmarshal_name el with
      | Some (c :: t) =>
          if allows (policy s) (c :: t) then Some (kept ++ [el], removed) else Some (kept, removed + 1)
      | _ => if strict s then None else Some (kept ++ [el], removed)
      end
  end.

Definition keep_tools (s : rewriteState) (elems : list bytes) : option (list bytes * Z) :=
  fold_left (keep_step s) elems (Some ([], 0)).

(** The rebuilt message. *)
Definition rebuild (probe : rpcResponseProbe) (newResult : bytes) : bytes :=
  "{" ++ marshal_string "jsonrpc" ++ ":"
  ++ (if 0 <? len (rp_jsonrpc probe) then rp_jsonrpc probe else marshal_string "2.0")
  ++ "," ++ marshal_string "id" ++ ":" ++ rp_id probe
  ++ "," ++ marshal_string "result" ++ ":" ++ newResult ++ "}".

(** The lock check of a listing: the new state and the outcome that ends the
processing, if it does. *)
Definition check_lock (probe : rpcResponseProbe) (elems : list bytes) (s : rewriteState) :
    rewriteState * option msgOutcome :=
  match lock s with
  | None => (s, None)
  | Some l =>
      let reason := verify l elems in
      if bool_decide (reason = []) then (s, None)
      else
        let s := noteOnce reason (set_drift s) in
        (s, if enforce l then Some (blockOutcome (rp_id probe) (-32004) reason) else None)
  end.

Definition examineMessage (m : bytes) (s : rewriteState) : rewriteState * msgOutcome :=
  match resp_probe m with
  | None => (s, invalidOutcome)
  | Some probe =>
      if bool_decide (rp_id probe = []) || negb (st_hasID s (rp_id probe)) then (s, passOutcome)
      else if error_response probe then (s, passOutcome)
      else
        let block s reason := (s, blockOutcome (rp_id probe) (strictCode s) reason) in
        match unmarshal dec_raw_map None (rp_result probe) with
        | Some (Some result) =>
            match result !! ("tools" : bytes) with
            | None => if strict s then block s "tools/list result has no tools array" else (s, passOutcome)
            | Some toolsRaw =>
                match unmarshal dec_raws None toolsRaw with
                | None => if strict s then block s "tools/list result tools is not an array" else (s, passOutcome)
                | Some elems =>
                    let elems := default [] elems in
                    match check_lock probe elems s with
                    | (s, Some o) => (s, o)
                    | (s, None) =>
                        match keep_tools s elems with
                        | None => block s "tools/list entry without a tool name"
                        | Some (kept, removed) =>
                            if removed =? 0 then (s, passOutcome)
                            else
                              let s := set_filtered (filtered s + removed) s in
                              match marshal_raws kept with
                              | None => block s "tools/list result could not be rebuilt"
                              | Some newTools =>
                                  match marshal_raw_map (<[("tools" : bytes) := newTools]> result) with
                                  | None => block s "tools/list result could not be rebuilt"
                                  | Some newResult => (s, rewriteOutcome (rebuild probe newResult))
                                  end
                              end
                        end
                    end
                end
            end
        | _ => if strict s then block s "tools/list result is not an object" else (s, passOutcome)
        end
  end.

Definition handleMessage (m : bytes) (s : rewriteState) : rewriteState * msgOutcome :=
  match scanner s with
  | Some sc =>
      if 0 <? len (scanIDs s) then
        match id_probe m with
        | Some i => if (0 <? len i) && st_hasScanID s i then scanMessage sc m s else examineMessage m s
        | None => examineMessage m s
        end
      else examineMessage m s
  | None => examineMessage m s
  end.

(** ** Bodies *)

Definition jsonrpcError (id : bytes) (code : Z) (msg : bytes) : bytes :=
  let id := if bool_decide (id = []) then "null" else id in
  "{" ++ marshal_string "jsonrpc" ++ ":" ++ marshal_string "2.0" ++ "," ++ marshal_string "id" ++ ":" ++ id
  ++ "," ++ marshal_string "error" ++ ":{" ++ marshal_string "code" ++ ":" ++ itoa code ++ ","
  ++ marshal_string "message" ++ ":" ++ marshal_string msg ++ "}}".

Definition swapBody (status : Z) (b : bytes) (r : response) : response :=
  let h := h_set (Header r) "Content-Length" (itoa (len b)) in
  let h := h_set h "Content-Type" "application/json" in
  let h := h_del h "Content-Encoding" in
  MkResponse status (itoa status ++ " " ++ StatusText status) h (Plain (Source b None)) (len b) [].

Definition blockResponseCode (code : Z) (reason : bytes) (r : response) (s : rewriteState) :
    response * rewriteState :=
  (swapBody StatusForbidden (jsonrpcError [] code reason ++ [x0a]) r, noteOnce reason s).

Definition blockResponse (reason : bytes) (r : response) (s : rewriteState) : response * rewriteState :=
  blockResponseCode (strictCode s) reason r s.

(** The loop over a batch: the replacement messages and whether any differs,
or the block that ends it. *)
Inductive batch_result :=
| BatchDone (msgs : list bytes) (changed : bool)
| BatchBlock (code : Z) (reason : bytes).

Fixpoint process_batch (msgs : list bytes) (s : rewriteState) : rewriteState * batch_result :=
  match msgs with
  | [] => (s, BatchDone [] false)
  | m :: ms =>
      let '(s, o) := handleMessage m s in
      match verdict o with
      | msgBlock => (s, BatchBlock (code o) (reason o))
      | msgRewrite =>
          match process_batch ms s with
          | (s, BatchDone l c) => (s, BatchDone (out o :: l) true)
          | r => r
          end
      | msgPass =>
          if invalid o && strict s
          then (s, BatchBlock (strictCode s) "tools/list response batch entry is not an object")
          else
            match process_batch ms s with
            | (s, BatchDone l c) => (s, BatchDone (m :: l) c)
            | r => r
            end
      end
  end.

(** The replacement of a whole body: [None] leaves it alone. *)
Inductive body_result :=
| BodyKeep
| BodyReplace (b : bytes)
| BodyBlock (code : Z) (reason : bytes)
| BodyError (e : goerror).

Definition process_text (body : bytes) (s : rewriteState) : rewriteState * body_result :=
  match body with
  | [] => (s, BodyKeep)
  | c :: _ =>
      if Byte.eqb c x5b then
        match unmarshal dec_raws None body with
        | None =>
            if strict s then (s, BodyBlock (strictCode s) "tools/list response is not parseable JSON")
            else (s, BodyKeep)
        | Some msgs =>
            match process_batch (default [] msgs) s with
            | (s, BatchBlock code reason) => (s, BodyBlock code reason)
            | (s, BatchDone l changed) =>
                if changed then
                  match marshal_raws l with
                  | Some joined => (s, BodyReplace joined)
                  | None => (s, BodyError (EDecode "batch" body))
                  end
                else (s, BodyKeep)
            end
        end
      else
        let '(s, o) := handleMessage body s in
        match verdict o with
        | msgBlock => (s, BodyBlock (code o) (reason o))
        | msgRewrite => (s, BodyReplace (out o))
        | msgPass =>
            if invalid o && strict s then (s, BodyBlock (strictCode s) "tools/list response is not parseable JSON")
            else (s, BodyKeep)
        end
  end.

Definition source_of (r : response) : source := match Body r with Plain s | Rewritten s => s end.

(** The error is what the proxy's error handler is called with. *)
Definition processJSONBody (r : response) (s : rewriteState) : (response * rewriteState) * option goerror :=
  let '(buf, err, rest) := read_limited (maxRPCPeek + 1) (source_of r) in
  match err with
  | Some e => ((with_body (Plain rest) r, s), Some e)
  | None =>
      if maxRPCPeek <? len buf then
        if strict s then (blockResponse "tools/list response exceeded the processing cap" r s, None)
        else ((with_body (Plain (Source (buf ++ src_data rest) (src_err rest))) r, s), None)
      else
        match process_text (trim_space buf) s with
        | (s, BodyKeep) => ((with_body (Plain (Source buf None)) r, s), None)
        | (s, BodyReplace b) => ((swapBody StatusOK b r, s), None)
        | (s, BodyBlock code reason) => (blockResponseCode code reason r s, None)
        | (s, BodyError e) => ((with_body (Plain rest) r, s), Some e)
        end
  end.

Definition modifyResponse (r : response) (st : option rewriteState) :
    (response * option rewriteState) * option goerror :=
  match st with
  | None => ((r, None), None)
  | Some s =>
      if negb (StatusCode r =? StatusOK) then ((r, st), None)
      else
        let ct := h_get (Header r) "Content-Type" in
        if has_prefix ct "application/json" then
          let '((r, s), err) := processJSONBody r s in
          let r := if scanFlagged s && negb (bool_decide (scanVerdict s = []))
                   then with_header (h_set (Header r) "X-PromptProof-Verdict" (scanVerdict s)) r else r in
          ((r, Some s), err)
        else if has_prefix ct "text/event-stream" then
          let r := with_body (Rewritten (source_of r)) r in
          ((MkResponse (StatusCode r) (Status r) (h_del (Header r) "Content-Length") (Body r) (-1)
              (TransferEncoding r), st), None)
        else if strict s then
          let '(r, s) := blockResponse ("tools/list response has unexpected content type " ++ quote ct) r s in
          ((r, Some s), None)
        else ((r, st), None)
  end.

End filter.

(** ** Reading a message back *)

(** The tools a message lists, as the gateway reads them. *)
Definition listed_tools (m : bytes) : option (list bytes) :=
  match resp_probe m with
  | Some p =>
      match unmarshal dec_raw_map None (rp_result p) with
      | Some (Some r) =>
          match r !! ("tools" : bytes) with
          | Some t => match unmarshal dec_raws None t with Some l => Some (default [] l) | None => None end
          | None => None
          end
      | _ => None
      end
  | None => None
  end.

Definition named (el : bytes) : bool :=
  match unmarshal_name el with Some (_ :: _) => true | _ => false end.

Definition kept_by (p : option toolPolicy) (el : bytes) : bool :=
  match unmarshal_name el with Some (c :: t) => allows p (c :: t) | _ => true end.

Lemma keep_step_eq s kept removed el :
  keep_step s (Some (kept, removed)) el =
  if strict s && negb (named el) then None
  else if kept_by (policy s) el then Some (kept ++ [el], removed) else Some (kept, removed + 1).
Proof.
  unfold keep_step, named, kept_by. destruct (unmarshal_name el) as [[|c t]|]; simpl;
    rewrite ?andb_false_r, ?andb_true_r; by destruct (strict s).
Qed.

Lemma keep_step_none s l : fold_left (keep_step s) l None = None.
Proof. induction l; done. Qed.

(** The filter keeps the allowed tools in order and counts the others; strict
processing insists that every tool has a name. *)
Lemma keep_tools_spec s elems :
  keep_tools s elems =
  if strict s && negb (forallb named elems) then None
  else Some (filter (fun el => kept_by (policy s) el = true) elems,
             len (filter (fun el => kept_by (policy s) el = false) elems)).
Proof.
  unfold keep_tools.
  enough (H : forall kept removed, fold_left (keep_step s) elems (Some (kept, removed)) =
    if strict s && negb (forallb named elems) then None
    else Some (kept ++ filter (fun el => kept_by (policy s) el = true) elems,
               removed + len (filter (fun el => kept_by (policy s) el = false) elems))) by apply H.
  induction elems as [|el elems IH]; intros kept removed; cbn [fold_left forallb].
  - rewrite andb_false_r, !filter_nil, app_nil_r, len_nil, Z.add_0_r. done.
  - rewrite keep_step_eq, !filter_cons. destruct (strict s && negb (named el)) eqn:En.
    + rewrite keep_step_none. apply andb_true_iff in En as [-> En]. apply negb_true_iff in En.
      by rewrite En.
    + assert (Hs : strict s && negb (named el && forallb named elems) = strict s && negb (forallb named elems)).
      { destruct (strict s); [|done]. simpl in *. apply negb_false_iff in En. by rewrite En. }
      rewrite Hs. destruct (kept_by (policy s) el) eqn:Ek; rewrite IH;
        (destruct (strict s && negb (forallb named elems)); [done|]).
      * rewrite decide_True, decide_False by congruence. by rewrite <- app_assoc.
      * rewrite decide_False, decide_True by congruence. by rewrite len_cons, Z.add_assoc.
Qed.

(** *** Raw parts of a message *)

(** A value at nesting [d] or deeper inside a document. *)
Definition within (d : Z) (r : bytes) (j : json) : Prop := r = render j /\ good j /\ depth j + d <= max_nesting.

Definition raw_at (k : Z) (r : bytes) : Prop := r = [] \/ exists j, within k r j.

Definition resp_at (k : Z) (p : rpcResponseProbe) : Prop :=
  raw_at k (rp_jsonrpc p) /\ raw_at k (rp_id p) /\ raw_at k (rp_result p) /\ raw_at k (rp_error p).

Lemma raw_within k r : raw_at k r -> r <> [] -> exists j, within k r j.
Proof. by intros [->|H]. Qed.

Lemma resp_probe_at m p j :
  resp_probe m = Some p -> parse_doc m = Some j -> resp_at (max_nesting - depth j + 1) p.
Proof.
  unfold resp_probe, unmarshal. intros H Hj. rewrite Hj in H. apply parse_doc_good in Hj.
  pose proof (dec_struct_inv (resp_at (max_nesting - depth j + 1)) resp_fields zero_resp j) as Hinv.
  destruct (dec_struct resp_fields zero_resp j) as [v []]; [|done]. injection H as <-. apply Hinv.
  - by split_and!; left.
  - intros w ms mm f s -> Hm Hf (H1 & H2 & H3 & H4). pose proof (good_obj _ _ _ Hj Hm) as [Hg _].
    pose proof (depth_member w ms mm Hm) as Hd.
    assert (Hr : raw_at (max_nesting - depth (JObj w ms) + 1) (render (snd mm))).
    { right. exists (snd mm). split_and!; [done|done|]. lia. }
    unfold resp_fields in Hf. rewrite !elem_of_cons, elem_of_nil in Hf.
    by destruct Hf as [->|[->|[->|[->|[]]]]]; simpl; split_and!.
Qed.

Lemma resp_probe_doc m p : resp_probe m = Some p -> exists j, parse_doc m = Some j.
Proof. unfold resp_probe, unmarshal. destruct (parse_doc m); [eauto|done]. Qed.

Lemma unmarshal_within {S} (d : decoder S) z k r j : within k r j ->
  unmarshal d z r = let '(v, ok) := d z j in if ok then Some v else None.
Proof. intros (-> & Hg & _). unfold unmarshal. by rewrite parse_doc_render. Qed.

Lemma raw_map_within k r j result :
  within k r j -> unmarshal dec_raw_map None r = Some (Some result) ->
  forall key raw, result !! key = Some raw -> valid_utf8 key /\ exists jv, within (k + 1) raw jv.
Proof.
  intros Hw. rewrite (unmarshal_within _ _ _ _ _ Hw). destruct Hw as (_ & Hg & Hd).
  destruct j as [| | | | | |w ms]; simpl; try done. intros [= <-] key raw Hl.
  apply insert_members_source in Hl as [Hl|(m & Hm & <- & ->)]; [done|].
  pose proof (good_obj _ _ _ Hg Hm) as [Hgm Hk]. split; [by apply unquote_valid|].
  exists (snd m). split_and!; [done|done|]. pose proof (depth_member w ms m Hm). lia.
Qed.

Lemma raws_within k r j l :
  within k r j -> unmarshal dec_raws None r = Some l ->
  exists w es, (j = JArr w es /\ l = Some (map (fun e => render (snd e)) es)) \/ (j = JNull /\ l = None).
Proof.
  intros Hw. rewrite (unmarshal_within _ _ _ _ _ Hw).
  destruct j as [| | | | |w es|]; simpl; try done; intros [= <-].
  - exists [], []. by right.
  - exists w, es. by left.
Qed.

(** *** The rebuilt message *)

Definition plain_key (k : bytes) : mgap := MGap [] (escape_string k) [] [] [].

Definition tool_member (j : json) : gap * json := (no_gap, compact (compact j)).

Lemma same_name j : good j -> unmarshal_name (render (compact j)) = unmarshal_name (render j).
Proof.
  intros Hg. unfold unmarshal_name, unmarshal. rewrite !parse_doc_render by auto using compact_good.
  rewrite dec_struct_blind; [done| |apply Hg]. constructor; [|done]. apply fld_blind, dec_string_blind.
Qed.

(** A rewritten map of raw messages reads back entry by entry. *)
Lemma entries_lookup (l : list (bytes * bytes)) ms k raw j :
  Forall2 entry_written l ms -> NoDup (map fst l) -> Forall (fun kv => valid_utf8 (fst kv)) l ->
  (k, raw) ∈ l -> parse_doc raw = Some j ->
  fold_left insert_member ms (∅ : gmap bytes bytes) !! k = Some (render (compact j)).
Proof.
  intros HF Hnd Hv Hin Hj. apply list_elem_of_split in Hin as (l1 & l2 & ->).
  apply Forall2_app_inv_l in HF as (ms1 & ms2' & _ & H2 & ->).
  apply Forall2_cons_inv_l in H2 as (m & ms2 & (j' & Hj' & ->) & H2 & ->). simpl in Hj'.
  rewrite Hj in Hj'. injection Hj' as <-.
  apply Forall_app in Hv as [_ Hv]. apply Forall_cons in Hv as [Hk Hv].
  rewrite (insert_members_split ms1 _ ms2 _ k); [done| |].
  - simpl. by rewrite unquote_escape.
  - rewrite map_app in Hnd. apply NoDup_app in Hnd as (_ & _ & Hnd). simpl in Hnd.
    apply NoDup_cons in Hnd as [Hk2 _]. clear -H2 Hv Hk2.
    induction H2 as [|[k2 r2] m l ms (j' & _ & ->) _ IH]; [constructor|].
    apply Forall_cons in Hv as [Hk Hv]. simpl in Hk2. apply not_elem_of_cons in Hk2 as [Hne Hk2].
    constructor; [|by apply IH]. simpl. rewrite unquote_escape. simpl in Hk. unfold valid_utf8 in Hk. by rewrite Hk.
Qed.

Lemma entries_keys (l : list (bytes * bytes)) ms k r :
  Forall2 entry_written l ms -> Forall (fun kv => valid_utf8 (fst kv)) l ->
  fold_left insert_member ms (∅ : gmap bytes bytes) !! k = Some r -> k ∈ map fst l.
Proof.
  intros HF Hv Hr. apply insert_members_source in Hr as [Hr|(m & Hm & <- & _)]; [done|].
  apply list_elem_of_lookup in Hm as [i Hi]. destruct (Forall2_lookup_r _ _ _ _ _ HF Hi) as ([k' r'] & Hl & j & _ & ->).
  simpl. rewrite unquote_escape. apply list_elem_of_lookup_2 in Hl.
  rewrite Forall_forall in Hv. specialize (Hv _ Hl). unfold valid_utf8 in Hv. simpl in Hv. rewrite Hv.
  by apply (list_elem_of_fmap_2 fst) in Hl.
Qed.

Lemma entries_good (l : list (bytes * bytes)) ms d :
  Forall2 entry_written l ms -> Forall (fun kv => exists j, within d (snd kv) j) l -> 1 <= d <= max_nesting ->
  good (JObj [] ms) /\ depth (JObj [] ms) + (d - 1) <= max_nesting.
Proof.
  intros HF Hl Hd.
  assert (Hall : Forall (fun m => mgap_ok (fst m) = true /\ wf (snd m) = true /\ depth (snd m) + d <= max_nesting) ms).
  { induction HF as [|[k r] m l ms (j & Hj & ->) _ IH]; [constructor|].
    apply Forall_cons in Hl as [(j' & Hr & Hg & Hdep) Hl]. constructor; [|by apply IH].
    simpl in Hj, Hr. rewrite Hr, parse_doc_render in Hj by done. injection Hj as ->. simpl.
    rewrite compact_depth, compact_wf by apply Hg. unfold mgap_ok. simpl. by rewrite escape_string_ok. }
  assert (Hdepth : depth (JObj [] ms) + (d - 1) <= max_nesting).
  { cbn [depth]. enough (zmax_list (map (fun m => depth (snd m)) ms) <= max_nesting - d) by lia.
    apply zmax_list_le; [lia|]. apply Forall_map. eapply Forall_impl; [exact Hall|]. simpl. lia. }
  split; [|done]. split; [|lia]. cbn [wf]. apply andb_true_iff. split; [by destruct ms|].
  apply forallb_Forall. eapply Forall_impl; [exact Hall|]. simpl. intros m (-> & -> & _). done.
Qed.

Lemma rebuild_render k p r jr :
  1 <= k < max_nesting -> resp_at k p -> rp_id p <> [] -> within k r jr ->
  exists jv ji, rebuild p r
    = render (JObj [] [(MGap [] "jsonrpc" [] [] [], jv); (MGap [] "id" [] [] [], ji); (MGap [] "result" [] [] [], jr)])
    /\ render jv = (if 0 <? len (rp_jsonrpc p) then rp_jsonrpc p else marshal_string "2.0")
    /\ render ji = rp_id p /\ good jv /\ good ji /\ depth jv + k <= max_nesting /\ depth ji + k <= max_nesting.
Proof.
  intros Hk (Hv & Hi & _) Hne (Hr & Hgr & Hdr).
  destruct (raw_within _ _ Hi Hne) as (ji & Hid & Hgi & Hdi).
  assert (Hj : exists jv, render jv = (if 0 <? len (rp_jsonrpc p) then rp_jsonrpc p else marshal_string "2.0")
      /\ good jv /\ depth jv + k <= max_nesting).
  { destruct Hv as [->|(jv & -> & Hg & Hd)].
    - exists (JStr "2.0"). split_and!; [done|by split|]. cbn [depth]. lia.
    - rewrite len_render by done. by exists jv. }
  destruct Hj as (jv & Hjv & Hgv & Hdv). exists jv, ji. split_and!; try done.
  unfold rebuild. rewrite <- Hjv, Hid, Hr. cbn [render map join]. unfold render_member. simpl.
  rewrite ?app_nil_r. repeat (simpl; rewrite <- ?app_assoc). done.
Qed.

Lemma rebuilt_good k jv ji jr r :
  1 <= k < max_nesting ->
  good jv -> good ji -> depth jv + k <= max_nesting -> depth ji + k <= max_nesting -> within k r jr ->
  let o := JObj [] [(MGap [] "jsonrpc" [] [] [], jv); (MGap [] "id" [] [] [], ji); (MGap [] "result" [] [] [], jr)] in
  good o /\ depth o + (k - 1) <= max_nesting.
Proof.
  intros Hk Gv Gi Dv Di (_ & Gr & Dr) o.
  assert (Hd : depth o + (k - 1) <= max_nesting).
  { cbn [o depth map zmax_list fold_right snd]. unfold max_nesting in *. lia. }
  split; [|done]. split; [|lia].
  - cbn [wf forallb inner_ok]. unfold mgap_ok. simpl. by rewrite (proj1 Gv), (proj1 Gi), (proj1 Gr).
Qed.

Lemma resp_probe_rebuilt k p r jr :
  1 <= k < max_nesting -> resp_at k p -> rp_id p <> [] -> within k r jr ->
  resp_probe (rebuild p r)
  = Some (RespProbe (if 0 <? len (rp_jsonrpc p) then rp_jsonrpc p else marshal_string "2.0") (rp_id p) r []).
Proof.
  intros Hk Hp Hne Hr. destruct (rebuild_render k p r jr Hk Hp Hne Hr) as (jv & ji & -> & <- & <- & Gv & Gi & Dv & Di).
  destruct (rebuilt_good k jv ji jr r Hk Gv Gi Dv Di Hr) as [Hg _]. destruct Hr as (-> & _).
  unfold resp_probe, unmarshal. by rewrite parse_doc_render.
Qed.

Lemma kept_within k r w es el :
  within k r (JArr w es) -> el ∈ map (fun e => render (snd e)) es -> exists j, within (k + 1) el j.
Proof.
  intros (_ & Hg & Hd) Hin. apply list_elem_of_fmap_1 in Hin as (e & -> & He).
  exists (snd e). split_and!; [done|by eapply good_arr|]. pose proof (depth_elem w es e He). lia.
Qed.

Lemma marshal_kept kept k :
  Forall (fun el => exists j, within k el j) kept -> 1 <= k <= max_nesting ->
  exists js, Forall2 (fun el j => within k el j) kept js /\
    marshal_raws kept = Some (render (JArr [] (map (fun j => (no_gap, compact j)) js))) /\
    within (k - 1) (render (JArr [] (map (fun j => (no_gap, compact j)) js)))
      (JArr [] (map (fun j => (no_gap, compact j)) js)).
Proof.
  intros Hk Hkr.
  assert (exists js, Forall2 (fun el j => within k el j) kept js) as [js Hjs].
  { induction Hk as [|el kept [j Hj] _ [js IH]]; [by exists []|]. exists (j :: js). by constructor. }
  exists js. split; [done|].
  destruct (marshal_raws_total kept) as [o Ho].
  { eapply Forall_impl; [exact Hk|]. intros el (j & -> & Hg & _). rewrite parse_doc_render by done. eauto. }
  pose proof (marshal_raws_spec kept o Ho) as (js' & Hjs' & ->).
  assert (js' = js) as ->.
  { clear -Hjs Hjs'. revert js Hjs. induction Hjs' as [|el j' kept js' Hp _ IH]; intros js Hjs; inversion Hjs as [|? j ? js2 Hw]; subst; [done|].
    destruct Hw as (-> & Hg & _). rewrite parse_doc_render in Hp by done. injection Hp as ->. f_equal. by apply IH. }
  split; [done|].
  assert (Hall : Forall (fun j => good j /\ depth j + k <= max_nesting) js).
  { clear -Hjs. induction Hjs as [|el j kept js (_ & Hg & Hd) _ IH]; by constructor. }
  assert (Hd : depth (JArr [] (map (fun j => (no_gap, compact j)) js)) + (k - 1) <= max_nesting).
  { cbn [depth]. rewrite map_map. simpl.
    enough (zmax_list (map (fun j => depth (compact j)) js) <= max_nesting - k) by lia.
    apply zmax_list_le; [lia|]. apply Forall_map. eapply Forall_impl; [exact Hall|]. simpl.
    intros j [_ Hd]. rewrite compact_depth. lia. }
  split_and!; [done| |done]. split; [|lia]. cbn [wf]. apply andb_true_iff. split; [by destruct js|].
  apply forallb_Forall, Forall_map. eapply Forall_impl; [exact Hall|]. simpl. intros j [[Hw _] _]. by rewrite compact_wf.
Qed.

(** A map of nested values written and read back. *)
Lemma map_reads (k : Z) (m : gmap bytes bytes) :
  1 <= k < max_nesting ->
  (forall key raw, m !! key = Some raw -> valid_utf8 key /\ exists j, within (k + 1) raw j) ->
  exists nr ms m', marshal_raw_map m = Some nr /\ within k nr (JObj [] ms) /\
    unmarshal dec_raw_map None nr = Some (Some m') /\
    (forall key raw j, m !! key = Some raw -> parse_doc raw = Some j -> m' !! key = Some (render (compact j))) /\
    (forall key, m !! key = None -> m' !! key = None).
Proof.
  intros Hk Hent. destruct (marshal_raw_map_total m) as [nr Hnr].
  { intros key raw Hl. destruct (Hent key raw Hl) as (_ & j & -> & Hg & _). rewrite parse_doc_render by done. eauto. }
  pose proof (marshal_raw_map_spec m nr Hnr) as (ms & Hms & Hnr_eq).
  assert (Hl : Forall (fun kv => exists j, within (k + 1) (snd kv) j) (sorted_entries m)).
  { rewrite sorted_entries_perm. apply Forall_forall. intros [key raw] Hin%elem_of_map_to_list. by apply (Hent key). }
  destruct (entries_good _ _ (k + 1) Hms Hl) as [Hgms Hdms]; [lia|].
  assert (Hnd : NoDup (map fst (sorted_entries m))).
  { rewrite sorted_entries_perm. apply NoDup_fst_map_to_list. }
  assert (Hval : Forall (fun kv => valid_utf8 (fst kv)) (sorted_entries m)).
  { rewrite sorted_entries_perm. apply Forall_forall. intros [key raw] Hin%elem_of_map_to_list. by apply (Hent key raw). }
  assert (Hwnr : within k nr (JObj [] ms)) by (split_and!; [done|done|lia]).
  exists nr, ms, (fold_left insert_member ms (∅ : gmap bytes bytes)). split_and!; [done|done| | |].
  - rewrite (unmarshal_within _ _ _ _ _ Hwnr). by rewrite dec_raw_map_obj.
  - intros key raw j Hlk Hj. eapply entries_lookup; try eassumption.
    rewrite sorted_entries_perm. by apply elem_of_map_to_list.
  - intros key Hn. destruct (fold_left insert_member ms ∅ !! key) as [r|] eqn:Hr; [|done]. exfalso.
    apply (entries_keys _ _ _ _ Hms Hval) in Hr. rewrite sorted_entries_perm in Hr.
    apply list_elem_of_fmap_1 in Hr as ([key' r'] & E & Hin%elem_of_map_to_list). simpl in E. congruence.
Qed.

(** A result rewritten with a shorter list of tools. *)
Lemma rewrite_reads k p result toolsRaw elems kept :
  1 <= k -> resp_at k p -> rp_id p <> [] -> default [] elems <> [] ->
  unmarshal dec_raw_map None (rp_result p) = Some (Some result) -> result !! ("tools" : bytes) = Some toolsRaw ->
  unmarshal dec_raws None toolsRaw = Some elems -> kept ⊆ default [] elems ->
  exists nt nr js result', marshal_raws kept = Some nt /\
    marshal_raw_map (<[("tools" : bytes) := nt]> result) = Some nr /\
    (exists v, resp_probe (rebuild p nr) = Some (RespProbe v (rp_id p) nr [])) /\
    (exists ms, rebuild p nr = render (JObj [] ms) /\ good (JObj [] ms) /\ depth (JObj [] ms) + (k - 1) <= max_nesting) /\
    Forall2 (fun el j => el = render j /\ good j) kept js /\
    listed_tools (rebuild p nr) = Some (map (fun j => render (compact (compact j))) js) /\
    unmarshal dec_raw_map None nr = Some (Some result') /\
    forall key, key <> ("tools" : bytes) -> option_Forall2 raw_compact (result !! key) (result' !! key).
Proof.
  intros Hk1 Hp Hne Hnil Hres Htools Hel Hkept.
  destruct Hp as (Hv & Hi & Hrr & He). 
  assert (Hrne : rp_result p <> []) by (intros E0; by rewrite E0 in Hres).
  destruct (raw_within _ _ Hrr Hrne) as (jres & Hwres).
  pose proof (raw_map_within k _ _ _ Hwres Hres) as Hent.
  destruct (Hent _ _ Htools) as (_ & jt & Hwt).
  assert (Hk3 : Forall (fun el => exists j, within (k + 2) el j) kept /\ k + 2 <= max_nesting).
  { destruct (raws_within _ _ _ _ Hwt Hel) as (w & es & [[-> ->]|[-> ->]]); [|done]. split.
    - apply Forall_forall. intros el Hin. replace (k + 2) with (k + 1 + 1) by lia.
      apply (kept_within (k + 1) toolsRaw w es); [done|]. by apply Hkept.
    - destruct Hwt as (_ & _ & Hwt). cbn [depth] in Hwt.
      pose proof (zmax_list_nonneg (map (fun e => depth (snd e)) es)). lia. }
  destruct Hk3 as [Hk3 Hkm].
  destruct (marshal_kept kept (k + 2) Hk3) as (js & Hjs & Hnt & Hwnt); [lia|].
  replace (k + 2 - 1) with (k + 1) in Hwnt by lia.
  set (nt := render (JArr [] (map (fun j => (no_gap, compact j)) js))) in *.
  set (result2 := <[("tools" : bytes) := nt]> result).
  assert (Hent2 : forall key raw, result2 !! key = Some raw -> valid_utf8 key /\ exists j, within (k + 1) raw j).
  { intros key raw [[<- <-]|[_ Hl]]%lookup_insert_Some; [|by apply Hent].
    split; [by vm_compute|]. eexists. exact Hwnt. }
  destruct (map_reads k result2) as (nr & ms & result' & Hnr & Hwnr & Hback & Hread & Hother); [lia|done|].
  exists nt, nr, js, result'. split_and!; try done.
  - eexists. apply (resp_probe_rebuilt k p nr (JObj [] ms)); done || lia.
  - destruct (rebuild_render k p nr (JObj [] ms)) as (jv & ji & -> & _ & _ & Gv & Gi & Dv & Di); [lia|done..|].
    eexists. split; [done|]. apply (rebuilt_good k _ _ _ nr); done || lia.
  - clear -Hjs. induction Hjs as [|el j kept js (-> & Hg & _) _ IH]; by constructor.
  - unfold listed_tools. rewrite (resp_probe_rebuilt k p nr (JObj [] ms)) by (done || lia). cbn [rp_result].
    rewrite Hback.
    assert (Hlook : result' !! ("tools" : bytes)
        = Some (render (compact (JArr [] (map (fun j => (no_gap, compact j)) js))))).
    { apply (Hread _ nt); [by apply lookup_insert_eq|]. apply parse_doc_render, Hwnt. }
    rewrite Hlook. unfold unmarshal. rewrite parse_doc_render by (apply compact_good, Hwnt). simpl.
    by rewrite !map_map.
  - intros key Hk. assert (Hk2 : result2 !! key = result !! key) by (unfold result2; by rewrite lookup_insert_ne).
    destruct (result !! key) as [raw|] eqn:Hlk.
    + destruct (Hent key raw Hlk) as (_ & j & -> & Hg & _).
      rewrite (Hread key (render j) j); [|by rewrite Hk2|by apply parse_doc_render]. constructor.
      by apply raw_compact_render.
    + rewrite (Hother key Hk2). constructor.
Qed.

(** ** What leaves the filter *)

Section outcome.
Context {L : GoLib}.

Definition named_allowed (p : option toolPolicy) (el : bytes) : Prop :=
  exists n, unmarshal_name el = Some n /\ n <> [] /\ allows p n = true.

Lemma named_kept p el : named el = true -> kept_by p el = true -> named_allowed p el.
Proof.
  unfold named, kept_by, named_allowed. destruct (unmarshal_name el) as [[|c t]|]; try done. eauto.
Qed.

(** A message examined as a listing: it answers one of the request's listings
and is not an error. *)
Definition candidate (s : rewriteState) (m : bytes) (p : rpcResponseProbe) : Prop :=
  resp_probe m = Some p /\ rp_id p <> [] /\ st_hasID s (rp_id p) = true /\ error_response p = false.

Definition lock_passes (s : rewriteState) (elems : list bytes) : Prop :=
  forall l, lock s = Some l -> enforce l = true -> verify l elems = [].

Lemma noteOnce_fields r s :
  strict (noteOnce r s) = strict s /\ policy (noteOnce r s) = policy s /\ lock (noteOnce r s) = lock s /\
  filtered (noteOnce r s) = filtered s /\ ids (noteOnce r s) = ids s /\ scanner (noteOnce r s) = scanner s.
Proof. unfold noteOnce. by case_bool_decide. Qed.

Lemma check_lock_spec p elems s :
  match check_lock p elems s with
  | (s1, None) => strict s1 = strict s /\ policy s1 = policy s /\ lock s1 = lock s /\ filtered s1 = filtered s
                  /\ lock_passes s elems
  | (s1, Some o) => verdict o = msgBlock /\ lock_enforces (lock s) = true
  end.
Proof.
  unfold check_lock, lock_passes, lock_enforces. destruct (lock s) as [l|] eqn:El; [|by split_and!].
  case_bool_decide as Hv.
  - split_and!; try done. by intros ? [= <-] _.
  - destruct (noteOnce_fields (verify l elems) (set_drift s)) as (H1 & H2 & H3 & H4 & _).
    destruct (enforce l) eqn:Ee; [by split|]. split_and!; try done; [by rewrite H3|].
    intros ? [= <-]. congruence.
Qed.

(** The listing a candidate carries and what the filter makes of it. *)
Definition filtered_out (s : rewriteState) (elems : list bytes) : list bytes :=
  filter (fun el => kept_by (policy s) el = false) elems.

Definition kept_tools (s : rewriteState) (elems : list bytes) : list bytes :=
  filter (fun el => kept_by (policy s) el = true) elems.

Lemma kept_subset s elems : kept_tools s elems ⊆ elems.
Proof. intros x. unfold kept_tools. rewrite list_elem_of_filter. tauto. Qed.

(** Case analysis of [examineMessage] on a candidate, once for all theorems. *)
Lemma examine_candidate s m p s' o :
  candidate s m p -> examineMessage m s = (s', o) ->
  (listed_tools m = None /\ s' = s /\ (if strict s then verdict o = msgBlock else o = passOutcome)) \/
  exists elems, listed_tools m = Some elems /\
    ((verdict o = msgBlock /\ (lock_enforces (lock s) = true \/ (strict s = true /\ forallb named elems = false))) \/
     (lock_passes s elems /\ (strict s = true -> forallb named elems = true) /\
      ((filtered_out s elems = [] /\ o = passOutcome /\ filtered s' = filtered s) \/
       (filtered_out s elems <> [] /\ verdict o = msgRewrite /\ filtered s' = filtered s + len (filtered_out s elems) /\
        exists v nr js, resp_probe (out o) = Some (RespProbe v (rp_id p) nr []) /\
          (exists ms j, parse_doc m = Some j /\ out o = render (JObj [] ms) /\ good (JObj [] ms) /\
            depth (JObj [] ms) <= depth j) /\
          Forall2 (fun el j => el = render j /\ good j) (kept_tools s elems) js /\
          listed_tools (out o) = Some (map (fun j => render (compact (compact j))) js) /\
          exists result result', unmarshal dec_raw_map None (rp_result p) = Some (Some result) /\
            unmarshal dec_raw_map None nr = Some (Some result') /\
            forall k, k <> ("tools" : bytes) -> option_Forall2 raw_compact (result !! k) (result' !! k))))).
Proof.
  intros (Hp & Hne & Hid & Herr). unfold examineMessage, listed_tools. rewrite Hp, Hid, Herr.
  rewrite bool_decide_eq_false_2 by done. simpl orb. cbn iota.
  destruct (unmarshal dec_raw_map None (rp_result p)) as [[result|]|] eqn:Er.
  2,3: intros H; left; split; [done|]; destruct (strict s); injection H as <- <-; by split.
  destruct (result !! ("tools" : bytes)) as [traw|] eqn:Et.
  2: intros H; left; split; [done|]; destruct (strict s); injection H as <- <-; by split.
  destruct (unmarshal dec_raws None traw) as [elems|] eqn:El.
  2: intros H; left; split; [done|]; destruct (strict s); injection H as <- <-; by split.
  intros H. right. exists (default [] elems). split; [done|].
  pose proof (check_lock_spec p (default [] elems) s) as Hlock.
  destruct (check_lock p (default [] elems) s) as [s1 [o1|]].
  { left. destruct Hlock as [Hv He]. injection H as <- <-. split; [done|by left]. }
  destruct Hlock as (Hs & Hpol & Hl & Hf & Hpass). rewrite keep_tools_spec, Hs, Hpol in H.
  destruct (strict s && negb (forallb named (default [] elems))) eqn:En.
  { left. injection H as <- <-. split; [done|]. right. apply andb_true_iff in En as [? En%negb_true_iff]. done. }
  right. split; [done|]. split.
  { intros Hst. rewrite Hst in En. by apply negb_false_iff in En. }
  fold (filtered_out s (default [] elems)) (kept_tools s (default [] elems)) in H.
  destruct (len (filtered_out s (default [] elems)) =? 0) eqn:E0; zbool.
  { left. injection H as <- <-. split_and!; try done. by destruct (filtered_out s (default [] elems)). }
  right. split; [intros E; by rewrite E in E0|].
  destruct (resp_probe_doc m p Hp) as [jm Hjm]. pose proof (parse_doc_good m jm Hjm) as [_ Hdm].
  destruct (rewrite_reads (max_nesting - depth jm + 1) p result traw elems (kept_tools s (default [] elems)) ltac:(lia) (resp_probe_at m p jm Hp Hjm))
    as (nt & nr & js & result' & Hnt & Hnr & (v & Hv) & (ms & Hms & Hgms & Hdms) & Hjs & Hlist & Hback & Hother);
    [done|by intros E; rewrite E in E0|done|done|done|apply kept_subset|].
  rewrite Hnt, Hnr in H. injection H as <- <-. split; [done|]. split; [by rewrite <- Hf|].
  exists v, nr, js. split_and!; [done|exists ms, jm; split_and!; [done..|lia]|done|by unfold listed_tools in Hlist|]. by exists result, result'.
Qed.

Lemma allowed_of_filter s elems :
  forallb named elems = true -> Forall (named_allowed (policy s)) (kept_tools s elems).
Proof.
  intros Hn. apply Forall_forall. intros el [Hk Hin]%list_elem_of_filter.
  apply forallb_Forall in Hn. rewrite Forall_forall in Hn. by apply named_kept; [apply Hn|].
Qed.

Lemma kept_all s elems : filtered_out s elems = [] -> kept_tools s elems = elems.
Proof.
  unfold filtered_out, kept_tools. induction elems as [|el l IH]; [done|]. rewrite !filter_cons.
  destruct (kept_by (policy s) el); repeat case_decide; try congruence. intros. by rewrite IH.
Qed.

Lemma named_allowed_compact p j : good j -> named_allowed p (render j) -> named_allowed p (render (compact (compact j))).
Proof.
  intros Hg (n & Hn & H). exists n. split; [|done]. by rewrite !same_name by auto using compact_good.
Qed.

End outcome.
