(* ===== verification/FilterSafety.v ===== *)
(** * What response processing guarantees

Theorems about the definitions of [ResponseFilter]: per message first, then
for the JSON bodies that leave the gateway. *)

From S2P Require Export ResponseFilter.
Local Open Scope Z_scope.
Local Open Scope go_scope.

(** ** What a message changes *)

(** The part of the state that no message changes. *)
Definition cfg (s : rewriteState) :=
  (ids s, policy s, lock s, strict s, scanner s, scanIDs s).

(** ** Compaction of messages *)

Definition resp_compact (p p' : rpcResponseProbe) : Prop :=
  raw_compact (rp_jsonrpc p) (rp_jsonrpc p') /\ raw_compact (rp_id p) (rp_id p') /\
  raw_compact (rp_result p) (rp_result p') /\ raw_compact (rp_error p) (rp_error p').

Lemma resp_fields_compact : compact_rel resp_compact (dec_struct resp_fields).
Proof.
  apply dec_struct_rel. unfold resp_fields. repeat apply Forall_cons_2; try apply Forall_nil_2.
  all: intros cur cur' j (H1 & H2 & H3 & H4) Hg; split; [|done]; split_and!; try done;
    by apply raw_compact_render.
Qed.

Lemma listed_compact j l :
  good j -> listed_tools (render j) = Some l ->
  exists l', listed_tools (render (compact j)) = Some l' /\ Forall2 raw_compact l l'.
Proof.
  intros Hg. unfold listed_tools, resp_probe.
  assert (Hz : resp_compact zero_resp zero_resp) by (split_and!; by left).
  pose proof (unmarshal_compact _ _ zero_resp j resp_fields_compact Hz Hg) as H.
  destruct H as [p p' (_ & _ & Hr & _)|]; [|done].
  pose proof (unmarshal_raw_compact _ _ None _ _ dec_raw_map_rel ltac:(constructor) Hr) as H.
  destruct H as [m m' Hm|]; [|done]. destruct Hm as [m m' Hm|]; [|done].
  specialize (Hm "tools"). destruct Hm as [t t' Ht|]; [|done].
  pose proof (unmarshal_raw_compact _ _ None _ _ dec_raws_rel ltac:(constructor) Ht) as H.
  destruct H as [x x' Hx|]; [|done]. intros [= <-]. eexists. split; [done|]. destruct Hx; [done|constructor].
Qed.

(** ** Rewritten listings

[m'] is [m] with the tools the policy hides left out, and everything else as
it was: the id, the other members of the result, and the kept tools in their
order, up to white space and the escapes inside strings. *)
Definition listing_of (m : bytes) : option (rpcResponseProbe * gmap bytes bytes * list bytes) :=
  match resp_probe m with
  | Some p =>
      match unmarshal dec_raw_map None (rp_result p), listed_tools m with
      | Some (Some r), Some l => Some (p, r, l)
      | _, _ => None
      end
  | None => None
  end.

Definition rewritten (pol : option toolPolicy) (m m' : bytes) : Prop :=
  exists p p' r r' l l', listing_of m = Some (p, r, l) /\ listing_of m' = Some (p', r', l') /\
    raw_same (rp_id p) (rp_id p') /\ rp_error p' = [] /\
    Forall2 raw_same (filter (fun el => kept_by pol el = true) l) l' /\
    filter (fun el => kept_by pol el = false) l <> [] /\
    (forall k, k <> ("tools" : bytes) -> option_Forall2 raw_same (r !! k) (r' !! k)).

Lemma raw_compact_nil r r' : raw_compact r r' -> r = [] -> r' = [].
Proof. intros [[_ ->]|(j & Hg & -> & ->)]; [done|]. apply len_render in Hg. by destruct (render j). Qed.

Lemma Forall2_trans {A} (R S T : A -> A -> Prop) l1 l2 l3 :
  (forall x y z, R x y -> S y z -> T x z) -> Forall2 R l1 l2 -> Forall2 S l2 l3 -> Forall2 T l1 l3.
Proof. intros H HR. revert l3. induction HR; intros l3 HS; inversion HS; subst; constructor; eauto. Qed.

Lemma listing_compact j p r l :
  good j -> listing_of (render j) = Some (p, r, l) ->
  exists p' r' l', listing_of (render (compact j)) = Some (p', r', l') /\ resp_compact p p' /\
    map_compact r r' /\ Forall2 raw_compact l l'.
Proof.
  intros Hg. unfold listing_of. destruct (listed_tools (render j)) as [l0|] eqn:El;
    [|by repeat case_match].
  destruct (listed_compact j l0 Hg El) as (l' & El' & Hl). rewrite El'. unfold resp_probe.
  assert (Hz : resp_compact zero_resp zero_resp) by (split_and!; by left).
  pose proof (unmarshal_compact _ _ zero_resp j resp_fields_compact Hz Hg) as H.
  destruct H as [q q' Hq|]; [|done].
  pose proof (unmarshal_raw_compact _ _ None _ _ dec_raw_map_rel ltac:(constructor) (proj1 (proj2 (proj2 Hq)))) as H.
  destruct H as [m m' Hm|]; [|done]. destruct Hm as [m m' Hm|]; [|done].
  intros [= <- <- <-]. by exists q', m', l'.
Qed.

Lemma rewritten_compact pol m j : good j -> rewritten pol m (render j) -> rewritten pol m (render (compact j)).
Proof.
  intros Hg (p & p' & r & r' & l & l' & H1 & H2 & H3 & H4 & H5 & H6 & H7).
  destruct (listing_compact j p' r' l' Hg H2) as (q & rq & lq & Hq & (_ & Hid & _ & He) & Hr & Hl).
  exists p, q, r, rq, l, lq. split_and!; try done.
  - eapply raw_same_trans; [done|]. by apply raw_compact_same.
  - by eapply raw_compact_nil.
  - eapply Forall2_trans; [|exact H5|exact Hl]. intros. eapply raw_same_trans; [done|]. by apply raw_compact_same.
  - intros k Hk. specialize (H7 k Hk). specialize (Hr k). revert H7 Hr.
    intros [x y Hxy|] Hr; inversion Hr; subst; constructor.
    eapply raw_same_trans; [done|]. by apply raw_compact_same.
Qed.

Lemma named_allowed_raw p r r' : raw_compact r r' -> named_allowed p r -> named_allowed p r'.
Proof.
  intros [[-> ->]|(j & Hg & -> & ->)]; [done|]. intros (n & Hn & H). exists n. split; [|done].
  by rewrite same_name.
Qed.

Section messages.
Context {L : GoLib} {E : ScanEnv}.

Lemma noteOnce_cfg r s : cfg (noteOnce r s) = cfg s.
Proof. unfold noteOnce. by case_bool_decide. Qed.

Lemma recordScan_cfg res s : cfg (recordScan res s) = cfg s.
Proof.
  unfold recordScan. destruct (verdictRank (Verdict res) =? 0); [done|].
  set (s1 := if _ <? _ then _ else s). assert (H : cfg s1 = cfg s) by (subst s1; by case_match).
  rewrite <- H. clearbody s1. revert s1 H. induction (Categories res) as [|c l IH]; intros s1 H; [done|]. simpl.
  rewrite IH; case_match; done.
Qed.

Lemma check_lock_cfg p elems s : cfg (fst (check_lock p elems s)) = cfg s.
Proof.
  unfold check_lock. destruct (lock s) as [l|]; [|done]. case_bool_decide; [done|].
  simpl. by rewrite noteOnce_cfg.
Qed.

Lemma examine_cfg m s s' o : examineMessage m s = (s', o) -> cfg s' = cfg s.
Proof.
  unfold examineMessage. intros H. destruct (resp_probe m) as [p|]; [|by simplify_eq].
  repeat case_in H; simplify_eq; try done;
    match goal with Hl : check_lock p ?l s = _ |- _ =>
      pose proof (check_lock_cfg p l s) as Hc; rewrite Hl in Hc; exact Hc end.
Qed.

Lemma scan_cfg sc m s s' o : scanMessage sc m s = (s', o) -> cfg s' = cfg s.
Proof.
  unfold scanMessage. intros H.
  repeat match type of H with context [match ?x with _ => _ end] => destruct x eqn:? end;
    simplify_eq; rewrite ?noteOnce_cfg; try done.
  all: match goal with |- context [recordScan ?r ?x] => transitivity (cfg (recordScan r x)); [done|by rewrite recordScan_cfg] end.
Qed.

Lemma handle_cfg m s s' o : handleMessage m s = (s', o) -> cfg s' = cfg s.
Proof.
  unfold handleMessage. repeat case_match; eauto using examine_cfg, scan_cfg.
Qed.

(** ** Routing by id *)

Lemma find_id k :
  match find_field id_fields k with
  | Some _ => find_field resp_fields k = Some (snd (nth 1 resp_fields ("" : bytes, fun s _ => (s, true))))
  | None => forall d, find_field resp_fields k = Some d -> forall p j, rp_id (fst (d p j)) = rp_id p
  end.
Proof.
  unfold find_field. cbn [find id_fields resp_fields fld fst snd nth].
  repeat case_bool_decide; simplify_eq/=; try done; try congruence;
    repeat (case_bool_decide; simplify_eq/=); try done; try congruence; try (by intros d [= <-]).
  all: match goal with H : fold_name "id" = _, H' : fold_name ?x = _ |- _ =>
    assert (fold_name x = fold_name "id") as Hx by congruence; by vm_compute in Hx end.
Qed.

(** The id read on its own is the id of the message. *)
Lemma id_probe_resp m p : resp_probe m = Some p -> id_probe m = Some (rp_id p).
Proof.
  unfold resp_probe, id_probe, unmarshal. destruct (parse_doc m) as [j|]; [|done].
  destruct j as [| | | | | |w ms]; simpl; try done; [by intros [= <-]|].
  enough (H : forall x y ok, x = rp_id y ->
    let a := fold_left (dec_member id_fields) ms (x, ok) in
    let b := fold_left (dec_member resp_fields) ms (y, ok) in fst a = rp_id (fst b) /\ snd a = snd b).
  { destruct (H [] zero_resp true eq_refl) as [H1 H2].
    destruct (fold_left (dec_member id_fields) _ _) as [x a], (fold_left (dec_member resp_fields) _ _) as [y b].
    simpl in *. subst. destruct b; [|done]. by intros [= ->]. }
  induction ms as [|m' ms IH]; intros x y ok Hxy; [by split|]. cbn [fold_left].
  unfold dec_member at 2 4 6 8. pose proof (find_id (unquote (m_key (fst m')))) as Hf.
  destruct (find_field id_fields _) as [d|] eqn:E1.
  - rewrite Hf. simpl. assert (exists n, (n, d) ∈ id_fields) as [n Hd] by by eapply find_field_In.
    unfold id_fields in Hd. rewrite list_elem_of_singleton in Hd. injection Hd as _ ->. simpl.
    destruct ok; by apply IH.
  - destruct (find_field resp_fields _) as [d|] eqn:E2; [|by apply IH].
    assert (Hok : forall j, snd (d y j) = true).
    { intros j. apply find_field_In in E2 as [n Hd]. unfold resp_fields in Hd.
      rewrite !elem_of_cons, elem_of_nil in Hd. by destruct Hd as [[= _ ->]|[[= _ ->]|[[= _ ->]|[[= _ ->]|[]]]]]. }
    specialize (Hf d eq_refl y (snd m')). specialize (Hok (snd m')). cbn [fst snd].
    destruct (d y (snd m')) as [y' b]. simpl in *. subst. rewrite andb_true_r. by apply IH.
Qed.

Lemma containsString_spec l x : containsString l x = true <-> x ∈ l.
Proof.
  unfold containsString. rewrite existsb_Exists, Exists_exists. setoid_rewrite bool_decide_eq_true. naive_solver.
Qed.

Lemma len_positive {A} (l : list A) : l <> [] -> (0 <? len l) = true.
Proof. by destruct l. Qed.

(** The messages that go to the scanner: results of the request's calls. *)
Definition scanned_id (s : rewriteState) (i : bytes) : Prop :=
  is_Some (scanner s) /\ i <> [] /\ i ∈ scanIDs s.

Lemma handle_examine m p s :
  resp_probe m = Some p -> ~ scanned_id s (rp_id p) -> handleMessage m s = examineMessage m s.
Proof.
  intros Hp Hn. unfold handleMessage. destruct (scanner s) as [sc|] eqn:Es; [|done].
  destruct (0 <? len (scanIDs s)); [|done]. rewrite (id_probe_resp m p Hp).
  destruct ((0 <? len (rp_id p)) && st_hasScanID s (rp_id p)) eqn:Ei; [|done]. zbool.
  destruct Hn. split_and!; [by rewrite Es|intros E0; by rewrite E0 in *|by apply containsString_spec].
Qed.

Lemma handle_scan m p sc s :
  resp_probe m = Some p -> scanner s = Some sc -> scanned_id s (rp_id p) ->
  handleMessage m s = scanMessage sc m s.
Proof.
  intros Hp Hsc (_ & Hne & Hin). unfold handleMessage. rewrite Hsc, (id_probe_resp m p Hp).
  rewrite (len_positive (scanIDs s)) by (intros E0; by rewrite E0, elem_of_nil in Hin).
  rewrite (len_positive (rp_id p)) by done.
  unfold st_hasScanID. by rewrite (proj2 (containsString_spec _ _) Hin).
Qed.

Lemma handle_invalid m s : resp_probe m = None -> handleMessage m s = (s, invalidOutcome).
Proof.
  intros H. unfold handleMessage, scanMessage, examineMessage. rewrite H. by repeat case_match.
Qed.

(** ** The guarantee for one message *)

Definition delivered (m : bytes) (o : msgOutcome) : bytes :=
  match verdict o with msgRewrite => out o | _ => m end.

(** What strict processing promises of a message [m] delivered as [m']: if it
answers one of the request's listings, by an id that is not also that of a
scanned call, the lock accepted the listing the server sent, and every tool of
the delivered one has an allowed name. *)
Definition listing_safe (s : rewriteState) (m m' : bytes) : Prop := forall p,
  candidate s m p -> ~ scanned_id s (rp_id p) -> exists elems0 elems,
    listed_tools m = Some elems0 /\ lock_passes s elems0 /\
    listed_tools m' = Some elems /\ Forall (named_allowed (policy s)) elems.

(** What scanning promises of a delivered message: if it is the result of one
of the request's calls, its strings were scanned, and unless the scanner
failed or only flags, the verdict did not trigger. *)
Definition scan_passed (sc : scannerConfig) (before : list bytes) (content : bytes) : Prop :=
  match Scan before content with
  | Ok res => triggers sc (Verdict res) = false \/ sc_action sc = "flag"
  | Err _ => True
  end.

Definition call_safe (s s' : rewriteState) (m : bytes) : Prop := forall p sc,
  resp_probe m = Some p -> scanner s = Some sc -> scanned_id s (rp_id p) ->
  error_response p = false -> rp_result p <> [] ->
  exists before, before ++ [join [x0a] (scan_strings map_range (rp_result p))] `prefix_of` scanned s' /\
    scan_passed sc before (join [x0a] (scan_strings map_range (rp_result p))).

Lemma strict_listing s s' m p o :
  strict s = true -> candidate s m p -> examineMessage m s = (s', o) -> verdict o <> msgBlock ->
  exists elems0 elems, listed_tools m = Some elems0 /\ lock_passes s elems0 /\
    listed_tools (delivered m o) = Some elems /\ Forall (named_allowed (policy s)) elems.
Proof.
  intros Hst Hc He Hv. unfold delivered.
  destruct (examine_candidate s m p s' o Hc He) as [(_ & _ & H)|(elems & Hl & [[H _]|(Hp & Hn & H)])]; [|done|].
  { by rewrite Hst in H. }
  specialize (Hn Hst). pose proof (allowed_of_filter s elems Hn) as Hall.
  destruct H as [(H0 & -> & _)|(_ & -> & _ & v & nr & js & H1 & _ & H2 & H3 & _)]; simpl.
  - exists elems, elems. split_and!; try done. by rewrite (kept_all s elems H0) in Hall.
  - exists elems, (map (fun j => render (compact (compact j))) js). split_and!; try done.
    clear -H2 Hall. induction H2 as [|el j l js [ -> Hg] _ IH]; [constructor|].
    apply Forall_cons in Hall as [Ha Hall]. constructor; [by apply named_allowed_compact|by apply IH].
Qed.

Lemma recordScan_scanned res s : scanned (recordScan res s) = scanned s.
Proof.
  unfold recordScan. destruct (verdictRank (Verdict res) =? 0); [done|].
  set (s1 := if _ <? _ then _ else s). assert (H : scanned s1 = scanned s) by (subst s1; by case_match).
  rewrite <- H. clearbody s1. revert s1 H. induction (Categories res) as [|c l IH]; intros s1 H; [done|]. simpl.
  rewrite IH; case_match; done.
Qed.

Lemma noteOnce_scanned r s : scanned (noteOnce r s) = scanned s.
Proof. unfold noteOnce. by case_bool_decide. Qed.

Lemma scan_message_safe s s' m sc o :
  scanner s = Some sc -> scanMessage sc m s = (s', o) -> verdict o <> msgBlock ->
  delivered m o = m /\ call_safe s s' m.
Proof.
  intros Hsc H Hv. unfold scanMessage in H. split.
  { unfold delivered. repeat case_in H; simplify_eq; done. }
  intros p sc' Hp [= <-]%(eq_trans (eq_sym Hsc)) _ He Hr. rewrite Hp, He in H.
  rewrite bool_decide_eq_false_2 in H by done.
  set (content := join [x0a] (scan_strings map_range (rp_result p))) in *.
  exists (scanned s). unfold scan_passed. revert H.
  destruct (Scan (scanned s) content) as [res|e].
  - intros H. destruct (triggers sc (Verdict res)) eqn:Et; simpl in H.
    + case_bool_decide as Ha; simplify_eq; try done. simpl. rewrite recordScan_scanned. by split; [|right].
    + simplify_eq. rewrite recordScan_scanned. by split; [|left].
  - intros [= <- <-]. rewrite noteOnce_scanned. case_bool_decide; done.
Qed.

Lemma handle_cases m s :
  (exists p sc, resp_probe m = Some p /\ scanner s = Some sc /\ scanned_id s (rp_id p) /\
    handleMessage m s = scanMessage sc m s) \/
  (handleMessage m s = examineMessage m s /\ forall p, resp_probe m = Some p -> ~ scanned_id s (rp_id p)).
Proof.
  destruct (resp_probe m) as [p|] eqn:Hp.
  - destruct (scanner s) as [sc|] eqn:Hsc.
    + destruct (decide (rp_id p <> [] /\ rp_id p ∈ scanIDs s)) as [[H1 H2]|Hn].
      * left. exists p, sc. assert (Hs : scanned_id s (rp_id p)) by (split_and!; [by rewrite Hsc|done..]).
        split_and!; try done. by eapply handle_scan.
      * right. assert (Hs : ~ scanned_id s (rp_id p)) by (by intros (_ & H)).
        split; [by eapply (handle_examine _ p)|intros ? [= <-]; done].
    + right. assert (Hs : ~ scanned_id s (rp_id p)) by (intros ([? H] & _); congruence).
      split; [by eapply (handle_examine _ p)|intros ? [= <-]; done].
  - right. split; [|done]. rewrite handle_invalid by done. unfold examineMessage. by rewrite Hp.
Qed.

Lemma handle_safe m s s' o :
  handleMessage m s = (s', o) -> verdict o <> msgBlock ->
  (strict s = true -> listing_safe s m (delivered m o)) /\ call_safe s s' m.
Proof.
  intros H Hv. destruct (handle_cases m s) as [(p & sc & Hp & Hsc & Hid & E1)|[E1 Hn]]; rewrite E1 in H.
  - destruct (scan_message_safe s s' m sc o Hsc H Hv) as [_ Hc]. split; [|done].
    intros _ p' (Hp' & _) Hno. rewrite Hp in Hp'. injection Hp' as <-. by destruct Hno.
  - split; [|intros p sc Hp _ Hid; by destruct (Hn p Hp)].
    intros Hst p Hc _. by eapply strict_listing.
Qed.

(** *** Exactness *)

(** A delivered message is the one that came, or it is a rewritten listing. *)
Definition exact (s : rewriteState) (m m' : bytes) : Prop :=
  m' = m \/ same_value m m' \/ ((exists p, candidate s m p) /\ rewritten (policy s) m m').

Lemma examine_not_candidate s m s' o :
  examineMessage m s = (s', o) -> (forall p, ~ candidate s m p) -> verdict o = msgPass.
Proof.
  unfold examineMessage, candidate. destruct (resp_probe m) as [p|]; [|by intros [= _ <-]].
  intros H Hn. specialize (Hn p).
  destruct (bool_decide (rp_id p = []) || negb (st_hasID s (rp_id p))) eqn:E1; [by injection H as _ <-|].
  destruct (error_response p) eqn:E2; [by injection H as _ <-|].
  zbool. rewrite bool_decide_eq_false in *. by destruct Hn.
Qed.

Lemma candidate_dec s m : (exists p, candidate s m p) \/ forall p, ~ candidate s m p.
Proof.
  unfold candidate. destruct (resp_probe m) as [p|]; [|right; by intros ? [? _]].
  destruct (decide (rp_id p <> [] /\ st_hasID s (rp_id p) = true /\ error_response p = false)).
  - left. by exists p.
  - right. intros ? ([= <-] & H). tauto.
Qed.

Lemma handle_exact m s s' o :
  handleMessage m s = (s', o) -> verdict o = msgRewrite ->
  (exists p, candidate s m p) /\ rewritten (policy s) m (out o) /\ exists ms j, parse_doc m = Some j /\
    out o = render (JObj [] ms) /\ good (JObj [] ms) /\ depth (JObj [] ms) <= depth j.
Proof.
  intros H Hv. destruct (handle_cases m s) as [(p & sc & Hp & Hsc & Hid & E1)|[E1 Hn]]; rewrite E1 in H.
  { unfold scanMessage in H. repeat case_in H; simplify_eq; done. }
  destruct (candidate_dec s m) as [[p Hc]|Hnc]; [|by rewrite (examine_not_candidate _ _ _ _ H Hnc) in Hv].
  split; [by exists p|].
  destruct (examine_candidate s m p s' o Hc H) as [(_ & _ & H')|(elems & Hl & [[H' _]|(Hlk & Hn' & H')])].
  { destruct (strict s); [congruence|by subst]. }
  { congruence. }
  destruct H' as [(_ & -> & _)|(Hf & _ & _ & v & nr & js & H1 & Hobj & H2 & H3 & r & r' & Hr & Hr' & Hk)]; [done|].
  split; [|done].
  exists p, (RespProbe v (rp_id p) nr []), r, r', elems, (map (fun j => render (compact (compact j))) js).
  destruct Hc as (Hp & Hne & _). unfold listing_of. rewrite Hp, Hr, Hl, H1, H3. cbn [rp_result]. rewrite Hr'.
  split_and!; try done.
  - cbn [rp_id]. right. apply same_value_refl. destruct (resp_probe_doc m p Hp) as [jm Hjm].
    destruct (resp_probe_at m p jm Hp Hjm) as (_ & [Hid|(j & -> & Hg & _)] & _); [done|]. rewrite parse_doc_render by done. eauto.
  - fold (kept_tools s elems). clear -H2. induction H2 as [|el j l js [ -> Hg] _ IH]; constructor; [|done].
    right. exists j, (compact (compact j)). rewrite !parse_doc_render by auto with golib.
    split_and!; [done..|]. symmetry. apply compact_idem, Hg.
  - intros k Hk'. specialize (Hk k Hk'). destruct Hk; constructor. by apply raw_compact_same.
Qed.

End messages.

(** ** The errors the gateway writes *)

Definition codes : list Z := [-32001; -32002; -32003; -32004; -32005].

Record rpcError := RpcError { err_code : Z; err_message : bytes }.
Record errorMessage := ErrorMessage { em_version : bytes; em_id : bytes; em_error : rpcError }.

Definition rpcError_fields : fields rpcError := [
  fld "code" err_code (fun v e => RpcError v (err_message e)) dec_int;
  fld "message" err_message (fun v e => RpcError (err_code e) v) dec_string ].

(** How a client reads an error response. *)
Definition errorMessage_fields : fields errorMessage := [
  fld "jsonrpc" em_version (fun v e => ErrorMessage v (em_id e) (em_error e)) dec_string;
  fld "id" em_id (fun v e => ErrorMessage (em_version e) v (em_error e)) dec_raw;
  fld "error" em_error (fun v e => ErrorMessage (em_version e) (em_id e) v) (dec_struct rpcError_fields) ].

Definition read_error (b : bytes) : option errorMessage :=
  unmarshal (dec_struct errorMessage_fields) (ErrorMessage [] [] (RpcError 0 [])) b.

Definition error_json (jid : json) (code : Z) (msg : bytes) : json :=
  JObj [] [(MGap [] "jsonrpc" [] [] [], JStr "2.0"); (MGap [] "id" [] [] [], jid);
    (MGap [] "error" [] [] [],
      JObj [] [(MGap [] "code" [] [] [], JNum (itoa code)); (MGap [] "message" [] [] [], JStr (escape_string msg))])].

Lemma jsonrpcError_render id jid code msg :
  id = render jid -> id <> [] -> jsonrpcError id code msg = render (error_json jid code msg).
Proof.
  intros -> Hne. unfold jsonrpcError. rewrite bool_decide_eq_false_2 by done.
  unfold error_json, marshal_string, quoted. cbn [render map join]. unfold render_member, quoted.
  cbn [m_pre m_key m_mid m_sep m_post fst snd render app map join].
  rewrite ?app_nil_r. repeat (simpl; rewrite <- ?app_assoc). done.
Qed.

Lemma code_literal code : code ∈ codes -> num_ok (itoa code) = true /\ int_literal (itoa code) = Some code.
Proof.
  unfold codes. rewrite !elem_of_cons, elem_of_nil. by intros [->|[->|[->|[->|[->|[]]]]]]; vm_compute.
Qed.

Lemma error_json_good jid code msg :
  code ∈ codes -> good jid -> depth jid + 1 <= max_nesting -> good (error_json jid code msg).
Proof.
  intros [Hn _]%code_literal [Hg _] Hd. split.
  - unfold error_json. simpl. by rewrite Hg, Hn, escape_string_ok.
  - unfold error_json. cbn [depth map zmax_list fold_right snd]. unfold max_nesting in *. lia.
Qed.

(** C38. Whatever a tool name, a header or a scanner's verdict holds, the
error the gateway writes is one JSON-RPC error response: a client reads back
the id, the code, and the text, in which only ill-formed UTF-8 is replaced. *)
Theorem error_wellformed (id : bytes) (code : Z) (msg : bytes) :
  code ∈ codes -> raw_at 1 id ->
  read_error (jsonrpcError id code msg)
  = Some (ErrorMessage "2.0" (if bool_decide (id = []) then "null" else id) (RpcError code (sanitize msg))).
Proof.
  intros Hc Hid.
  assert (H : exists jid, (if bool_decide (id = []) then "null"%go else id) = render jid /\ good jid /\
    depth jid + 1 <= max_nesting /\ jsonrpcError id code msg = render (error_json jid code msg)).
  { destruct Hid as [->|(jid & Hr & Hg & Hd)].
    - exists JNull. split_and!; [done|done|done|]. by apply (jsonrpcError_render "null").
    - pose proof (len_render jid Hg) as Hl. rewrite <- Hr in Hl.
      assert (Hne : id <> []) by (intros ->; done). rewrite bool_decide_eq_false_2 by done.
      exists jid. split_and!; try done. by apply jsonrpcError_render. }
  destruct H as (jid & -> & Hg & Hd & ->). unfold read_error, unmarshal.
  rewrite parse_doc_render by by apply error_json_good.
  unfold error_json. cbn [dec_struct fold_left].
  unfold dec_member at 3. cbn [fst snd m_key].
  change (find_field errorMessage_fields (unquote "jsonrpc")) with (Some (snd (nth 0 errorMessage_fields ("" : bytes, fun s _ => (s, true))))).
  unfold dec_member at 2. cbn [fst snd m_key].
  change (find_field errorMessage_fields (unquote "id")) with (Some (snd (nth 1 errorMessage_fields ("" : bytes, fun s _ => (s, true))))).
  unfold dec_member at 1. cbn [fst snd m_key].
  change (find_field errorMessage_fields (unquote "error")) with (Some (snd (nth 2 errorMessage_fields ("" : bytes, fun s _ => (s, true))))).
  cbn [nth errorMessage_fields fld snd fst em_version em_id em_error dec_struct fold_left andb].
  unfold dec_member. cbn [fst snd m_key].
  change (find_field rpcError_fields (unquote "code")) with (Some (snd (nth 0 rpcError_fields ("" : bytes, fun s _ => (s, true))))).
  change (find_field rpcError_fields (unquote "message")) with (Some (snd (nth 1 rpcError_fields ("" : bytes, fun s _ => (s, true))))).
  cbn [nth rpcError_fields fld snd fst err_code err_message dec_int]. rewrite (proj2 (code_literal code Hc)).
  cbn [snd fst dec_string andb dec_raw]. by rewrite unquote_escape.
Qed.

(** ** The audited verdict *)

Definition rank (r : scanResult) : Z := verdictRank (Verdict r).

Definition record_all (rs : list scanResult) (s : rewriteState) : rewriteState :=
  fold_left (fun s r => recordScan r s) rs s.

Definition category_add (s : rewriteState) (c : bytes) : rewriteState :=
  if containsString (scanCategories s) c then s else set_categories (scanCategories s ++ [c]) s.

Lemma category_adds l s :
  let s' := fold_left category_add l s in
  scanVerdict s' = scanVerdict s /\ scanScore s' = scanScore s /\
  (NoDup (scanCategories s) -> NoDup (scanCategories s')) /\
  (forall c, c ∈ scanCategories s' <-> c ∈ scanCategories s \/ c ∈ l).
Proof.
  revert s. induction l as [|c l IH]; intros s; simpl.
  { split_and!; try done. intros c. rewrite elem_of_nil. tauto. }
  destruct (IH (category_add s c)) as (H1 & H2 & H3 & H4). rewrite H1, H2. unfold category_add in *.
  destruct (containsString (scanCategories s) c) eqn:Ec.
  - apply containsString_spec in Ec. split_and!; try done. intros c'. rewrite H4, elem_of_cons. naive_solver.
  - assert (Hn : c ∉ scanCategories s) by (rewrite <- containsString_spec, Ec; done).
    split_and!; try done.
    + intros Hnd. apply H3. simpl. apply NoDup_app. split_and!; [done| |apply NoDup_singleton].
      intros x Hx ->%list_elem_of_singleton. done.
    + intros c'. rewrite H4. simpl. rewrite elem_of_app, list_elem_of_singleton, elem_of_cons. naive_solver.
Qed.

Lemma recordScan_fold res s :
  recordScan res s = if rank res =? 0 then s else
    fold_left category_add (Categories res)
      (if verdictRank (scanVerdict s) <? rank res then set_verdict (Verdict res) (Score res) s else s).
Proof. done. Qed.

Lemma verdictRank_nonneg v : 0 <= verdictRank v.
Proof. unfold verdictRank. repeat case_bool_decide; lia. Qed.

(** The worst of the results so far, the first of equals. *)
Definition worst (rs : list scanResult) (v : bytes) (score : Z) : Prop :=
  (Forall (fun r => rank r = 0) rs /\ v = [] /\ score = 0) \/
  exists rs1 r rs2, rs = rs1 ++ r :: rs2 /\ v = Verdict r /\ score = Score r /\ 0 < rank r /\
    Forall (fun r' => rank r' < rank r) rs1 /\ Forall (fun r' => rank r' <= rank r) rs2.

Lemma worst_rank rs v n : worst rs v n -> Forall (fun r => rank r <= verdictRank v) rs.
Proof.
  intros [(H & -> & _)|(rs1 & r & rs2 & -> & -> & _ & _ & H1 & H2)].
  - eapply Forall_impl; [exact H|]. simpl. intros r ->. done.
  - apply Forall_app. split; [eapply Forall_impl; [exact H1|]; simpl; intros; unfold rank in *; lia|].
    constructor; [done|exact H2].
Qed.

Lemma worst_snoc rs v n r :
  worst rs v n ->
  worst (rs ++ [r]) (if verdictRank v <? rank r then Verdict r else v) (if verdictRank v <? rank r then Score r else n).
Proof.
  intros H. pose proof (worst_rank rs v n H) as Hr. destruct (verdictRank v <? rank r) eqn:Ev; zbool.
  - right. exists rs, r, []. split_and!; try done.
    + pose proof (verdictRank_nonneg v). lia.
    + eapply Forall_impl; [exact Hr|]. simpl. lia.
  - destruct H as [(H & -> & ->)|(rs1 & r0 & rs2 & -> & -> & -> & H0 & H1 & H2)].
    + left. split_and!; try done. apply Forall_app. split; [done|]. constructor; [|done].
      pose proof (verdictRank_nonneg (Verdict r)). unfold rank in *. change (verdictRank []) with 0 in Ev. lia.
    + right. exists rs1, r0, (rs2 ++ [r]). rewrite <- app_assoc. split_and!; try done.
      apply Forall_app. split; [done|]. by constructor.
Qed.

(** The audit entry carries the worst verdict among the scanned results
with the score of the first result that has it, and the categories of all
results that are not clean, each once; clean results leave no trace. *)
Lemma recordScan_worst (rs : list scanResult) (s : rewriteState) :
  scanVerdict s = [] -> scanScore s = 0 -> scanCategories s = [] ->
  let s' := record_all rs s in
  worst rs (scanVerdict s') (scanScore s') /\ NoDup (scanCategories s') /\
  forall c, c ∈ scanCategories s' <-> exists r, r ∈ rs /\ 0 < rank r /\ c ∈ Categories r.
Proof.
  intros Hv Hn Hc s'. subst s'. induction rs as [|r rs IH] using rev_ind.
  - simpl. rewrite Hv, Hn, Hc. split_and!; [by left|constructor|]. intros c. split; [by intros ?%elem_of_nil|].
    intros (r & ?%elem_of_nil & _). done.
  - unfold record_all in *. rewrite fold_left_app. cbn [fold_left].
    set (s1 := fold_left (fun s r => recordScan r s) rs s) in *. destruct IH as (Hw & Hnd & Hcat).
    pose proof (worst_snoc _ _ _ r Hw) as Hw'. rewrite recordScan_fold.
    assert (Hin : forall c, (exists r', r' ∈ rs ++ [r] /\ 0 < rank r' /\ c ∈ Categories r')
      <-> (exists r', r' ∈ rs /\ 0 < rank r' /\ c ∈ Categories r') \/ (0 < rank r /\ c ∈ Categories r)).
    { intros c. setoid_rewrite elem_of_app. setoid_rewrite list_elem_of_singleton. naive_solver. }
    destruct (rank r =? 0) eqn:Er; zbool.
    + assert ((verdictRank (scanVerdict s1) <? rank r) = false) as E1.
      { apply Z.ltb_ge. pose proof (verdictRank_nonneg (scanVerdict s1)). lia. }
      rewrite E1 in Hw'. split_and!; [done|done|]. intros c. rewrite (Hin c), Hcat.
      split; [by left|]. intros [?|[? _]]; [done|lia].
    + set (s2 := if _ <? _ then _ else s1).
      assert (H2 : scanVerdict s2 = (if verdictRank (scanVerdict s1) <? rank r then Verdict r else scanVerdict s1)
        /\ scanScore s2 = (if verdictRank (scanVerdict s1) <? rank r then Score r else scanScore s1)
        /\ scanCategories s2 = scanCategories s1) by (subst s2; by case_match).
      destruct H2 as (E1 & E2 & E3). destruct (category_adds (Categories r) s2) as (G1 & G2 & G3 & G4).
      rewrite G1, G2, E1, E2. split_and!; [done|apply G3; by rewrite E3|]. intros c.
      rewrite G4, E3, Hcat, (Hin c). pose proof (verdictRank_nonneg (Verdict r)).
      unfold rank in *. split; (intros [?|H0]; [by left|right]); [split; [lia|done]|tauto].
Qed.

(** *** Concrete instances *)

Lemma error_wellformed_witness :
  -32003 ∈ codes /\
  read_error (jsonrpcError "'a'"%js (-32003) "no <x>") = Some (ErrorMessage "2.0" "'a'"%js (RpcError (-32003) "no <x>")).
Proof.
  split; [unfold codes; set_solver|].
  assert (Hc : -32003 ∈ codes) by (unfold codes; set_solver).
  assert (Hr : raw_at 1 "'a'"%js) by (right; exists (JStr "a"); vm_compute; by split_and!).
  exact (error_wellformed "'a'"%js (-32003) "no <x>" Hc Hr).
Defined.

Definition idle_state : rewriteState :=
  MkState [] None None false 0 false [] None [] [] 0 [] false false [] [].

Definition mild : scanResult := MkScanResult "suspicious" 5 ["url" : bytes].
Definition grave : scanResult := MkScanResult "dangerous" 9 ["exfil" : bytes; "url" : bytes].

Lemma recordScan_worst_witness :
  scanVerdict (record_all [mild; grave; mild] idle_state) = "dangerous" /\
  worst [mild; grave; mild] (scanVerdict (record_all [mild; grave; mild] idle_state))
    (scanScore (record_all [mild; grave; mild] idle_state)).
Proof. split; [reflexivity|]. apply (recordScan_worst [mild; grave; mild] idle_state); reflexivity. Defined.
