(* ===== verification/SseRewrite.v ===== *)
(** * Event streams (gateway/sserewrite.go)

The rewriter of event-stream bodies: a machine that is fed the chunks of the
upstream's stream and hands complete events to a message handler. *)

From S2P Require Export FilterSafety.
Local Open Scope Z_scope.
Local Open Scope go_scope.

(** ** The message handler

What the rewriter uses of the request's [rewriteState]. *)
Class MessageHandler (St : Type) := {
  handle : bytes -> St -> St * msgOutcome;
  handler_strict : St -> bool;
  handler_code : St -> Z;
  handler_note : bytes -> St -> St
}.

#[export] Instance filter_handler {L : GoLib} {E : ScanEnv} : MessageHandler rewriteState := {|
  handle := handleMessage;
  handler_strict := strict;
  handler_code := strictCode;
  handler_note := noteOnce
|}.

(** What a read of the source can end with. *)
Inductive read_error := EOF | ReadErr (e : goerror).

(** ** The machine

[srcs] is what the reads of [src] still return.  The cap on the size of an
event is a parameter; the gateway uses [maxRPCPeek]. *)
Record sseRewriter (St : Type) := MkRewriter {
  st : St;
  w_out : bytes;
  line : bytes;
  evLines : list bytes;
  evIsData : list bool;
  evData : list bytes;
  evSize : Z;
  raw : bool;
  discard : bool;
  bstate : Z;
  srcs : list (bytes * option read_error);
  srcErr : option read_error;
  srcDone : bool
}.
#[global] Arguments MkRewriter {St}.
#[global] Arguments st {St}.
#[global] Arguments w_out {St}.
#[global] Arguments line {St}.
#[global] Arguments evLines {St}.
#[global] Arguments evIsData {St}.
#[global] Arguments evData {St}.
#[global] Arguments evSize {St}.
#[global] Arguments raw {St}.
#[global] Arguments discard {St}.
#[global] Arguments bstate {St}.
#[global] Arguments srcs {St}.
#[global] Arguments srcErr {St}.
#[global] Arguments srcDone {St}.

(** [trimEOL]: one newline at the end and one carriage return before it. *)
Definition trimEOL (l : bytes) : bytes := trim_suffix (trim_suffix l [x0a]) [x0d].

Section machine.
Context {St : Type} {H : MessageHandler St} (cap : Z).

Implicit Types r : sseRewriter St.

Definition newSSERewriter (src : list (bytes * option read_error)) (s : St) : sseRewriter St :=
  MkRewriter s [] [] [] [] [] 0 false false 0 src None false.

Definition write (b : bytes) r : sseRewriter St :=
  MkRewriter (st r) (w_out r ++ b) (line r) (evLines r) (evIsData r) (evData r) (evSize r) (raw r) (discard r)
    (bstate r) (srcs r) (srcErr r) (srcDone r).
Definition set_st (s : St) r : sseRewriter St :=
  MkRewriter s (w_out r) (line r) (evLines r) (evIsData r) (evData r) (evSize r) (raw r) (discard r)
    (bstate r) (srcs r) (srcErr r) (srcDone r).
Definition set_line (l : bytes) r : sseRewriter St :=
  MkRewriter (st r) (w_out r) l (evLines r) (evIsData r) (evData r) (evSize r) (raw r) (discard r)
    (bstate r) (srcs r) (srcErr r) (srcDone r).
Definition set_mode (rw d : bool) (b : Z) r : sseRewriter St :=
  MkRewriter (st r) (w_out r) (line r) (evLines r) (evIsData r) (evData r) (evSize r) rw d b
    (srcs r) (srcErr r) (srcDone r).
Definition set_event (ls : list bytes) (ds : list bool) (d : list bytes) (n : Z) r : sseRewriter St :=
  MkRewriter (st r) (w_out r) (line r) ls ds d n (raw r) (discard r) (bstate r) (srcs r) (srcErr r) (srcDone r).
Definition set_src (l : list (bytes * option read_error)) r : sseRewriter St :=
  MkRewriter (st r) (w_out r) (line r) (evLines r) (evIsData r) (evData r) (evSize r) (raw r) (discard r)
    (bstate r) l (srcErr r) (srcDone r).
Definition set_done (e : option read_error) r : sseRewriter St :=
  MkRewriter (st r) (w_out r) (line r) (evLines r) (evIsData r) (evData r) (evSize r) (raw r) (discard r)
    (bstate r) (srcs r) e true.
Definition set_out (o : bytes) r : sseRewriter St :=
  MkRewriter (st r) o (line r) (evLines r) (evIsData r) (evData r) (evSize r) (raw r) (discard r)
    (bstate r) (srcs r) (srcErr r) (srcDone r).

Definition resetEvent r : sseRewriter St := set_event [] [] [] 0 r.

Definition cap_reason : bytes := "tools/list SSE event exceeded the processing cap".

Definition emitCapError r : sseRewriter St :=
  let r := set_st (handler_note cap_reason (st r)) r in
  write ("data: " ++ jsonrpcError [] (handler_code (st r)) cap_reason ++ [x0a; x0a]) r.

Definition write_all (ls : list bytes) r : sseRewriter St := fold_left (fun r l => write l r) ls r.

Definition overflowPartial r : sseRewriter St :=
  let pending := line r in
  let r := set_line [] r in
  let r := if handler_strict (st r) then set_mode (raw r) true 0 (emitCapError r)
           else set_mode true (discard r) 0 (write pending (write_all (evLines r) r)) in
  resetEvent r.

Definition overflowLine (l : bytes) r : sseRewriter St :=
  let r := if handler_strict (st r) then set_mode (raw r) true 1 (emitCapError r)
           else set_mode true (discard r) 1 (write l (write_all (evLines r) r)) in
  resetEvent r.

(** The lines of the current event that are not data lines. *)
Fixpoint write_other (ls : list bytes) (ds : list bool) r : sseRewriter St :=
  match ls, ds with
  | l :: ls, d :: ds => write_other ls ds (if d then r else write l r)
  | _, _ => r
  end.

Definition emitReplaced (payload blank : bytes) r : sseRewriter St :=
  write blank (write [x0a] (write payload (write "data: " (write_other (evLines r) (evIsData r) r)))).

Definition finishEvent (blank : bytes) r : sseRewriter St :=
  if bool_decide (evData r = []) then resetEvent (write blank (write_all (evLines r) r))
  else
    let data := join [x0a] (evData r) in
    let '(s, o) := handle data (st r) in
    let r := set_st s r in
    let r := match verdict o with
             | msgRewrite => emitReplaced (out o) blank r
             | msgBlock =>
                 let r := set_st (handler_note (reason o) (st r)) r in
                 emitReplaced (jsonrpcError (oid o) (code o) (reason o)) blank r
             | msgPass => write blank (write_all (evLines r) r)
             end in
    resetEvent r.

Definition data_prefix : bytes := "data:".

Definition data_value (stripped : bytes) : bytes :=
  match drop 5 stripped with c :: t => if Byte.eqb c x20 then t else c :: t | [] => [] end.

Definition completeLine (l : bytes) r : sseRewriter St :=
  let stripped := trimEOL l in
  if len stripped =? 0 then finishEvent l r
  else
    let n := evSize r + len l in
    if cap <? n then overflowLine l (set_event (evLines r) (evIsData r) (evData r) n r)
    else
      let isData := has_prefix stripped data_prefix in
      set_event (evLines r ++ [l]) (evIsData r ++ [isData])
        (if isData then evData r ++ [data_value stripped] else evData r) n r.

(** The loop of [scanBoundary]: the position after the boundary, if there is
one, and the state of the detector otherwise. *)
Fixpoint find_boundary (b : bytes) (bs : Z) : option nat * Z :=
  match b with
  | [] => (None, bs)
  | c :: t =>
      let nl := Byte.eqb c x0a in
      let next bs' := match find_boundary t bs' with (Some n, x) => (Some (S n), x) | (None, x) => (None, x) end in
      if bs =? 0 then next (if nl then 1 else 0)
      else if bs =? 1 then
        if nl then (Some 1%nat, 0) else next (if Byte.eqb c x0d then 2 else 0)
      else if nl then (Some 1%nat, 0) else next 0
  end.

Definition scanBoundary (b : bytes) r : bytes * sseRewriter St :=
  match find_boundary b (bstate r) with
  | (Some n, _) =>
      let r := if raw r then write (take n b) r else r in
      (drop n b, set_mode false false 0 r)
  | (None, bs) =>
      let r := set_mode (raw r) (discard r) bs r in
      ([], if raw r then write b r else r)
  end.

Fixpoint ingest_loop (fuel : nat) (b : bytes) r : sseRewriter St :=
  match fuel with
  | O => r
  | S fuel =>
      match b with
      | [] => r
      | _ :: _ =>
          if raw r || discard r then let '(b, r) := scanBoundary b r in ingest_loop fuel b r
          else
            match split_byte x0a b with
            | None =>
                let r := set_line (line r ++ b) r in
                if cap <? len (line r) + evSize r then overflowPartial r else r
            | Some (l, b) =>
                let l := line r ++ l ++ [x0a] in
                ingest_loop fuel b (completeLine l (set_line [] r))
            end
      end
  end.

(** Every round consumes at least one byte. *)
Definition ingest (b : bytes) r : sseRewriter St := ingest_loop (length b) b r.

Definition finish r : sseRewriter St :=
  if raw r || discard r then r
  else resetEvent (set_line [] (write (line r) (write_all (evLines r) r))).

(** [Read] into a buffer of [n] bytes.  A source that has nothing more to
return is at its end. *)
Fixpoint read_loop (l : list (bytes * option read_error)) r : sseRewriter St :=
  if bool_decide (w_out r = []) && negb (srcDone r) then
    match l with
    | [] => finish (set_done (Some EOF) (set_src [] r))
    | (b, err) :: l =>
        let r := ingest b (set_src l r) in
        match err with
        | None => read_loop l r
        | Some e => finish (set_done (Some e) r)
        end
    end
  else r.

Definition Read (n : nat) r : (bytes * option read_error) * sseRewriter St :=
  let r := read_loop (srcs r) r in
  if bool_decide (w_out r = []) then (([], srcErr r), r)
  else ((take n (w_out r), None), set_out (drop n (w_out r)) r).

End machine.

(** ** The stream, line by line

What the machine computes, said without chunks, boundary detectors and
parallel buffers: lines are collected until a blank one ends the event; an
event that grows beyond the cap is passed on or dropped up to its end. *)

(** The complete lines of a text, terminators included, and the rest. *)
Fixpoint lines_from (p : bytes) (x : bytes) : list bytes * bytes :=
  match x with
  | [] => ([], p)
  | c :: t =>
      if Byte.eqb c x0a then let '(ls, q) := lines_from [] t in ((p ++ [c]) :: ls, q)
      else lines_from (p ++ [c]) t
  end.

Definition lines_of (x : bytes) : list bytes * bytes := lines_from [] x.

Definition blank (l : bytes) : bool := len (trimEOL l) =? 0.
Definition is_data (l : bytes) : bool := has_prefix (trimEOL l) data_prefix.
Definition data_of (l : bytes) : option bytes := if is_data l then Some (data_value (trimEOL l)) else None.
Definition size_of (ls : list bytes) : Z := fold_left (fun n l => n + len l) ls 0.

Inductive mode := Collecting (ls : list bytes) | Passing | Dropping.

Section spec.
Context {St : Type} {H : MessageHandler St} (cap : Z).

Definition spec_state : Type := (mode * St) * bytes.

(** The lines of an event with its data lines replaced. *)
Definition replaced (ls : list bytes) (payload l : bytes) : bytes :=
  concat (filter (fun l => is_data l = false) ls) ++ "data: " ++ payload ++ x0a :: l.

Definition spec_event (ls : list bytes) (l : bytes) (s : St) : St * bytes :=
  match omap data_of ls with
  | [] => (s, concat ls ++ l)
  | ds =>
      let '(s, o) := handle (join [x0a] ds) s in
      match verdict o with
      | msgRewrite => (s, replaced ls (out o) l)
      | msgBlock => (handler_note (reason o) s, replaced ls (jsonrpcError (oid o) (code o) (reason o)) l)
      | msgPass => (s, concat ls ++ l)
      end
  end.

Definition cap_error (s : St) : bytes := "data: " ++ jsonrpcError [] (handler_code s) cap_reason ++ [x0a; x0a].

(** An event too large to inspect; [tail] is what has arrived of its last line. *)
Definition spec_overflow (ls : list bytes) (tail : bytes) (s : St) : (mode * St) * bytes :=
  if handler_strict s then let s := handler_note cap_reason s in ((Dropping, s), cap_error s)
  else ((Passing, s), concat ls ++ tail).

Definition spec_line (m : mode * St) (l : bytes) : (mode * St) * bytes :=
  let '(m, s) := m in
  match m with
  | Collecting ls =>
      if blank l then let '(s, o) := spec_event ls l s in ((Collecting [], s), o)
      else if cap <? size_of ls + len l then spec_overflow ls l s
      else ((Collecting (ls ++ [l]), s), [])
  | Passing => ((if blank l then Collecting [] else Passing, s), l)
  | Dropping => ((if blank l then Collecting [] else Dropping, s), [])
  end.

Definition spec_step (x : spec_state) (l : bytes) : spec_state :=
  let '(m, o) := spec_line (fst x) l in (m, snd x ++ o).

Definition spec_run (ls : list bytes) (s : St) : spec_state := fold_left spec_step ls ((Collecting [], s), []).

(** The state once part of a line has arrived as well. *)
Definition spec_partial (x : spec_state) (p : bytes) : spec_state :=
  let '(m, s) := fst x in
  match m with
  | Collecting ls =>
      if cap <? size_of ls + len p then let '(m, o) := spec_overflow ls p s in (m, snd x ++ o) else x
  | Passing => (fst x, snd x ++ p)
  | Dropping => x
  end.

Definition spec_view (x : bytes) (s : St) : spec_state :=
  let '(ls, p) := lines_of x in spec_partial (spec_run ls s) p.

(** All that leaves when the stream ends after [x]: what is pending is passed
on as it is. *)
Definition spec_output (x : bytes) (s : St) : bytes :=
  let '(ls, p) := lines_of x in
  match spec_view x s with
  | ((Collecting ls, _), o) => o ++ concat ls ++ p
  | (_, o) => o
  end.

Definition spec_final (x : bytes) (s : St) : St := snd (fst (spec_view x s)).

(** The one place where chunks show: the event so far fills the cap exactly,
and the blank line that ends it has been cut between its carriage return and
its newline. *)
Definition tight (x : bytes) (s : St) : Prop :=
  exists ls s', lines_of x = (fst (lines_of x), [x0d]) /\
    fst (spec_run (fst (lines_of x)) s) = (Collecting ls, s') /\ size_of ls = cap.

End spec.

(** ** Lines *)

Lemma blank_line p : blank (p ++ [x0a]) = bool_decide (p = [] \/ p = [x0d]).
Proof.
  unfold blank, trimEOL. rewrite trim_suffix_app. unfold trim_suffix.
  destruct (has_suffix p [x0d]) eqn:Eh.
  - apply has_suffix_spec in Eh as [q ->]. rewrite length_app. simpl.
    rewrite take_app_le by lia. replace (length q + 1 - 1)%nat with (length q) by lia. rewrite take_ge by lia.
    destruct q as [|c q]; [done|]. rewrite bool_decide_eq_false_2; [done|].
    intros [?|H%(f_equal length)]; [done|]. simpl in H. rewrite length_app in H. simpl in H. lia.
  - destruct p as [|c p]; [done|]. rewrite bool_decide_eq_false_2; [done|].
    intros [?|E]; [done|]. rewrite E in Eh. done.
Qed.

Lemma lines_from_app p x y :
  lines_from p (x ++ y) =
  (fst (lines_from p x) ++ fst (lines_from (snd (lines_from p x)) y), snd (lines_from (snd (lines_from p x)) y)).
Proof.
  revert p. induction x as [|c x IH]; intros p; simpl.
  { by destruct (lines_from p y). }
  destruct (Byte.eqb c x0a); [|by rewrite IH]. rewrite IH. by destruct (lines_from [] x).
Qed.

Lemma lines_of_app x y :
  lines_of (x ++ y) =
  (fst (lines_of x) ++ fst (lines_from (snd (lines_of x)) y), snd (lines_from (snd (lines_of x)) y)).
Proof. apply lines_from_app. Qed.

Lemma lines_from_split p l t :
  x0a ∉ l -> lines_from p (l ++ x0a :: t) = ((p ++ l ++ [x0a]) :: fst (lines_of t), snd (lines_of t)).
Proof.
  revert p. induction l as [|c l IH]; intros p H; simpl in *.
  { change (Byte.eqb x0a x0a) with true. unfold lines_of. by destruct (lines_from [] t). }
  apply not_elem_of_cons in H as [Hc H]. rewrite (proj2 (byte_eqb_neq c x0a)) by congruence.
  rewrite IH by done. by rewrite <- app_assoc.
Qed.

Lemma lines_from_none p l : x0a ∉ l -> lines_from p l = ([], p ++ l).
Proof.
  revert p. induction l as [|c l IH]; intros p H; simpl in *; [by rewrite app_nil_r|].
  apply not_elem_of_cons in H as [Hc H]. rewrite (proj2 (byte_eqb_neq c x0a)) by congruence.
  rewrite IH by done. by rewrite <- app_assoc.
Qed.

Lemma size_fold (ls : list bytes) n : fold_left (fun n l => n + len l) ls n = n + size_of ls.
Proof.
  unfold size_of. revert n. induction ls as [|x ls IH]; intros n; cbn [fold_left]; [lia|].
  rewrite (IH (n + len x)), (IH (0 + len x)). lia.
Qed.

Lemma size_of_snoc ls l : size_of (ls ++ [l]) = size_of ls + len l.
Proof. unfold size_of. by rewrite fold_left_app. Qed.

Lemma concat_snoc {A} (ls : list (list A)) l : concat (ls ++ [l]) = concat ls ++ l.
Proof. rewrite concat_app. simpl. by rewrite app_nil_r. Qed.

(** ** The machine computes the specification *)

Section refinement.
Context {St : Type} {H : MessageHandler St} (cap : Z).

Implicit Types r : sseRewriter St.

(** Where the boundary detector stands after part of a line. *)
Definition boundary_state (p : bytes) : Z :=
  if bool_decide (p = []) then 1 else if bool_decide (p = [x0d]) then 2 else 0.

Definition event_is (ls : list bytes) r : Prop :=
  evLines r = ls /\ evIsData r = map is_data ls /\ evData r = omap data_of ls /\ evSize r = size_of ls.

(** The machine in the state the specification has: [d] has been read off its
output before. *)
Definition follows (d : bytes) (x : spec_state (St := St)) (p : bytes) r : Prop :=
  st r = snd (fst x) /\ d ++ w_out r = snd x /\
  match fst (fst x) with
  | Collecting ls => raw r = false /\ discard r = false /\ line r = p /\ event_is ls r /\ size_of ls + len p <= cap
  | Passing => raw r = true /\ discard r = false /\ line r = [] /\ event_is [] r /\ bstate r = boundary_state p
  | Dropping => raw r = false /\ discard r = true /\ line r = [] /\ event_is [] r /\ bstate r = boundary_state p
  end.

Lemma write_all_fields ls r :
  let r' := write_all ls r in
  w_out r' = w_out r ++ concat ls /\ st r' = st r /\ raw r' = raw r /\ discard r' = discard r /\ line r' = line r
  /\ bstate r' = bstate r /\ srcs r' = srcs r /\ srcErr r' = srcErr r /\ srcDone r' = srcDone r.
Proof.
  unfold write_all. revert r. induction ls as [|l ls IH]; intros r; simpl; [by rewrite app_nil_r|].
  destruct (IH (write l r)) as (-> & -> & -> & -> & -> & -> & -> & -> & ->). simpl. by rewrite <- app_assoc.
Qed.

Lemma write_other_fields ls r :
  let r' := write_other ls (map is_data ls) r in
  w_out r' = w_out r ++ concat (filter (fun l => is_data l = false) ls) /\ st r' = st r /\ raw r' = raw r
  /\ discard r' = discard r /\ line r' = line r /\ bstate r' = bstate r
  /\ srcs r' = srcs r /\ srcErr r' = srcErr r /\ srcDone r' = srcDone r.
Proof.
  revert r. induction ls as [|l ls IH]; intros r; cbn [map write_other]; [by rewrite app_nil_r|].
  rewrite filter_cons. destruct (is_data l) eqn:El.
  - rewrite decide_False by done. apply IH.
  - rewrite decide_True by done.
    destruct (IH (write l r)) as (-> & -> & -> & -> & -> & -> & -> & -> & ->). simpl. by rewrite <- app_assoc.
Qed.

(** The source and its end are not touched by processing. *)
Definition same_source r r' : Prop := srcs r' = srcs r /\ srcErr r' = srcErr r /\ srcDone r' = srcDone r.

Lemma same_source_trans r1 r2 r3 : same_source r1 r2 -> same_source r2 r3 -> same_source r1 r3.
Proof. unfold same_source. intuition congruence. Qed.

Lemma emit_fields payload l ls r :
  evLines r = ls -> evIsData r = map is_data ls ->
  let r' := emitReplaced payload l r in
  w_out r' = w_out r ++ replaced ls payload l /\ st r' = st r /\ raw r' = raw r
  /\ discard r' = discard r /\ line r' = line r /\ bstate r' = bstate r
  /\ srcs r' = srcs r /\ srcErr r' = srcErr r /\ srcDone r' = srcDone r.
Proof.
  intros <- E. unfold emitReplaced. rewrite E.
  destruct (write_other_fields (evLines r) r) as (E1 & E2 & E3 & E4 & E5 & E6 & E7 & E8 & E9).
  cbn [write w_out st raw discard line bstate srcs srcErr srcDone].
  rewrite E1, E2, E3, E4, E5, E6, E7, E8, E9. unfold replaced. split_and!; try done. by rewrite <- !app_assoc.
Qed.

Lemma run_snoc ls l s : spec_run cap (ls ++ [l]) s = spec_step cap (spec_run cap ls s) l.
Proof. unfold spec_run. by rewrite fold_left_app. Qed.

(** An event that is being collected is within the cap. *)
Lemma run_size ls s ev : 0 <= cap -> fst (fst (spec_run cap ls s)) = Collecting ev -> size_of ev <= cap.
Proof.
  intros Hc. revert ev. induction ls as [|l ls IH] using rev_ind; intros ev.
  { simpl. by intros [= <-]. }
  rewrite run_snoc. destruct (spec_run cap ls s) as [[m s1] o]. unfold spec_step. cbn [fst snd] in *.
  destruct m as [ev1| |]; simpl.
  - destruct (blank l); [destruct (spec_event ev1 l s1); by intros [= <-]|].
    destruct (cap <? size_of ev1 + len l) eqn:E; zbool.
    + unfold spec_overflow. by destruct (handler_strict s1).
    + intros [= <-]. by rewrite size_of_snoc.
  - by destruct (blank l); intros [= <-].
  - by destruct (blank l); intros [= <-].
Qed.

Lemma partial_nil ls s : 0 <= cap -> spec_partial cap (spec_run cap ls s) [] = spec_run cap ls s.
Proof.
  intros Hc. pose proof (run_size ls s) as Hs. destruct (spec_run cap ls s) as [[[ev| |] s1] o]; unfold spec_partial; simpl in *.
  - specialize (Hs ev Hc eq_refl). rewrite len_nil. assert ((cap <? size_of ev + 0) = false) as -> by (apply Z.ltb_ge; lia). done.
  - by rewrite app_nil_r.
  - done.
Qed.

Lemma lines_of_char x c :
  lines_of (x ++ [c]) = if Byte.eqb c x0a then (fst (lines_of x) ++ [snd (lines_of x) ++ [c]], [])
                        else (fst (lines_of x), snd (lines_of x) ++ [c]).
Proof. rewrite lines_of_app. simpl. destruct (Byte.eqb c x0a); simpl; by rewrite ?app_nil_r. Qed.

(** A whole line arrives. *)
Lemma view_line x l s : 0 <= cap -> x0a ∉ l ->
  spec_view cap (x ++ l ++ [x0a]) s
  = spec_step cap (spec_run cap (fst (lines_of x)) s) (snd (lines_of x) ++ l ++ [x0a])
  /\ snd (lines_of (x ++ l ++ [x0a])) = [].
Proof.
  intros Hc Hl. unfold spec_view. rewrite lines_of_app, (lines_from_split _ l []) by done. cbn [fst snd lines_of lines_from].
  by rewrite partial_nil, run_snoc by done.
Qed.

(** Part of a line arrives. *)
Lemma view_part x l s : x0a ∉ l ->
  spec_view cap (x ++ l) s = spec_partial cap (spec_run cap (fst (lines_of x)) s) (snd (lines_of x) ++ l)
  /\ lines_of (x ++ l) = (fst (lines_of x), snd (lines_of x) ++ l).
Proof.
  intros Hl. unfold spec_view. rewrite lines_of_app, lines_from_none by done. simpl. by rewrite app_nil_r.
Qed.

Definition is_over (m : mode) : Prop := match m with Collecting _ => False | _ => True end.

Definition passed (m : mode) (b : bytes) : bytes := match m with Passing => b | _ => [] end.

Lemma not_lone_cr x s ls s' :
  ~ tight cap x s -> 0 <= cap -> fst (spec_run cap (fst (lines_of x)) s) = (Collecting ls, s') ->
  cap < size_of ls + len (snd (lines_of x)) -> snd (lines_of x) <> [] /\ snd (lines_of x) <> [x0d].
Proof.
  intros Ht Hc Hr Hlt. pose proof (run_size (fst (lines_of x)) s ls Hc) as Hs. rewrite Hr in Hs. specialize (Hs eq_refl).
  split; intros E; rewrite E in Hlt.
  - rewrite len_nil in Hlt. lia.
  - apply Ht. exists ls, s'. rewrite <- E. split_and!; [by destruct (lines_of x)|done|].
    change (len [x0d]) with 1 in Hlt. lia.
Qed.

(** One byte of an event that is passed on or dropped. *)
Lemma view_char x c s :
  0 <= cap -> is_over (fst (fst (spec_view cap x s))) -> ~ tight cap x s ->
  let v := spec_view cap x s in
  let p := snd (lines_of x) in
  let o := snd v ++ passed (fst (fst v)) [c] in
  if Byte.eqb c x0a
  then spec_view cap (x ++ [c]) s = ((if boundary_state p =? 0 then fst (fst v) else Collecting [], snd (fst v)), o)
    /\ snd (lines_of (x ++ [c])) = [] /\ ~ tight cap (x ++ [c]) s
  else spec_view cap (x ++ [c]) s = (fst v, o) /\ snd (lines_of (x ++ [c])) = p ++ [c] /\ ~ tight cap (x ++ [c]) s.
Proof.
  intros Hc Hover Ht v p o. pose proof (not_lone_cr x s) as Hcr.
  destruct (Byte.eqb c x0a) eqn:Ec.
  - apply byte_eqb_eq in Ec as ->. destruct (view_line x [] s Hc) as [Hv Hl]; [by apply not_elem_of_nil|].
    simpl in Hv, Hl. split_and!; [|done|].
    2: { intros (ls & s' & E & _). rewrite E in Hl. done. }
    rewrite Hv. subst v o. unfold spec_view in *. destruct (lines_of x) as [ls q]. cbn [fst snd] in *. fold p in Hv |- *. subst p.
    destruct (spec_run cap ls s) as [[m s1] o1]. unfold spec_partial, spec_step in *. cbn [fst snd] in *.
    unfold spec_line. rewrite blank_line.
    assert (Hb : bool_decide (q = [] \/ q = [x0d]) = negb (boundary_state q =? 0)).
    { unfold boundary_state. repeat case_bool_decide; simpl; tauto. }
    rewrite Hb. destruct m as [ev| |]; cbn [is_over fst snd] in *.
    + destruct (cap <? size_of ev + len q) eqn:E; [|done]. zbool.
      destruct (Hcr ev s1 Ht Hc eq_refl E) as [H1 H2].
      assert (Hq : boundary_state q = 0) by (unfold boundary_state; by rewrite !bool_decide_eq_false_2 by done).
      rewrite Hq. cbn [negb Z.eqb]. assert ((cap <? size_of ev + len (q ++ [x0a])) = true) as ->.
      { apply Z.ltb_lt. rewrite len_app. change (len [x0a]) with 1. lia. }
      unfold spec_overflow. destruct (handler_strict s1); cbn [fst snd passed]; [by rewrite app_nil_r|].
      by rewrite <- !app_assoc.
    + destruct (boundary_state q =? 0); simpl; by rewrite <- ?app_assoc.
    + destruct (boundary_state q =? 0); simpl; by rewrite ?app_nil_r.
  - assert (Hn : x0a ∉ [c]). { rewrite list_elem_of_singleton. intros <-. by vm_compute in Ec. }
    destruct (view_part x [c] s Hn) as [Hv Hl]. rewrite Hl. cbn [snd]. split_and!; [|done|].
    + rewrite Hv. subst v o. unfold spec_view in *. destruct (lines_of x) as [ls q]. cbn [fst snd] in *.
      destruct (spec_run cap ls s) as [[m s1] o1]. unfold spec_partial in *. cbn [fst snd] in *.
      destruct m as [ev| |]; cbn [is_over fst snd passed] in *; [|by rewrite <- app_assoc|by rewrite app_nil_r].
      destruct (cap <? size_of ev + len q) eqn:E; [|done]. zbool.
      assert ((cap <? size_of ev + len (q ++ [c])) = true) as ->.
      { apply Z.ltb_lt. rewrite len_app. change (len [c]) with 1. lia. }
      unfold spec_overflow. destruct (handler_strict s1); cbn [fst snd passed]; [by rewrite app_nil_r|].
      by rewrite <- !app_assoc.
    + intros (ls & s' & E & Hr & Hsz). rewrite Hl in E, Hr. cbn [fst snd] in *. injection E as E.
      destruct (snd (lines_of x)) as [|b q] eqn:Eq; [|by destruct q].
      unfold spec_view in Hover. rewrite (surjective_pairing (lines_of x)), Eq in Hover. rewrite partial_nil in Hover by done.
      by rewrite Hr in Hover.
Qed.

Lemma boundary_state_cases p :
  boundary_state p = 0 \/ boundary_state p = 1 \/ boundary_state p = 2.
Proof. unfold boundary_state. repeat case_bool_decide; auto. Qed.

Lemma boundary_state_snoc p c : Byte.eqb c x0a = false ->
  boundary_state (p ++ [c]) = if (boundary_state p =? 1) && Byte.eqb c x0d then 2 else 0.
Proof.
  intros Hc. unfold boundary_state. destruct p as [|b [|b' p]]; simpl.
  - destruct (Byte.eqb c x0d) eqn:E.
    + by apply byte_eqb_eq in E as ->.
    + apply byte_eqb_neq in E. by rewrite bool_decide_eq_false_2 by congruence.
  - rewrite (bool_decide_eq_false_2 ([b; c] = [x0d])) by done. by repeat case_bool_decide.
  - by rewrite !bool_decide_eq_false_2 by done.
Qed.

(** The detector finds the end of the event where the specification has it. *)
Lemma find_boundary_spec b x s :
  0 <= cap -> is_over (fst (fst (spec_view cap x s))) -> ~ tight cap x s ->
  let v := spec_view cap x s in
  match find_boundary b (boundary_state (snd (lines_of x))) with
  | (Some n, _) => (0 < n <= length b)%nat /\
      spec_view cap (x ++ take n b) s = ((Collecting [], snd (fst v)), snd v ++ passed (fst (fst v)) (take n b)) /\
      snd (lines_of (x ++ take n b)) = []
  | (None, bs) => bs = boundary_state (snd (lines_of (x ++ b))) /\
      spec_view cap (x ++ b) s = (fst v, snd v ++ passed (fst (fst v)) b)
  end.
Proof.
  intros Hc. revert x. induction b as [|c b IH]; intros x Hover Ht v; cbn [find_boundary].
  { rewrite app_nil_r. split; [done|]. subst v. destruct (spec_view cap x s) as [[[] ?] ?]; simpl; by rewrite app_nil_r. }
  pose proof (view_char x c s Hc Hover Ht) as Hchar. cbn zeta in Hchar. fold v in Hchar.
  set (bs := boundary_state (snd (lines_of x))) in *.
  assert (Hpass : forall m (a : bytes), passed m (c :: a) = passed m [c] ++ passed m a) by by intros [] a.
  destruct (Byte.eqb c x0a) eqn:Ec.
  - destruct Hchar as (Hv & Hl & Ht'). destruct (bs =? 0) eqn:Eb.
    + specialize (IH (x ++ [c])). rewrite Hv, Hl in IH. cbn [fst snd] in IH.
      specialize (IH Hover Ht'). change (boundary_state []) with 1 in IH.
      destruct (find_boundary b 1) as [[n|] bs'].
      * destruct IH as (Hn & E1 & E2). cbn [take length]. rewrite <- app_assoc in E1, E2. simpl in E1, E2.
        split_and!; [lia|lia| |done]. rewrite E1. by rewrite (Hpass _ (take n b)), <- app_assoc.
      * destruct IH as (E1 & E2). rewrite <- app_assoc in E1, E2. simpl in E1, E2. split; [done|].
        rewrite E2, (Hpass _ b), <- app_assoc. by destruct v as [[]].
    + assert (Ht1 : take 1 (c :: b) = [c]) by done.
      destruct (bs =? 1); rewrite Ht1; cbn [length]; (split_and!; [lia|lia|by rewrite Hv|done]).
  - destruct Hchar as (Hv & Hl & Ht'). specialize (IH (x ++ [c])). rewrite Hv, Hl in IH. cbn [fst snd] in IH.
    specialize (IH Hover Ht'). rewrite (boundary_state_snoc _ _ Ec) in IH. fold bs in IH.
    assert (Hnext : forall bs', bs' = (if (bs =? 1) && Byte.eqb c x0d then 2 else 0) ->
      match (match find_boundary b bs' with (Some n, z) => (Some (S n), z) | (None, z) => (None, z) end) with
      | (Some n, _) => (0 < n <= length (c :: b))%nat /\
          spec_view cap (x ++ take n (c :: b)) s = ((Collecting [], snd (fst v)), snd v ++ passed (fst (fst v)) (take n (c :: b))) /\
          snd (lines_of (x ++ take n (c :: b))) = []
      | (None, bs) => bs = boundary_state (snd (lines_of (x ++ c :: b))) /\
          spec_view cap (x ++ c :: b) s = (fst v, snd v ++ passed (fst (fst v)) (c :: b))
      end).
    { intros bs' ->. destruct (find_boundary b _) as [[n|] z].
      - destruct IH as (Hn & E1 & E2). cbn [take length]. rewrite <- app_assoc in E1, E2. simpl in E1, E2.
        split_and!; [lia|lia| |done]. rewrite E1. by rewrite (Hpass _ (take n b)), <- app_assoc.
      - destruct IH as (E1 & E2). rewrite <- app_assoc in E1, E2. simpl in E1, E2. split; [done|].
        rewrite E2, (Hpass _ b), <- app_assoc. by destruct v as [[]]. }
    destruct (boundary_state_cases (snd (lines_of x))) as [E|[E|E]]; fold bs in E; rewrite E in *; simpl.
    + by apply Hnext.
    + by apply Hnext.
    + by apply Hnext.
Qed.

(** [r] is what the machine is after the text [x], of whose output [d] has
been read. *)
Definition reaches (s : St) (d x : bytes) r : Prop := follows d (spec_view cap x s) (snd (lines_of x)) r.

Lemma reaches_mode s d x r : reaches s d x r ->
  raw r || discard r = match fst (fst (spec_view cap x s)) with Collecting _ => false | _ => true end.
Proof. unfold reaches, follows. destruct (fst (fst (spec_view cap x s))); by intros (_ & _ & -> & -> & _). Qed.

Lemma scan_reaches s d x r b b' r' :
  0 <= cap -> reaches s d x r -> raw r || discard r = true -> ~ tight cap x s -> b <> [] ->
  scanBoundary b r = (b', r') ->
  exists b1, b = b1 ++ b' /\ b1 <> [] /\ reaches s d (x ++ b1) r' /\ (b' <> [] -> snd (lines_of (x ++ b1)) = []) /\ same_source r r'.
Proof.
  intros Hc Hr Hm Ht Hb Hscan. rewrite (reaches_mode s d x r Hr) in Hm.
  assert (Hover : is_over (fst (fst (spec_view cap x s)))) by by destruct (fst (fst (spec_view cap x s))).
  pose proof (find_boundary_spec b x s Hc Hover Ht) as Hf. cbn zeta in Hf. unfold scanBoundary in Hscan.
  unfold reaches, follows in *. destruct Hr as (H1 & H2 & H3).
  assert (Hbs : bstate r = boundary_state (snd (lines_of x)) /\ event_is [] r /\ line r = [] /\
    forall a, (if raw r then a else []) = passed (fst (fst (spec_view cap x s))) a).
  { destruct (fst (fst (spec_view cap x s))); [done|..]; destruct H3 as (Hr & Hd & ? & ? & ?); split_and!; try done;
      intros a; by rewrite Hr. }
  destruct Hbs as (Hbs & Hev & Hline & Hpass). rewrite Hbs in Hscan.
  destruct (find_boundary b (boundary_state (snd (lines_of x)))) as [[n|] bs].
  - injection Hscan as <- <-. destruct Hf as ([Hn0 Hn] & E1 & E2). exists (take n b).
    rewrite take_drop, E1, E2. split_and!; [done| | | | | |].
    + destruct b; [done|]. by destruct n; [lia|].
    + destruct (raw r); done.
    + cbn [snd]. rewrite <- H2, <- app_assoc. rewrite <- Hpass. destruct (raw r); simpl; by rewrite ?app_nil_r.
    + cbn [fst]. destruct (raw r); simpl; (split_and!; try done; rewrite ?Hline; try done; by rewrite ?len_nil).
    + done.
    + by destruct (raw r).
  - injection Hscan as <- <-. destruct Hf as (E1 & E2). exists b. rewrite app_nil_r, E2.
    assert (Hmode : fst (fst (spec_view cap x s)) = Passing \/ fst (fst (spec_view cap x s)) = Dropping)
      by (destruct (fst (fst (spec_view cap x s))); auto; done).
    cbn [fst snd]. specialize (Hpass b). rewrite <- Hpass.
    split_and!; [done|done|by destruct (raw r)| | |done|by destruct (raw r)].
    + rewrite <- H2. destruct (raw r); simpl; by rewrite <- ?app_assoc, ?app_nil_r.
    + destruct Hmode as [Em|Em]; rewrite Em in *; destruct H3 as (Hr & Hd & _); rewrite Hr; simpl;
        split_and!; try done.
Qed.

Lemma view_collecting x s ev : fst (fst (spec_view cap x s)) = Collecting ev ->
  spec_view cap x s = spec_run cap (fst (lines_of x)) s.
Proof.
  unfold spec_view. destruct (lines_of x) as [ls p]. cbn [fst]. unfold spec_partial.
  destruct (spec_run cap ls s) as [[[ev'| |] s1] o]; cbn [fst snd]; try done.
  destruct (cap <? size_of ev' + len p); [|done]. unfold spec_overflow. by destruct (handler_strict s1).
Qed.

Lemma emit_reset payload l ls r :
  evLines r = ls -> evIsData r = map is_data ls ->
  let r' := resetEvent (emitReplaced payload l r) in
  st r' = st r /\ w_out r' = w_out r ++ replaced ls payload l /\ event_is [] r' /\ raw r' = raw r
  /\ discard r' = discard r /\ line r' = line r /\ same_source r r'.
Proof.
  intros E1 E2. destruct (emit_fields payload l ls r E1 E2) as (F1 & F2 & F3 & F4 & F5 & F6 & F7 & F8 & F9).
  unfold same_source. cbn [resetEvent set_event st w_out raw discard line srcs srcErr srcDone].
  rewrite F1, F2, F3, F4, F5, F7, F8, F9. by split_and!.
Qed.

Lemma pass_reset l ls r :
  evLines r = ls ->
  let r' := resetEvent (write l (write_all (evLines r) r)) in
  st r' = st r /\ w_out r' = w_out r ++ concat ls ++ l /\ event_is [] r' /\ raw r' = raw r
  /\ discard r' = discard r /\ line r' = line r /\ same_source r r'.
Proof.
  intros ->. destruct (write_all_fields ls r) as (F1 & F2 & F3 & F4 & F5 & F6 & F7 & F8 & F9).
  unfold same_source. cbn [resetEvent set_event write st w_out raw discard line srcs srcErr srcDone].
  rewrite F1, F2, F3, F4, F5, F7, F8, F9, <- app_assoc. by split_and!.
Qed.

Lemma finishEvent_spec ls l r :
  event_is ls r ->
  let '(s, o) := spec_event ls l (st r) in
  let r' := finishEvent l r in
  st r' = s /\ w_out r' = w_out r ++ o /\ event_is [] r' /\ raw r' = raw r /\ discard r' = discard r
  /\ line r' = line r /\ same_source r r'.
Proof.
  intros (E1 & E2 & E3 & E4). unfold spec_event, finishEvent. rewrite E3.
  destruct (omap data_of ls) as [|d ds] eqn:Ed; [by apply pass_reset|].
  rewrite bool_decide_eq_false_2 by done. destruct (handle (join [x0a] (d :: ds)) (st r)) as [s1 o].
  destruct (verdict o).
  - by apply (pass_reset l ls (set_st s1 r)).
  - by apply (emit_reset (out o) l ls (set_st s1 r)).
  - by apply (emit_reset _ l ls (set_st (handler_note (reason o) s1) r)).
Qed.

(** The start of an oversized event. *)
Lemma overflow_spec ls tail p r r' :
  evLines r = ls -> raw r = false -> discard r = false -> line r = [] ->
  r' = resetEvent (if handler_strict (st r) then set_mode (raw r) true (boundary_state p) (emitCapError r)
                   else set_mode true (discard r) (boundary_state p) (write tail (write_all (evLines r) r))) ->
  let '(m, s, o) := spec_overflow ls tail (st r) in
  st r' = s /\ w_out r' = w_out r ++ o /\ event_is [] r' /\ line r' = [] /\ bstate r' = boundary_state p /\ same_source r r'
  /\ is_over m /\ raw r' = (match m with Passing => true | _ => false end)
  /\ discard r' = (match m with Dropping => true | _ => false end).
Proof.
  intros E1 Hr Hd Hl ->. unfold spec_overflow. rewrite Hr, Hd, E1. destruct (handler_strict (st r)); cbn [fst snd].
  - by split_and!.
  - destruct (write_all_fields ls r) as (F1 & F2 & F3 & F4 & F5 & F6 & F7 & F8 & F9). simpl.
    rewrite F1, F2, F5. unfold same_source. simpl. rewrite F7, F8, F9, <- app_assoc. by split_and!.
Qed.

Lemma complete_reaches s d x r l :
  0 <= cap -> reaches s d x r -> raw r || discard r = false -> x0a ∉ l ->
  let r' := completeLine cap (line r ++ l ++ [x0a]) (set_line [] r) in
  reaches s d (x ++ l ++ [x0a]) r' /\ same_source r r'.
Proof.
  intros Hc Hr Hm Hl r'. pose proof Hr as Hr0. rewrite (reaches_mode s d x r Hr) in Hm.
  unfold reaches, follows in Hr |- *. destruct (view_line x l s Hc Hl) as [-> ->].
  pose proof (view_collecting x s) as Hview.
  destruct (fst (fst (spec_view cap x s))) as [ev| |] eqn:Em; try done.
  rewrite (Hview ev eq_refl) in *. clear Hview. destruct Hr as (H1 & H2 & H3 & H4 & H5 & H6 & H7).
  destruct (spec_run cap (fst (lines_of x)) s) as [[m s1] o]. cbn [fst snd] in *. subst m s1 o.
  subst r'. rewrite H5. set (l' := snd (lines_of x) ++ l ++ [x0a]). unfold spec_step, spec_line. cbn [fst snd].
  unfold completeLine. change (evSize (set_line [] r)) with (evSize r).
  fold (blank l'). rewrite (proj2 (proj2 (proj2 H6))). destruct (blank l') eqn:Eb.
  - pose proof (finishEvent_spec ev l' (set_line [] r) H6) as Hf. simpl st in Hf.
    destruct (spec_event ev l' (st r)) as [s2 o2]. cbn zeta in Hf.
    destruct Hf as (F1 & F2 & F3 & F4 & F5 & F6 & F7). split; [|done]. cbn [fst snd].
    rewrite F1, F2, F4, F5, F6. simpl. split_and!; try done; [by rewrite app_assoc|apply F3..].
  - destruct (cap <? size_of ev + len l') eqn:E; zbool.
    + set (r1 := set_event _ _ _ _ (set_line [] r)).
      pose proof (overflow_spec ev l' [] r1 (overflowLine l' r1) (proj1 H6) H3 H4 eq_refl eq_refl) as Ho.
      change (st r1) with (st r) in Ho. destruct (spec_overflow ev l' (st r)) as [[m s2] o2].
      destruct Ho as (F1 & F2 & F3 & F4 & F5 & F6 & F7 & F8 & F9).
      split; [|exact F6]. cbn [fst snd]. rewrite F1, F2, F4, F5, F8, F9. simpl w_out.
      split_and!; [done|by rewrite app_assoc|]. by destruct m.
    + destruct H6 as (G1 & G2 & G3 & G4). split; [|done]. cbn [fst snd]. simpl. rewrite G1, G2, G3.
      split_and!; try done; [by rewrite app_nil_r| |].
      * unfold event_is. simpl. rewrite map_app, omap_app, size_of_snoc. simpl. unfold data_of, is_data.
        split_and!; try done.
        destruct (has_prefix (trimEOL l') data_prefix); by rewrite ?app_nil_r.
      * rewrite size_of_snoc, len_nil. lia.
Qed.

Lemma partial_reaches s d x r l :
  0 <= cap -> reaches s d x r -> raw r || discard r = false -> x0a ∉ l -> ~ tight cap (x ++ l) s ->
  let r1 := set_line (line r ++ l) r in
  let r' := if cap <? len (line r1) + evSize r1 then overflowPartial r1 else r1 in
  reaches s d (x ++ l) r' /\ same_source r r'.
Proof.
  intros Hc Hr Hm Hl Ht r1 r'. rewrite (reaches_mode s d x r Hr) in Hm.
  destruct (view_part x l s Hl) as [Hv Hlo]. pose proof (not_lone_cr (x ++ l) s) as Hcr. rewrite Hlo in Hcr.
  unfold reaches, follows in Hr |- *. rewrite Hv, Hlo. pose proof (view_collecting x s) as Hview.
  destruct (fst (fst (spec_view cap x s))) as [ev| |] eqn:Em; try done.
  rewrite (Hview ev eq_refl) in *. clear Hview Hv. destruct Hr as (H1 & H2 & H3 & H4 & H5 & H6 & H7).
  destruct (spec_run cap (fst (lines_of x)) s) as [[m s1] o] eqn:Erun. cbn [fst snd] in *. subst m s1 o.
  unfold spec_partial. cbn [fst snd]. set (q := snd (lines_of x) ++ l) in *.
  assert (Hsz : (cap <? len (line r1) + evSize r1) = (cap <? size_of ev + len q)).
  { subst r1 q. simpl. rewrite H5, (proj2 (proj2 (proj2 H6))). f_equal. lia. }
  subst r'. rewrite Hsz. destruct (cap <? size_of ev + len q) eqn:E; zbool.
  - destruct (Hcr ev (st r) Ht Hc (f_equal fst Erun) E) as [Hq1 Hq2].
    assert (Hb : boundary_state q = 0) by (unfold boundary_state; by rewrite !bool_decide_eq_false_2 by done).
    pose proof (overflow_spec ev q q (set_line [] r1) (overflowPartial r1) (proj1 H6) H3 H4 eq_refl) as Ho.
    rewrite Hb in Ho. specialize (Ho ltac:(unfold overflowPartial; subst r1 q; simpl; rewrite H5; reflexivity)).
    change (st (set_line [] r1)) with (st r) in Ho. destruct (spec_overflow ev q (st r)) as [[m s2] o2].
    destruct Ho as (F1 & F2 & F3 & F4 & F5 & F6 & F7 & F8 & F9). split; [|exact F6].
    cbn [fst snd]. rewrite F1, F2, F4, F5, F8, F9. simpl w_out.
    split_and!; [done|by rewrite app_assoc|]. by destruct m.
  - split; [|done]. cbn [fst snd]. subst r1. simpl. rewrite H5. by split_and!.
Qed.

Lemma not_tight_line x s : snd (lines_of x) = [] -> ~ tight cap x s.
Proof. intros E (ls & s' & E' & _). rewrite E' in E. done. Qed.

Lemma ingest_reaches fuel b s d x r :
  0 <= cap -> (length b <= fuel)%nat -> reaches s d x r -> ~ tight cap x s -> ~ tight cap (x ++ b) s ->
  reaches s d (x ++ b) (ingest_loop cap fuel b r) /\ same_source r (ingest_loop cap fuel b r).
Proof.
  intros Hc. revert b x r. induction fuel as [|fuel IH]; intros b x r Hf Hr Ht1 Ht2.
  { destruct b; [|simpl in Hf; lia]. by rewrite app_nil_r. }
  destruct b as [|c b]; [by rewrite app_nil_r|]. cbn [ingest_loop]. set (b0 := c :: b) in *.
  destruct (raw r || discard r) eqn:Em.
  - destruct (scanBoundary b0 r) as [b' r1] eqn:Es.
    destruct (scan_reaches s d x r b0 b' r1 Hc Hr Em Ht1) as (b1 & Hb & Hne & Hr1 & Hend & Hsrc); [done|done|].
    rewrite Hb in *. rewrite app_assoc. destruct (decide (b' = [])) as [->|Hb'].
    + rewrite app_nil_r. by destruct fuel.
    + assert (Hlen : (length b1 > 0)%nat) by (destruct b1; [done|simpl; lia]).
      destruct (IH b' (x ++ b1) r1) as [G1 G2]; [rewrite length_app in Hf; lia|done| |by rewrite <- app_assoc|].
      * by apply not_tight_line, Hend.
      * split; [done|]. by eapply same_source_trans.
  - destruct (split_byte x0a b0) as [[l b']|] eqn:Es.
    + apply split_byte_Some in Es as [Hb Hl].
      destruct (complete_reaches s d x r l Hc Hr Em Hl) as [Hr1 Hsrc].
      assert (Hb2 : b0 = (l ++ [x0a]) ++ b') by by rewrite <- app_assoc.
      rewrite Hb2 in *. rewrite (app_assoc x).
      destruct (IH b' (x ++ l ++ [x0a]) (completeLine cap (line r ++ l ++ [x0a]) (set_line [] r))) as [G1 G2].
      * rewrite !length_app in Hf. simpl in Hf. lia.
      * done.
      * apply not_tight_line. by apply view_line.
      * by rewrite <- app_assoc.
      * split; [done|]. by eapply same_source_trans.
    + apply split_byte_None in Es. by apply partial_reaches.
Qed.

(** ** Reading it all *)

(** What the source delivers, and how it ends. *)
Fixpoint stream (src : list (bytes * option read_error)) : bytes :=
  match src with
  | [] => []
  | (b, None) :: src => b ++ stream src
  | (b, Some _) :: _ => b
  end.

Fixpoint stream_end (src : list (bytes * option read_error)) : read_error :=
  match src with
  | [] => EOF
  | (_, None) :: src => stream_end src
  | (_, Some e) :: _ => e
  end.

(** No read of the source ends inside a blank line after a full event. *)
Fixpoint never_tight (x : bytes) (s : St) (src : list (bytes * option read_error)) : Prop :=
  ~ tight cap x s /\
  match src with
  | [] => True
  | (b, None) :: src => never_tight (x ++ b) s src
  | (b, Some _) :: _ => ~ tight cap (x ++ b) s
  end.

(** A consumer that reads [n] bytes at a time until it is told the end. *)
Fixpoint read_all (fuel n : nat) r : option (bytes * read_error * St) :=
  match fuel with
  | O => None
  | S fuel =>
      match Read cap n r with
      | ((b, None), r) =>
          match read_all fuel n r with Some (bs, e, s) => Some (b ++ bs, e, s) | None => None end
      | ((b, Some e), r) => Some (b, e, st r)
      end
  end.

Definition read_inv (s : St) (src : list (bytes * option read_error)) (d : bytes) r : Prop :=
  (srcDone r = false /\ exists x, reaches s d x r /\ never_tight x s (srcs r) /\ x ++ stream (srcs r) = stream src
    /\ stream_end (srcs r) = stream_end src) \/
  (srcDone r = true /\ srcErr r = Some (stream_end src) /\ d ++ w_out r = spec_output cap (stream src) s /\
    st r = spec_final cap (stream src) s).

Lemma finish_reaches s d x r :
  reaches s d x r -> d ++ w_out (finish r) = spec_output cap x s /\ st (finish r) = spec_final cap x s /\ same_source r (finish r).
Proof.
  intros Hr. pose proof (reaches_mode s d x r Hr) as Hm. unfold reaches, follows in Hr. destruct Hr as (H1 & H2 & H3).
  unfold finish, spec_output, spec_final. rewrite Hm. destruct (lines_of x) as [ls q]. cbn [snd] in *.
  destruct (spec_view cap x s) as [[m s1] o]. cbn [fst snd] in *. destruct m as [ev| |]; [|done..].
  destruct H3 as (_ & _ & H5 & (E1 & _) & _). destruct (write_all_fields (evLines r) r) as (F1 & F2 & F3 & F4 & F5 & F6 & F7 & F8 & F9).
  unfold same_source. cbn [resetEvent set_event set_line write w_out st srcs srcErr srcDone].
  rewrite F1, F2, F7, F8, F9, H5, E1. subst o. split_and!; try done. by rewrite !app_assoc.
Qed.

(** What a reader still has to wait for. *)
Definition weight r : nat := length (srcs r) + (if srcDone r then 0 else 1).

Lemma read_loop_inv s src d r :
  0 <= cap -> read_inv s src d r ->
  let r' := read_loop cap (srcs r) r in
  read_inv s src d r' /\ (w_out r' = [] -> srcDone r' = true) /\ (r' = r \/ (weight r' < weight r)%nat).
Proof.
  intros Hc. remember (srcs r) as l eqn:El. revert r El. induction l as [|[b err] l IH]; intros r El Hinv; cbn [read_loop].
  - destruct (bool_decide (w_out r = []) && negb (srcDone r)) eqn:E.
    2: { split_and!; [done| |by left]. intros Hw. rewrite Hw in E. simpl in E. by apply negb_false_iff in E. }
    zbool. rewrite bool_decide_eq_true in *. destruct Hinv as [(Hd & x & Hr & Hnt & Hx & He)|(Hd & _)]; [|congruence].
    set (r1 := set_done (Some EOF) (set_src [] r)).
    destruct (finish_reaches s d x r1 Hr) as (F1 & F2 & F3 & F4 & F5).
    rewrite <- El in Hx, He. simpl in Hx, He. rewrite app_nil_r in Hx. subst x.
    split_and!; [|by rewrite F5|right; unfold weight; rewrite F3, F5, Hd; simpl; lia].
    right. by rewrite F1, F2, F4, F5, <- He.
  - destruct (bool_decide (w_out r = []) && negb (srcDone r)) eqn:E.
    2: { split_and!; [done| |by left]. intros Hw. rewrite Hw in E. simpl in E. by apply negb_false_iff in E. }
    zbool. rewrite bool_decide_eq_true in *. destruct Hinv as [(Hd & x & Hr & Hnt & Hx & He)|(Hd & _)]; [|congruence].
    rewrite <- El in Hnt, Hx, He. cbn [never_tight stream stream_end] in Hnt, Hx, He. destruct Hnt as [Ht1 Hnt].
    assert (Ht2 : ~ tight cap (x ++ b) s).
    { destruct err; [done|]. by destruct l as [|[? []] ?]; destruct Hnt. }
    destruct (ingest_reaches (length b) b s d x (set_src l r) Hc (le_n _) Hr Ht1 Ht2) as [G1 (G2 & G3 & G4)].
    fold (ingest cap b (set_src l r)) in *. set (r1 := ingest cap b (set_src l r)) in *. simpl in G2, G4.
    assert (Hw1 : (weight r1 < weight r)%nat) by (unfold weight; rewrite G2, G4, <- El; simpl; lia).
    destruct err as [e|].
    + destruct (finish_reaches s d (x ++ b) (set_done (Some e) r1) G1) as (F1 & F2 & F3 & F4 & F5).
      rewrite Hx in *. split_and!; [|by rewrite F5|].
      * right. by rewrite F1, F2, F4, F5, <- He.
      * right. unfold weight in *. rewrite F3, F5. simpl. destruct (srcDone r1); lia.
    + destruct (IH r1 (eq_sym G2)) as (K1 & K3 & K4).
      { left. split; [by rewrite G4|]. exists (x ++ b). rewrite G2, <- app_assoc. split_and!; try done. }
      split_and!; [done|done|]. right. destruct K4 as [ -> |K4]; lia.
Qed.

(** A read yields bytes, or the end once everything has been read. *)
Lemma read_step s src d r n :
  0 <= cap -> (0 < n)%nat -> read_inv s src d r ->
  (exists r', Read cap n r = (([], Some (stream_end src)), r') /\ d = spec_output cap (stream src) s
     /\ st r' = spec_final cap (stream src) s) \/
  (exists b r', Read cap n r = ((b, None), r') /\ read_inv s src (d ++ b) r' /\
     ((weight r' < weight r)%nat \/ ((weight r' <= weight r)%nat /\ (length (w_out r') < length (w_out r))%nat))).
Proof.
  intros Hc Hn Hinv. destruct (read_loop_inv s src d r Hc Hinv) as (K1 & K2 & K3). unfold Read.
  set (r' := read_loop cap (srcs r) r) in *. case_bool_decide as Hw.
  - left. exists r'. destruct K1 as [(Hd & _)|(Hd & He & Ho & Hs)]; [rewrite K2 in Hd by done; done|].
    rewrite He. split_and!; [done| |done]. by rewrite <- Ho, Hw, app_nil_r.
  - right. exists (take n (w_out r')), (set_out (drop n (w_out r')) r'). split_and!; [done| |].
    + destruct K1 as [(Hd & x & Hr & Hrest)|(Hd & He & Ho & Hs)].
      * left. split; [done|]. exists x. split; [|done]. unfold reaches, follows in *. simpl.
        by rewrite <- app_assoc, take_drop.
      * right. simpl. by rewrite <- app_assoc, take_drop.
    + change (weight (set_out (drop n (w_out r')) r')) with (weight r').
      assert (Hlen : (length (drop n (w_out r')) < length (w_out r'))%nat).
      { rewrite length_drop. destruct (w_out r'); [done|simpl; lia]. }
      destruct K3 as [E|K3]; [right|by left]. rewrite E in *. split; [lia|exact Hlen].
Qed.

Lemma reaches_start s src : 0 <= cap -> reaches s [] [] (newSSERewriter src s).
Proof.
  intros Hc. unfold reaches, follows. assert (Hv : spec_view cap [] s = spec_run cap [] s) by by apply (partial_nil [] s).
  rewrite Hv. simpl. by split_and!.
Qed.

Lemma read_all_spec (src : list (bytes * option read_error)) (s : St) (n : nat) :
  0 <= cap -> (0 < n)%nat -> never_tight [] s src ->
  exists fuel, read_all fuel n (newSSERewriter src s)
    = Some (spec_output cap (stream src) s, stream_end src, spec_final cap (stream src) s).
Proof.
  intros Hc Hn Hnt.
  enough (Hgen : forall k1 k2 d r, weight r = k1 -> length (w_out r) = k2 -> read_inv s src d r ->
    exists fuel bs, read_all fuel n r = Some (bs, stream_end src, spec_final cap (stream src) s)
      /\ d ++ bs = spec_output cap (stream src) s).
  { destruct (Hgen _ _ [] (newSSERewriter src s) eq_refl eq_refl) as (fuel & bs & E & <-); [|by exists fuel].
    left. split; [done|]. exists []. split_and!; try done. by apply reaches_start. }
  induction k1 as [k1 IH1] using lt_wf_ind. induction k2 as [k2 IH2] using lt_wf_ind. intros d r Hk1 Hk2 Hinv.
  destruct (read_step s src d r n Hc Hn Hinv) as [(r' & E & Ho & Hs)|(b & r' & E & Hinv' & Hdec)].
  - exists 1%nat, []. cbn [read_all]. by rewrite E, Hs, app_nil_r.
  - assert (Hrec : exists fuel bs, read_all fuel n r' = Some (bs, stream_end src, spec_final cap (stream src) s)
      /\ (d ++ b) ++ bs = spec_output cap (stream src) s).
    { destruct (decide (weight r' < k1)%nat) as [Hlt|Hge]; [by eapply IH1|].
      eapply (IH2 (length (w_out r'))); [lia|lia|done|exact Hinv']. }
    destruct Hrec as (fuel & bs & E' & Hbs). exists (S fuel), (b ++ bs). cbn [read_all]. rewrite E, E'.
    split; [done|]. by rewrite app_assoc.
Qed.

(** C10. However the upstream's stream is cut into reads, and whatever the
size of the client's buffer, reading to the end yields exactly what the
line-by-line specification says of the whole stream, and the end or error the
source had; provided no read ends between the carriage return and the newline
of a blank line that follows an event of exactly the cap. *)
Theorem sse_read_all (src : list (bytes * option read_error)) (s : St) (n : nat) :
  0 <= cap -> (0 < n)%nat -> never_tight [] s src ->
  exists fuel, read_all fuel n (newSSERewriter src s)
    = Some (spec_output cap (stream src) s, stream_end src, spec_final cap (stream src) s).
Proof. apply read_all_spec. Qed.

End refinement.
