(* ===== verification/SseDrain.v ===== *)
(** * Draining a rewritten stream (gateway/sserewrite.go)

What a consumer that reads the rewriter to its end gets, as one pass over the
reads of the source: [drain].  Unlike the line-by-line specification of
SseRewrite.v this holds without a condition on where the reads end; the proxy
uses it for the body it copies to the client. *)

From S2P Require Export SseRewrite.
Local Open Scope Z_scope.
Local Open Scope go_scope.

Section drain.
Context {St : Type} {H : MessageHandler St} (cap : Z).

Implicit Types r : sseRewriter St.

(** The reads of the source, one after the other, and the end. *)
Fixpoint drain (l : list (bytes * option read_error)) r : sseRewriter St :=
  match l with
  | [] => finish (set_done (Some EOF) (set_src [] r))
  | (b, err) :: l =>
      let r := ingest cap b (set_src l r) in
      match err with
      | None => drain l r
      | Some e => finish (set_done (Some e) r)
      end
  end.

Definition drained r : sseRewriter St := if srcDone r then r else drain (srcs r) r.

(** ** Processing looks neither at its output nor at the source

[rebase o l e d r] is [r] with [o] before its output and another source. *)
Definition rebase (o : bytes) (l : list (bytes * option read_error)) (e : option read_error) (d : bool) r :
    sseRewriter St :=
  MkRewriter (st r) (o ++ w_out r) (line r) (evLines r) (evIsData r) (evData r) (evSize r) (raw r) (discard r)
    (bstate r) l e d.

Definition local (f : sseRewriter St -> sseRewriter St) : Prop :=
  forall o l e d r, f (rebase o l e d r) = rebase o l e d (f r).

Lemma local_write b : local (write b).
Proof. intros o l e d r. unfold write, rebase. simpl. by rewrite app_assoc. Qed.

Lemma local_id f : (forall r, f r = r) -> local f.
Proof. intros Hf o l e d r. by rewrite !Hf. Qed.

Lemma local_compose f g : local f -> local g -> local (fun r => g (f r)).
Proof. intros Hf Hg o l e d r. by rewrite Hf, Hg. Qed.

Lemma local_write_all ls : local (write_all ls).
Proof.
  induction ls as [|x ls IH]; intros o l e d r; [done|]. unfold write_all in *. cbn [fold_left].
  rewrite local_write. apply IH.
Qed.

Lemma local_write_other ls ds : local (write_other ls ds).
Proof.
  revert ds. induction ls as [|x ls IH]; intros [|[] ds] o l e d r; try done; cbn [write_other].
  - apply IH.
  - rewrite local_write. apply IH.
Qed.

Lemma local_emitCapError : local emitCapError.
Proof.
  intros o l e d r. unfold emitCapError. change (st (rebase o l e d r)) with (st r).
  change (set_st ?s (rebase o l e d r)) with (rebase o l e d (set_st s r)). by rewrite local_write.
Qed.

Lemma local_overflowPartial : local overflowPartial.
Proof.
  intros o l e d r. unfold overflowPartial. change (set_line [] (rebase o l e d r)) with (rebase o l e d (set_line [] r)).
  change (st (rebase o l e d (set_line [] r))) with (st (set_line [] r)).
  destruct (handler_strict _); [by rewrite local_emitCapError|]. rewrite local_write_all, local_write. done.
Qed.

Lemma local_overflowLine x : local (overflowLine x).
Proof.
  intros o l e d r. unfold overflowLine. change (st (rebase o l e d r)) with (st r).
  destruct (handler_strict _); [by rewrite local_emitCapError|]. rewrite local_write_all, local_write. done.
Qed.

Lemma local_emitReplaced payload blank : local (emitReplaced payload blank).
Proof. intros o l e d r. unfold emitReplaced. by rewrite local_write_other, !local_write. Qed.

Lemma local_finishEvent blank : local (finishEvent blank).
Proof.
  intros o l e d r. unfold finishEvent. change (evData (rebase o l e d r)) with (evData r).
  case_bool_decide; [by rewrite local_write_all, local_write|].
  change (st (rebase o l e d r)) with (st r). destruct (handle _ _) as [s oc].
  change (set_st s (rebase o l e d r)) with (rebase o l e d (set_st s r)).
  destruct (verdict oc).
  - by rewrite local_write_all, local_write.
  - by rewrite local_emitReplaced.
  - change (set_st ?x (rebase o l e d (set_st s r))) with (rebase o l e d (set_st x (set_st s r))).
    by rewrite local_emitReplaced.
Qed.

Lemma local_completeLine x : local (completeLine cap x).
Proof.
  intros o l e d r. unfold completeLine. destruct (_ =? 0); [apply local_finishEvent|].
  change (evSize (rebase o l e d r)) with (evSize r). destruct (cap <? _); [|done].
  change (set_event (evLines (rebase o l e d r)) (evIsData (rebase o l e d r)) (evData (rebase o l e d r)) ?n (rebase o l e d r))
    with (rebase o l e d (set_event (evLines r) (evIsData r) (evData r) n r)). by rewrite local_overflowLine.
Qed.

Lemma local_scanBoundary b o l e d r :
  scanBoundary b (rebase o l e d r) = (fst (scanBoundary b r), rebase o l e d (snd (scanBoundary b r))).
Proof.
  unfold scanBoundary. change (bstate (rebase o l e d r)) with (bstate r).
  change (raw (rebase o l e d r)) with (raw r). change (discard (rebase o l e d r)) with (discard r).
  destruct (find_boundary b (bstate r)) as [[n|] bs]; cbn [fst snd]; destruct (raw r); rewrite ?local_write; try done.
  change (set_mode ?x ?y ?z (rebase o l e d r)) with (rebase o l e d (set_mode x y z r)). by rewrite local_write.
Qed.

Lemma local_ingest_loop fuel b : local (ingest_loop cap fuel b).
Proof.
  revert b. induction fuel as [|fuel IH]; intros b o l e d r; [done|]. cbn [ingest_loop]. destruct b as [|c t]; [done|].
  change (raw (rebase o l e d r) || discard (rebase o l e d r)) with (raw r || discard r).
  destruct (raw r || discard r).
  - rewrite local_scanBoundary. destruct (scanBoundary _ r) as [b' r']. cbn [fst snd]. apply IH.
  - destruct (split_byte _ _) as [[x b']|].
    + change (line (rebase o l e d r)) with (line r).
      change (set_line [] (rebase o l e d r)) with (rebase o l e d (set_line [] r)).
      rewrite local_completeLine. apply IH.
    + change (line (rebase o l e d r)) with (line r).
      change (set_line ?x (rebase o l e d r)) with (rebase o l e d (set_line x r)).
      change (line (rebase o l e d ?x)) with (line x). change (evSize (rebase o l e d ?x)) with (evSize x).
      destruct (cap <? _); [|done]. apply local_overflowPartial.
Qed.

Lemma local_ingest b : local (ingest cap b).
Proof. apply local_ingest_loop. Qed.

Lemma local_finish : local finish.
Proof.
  intros o l e d r. unfold finish. change (raw (rebase o l e d r) || discard (rebase o l e d r)) with (raw r || discard r).
  destruct (raw r || discard r); [done|]. by rewrite local_write_all, local_write.
Qed.

Lemma rebase_self r : rebase [] (srcs r) (srcErr r) (srcDone r) r = r.
Proof. by destruct r. Qed.

Lemma local_source f r : local f -> same_source r (f r).
Proof. intros Hf. unfold same_source. rewrite <- (rebase_self r) at 1 3 5. by rewrite Hf. Qed.

(** ** Reading to the end *)

Lemma drain_rebase o src l e d r :
  exists l' e', drain src (rebase o l e d r) = rebase o l' e' true (drain src r) /\
    e' = srcErr (drain src r) /\ l' = srcs (drain src r) /\ srcDone (drain src r) = true.
Proof.
  revert l e d r. induction src as [|[b err] src IH]; intros l e d r; cbn [drain].
  - change (set_done (Some EOF) (set_src [] (rebase o l e d r))) with (rebase o [] (Some EOF) true (set_done (Some EOF) (set_src [] r))).
    rewrite local_finish. destruct (local_source finish (set_done (Some EOF) (set_src [] r)) local_finish) as (E1 & E2 & E3).
    rewrite E1, E2, E3. by eauto 10.
  - change (set_src src (rebase o l e d r)) with (rebase o src e d (set_src src r)). rewrite local_ingest. destruct err as [x|].
    + set (r1 := ingest cap b (set_src src r)). destruct (local_source _ (set_src src r) (local_ingest b)) as (S1 & _).
      fold r1 in S1. simpl in S1.
      change (set_done (Some x) (rebase o src e d r1)) with (rebase o src (Some x) true (set_done (Some x) r1)).
      rewrite local_finish. destruct (local_source finish (set_done (Some x) r1) local_finish) as (E1 & E2 & E3).
      rewrite E1, E2, E3. simpl. rewrite S1. by eauto 10.
    + apply IH.
Qed.

Lemma drained_done r : (srcDone r = true -> srcErr r <> None) ->
  srcDone (drained r) = true /\ srcErr (drained r) <> None.
Proof.
  intros Hr. unfold drained. destruct (srcDone r) eqn:Ed; [by auto|]. clear Hr Ed.
  generalize (srcs r) as src. intros src. revert r. induction src as [|[b err] src IH]; intros r; cbn [drain].
  - destruct (local_source finish (set_done (Some EOF) (set_src [] r)) local_finish) as (_ & -> & ->). done.
  - destruct err as [x|]; [|apply IH].
    destruct (local_source finish (set_done (Some x) (ingest cap b (set_src src r))) local_finish) as (_ & -> & ->). done.
Qed.

(** Bytes taken off the output are the first bytes of the whole. *)
Lemma drained_take n r :
  w_out (drained r) = take n (w_out r) ++ w_out (drained (set_out (drop n (w_out r)) r)) /\
  st (drained r) = st (drained (set_out (drop n (w_out r)) r)) /\
  srcErr (drained r) = srcErr (drained (set_out (drop n (w_out r)) r)).
Proof.
  set (r' := set_out (drop n (w_out r)) r).
  assert (Hr : r = rebase (take n (w_out r)) (srcs r) (srcErr r) (srcDone r) r').
  { destruct r. unfold rebase, r'. simpl. by rewrite take_drop. }
  unfold drained. change (srcDone r') with (srcDone r). destruct (srcDone r) eqn:Ed.
  - simpl. by rewrite take_drop.
  - change (srcs r') with (srcs r).
    destruct (drain_rebase (take n (w_out r)) (srcs r) (srcs r) (srcErr r) (srcDone r) r') as (l' & e' & E & -> & _).
    rewrite Ed in E. rewrite <- Hr in E. by rewrite E.
Qed.

Lemma drained_read_loop r : drained (read_loop cap (srcs r) r) = drained r.
Proof.
  remember (srcs r) as l eqn:El. revert r El. induction l as [|[b err] l IH]; intros r El; cbn [read_loop].
  - destruct (bool_decide (w_out r = []) && negb (srcDone r)) eqn:E; [|done]. zbool.
    unfold drained at 2. rewrite H1, <- El. cbn [drain]. unfold drained.
    destruct (local_source finish (set_done (Some EOF) (set_src [] r)) local_finish) as (_ & _ & ->). done.
  - destruct (bool_decide (w_out r = []) && negb (srcDone r)) eqn:E; [|done]. zbool.
    destruct (local_source _ (set_src l r) (local_ingest b)) as (S1 & _ & S3). simpl in S1, S3.
    unfold drained at 2. rewrite H1, <- El. cbn [drain]. destruct err as [x|].
    + unfold drained. by destruct (local_source finish (set_done (Some x) (ingest cap b (set_src l r))) local_finish) as (_ & _ & ->).
    + rewrite IH by done. unfold drained. by rewrite S3, H1, S1.
Qed.

Lemma ingest_weight b l r : srcs r = b :: l -> weight (ingest cap (fst b) (set_src l r)) = (weight r - 1)%nat /\
  srcs (ingest cap (fst b) (set_src l r)) = l.
Proof.
  intros Hl. destruct (local_source _ (set_src l r) (local_ingest (fst b))) as (S1 & _ & S3). simpl in S1, S3.
  unfold weight. rewrite S1, S3, Hl. simpl. split; [lia|done].
Qed.

Lemma finish_source r : srcDone (finish r) = srcDone r /\ srcs (finish r) = srcs r /\ srcErr (finish r) = srcErr r.
Proof. by destruct (local_source finish r local_finish) as (? & ? & ?). Qed.

(** The loop of [Read] stops with output or at the end, and never moves back. *)
Lemma read_loop_weight r : (srcDone r = true -> srcErr r <> None) ->
  let r' := read_loop cap (srcs r) r in
  (w_out r' = [] -> srcDone r' = true) /\ (srcDone r' = true -> srcErr r' <> None) /\ (r' = r \/ (weight r' < weight r)%nat).
Proof.
  intros Hr. cbn zeta. remember (srcs r) as l eqn:El. revert r Hr El. induction l as [|[b err] l IH]; intros r Hr El; cbn [read_loop].
  - destruct (bool_decide (w_out r = []) && negb (srcDone r)) eqn:E.
    2: { split_and!; [|done|by left]. intros Hw. rewrite Hw in E. by apply negb_false_iff in E. }
    zbool. destruct (finish_source (set_done (Some EOF) (set_src [] r))) as (F1 & F2 & F3).
    rewrite F1, F3. split_and!; [done|done|]. right. unfold weight. rewrite F1, F2, <- El, H1. simpl. lia.
  - destruct (bool_decide (w_out r = []) && negb (srcDone r)) eqn:E.
    2: { split_and!; [|done|by left]. intros Hw. rewrite Hw in E. by apply negb_false_iff in E. }
    zbool. destruct (ingest_weight (b, err) l r (eq_sym El)) as [Hw Hs]. cbn [fst] in Hw, Hs.
    destruct (local_source _ (set_src l r) (local_ingest b)) as (_ & S2 & S3). simpl in S2, S3.
    assert (Hpos : (0 < weight r)%nat) by (unfold weight; rewrite <- El; simpl; lia).
    set (r1 := ingest cap b (set_src l r)) in *. destruct err as [x|].
    + destruct (finish_source (set_done (Some x) r1)) as (F1 & F2 & F3). rewrite F1, F3. split_and!; [done|done|].
      right. unfold weight in *. rewrite F1, F2. simpl. rewrite S3, H1 in Hw. lia.
    + destruct (IH r1) as (K1 & K2 & K3); [by rewrite S3, S2|done|]. split_and!; [done|done|].
      right. destruct K3 as [ -> |K3]; lia.
Qed.

(** Reading to the end, with any buffer size, terminates and yields what
[drain] computes. *)
Lemma read_all_drained (n : nat) r : (0 < n)%nat -> (srcDone r = true -> srcErr r <> None) ->
  exists fuel e, srcErr (drained r) = Some e /\ read_all cap fuel n r = Some (w_out (drained r), e, st (drained r)).
Proof.
  intros Hn. remember (weight r) as k1 eqn:E1. revert r E1. induction k1 as [k1 IH1] using lt_wf_ind. intros r E1.
  remember (length (w_out r)) as k2 eqn:E2. revert r E1 E2. induction k2 as [k2 IH2] using lt_wf_ind. intros r E1 E2 Hr.
  rewrite <- (drained_read_loop r). destruct (read_loop_weight r Hr) as (K1 & K2 & K3).
  set (r' := read_loop cap (srcs r) r) in *. destruct (decide (w_out r' = [])) as [Hw|Hw].
  - specialize (K1 Hw). specialize (K2 K1). unfold drained. rewrite K1. destruct (srcErr r') as [e|] eqn:Ee; [|done].
    exists 1%nat, e. split; [done|]. cbn [read_all]. unfold Read. fold r'. rewrite bool_decide_eq_true_2, Ee, Hw by done. done.
  - set (r2 := set_out (drop n (w_out r')) r'). destruct (drained_take n r') as (D1 & D2 & D3). fold r2 in D1, D2, D3.
    assert (Hrec : exists fuel e, srcErr (drained r2) = Some e /\ read_all cap fuel n r2 = Some (w_out (drained r2), e, st (drained r2))).
    { assert (Hlen : (length (w_out r2) < length (w_out r'))%nat).
      { unfold r2. simpl. rewrite length_drop. destruct (w_out r'); [done|simpl; lia]. }
      change (weight r') with (weight r2) in K3. destruct K3 as [K3|K3].
      - eapply (IH2 (length (w_out r2))); [|unfold r2; rewrite K3; done|done|done]. rewrite E2, <- K3. lia.
      - eapply (IH1 (weight r2)); [lia|done|done]. }
    destruct Hrec as (fuel & e & He & Hall). exists (S fuel), e. rewrite D1, D2, D3. split; [done|].
    cbn [read_all]. unfold Read. fold r'. rewrite bool_decide_eq_false_2 by done. fold r2. by rewrite Hall.
Qed.

End drain.

(** C11. Reading a rewritten stream terminates: whatever the source, however it
is cut into reads and whatever the buffer, a reader reaches the end after
finitely many reads, and what it got is the stream drained in one pass. *)
Theorem sse_read_terminates {St : Type} {H : MessageHandler St} (cap : Z)
    (src : list (bytes * option read_error)) (s : St) (n : nat) :
  (0 < n)%nat ->
  exists fuel e, srcErr (drain cap src (newSSERewriter src s)) = Some e /\
    read_all cap fuel n (newSSERewriter src s)
    = Some (w_out (drain cap src (newSSERewriter src s)), e, st (drain cap src (newSSERewriter src s))).
Proof. intros Hn. by apply (read_all_drained cap n (newSSERewriter src s)). Qed.
