(* ===== verification/SseEvents.v ===== *)
(** * The rewriter event by event (gateway/sserewrite.go)

Which bytes of a stream the machine changes: an invariant of [ingest] and
[finish] that cuts what has been read into events and relates each to what has
been written.  It holds for every way the source cuts the stream into reads. *)

From S2P Require Export SseDrain.
Local Open Scope Z_scope.
Local Open Scope go_scope.

Definition is_line (l : bytes) : Prop := exists p, l = p ++ [x0a] /\ x0a ∉ p.

Lemma len_concat (ls : list bytes) : len (concat ls) = size_of ls.
Proof.
  induction ls as [|l ls IH] using rev_ind; [done|]. by rewrite concat_snoc, len_app, size_of_snoc, IH.
Qed.

Section events.
Context {St : Type} {H : MessageHandler St} (cap : Z) (s0 : St).

Implicit Types r : sseRewriter St.

(** The states the handler comes to. *)
Inductive visited : St -> Prop :=
| visited_start : visited s0
| visited_handle s m : visited s -> visited (fst (handle m s))
| visited_note s why : visited s -> visited (handler_note why s).

(** The lines of an event and the blank line that ends it. *)
Record event_lines (ls : list bytes) (l : bytes) : Prop := {
  el_lines : Forall is_line ls;
  el_full : Forall (fun l => blank l = false) ls;
  el_last : is_line l;
  el_blank : blank l = true
}.

(** What takes the place of a message the handler does not pass. *)
Definition replacement (o : msgOutcome) : bytes :=
  match verdict o with msgRewrite => out o | _ => jsonrpcError (oid o) (code o) (reason o) end.

(** What becomes of one event: it has no data, or the handler passes its
message, and it leaves as it came; the handler does not, and its data lines
give way to one; it is too large, and it leaves as it came under lax
processing and as an error under strict processing. *)
Inductive event_out : bytes -> bytes -> Prop :=
| event_quiet ls l :
    event_lines ls l -> omap data_of ls = [] -> event_out (concat ls ++ l) (concat ls ++ l)
| event_passed ls l s :
    event_lines ls l -> omap data_of ls <> [] -> visited s ->
    verdict (snd (handle (join [x0a] (omap data_of ls)) s)) = msgPass -> event_out (concat ls ++ l) (concat ls ++ l)
| event_replaced ls l s :
    event_lines ls l -> omap data_of ls <> [] -> visited s ->
    verdict (snd (handle (join [x0a] (omap data_of ls)) s)) <> msgPass ->
    event_out (concat ls ++ l) (replaced ls (replacement (snd (handle (join [x0a] (omap data_of ls)) s))) l)
| event_oversize b s :
    visited s -> handler_strict s = false -> cap < len b -> event_out b b
| event_capped b s :
    visited s -> handler_strict s = true -> cap < len b -> event_out b (cap_error (handler_note cap_reason s)).

(** What may follow the last event: lines without a blank one, or the start of
an event that is too large. *)
Inductive unfinished : bytes -> Prop :=
| rest_open ls p : Forall is_line ls -> Forall (fun l => blank l = false) ls -> x0a ∉ p -> unfinished (concat ls ++ p)
| rest_oversize b s : visited s -> handler_strict s = false -> cap < len b -> unfinished b.

Lemma spec_event_out ls l s : event_lines ls l -> visited s ->
  event_out (concat ls ++ l) (snd (spec_event ls l s)) /\ visited (fst (spec_event ls l s)).
Proof.
  intros Hl Hs. unfold spec_event. destruct (omap data_of ls) as [|d ds] eqn:Ed; [split; [by apply event_quiet|done]|].
  rewrite <- Ed. assert (Hne : omap data_of ls <> []) by by rewrite Ed.
  pose proof (event_passed ls l s Hl Hne Hs) as Hp. pose proof (event_replaced ls l s Hl Hne Hs) as Hr.
  pose proof (visited_handle s (join [x0a] (omap data_of ls)) Hs) as Hv. unfold replacement in Hr.
  destruct (handle (join [x0a] (omap data_of ls)) s) as [s1 o]. cbn [fst snd] in *.
  destruct (verdict o); cbn [fst snd]; (split; [auto|done || by apply visited_note]).
Qed.

(** An event ends in a newline, or is too large. *)
Lemma event_ends b b' : event_out b b' -> x0a ∈ b \/ cap < len b.
Proof.
  assert (Hl : forall ls l, event_lines ls l -> x0a ∈ concat ls ++ l).
  { intros ls l [_ _ (p & -> & _) _]. rewrite !elem_of_app. right; right. by left. }
  intros [ls l He _|ls l s He _ _ _|ls l s He _ _ _|c s _ _ Hc|c s _ _ Hc]; auto.
Qed.

(** ** The invariant

[x] has been read; [cur] is what of it has come since the end of the last
event. *)
Definition pending (cur written : bytes) r : Prop :=
  if raw r then
    discard r = false /\ event_is [] r /\ line r = [] /\ w_out r = written ++ cur /\
    exists s, visited s /\ handler_strict s = false /\ cap < len cur
  else if discard r then
    event_is [] r /\ line r = [] /\
    exists s, visited s /\ handler_strict s = true /\ cap < len cur /\ w_out r = written ++ cap_error (handler_note cap_reason s)
  else
    exists ls, event_is ls r /\ Forall is_line ls /\ Forall (fun l => blank l = false) ls /\ x0a ∉ line r /\
      cur = concat ls ++ line r /\ w_out r = written.

Definition progress (x : bytes) r : Prop :=
  visited (st r) /\
  exists evs evs' cur, x = concat evs ++ cur /\ Forall2 event_out evs evs' /\ pending cur (concat evs') r.

Lemma progress_start src : progress [] (newSSERewriter src s0).
Proof.
  split; [constructor|]. exists [], [], []. split_and!; [done|constructor|]. exists [].
  split_and!; try done; try constructor. apply not_elem_of_nil.
Qed.

(** An event comes to its end. *)
Lemma progress_event x evs evs' b b' r :
  x = concat evs ++ b -> Forall2 event_out evs evs' -> event_out b b' -> visited (st r) ->
  raw r = false -> discard r = false -> event_is [] r -> line r = [] -> w_out r = concat evs' ++ b' -> progress x r.
Proof.
  intros -> HF Hb Hv H1 H2 H3 H4 H5. split; [done|]. exists (evs ++ [b]), (evs' ++ [b']), [].
  rewrite !concat_snoc, app_nil_r. split_and!; [done|by apply Forall2_app; [|constructor]|].
  unfold pending. rewrite H1, H2, H4. exists []. split_and!; try done; try constructor. apply not_elem_of_nil.
Qed.

(** An event becomes too large. *)
Lemma progress_overflow x evs evs' ls tail p r r' :
  x = concat evs ++ concat ls ++ tail -> Forall2 event_out evs evs' -> visited (st r) -> w_out r = concat evs' ->
  cap < size_of ls + len tail ->
  evLines r = ls -> raw r = false -> discard r = false -> line r = [] ->
  r' = resetEvent (if handler_strict (st r) then set_mode (raw r) true (boundary_state p) (emitCapError r)
                   else set_mode true (discard r) (boundary_state p) (write tail (write_all (evLines r) r))) ->
  progress x r'.
Proof.
  intros -> HF Hv Hw Hsz E1 Hr Hd Hl Heq. pose proof (overflow_spec ls tail p r r' E1 Hr Hd Hl Heq) as Ho.
  assert (Hlen : cap < len (concat ls ++ tail)) by (rewrite len_app, len_concat; lia).
  unfold spec_overflow in Ho. destruct (handler_strict (st r)) eqn:Es;
    destruct Ho as (F1 & F2 & F3 & F4 & _ & _ & _ & F8 & F9); rewrite Hw in F2.
  - split; [rewrite F1; by apply visited_note|]. exists evs, evs', (concat ls ++ tail).
    split_and!; [done|done|]. unfold pending. rewrite F8, F9. split_and!; [done|done|]. exists (st r). by split_and!.
  - split; [by rewrite F1|]. exists evs, evs', (concat ls ++ tail). split_and!; [done|done|].
    unfold pending. rewrite F8, F9. split_and!; [done..|]. exists (st r). by split_and!.
Qed.

(** A line is completed. *)
Lemma progress_line x l r :
  progress x r -> raw r = false -> discard r = false -> x0a ∉ l ->
  progress (x ++ l ++ [x0a]) (completeLine cap (line r ++ l ++ [x0a]) (set_line [] r)).
Proof.
  intros (Hv & evs & evs' & cur & -> & HF & Hp) Hr Hd Hl. unfold pending in Hp. rewrite Hr, Hd in Hp.
  destruct Hp as (ls & Hev & H1 & H2 & H3 & -> & Hw). set (l' := line r ++ l ++ [x0a]).
  assert (Hl' : is_line l').
  { exists (line r ++ l). unfold l'. rewrite app_assoc. split; [done|]. rewrite elem_of_app. tauto. }
  assert (Hx : (concat evs ++ concat ls ++ line r) ++ l ++ [x0a] = concat evs ++ concat ls ++ l')
    by (unfold l'; by rewrite <- !app_assoc).
  rewrite Hx. unfold completeLine. fold (blank l'). destruct (blank l') eqn:Eb.
  - assert (He : event_lines ls l') by done. pose proof (finishEvent_spec ls l' (set_line [] r) Hev) as Hf.
    destruct (spec_event_out ls l' (st r) He Hv) as [Ho Hs]. change (st (set_line [] r)) with (st r) in Hf.
    destruct (spec_event ls l' (st r)) as [s1 o]. cbn [fst snd] in *. destruct Hf as (F1 & F2 & F3 & F4 & F5 & F6 & _).
    eapply progress_event; [done|exact HF|exact Ho|by rewrite F1|by rewrite F4|by rewrite F5|done|by rewrite F6|].
    rewrite F2. cbn [w_out set_line]. by rewrite Hw.
  - change (evSize (set_line [] r)) with (evSize r). rewrite (proj2 (proj2 (proj2 Hev))).
    destruct (cap <? size_of ls + len l') eqn:E; zbool.
    + set (r1 := set_event _ _ _ _ (set_line [] r)).
      apply (progress_overflow _ evs evs' ls l' [] r1 (overflowLine l' r1)); [done|done|exact Hv|exact Hw|done|apply Hev|done..].
    + destruct Hev as (G1 & G2 & G3 & G4). split; [done|]. exists evs, evs', (concat ls ++ l'). split_and!; [done|done|].
      unfold pending. cbn [raw discard set_event set_line]. rewrite Hr, Hd. exists (ls ++ [l']).
      rewrite concat_snoc, app_nil_r. split_and!; try done.
      * unfold event_is. cbn [evLines evIsData evData evSize set_event set_line].
        rewrite G1, G2, G3, map_app, omap_app, size_of_snoc. simpl. unfold data_of, is_data. split_and!; try done.
        destruct (has_prefix (trimEOL l') data_prefix); by rewrite ?app_nil_r.
      * by apply Forall_app; split; [|constructor].
      * by apply Forall_app; split; [|constructor].
      * apply not_elem_of_nil.
Qed.

(** Part of a line arrives. *)
Lemma progress_part x l r :
  progress x r -> raw r = false -> discard r = false -> x0a ∉ l ->
  let r1 := set_line (line r ++ l) r in
  progress (x ++ l) (if cap <? len (line r1) + evSize r1 then overflowPartial r1 else r1).
Proof.
  intros (Hv & evs & evs' & cur & -> & HF & Hp) Hr Hd Hl r1. unfold pending in Hp. rewrite Hr, Hd in Hp.
  destruct Hp as (ls & Hev & H1 & H2 & H3 & -> & Hw).
  assert (Hx : (concat evs ++ concat ls ++ line r) ++ l = concat evs ++ concat ls ++ line r1)
    by (unfold r1; cbn [line set_line]; by rewrite <- !app_assoc).
  rewrite Hx. change (evSize r1) with (evSize r). rewrite (proj2 (proj2 (proj2 Hev))).
  destruct (cap <? len (line r1) + size_of ls) eqn:E; zbool.
  - eapply (progress_overflow _ evs evs' ls (line r1) [x61] (set_line [] r1)); [done|done|exact Hv|exact Hw|lia|apply Hev|done..].
  - split; [done|]. exists evs, evs', (concat ls ++ line r1). split_and!; [done|done|]. unfold pending.
    change (raw r1) with (raw r). change (discard r1) with (discard r). rewrite Hr, Hd. exists ls. split_and!; try done.
    unfold r1. cbn [line set_line]. rewrite elem_of_app. tauto.
Qed.

(** An event too large to collect goes on, or comes to its end. *)
Lemma progress_boundary x b b' r r' :
  progress x r -> raw r || discard r = true -> scanBoundary b r = (b', r') -> exists b1, b = b1 ++ b' /\ progress (x ++ b1) r'.
Proof.
  intros (Hv & evs & evs' & cur & -> & HF & Hp) Hm. unfold scanBoundary.
  assert (Hlong : forall b1, len cur <= len (cur ++ b1)) by (intros b1; rewrite len_app; pose proof (len_nonneg b1); lia).
  unfold pending in Hp. destruct (raw r) eqn:Hr; [|destruct (discard r) eqn:Hd; [|done]].
  - destruct Hp as (Hd & Hev & Hli & Hw & s & Hs & Hss & Hlen).
    destruct (find_boundary b (bstate r)) as [[n|] bs]; intros [= <- <-].
    + exists (take n b). rewrite take_drop, <- app_assoc. split; [done|]. specialize (Hlong (take n b)).
      eapply progress_event; [done|exact HF|apply (event_oversize (cur ++ take n b) s Hs Hss); lia|done..|].
      cbn [w_out write set_mode]. by rewrite Hw, <- !app_assoc.
    + exists b. rewrite app_nil_r. split; [done|]. specialize (Hlong b). cbn [raw set_mode]. rewrite ?Hr.
      split; [done|]. exists evs, evs', (cur ++ b). rewrite app_assoc. split_and!; [done|done|]. unfold pending.
      cbn [raw discard write set_mode w_out]. rewrite ?Hr, ?Hw. split_and!; try done; [by rewrite app_assoc|].
      exists s. split_and!; [done..|lia].
  - destruct Hp as (Hev & Hli & s & Hs & Hss & Hlen & Hw).
    destruct (find_boundary b (bstate r)) as [[n|] bs]; intros [= <- <-].
    + exists (take n b). rewrite take_drop, <- app_assoc. split; [done|]. specialize (Hlong (take n b)).
      eapply progress_event; [done|exact HF|apply (event_capped (cur ++ take n b) s Hs Hss); lia|done..].
    + exists b. rewrite app_nil_r. split; [done|]. specialize (Hlong b). cbn [raw set_mode]. rewrite ?Hr.
      split; [done|]. exists evs, evs', (cur ++ b). rewrite app_assoc. split_and!; [done|done|]. unfold pending.
      cbn [raw discard set_mode w_out]. rewrite ?Hr, ?Hd. split_and!; try done. exists s. split_and!; [done..|lia|done].
Qed.

Lemma progress_ingest fuel x b r :
  (length b <= fuel)%nat -> progress x r -> progress (x ++ b) (ingest_loop cap fuel b r).
Proof.
  revert x b r. induction fuel as [|fuel IH]; intros x b r Hf Hp.
  { destruct b; [by rewrite app_nil_r|simpl in Hf; lia]. }
  destruct b as [|c b]; [by rewrite app_nil_r|]. cbn [ingest_loop]. set (b0 := c :: b) in *.
  destruct (raw r || discard r) eqn:Em.
  - destruct (scanBoundary b0 r) as [b' r1] eqn:Es.
    destruct (progress_boundary x b0 b' r r1 Hp Em Es) as (b1 & Hb & Hp1). rewrite Hb, app_assoc. apply IH; [|done].
    assert (Hlt : (length b' < length b0)%nat); [|lia]. unfold scanBoundary in Es.
    destruct (find_boundary b0 (bstate r)) as [[n|] bs] eqn:Ef; injection Es as <- _; [|simpl; lia].
    rewrite length_drop. destruct n as [|n]; [|simpl; lia]. exfalso. revert Ef. unfold b0. cbn [find_boundary].
    repeat case_match; intros; simplify_eq.
  - apply orb_false_iff in Em as [Hr Hd]. destruct (split_byte x0a b0) as [[l b']|] eqn:Es.
    + apply split_byte_Some in Es as [Hb Hl]. assert (Hb2 : b0 = (l ++ [x0a]) ++ b') by by rewrite <- app_assoc.
      rewrite Hb2, app_assoc. apply IH; [|by apply progress_line].
      rewrite Hb2, !length_app in Hf. simpl in Hf. lia.
    + apply split_byte_None in Es. by apply progress_part.
Qed.

(** What [finish] leaves. *)
Definition cut (x y : bytes) : Prop :=
  exists evs evs' rest, x = concat evs ++ rest /\ y = concat evs' ++ rest /\ Forall2 event_out evs evs' /\ unfinished rest.

Lemma progress_finish x r : progress x r -> cut x (w_out (finish r)).
Proof.
  intros (Hv & evs & evs' & cur & -> & HF & Hp). unfold finish, pending in *. destruct (raw r) eqn:Hr; cbn [orb].
  - destruct Hp as (_ & _ & _ & Hw & s & Hs1 & Hs2 & Hs3). exists evs, evs', cur. split_and!; [done..|]. by apply (rest_oversize cur s).
  - destruct (discard r) eqn:Hd.
    + destruct Hp as (_ & _ & s & Hs & Hss & Hlen & Hw). exists (evs ++ [cur]), (evs' ++ [cap_error (handler_note cap_reason s)]), [].
      rewrite !concat_snoc, !app_nil_r. split_and!; [done|done| |apply (rest_open [] []); [constructor|constructor|apply not_elem_of_nil]].
      apply Forall2_app; [done|]. constructor; [by apply event_capped|constructor].
    + destruct Hp as (ls & (E1 & _) & H1 & H2 & H3 & -> & Hw). exists evs, evs', (concat ls ++ line r).
      split_and!; [done| |done|by apply rest_open].
      destruct (write_all_fields (evLines r) r) as (F2 & _). cbn [w_out write set_line resetEvent set_event].
      by rewrite F2, Hw, E1, <- !app_assoc.
Qed.

Lemma progress_drain src x r : progress x r -> cut (x ++ stream src) (w_out (drain cap src r)).
Proof.
  revert x r. induction src as [|[b err] src IH]; intros x r Hp; cbn [drain stream].
  - rewrite app_nil_r. by apply progress_finish.
  - assert (Hb : progress (x ++ b) (ingest cap b (set_src src r))) by (apply progress_ingest; [done|exact Hp]).
    destruct err as [e|]; [by apply progress_finish|]. rewrite app_assoc. by apply IH.
Qed.

Lemma drain_cut src : cut (stream src) (w_out (drain cap src (newSSERewriter src s0))).
Proof. apply (progress_drain src []), progress_start. Qed.

End events.

