(* ===== verification/SseSafety.v ===== *)
(** * What the event-stream rewriter guarantees

What a client that reads the rewritten stream can be shown, under strict
processing and under none; the events are those of [SseEvents]. *)

From S2P Require Export FilterBodies SseEvents.
Local Open Scope Z_scope.
Local Open Scope go_scope.

Lemma lines_from_concat p x : concat (fst (lines_from p x)) ++ snd (lines_from p x) = p ++ x.
Proof.
  revert p. induction x as [|c x IH]; intros p; [by rewrite app_nil_r|]. simpl.
  specialize (IH []) as IH0. destruct (Byte.eqb c x0a).
  - destruct (lines_from [] x) as [ls q]. simpl in *. by rewrite <- !app_assoc, IH0.
  - rewrite IH. by rewrite <- app_assoc.
Qed.

(** ** No data line hides in a payload

A replacement payload is JSON text.  White space in it may hold newlines, but
no line after the first starts with the [d] of [data]. *)

Fixpoint line_scan (start : bool) (s : bytes) : bool :=
  match s with
  | [] => true
  | c :: t => negb (start && Byte.eqb c x64) && line_scan (Byte.eqb c x0a) t
  end.

Lemma line_scan_weaken s b : line_scan true s = true -> line_scan b s = true.
Proof. destruct s as [|c t]; [done|]. simpl. destruct (Byte.eqb c x64); [done|]. by destruct b. Qed.

Lemma line_scan_app b s t : line_scan b s = true -> line_scan true t = true -> line_scan b (s ++ t) = true.
Proof.
  revert b. induction s as [|c s IH]; intros b; simpl; [intros _; apply line_scan_weaken|].
  intros [-> Hs]%andb_true_iff Ht. by apply IH.
Qed.

Lemma line_scan_no_d b s : x64 ∉ s -> line_scan b s = true.
Proof.
  revert b. induction s as [|c s IH]; intros b H; [done|]. simpl. apply not_elem_of_cons in H as [Hc Hs].
  rewrite (proj2 (byte_eqb_neq c x64)) by congruence. rewrite andb_false_r. by apply IH.
Qed.

Lemma line_scan_no_nl s : x0a ∉ s -> line_scan false s = true.
Proof.
  induction s as [|c s IH]; intros H; [done|]. simpl. apply not_elem_of_cons in H as [Hc Hs].
  rewrite (proj2 (byte_eqb_neq c x0a)) by congruence. by apply IH.
Qed.

Lemma all_ws_no_d w : all_ws w = true -> x64 ∉ w.
Proof.
  unfold all_ws. rewrite forallb_Forall, Forall_forall. intros H Hin. specialize (H _ Hin). by vm_compute in H.
Qed.

Lemma str_no_nl s : str_ok s = true -> x0a ∉ s.
Proof.
  unfold str_ok. generalize SIn. induction s as [|c s IH]; intros st; [by intros _ ?%elem_of_nil|]. simpl.
  destruct (str_step st c) as [st'|] eqn:E; [|done]. intros H. apply not_elem_of_cons. split; [|by eapply IH].
  intros <-. destruct st as [| |[|n]]; vm_compute in E; done.
Qed.

Lemma num_no_d l : num_ok l = true -> x64 ∉ l.
Proof.
  unfold num_ok. generalize NStart. induction l as [|c l IH]; intros st; [by intros _ ?%elem_of_nil|]. simpl.
  destruct (num_step st c) as [st'|] eqn:E; [|done]. intros H. apply not_elem_of_cons. split; [|by eapply IH].
  intros <-. by rewrite num_step_stop in E.
Qed.

Lemma line_scan_quoted s : str_ok s = true -> line_scan true (quoted s) = true.
Proof.
  intros H%str_no_nl. unfold quoted. simpl. apply line_scan_no_nl. rewrite elem_of_app, list_elem_of_singleton.
  by intros [?|?].
Qed.

Lemma line_scan_join (ls : list bytes) :
  Forall (fun l => line_scan true l = true) ls -> line_scan true (join [x2c] ls) = true.
Proof.
  induction 1 as [|l ls Hl Hls IH]; [done|]. destruct ls as [|l' ls]; [done|]. rewrite join_cons by done.
  apply line_scan_app; [done|]. by apply line_scan_app.
Qed.

Lemma line_scan_ws w s : all_ws w = true -> line_scan true s = true -> line_scan true (w ++ s) = true.
Proof. intros Hw. apply line_scan_app. by apply line_scan_no_d, all_ws_no_d. Qed.

Lemma inner_ws {A} w (l : list A) : inner_ok w l = true -> all_ws w = true.
Proof. destruct l; [done|]. simpl. by intros ->%bool_decide_eq_true. Qed.

Lemma Forall_and_2 {A} (P Q : A -> Prop) l : Forall P l -> Forall Q l -> Forall (fun x => P x /\ Q x) l.
Proof. induction 1; inversion 1; subst; constructor; auto. Qed.

Lemma line_scan_render j : wf j = true -> line_scan true (render j) = true.
Proof.
  induction j as [| | |l|s|w es IH|w ms IH] using json_nested_ind; intros Hwf; try done.
  - by apply line_scan_no_d, num_no_d.
  - by apply line_scan_quoted.
  - cbn [wf] in Hwf. apply andb_true_iff in Hwf as [Hw Hes]. rewrite forallb_Forall in Hes.
    cbn [render]. apply (line_scan_app true [x5b]); [done|]. apply line_scan_ws; [by eapply inner_ws|].
    apply line_scan_app; [|done]. apply line_scan_join, Forall_map.
    apply (Forall_impl _ _ _ (Forall_and_2 _ _ _ IH Hes)). intros e [He [Hg Hv]%andb_true_iff].
    unfold gap_ok in Hg. zbool. unfold render_elem. apply line_scan_ws; [done|].
    apply line_scan_app; [by apply He|]. by apply line_scan_no_d, all_ws_no_d.
  - cbn [wf] in Hwf. apply andb_true_iff in Hwf as [Hw Hms]. rewrite forallb_Forall in Hms.
    cbn [render]. apply (line_scan_app true [x7b]); [done|]. apply line_scan_ws; [by eapply inner_ws|].
    apply line_scan_app; [|done]. apply line_scan_join, Forall_map.
    apply (Forall_impl _ _ _ (Forall_and_2 _ _ _ IH Hms)). intros m [Hm [Hg Hv]%andb_true_iff].
    unfold mgap_ok in Hg. zbool. unfold render_member. apply line_scan_ws; [done|].
    apply line_scan_app; [by apply line_scan_quoted|]. apply line_scan_ws; [done|].
    apply (line_scan_app true [x3a]); [done|]. apply line_scan_ws; [done|].
    apply line_scan_app; [by apply Hm|]. by apply line_scan_no_d, all_ws_no_d.
Qed.

(** ** A client

What a reader of event streams is shown whose lines end in a newline, with or
without a carriage return before it: the payloads of its events, in order. *)
Definition client_step (acc : list bytes * list bytes) (l : bytes) : list bytes * list bytes :=
  let '(ds, evs) := acc in
  if blank l then ([], evs ++ (if bool_decide (ds = []) then [] else [join [x0a] ds]))
  else (ds ++ option_list (data_of l), evs).

Definition client_run (acc : list bytes * list bytes) (ls : list bytes) : list bytes * list bytes :=
  fold_left client_step ls acc.

Definition client_events (x : bytes) : list bytes := snd (client_run ([], []) (fst (lines_of x))).

Lemma lines_of_lines ls t : Forall is_line ls -> lines_of (concat ls ++ t) = (ls ++ fst (lines_of t), snd (lines_of t)).
Proof.
  induction 1 as [|l ls (p & -> & Hp) _ IH]; simpl; [by destruct (lines_of t)|]. rewrite <- !app_assoc. simpl.
  unfold lines_of at 1. rewrite (lines_from_split [] p) by done. by rewrite IH.
Qed.

Lemma lines_from_lines p x : x0a ∉ p -> Forall is_line (fst (lines_from p x)).
Proof.
  revert p. induction x as [|c x IH]; intros p Hp; [constructor|]. simpl. destruct (Byte.eqb c x0a) eqn:Ec.
  - apply byte_eqb_eq in Ec as ->. specialize (IH [] ltac:(apply not_elem_of_nil)).
    destruct (lines_from [] x) as [ls q]. constructor; [by exists p|done].
  - apply IH. rewrite elem_of_app, list_elem_of_singleton. intros [?|<-]; [done|by vm_compute in Ec].
Qed.

Lemma lines_of_are_lines x : Forall is_line (fst (lines_of x)).
Proof. apply lines_from_lines, not_elem_of_nil. Qed.

Lemma client_run_acc ds evs ls :
  client_run (ds, evs) ls = (fst (client_run (ds, []) ls), evs ++ snd (client_run (ds, []) ls)).
Proof.
  unfold client_run. revert ds evs. induction ls as [|l ls IH]; intros ds evs; simpl; [by rewrite app_nil_r|].
  destruct (blank l); [|apply IH]. rewrite IH, (IH [] (if bool_decide (ds = []) then [] else _)). simpl.
  by rewrite app_assoc.
Qed.

(** A text made of whole events, and what it shows. *)
Definition shows (x : bytes) (evs : list bytes) : Prop :=
  exists ls, Forall is_line ls /\ x = concat ls /\ client_run ([], []) ls = ([], evs).

Lemma shows_app x y a b : shows x a -> shows y b -> shows (x ++ y) (a ++ b).
Proof.
  intros (ls & H1 & -> & H2) (ls' & H3 & -> & H4). exists (ls ++ ls').
  split_and!; [by apply Forall_app|by rewrite concat_app|].
  unfold client_run in *. rewrite fold_left_app, H2. fold (client_run ([], a) ls'). rewrite client_run_acc.
  unfold client_run. by rewrite H4.
Qed.

Lemma shows_events x evs t :
  shows x evs -> client_events (x ++ t) = evs ++ client_events t.
Proof.
  intros (ls & H1 & -> & H2). unfold client_events. rewrite lines_of_lines by done. cbn [fst].
  unfold client_run in *. rewrite fold_left_app, H2. fold (client_run ([], evs) (fst (lines_of t))).
  by rewrite client_run_acc.
Qed.

Lemma client_plain ds evs ls :
  Forall (fun l => blank l = false) ls -> client_run (ds, evs) ls = (ds ++ omap data_of ls, evs).
Proof.
  intros H. revert ds. induction H as [|l ls Hl _ IH]; intros ds; simpl; [by rewrite app_nil_r|].
  unfold client_run in *. simpl. rewrite Hl, IH. simpl. destruct (data_of l); simpl; by rewrite <- ?app_assoc, ?app_nil_r.
Qed.

Lemma client_blank ds evs l : blank l = true ->
  client_run (ds, evs) [l] = ([], evs ++ (if bool_decide (ds = []) then [] else [join [x0a] ds])).
Proof. unfold client_run. simpl. by intros ->. Qed.

(** Lines without data show nothing new. *)
Lemma client_quiet ds evs ls :
  Forall (fun l => data_of l = None) ls ->
  client_run (ds, evs) ls = (ds, evs) \/
  client_run (ds, evs) ls = ([], evs ++ (if bool_decide (ds = []) then [] else [join [x0a] ds])).
Proof.
  intros H. unfold client_run. revert ds evs. induction H as [|l ls Hl _ IH]; intros ds evs; simpl; [by left|].
  rewrite Hl. simpl. destruct (blank l); [right|by rewrite app_nil_r; apply IH].
  destruct (IH [] (evs ++ (if bool_decide (ds = []) then [] else [join [x0a] ds]))) as [->| ->]; [done|].
  by rewrite (bool_decide_eq_true_2 (@nil bytes = [])), app_nil_r by done.
Qed.

Lemma client_quiet_end ds evs ls l :
  Forall (fun l => data_of l = None) ls -> blank l = true ->
  client_run (ds, evs) (ls ++ [l]) = ([], evs ++ (if bool_decide (ds = []) then [] else [join [x0a] ds])).
Proof.
  intros Hq Hl. unfold client_run. rewrite fold_left_app.
  change (client_run (client_run (ds, evs) ls) [l]
    = ([], evs ++ (if bool_decide (ds = []) then [] else [join [x0a] ds]))).
  destruct (client_quiet ds evs ls Hq) as [->| ->]; [by apply client_blank|].
  rewrite (client_blank [] _ l Hl). by rewrite (bool_decide_eq_true_2 (@nil bytes = [])), app_nil_r by done.
Qed.

Lemma passed_shows ls l :
  Forall is_line ls -> Forall (fun l => blank l = false) ls -> is_line l -> blank l = true ->
  shows (concat ls ++ l) (if bool_decide (omap data_of ls = []) then [] else [join [x0a] (omap data_of ls)]).
Proof.
  intros H1 H2 H3 H4. exists (ls ++ [l]). split_and!.
  - apply Forall_app. by split; [|constructor].
  - by rewrite concat_snoc.
  - unfold client_run. rewrite fold_left_app. fold (client_run ([], []) ls). rewrite client_plain by done.
    by apply client_blank.
Qed.

(** ** Replaced events *)

Lemma data_of_not_d l : head l <> Some x64 -> data_of l = None.
Proof.
  intros Hh. unfold data_of, is_data. destruct (has_prefix (trimEOL l) data_prefix) eqn:E; [|done].
  apply has_prefix_spec in E as [t E]. exfalso. apply Hh. unfold trimEOL, trim_suffix in E.
  assert (Hl : exists n, take n l = data_prefix ++ t).
  { repeat case_match; rewrite <- ?E; try (by eexists); [..|exists (length l); by rewrite take_ge by lia].
    eexists. by rewrite take_take. }
  destruct Hl as [n Hn]. destruct l as [|c l]; [by rewrite take_nil in Hn|]. destruct n; [done|].
  simpl in Hn. by injection Hn as -> _.
Qed.

(** The lines after the first of a payload hold no data. *)
Lemma quiet_lines x : line_scan true x = true -> Forall (fun l => data_of l = None) (fst (lines_of x)).
Proof.
  unfold lines_of. assert (Hgen : forall p b, line_scan b x = true ->
    (p <> [] -> head p <> Some x64) -> (p = [] -> b = true) ->
    Forall (fun l => data_of l = None) (fst (lines_from p x))); [|by intros Hx; apply (Hgen [] true)].
  induction x as [|c x IH]; intros p b Hs Hp Hb; [constructor|]. simpl in Hs |- *.
  apply andb_true_iff in Hs as [Hc Hs].
  assert (Hh : head (p ++ [c]) <> Some x64).
  { destruct p as [|c0 p]; [|by apply Hp]. rewrite Hb in Hc by done. intros [= ->]. done. }
  destruct (Byte.eqb c x0a) eqn:Ec.
  - specialize (IH [] true Hs ltac:(done) ltac:(done)). destruct (lines_from [] x) as [ls q].
    constructor; [by apply data_of_not_d|exact IH].
  - apply (IH (p ++ [c]) false Hs); [done|]. by destruct p.
Qed.

Lemma trim_line p : trimEOL (p ++ [x0a]) = trim_suffix p [x0d].
Proof. unfold trimEOL. by rewrite trim_suffix_app. Qed.

Lemma data_first a : x0a ∉ a -> blank ("data: " ++ a ++ [x0a]) = false /\
  exists v, data_of ("data: " ++ a ++ [x0a]) = Some v /\ (v = a \/ a = v ++ [x0d]).
Proof.
  intros Ha. change ("data: " ++ a ++ [x0a]) with (("data: " ++ a) ++ [x0a]). rewrite blank_line.
  split; [by rewrite bool_decide_eq_false_2 by by intros []|].
  unfold data_of, is_data. rewrite trim_line. unfold trim_suffix.
  destruct (has_suffix ("data: " ++ a) [x0d]) eqn:Es.
  - apply has_suffix_spec in Es as [t Et]. rewrite Et, length_app. simpl length.
    rewrite take_app_le by lia. rewrite take_ge by lia.
    destruct a as [|c a _] using rev_ind; [by destruct t as [|? [|? [|? [|? [|? [|? [|? t]]]]]]]|].
    rewrite app_assoc in Et. apply app_inj_tail in Et as [<- ->].
    exists a. split; [done|by right].
  - exists a. split; [done|by left].
Qed.

Lemma Forall_kept (P : bytes -> Prop) ls :
  Forall P ls -> Forall P (filter (fun l => is_data l = false) ls).
Proof. rewrite !Forall_forall. intros H x [_ Hx]%list_elem_of_filter. by apply H. Qed.

(** A replaced event shows one payload: the replacement, or what precedes the
first newline in it. *)
Lemma replaced_shows ls l payload :
  Forall is_line ls -> Forall (fun l => blank l = false) ls -> is_line l -> blank l = true ->
  line_scan true payload = true -> last payload = Some x7d ->
  exists v, shows (replaced ls payload l) [v] /\
    (v = payload \/ exists c t, (c = x0d \/ c = x0a) /\ payload = v ++ c :: t).
Proof.
  intros H1 H2 H3 H4 H5 H6. unfold replaced.
  set (others := filter (fun l => is_data l = false) ls).
  assert (Ho : Forall is_line others /\ Forall (fun l => blank l = false) others /\ omap data_of others = []).
  { split_and!; [by apply Forall_kept..|]. subst others. clear. induction ls as [|l ls IH]; [done|].
    rewrite filter_cons. case_decide as E; [|done]. simpl. unfold data_of at 1. by rewrite E. }
  destruct Ho as (Ho1 & Ho2 & Ho3).
  assert (Hfirst : exists a rest, payload ++ [x0a] = (a ++ [x0a]) ++ rest /\ x0a ∉ a /\ snd (lines_of rest) = [] /\
    line_scan true rest = true /\ ((rest = [] /\ a = payload) \/ exists t, payload = a ++ x0a :: t)).
  { destruct (split_byte x0a payload) as [[a t]|] eqn:Es.
    - apply split_byte_Some in Es as [-> Ha]. exists a, (t ++ [x0a]). split_and!; [by rewrite <- !app_assoc|done| | |].
      + rewrite lines_of_app. simpl. by destruct (snd (lines_of t)).
      + apply line_scan_app; [|done]. clear -H5. revert H5. generalize true at 1.
        induction a as [|c a IH]; intros b; simpl; [by intros [_ ?]%andb_true_iff|]. intros [_ H]%andb_true_iff. by eapply IH.
      + right. by exists t.
    - apply split_byte_None in Es. exists payload, []. split_and!; try done; [by rewrite app_nil_r|by left]. }
  destruct Hfirst as (a & rest & Hp & Ha & Hr & Hsc & Hcase).
  destruct (data_first a Ha) as (Hb & v & Hd & Hv).
  exists v. split.
  - exists (others ++ ("data: " ++ a ++ [x0a]) :: fst (lines_of rest) ++ [l]). split_and!.
    + apply Forall_app. split; [done|]. constructor.
      * exists ("data: " ++ a). split; [done|]. rewrite elem_of_app. intros [H|H]; [|done].
        revert H. apply (bool_decide_unpack _). by vm_compute.
      * apply Forall_app. split; [apply lines_of_are_lines|by constructor].
    + rewrite concat_app. f_equal. cbn [concat]. rewrite concat_snoc. pose proof (lines_from_concat [] rest) as Hc.
      fold (lines_of rest) in Hc. rewrite Hr, app_nil_r in Hc. rewrite Hc. simpl. do 6 f_equal.
      change (payload ++ x0a :: l) with (payload ++ [x0a] ++ l). by rewrite app_assoc, Hp, <- !app_assoc.
    + unfold client_run. rewrite fold_left_app. fold (client_run ([], []) others). rewrite client_plain, Ho3 by done.
      set (f := "data: " ++ a ++ [x0a]) in *. cbn [fold_left app]. unfold client_step at 2. rewrite Hb, Hd. cbn [option_list app].
      change (client_run ([v], []) (fst (lines_of rest) ++ [l]) = ([], [v])).
      rewrite client_quiet_end; [done|by apply quiet_lines|done].
  - destruct Hcase as [[_ ->]|[t Ht]]; destruct Hv as [->| ->].
    + by left.
    + rewrite last_snoc in H6. done.
    + right. exists x0a, t. split; [by right|done].
    + right. exists x0d, (x0a :: t). split; [by left|]. by rewrite Ht, <- app_assoc.
Qed.

(** ** Payloads *)

Section safety.
Context {L : GoLib} {E : ScanEnv}.

(** A payload that shows no tool it should not: if it answers a listing, by an id
that is not also that of a scanned call, every tool has an allowed name. *)
Definition safe_payload (s : rewriteState) (d : bytes) : Prop := forall p,
  candidate s d p -> ~ scanned_id s (rp_id p) -> exists elems, listed_tools d = Some elems /\ Forall (named_allowed (policy s)) elems.

Lemma unread_safe s d : resp_probe d = None -> safe_payload s d.
Proof. intros H p [Hp _]. congruence. Qed.

(** What precedes a newline in an object is no document. *)
Lemma cut_unread w ms v c t :
  good (JObj w ms) -> render (JObj w ms) = v ++ c :: t -> c = x0d \/ c = x0a -> resp_probe v = None.
Proof.
  intros Hg Hr Hc. unfold resp_probe, unmarshal. destruct (parse_doc v) as [j|] eqn:Ev; [exfalso|done].
  apply parse_doc_spec in Ev as (w1 & w2 & Hw1 & Hw2 & -> & Hgj).
  assert (Hct : num_stop (c :: t) = true) by by destruct Hc as [->| ->].
  pose proof (parse_prefix_complete w1 j (w2 ++ c :: t) Hw1 Hgj (all_ws_num_stop _ _ Hw2 Hct)) as Hp.
  pose proof (parse_doc_render _ Hg) as Hd. unfold parse_doc in Hd. rewrite Hr in Hd.
  rewrite <- !app_assoc in Hd. rewrite Hp in Hd.
  destruct (all_ws (w2 ++ c :: t)) eqn:Ew; [|done].
  assert (Hlast : last (render (JObj w ms)) = Some x7d).
  { cbn [render]. rewrite !app_assoc. by rewrite last_snoc. }
  rewrite Hr, <- !app_assoc in Hlast. unfold all_ws in Ew. rewrite forallb_Forall, Forall_forall in Ew.
  rewrite !app_assoc, last_app in Hlast. cbn [last] in Hlast.
  assert (Hin : x7d ∈ w2 ++ c :: t); [|specialize (Ew _ Hin); by vm_compute in Ew].
  apply elem_of_app. right. destruct (last (c :: t)) as [b|] eqn:El; [|by apply last_None in El].
  simplify_eq. apply last_Some in El as [t' ->]. apply elem_of_app. right. by left.
Qed.

Lemma error_probe jid code msg :
  code ∈ codes -> good jid -> depth jid + 1 <= max_nesting ->
  exists p, resp_probe (render (error_json jid code msg)) = Some p /\ error_response p = true.
Proof.
  intros Hc Hg Hd. unfold resp_probe, unmarshal. rewrite parse_doc_render by by apply error_json_good.
  eexists. split; [reflexivity|]. done.
Qed.

(** The errors the gateway writes are objects a client takes for no listing. *)
Lemma error_payload id code msg :
  code ∈ codes -> raw_at 1 id -> exists ms, jsonrpcError id code msg = render (JObj [] ms) /\ good (JObj [] ms) /\
    forall s, safe_payload s (jsonrpcError id code msg).
Proof.
  intros Hc Hid.
  assert (H : exists jid, good jid /\ depth jid + 1 <= max_nesting /\ jsonrpcError id code msg = render (error_json jid code msg)).
  { destruct Hid as [->|(jid & -> & Hg & Hd)].
    - exists JNull. split_and!; [done|done|]. by apply (jsonrpcError_render "null").
    - exists jid. split_and!; [done|done|]. apply jsonrpcError_render; [done|].
      intros E0. pose proof (len_render jid Hg) as Hl. by rewrite E0 in Hl. }
  destruct H as (jid & Hg & Hd & ->). eexists. split; [reflexivity|]. split; [by apply error_json_good|].
  intros s p (Hp & _ & _ & He). destruct (error_probe jid code msg Hc Hg Hd) as (p' & Hp' & He'). congruence.
Qed.

Lemma object_shows ls l w ms payload :
  Forall is_line ls -> Forall (fun l => blank l = false) ls -> is_line l -> blank l = true ->
  payload = render (JObj w ms) -> good (JObj w ms) ->
  exists v, shows (replaced ls payload l) [v] /\ (v = payload \/ resp_probe v = None).
Proof.
  intros H1 H2 H3 H4 -> Hg. destruct (replaced_shows ls l (render (JObj w ms))) as (v & Hv & Hc); try done.
  - apply line_scan_render, Hg.
  - cbn [render]. rewrite !app_assoc. by rewrite last_snoc.
  - exists v. split; [done|]. destruct Hc as [->|(c & t & Hc & Hr)]; [by left|right]. by eapply cut_unread.
Qed.

Lemma raw_at_weaken k r : 1 <= k -> raw_at k r -> raw_at 1 r.
Proof. intros Hk [->|(j & Hr & Hg & Hd)]; [by left|]. right. exists j. split_and!; [done..|lia]. Qed.

Lemma probe_id_raw m p : resp_probe m = Some p -> raw_at 1 (rp_id p).
Proof.
  intros Hp. destruct (resp_probe_doc m p Hp) as [j Hj]. pose proof (parse_doc_good _ _ Hj) as [_ Hd].
  destruct (resp_probe_at m p j Hp Hj) as (_ & Hid & _). eapply raw_at_weaken; [|exact Hid]. lia.
Qed.

Lemma strictCode_code s : strictCode s ∈ codes.
Proof. unfold strictCode, codes. repeat case_match; set_solver. Qed.

Lemma check_lock_block p elems s s' o :
  check_lock p elems s = (s', Some o) -> code o = -32004 /\ oid o = rp_id p.
Proof. unfold check_lock. intros H. repeat case_in H; by simplify_eq. Qed.

Lemma handle_block m s s' o :
  handleMessage m s = (s', o) -> verdict o = msgBlock -> code o ∈ codes /\ raw_at 1 (oid o).
Proof.
  intros H Hv. destruct (handle_cases m s) as [(p & sc & Hp & Hsc & Hid & E1)|[E1 Hn]]; rewrite E1 in H.
  - unfold scanMessage in H. rewrite Hp in H. pose proof (probe_id_raw m p Hp).
    repeat case_in H; simplify_eq; try done. simpl. split; [|done]. unfold codes, promptProofBlockCode. set_solver.
  - unfold examineMessage in H. destruct (resp_probe m) as [p|] eqn:Hp; [|by simplify_eq].
    pose proof (probe_id_raw m p Hp).
    assert (Hc4 : -32004 ∈ codes) by (unfold codes; set_solver).
    repeat case_in H; simplify_eq; try done; try (by split; [apply strictCode_code|]);
      match goal with Hl : check_lock _ _ _ = (_, Some _) |- _ => apply check_lock_block in Hl as [-> ->] end; by split.
Qed.

(** ** The stream a strict rewriter writes *)

Lemma data_of_blank l : blank l = true -> data_of l = None.
Proof.
  unfold blank, data_of, is_data. intros Hb. apply Z.eqb_eq in Hb. by destruct (trimEOL l).
Qed.

Lemma cap_error_safe s0 s : exists evs, shows (cap_error s) evs /\ Forall (safe_payload s0) evs.
Proof.
  destruct (error_payload [] (strictCode s) cap_reason (strictCode_code s)) as (ms & Hout & Hgo & Hs); [by left|].
  destruct (object_shows [] [x0a] [] ms (jsonrpcError [] (strictCode s) cap_reason)) as (v & Hv & Hcase);
    [constructor|constructor|exists []; split; [done|apply not_elem_of_nil]|done|done|done|].
  exists [v]. split; [exact Hv|]. constructor; [|constructor]. destruct Hcase as [->|Hn]; [apply Hs|by apply unread_safe].
Qed.

(** The handler's configuration stays. *)
Lemma visited_cfg s0 s : visited s0 s -> cfg s = cfg s0.
Proof.
  induction 1 as [|s m _ IH|s why _ IH]; [done| |].
  - change (@handle _ filter_handler m s) with (handleMessage m s).
    destruct (handleMessage m s) as [s1 o] eqn:Eh. cbn [fst]. by rewrite (handle_cfg _ _ _ _ Eh).
  - change (cfg (noteOnce why s) = cfg s0). by rewrite noteOnce_cfg.
Qed.

(** What a message that is not blocked shows. *)
Lemma delivered_safe s0 s m s1 r :
  cfg s = cfg s0 -> strict s0 = true -> handleMessage m s = (s1, r) -> verdict r <> msgBlock ->
  forall p, candidate s0 m p -> ~ scanned_id s0 (rp_id p) ->
    exists elems, listed_tools (delivered m r) = Some elems /\ Forall (named_allowed (policy s0)) elems.
Proof.
  unfold cfg. intros [= E1 E2 E3 E4 E5 E6] Hst Eh Hv p Hc Hn. destruct (handle_safe m s s1 r Eh Hv) as [Hl _].
  unfold listing_safe, candidate, scanned_id, st_hasID in *. rewrite E1, E2, E4, E5, E6 in Hl.
  destruct (Hl Hst p Hc Hn) as (e0 & e & _ & _ & He). by exists e.
Qed.

(** Under strict processing every event that leaves shows safe payloads only. *)
Lemma event_safe cap s0 b b' : strict s0 = true -> event_out cap s0 b b' ->
  exists evs, shows b' evs /\ Forall (safe_payload s0) evs.
Proof.
  intros Hst [ls l [H1 H2 H3 H4] Hq|ls l s [H1 H2 H3 H4] Hne Hs Hv|ls l s [H1 H2 H3 H4] Hne Hs Hv|c s Hs Hlax _|c s Hs _ _].
  - exists []. split; [|constructor]. pose proof (passed_shows ls l H1 H2 H3 H4) as Hp. by rewrite Hq in Hp.
  - pose proof (passed_shows ls l H1 H2 H3 H4) as Hp. rewrite bool_decide_eq_false_2 in Hp by done.
    eexists. split; [exact Hp|]. constructor; [|constructor]. intros p Hc Hn.
    change (@handle _ filter_handler) with handleMessage in Hv.
    destruct (handleMessage (join [x0a] (omap data_of ls)) s) as [s1 r] eqn:Eh. cbn [snd] in Hv.
    pose proof (delivered_safe s0 s _ s1 r (visited_cfg _ _ Hs) Hst Eh) as Hd. unfold delivered in Hd. rewrite Hv in Hd.
    by apply (Hd ltac:(done) p).
  - change (@handle _ filter_handler) with handleMessage in *. set (m := join [x0a] (omap data_of ls)) in *.
    destruct (handleMessage m s) as [s1 r] eqn:Eh. cbn [snd] in *. unfold replacement. destruct (verdict r) eqn:Ev; [done| |].
    + destruct (handle_exact _ _ _ _ Eh Ev) as ((p & Hp) & _ & ms & jm & _ & Hout & Hgo & _).
      destruct (object_shows ls l [] ms (out r) H1 H2 H3 H4 Hout Hgo) as (v & Hvs & Hcase).
      exists [v]. split; [done|]. constructor; [|constructor].
      destruct Hcase as [->|Hn]; [|by apply unread_safe]. intros p' _ _.
      pose proof (delivered_safe s0 s m s1 r (visited_cfg _ _ Hs) Hst Eh) as Hd. unfold delivered in Hd. rewrite Ev in Hd.
      destruct (handle_cases m s) as [(q & sc & _ & _ & _ & E1)|[_ Hno]].
      { exfalso. rewrite E1 in Eh. unfold scanMessage in Eh. repeat case_in Eh; simplify_eq; done. }
      pose proof (visited_cfg _ _ Hs) as Hcfg. apply (Hd ltac:(done) p); unfold cfg in Hcfg; injection Hcfg as E1 E2 E3 E4 E5 E6.
      * unfold candidate, st_hasID in *. by rewrite <- E1.
      * unfold scanned_id. rewrite <- E5, <- E6. by apply (Hno p), Hp.
    + destruct (handle_block _ _ _ _ Eh Ev) as [Hco Hid].
      destruct (error_payload (oid r) (code r) (reason r) Hco Hid) as (ms & Hout & Hgo & Hs').
      destruct (object_shows ls l [] ms _ H1 H2 H3 H4 Hout Hgo) as (v & Hvs & Hcase).
      exists [v]. split; [done|]. constructor; [|constructor]. destruct Hcase as [->|Hn]; [apply Hs'|by apply unread_safe].
  - change (strict s = false) in Hlax. apply visited_cfg in Hs. unfold cfg in Hs. injection Hs as _ _ _ E4 _ _. congruence.
  - apply cap_error_safe.
Qed.

(** The unfinished rest of a strictly processed stream shows nothing. *)
Lemma rest_shows_nothing cap s0 rest : strict s0 = true -> unfinished cap s0 rest -> client_events rest = [].
Proof.
  intros Hst [ls p H1 H2 Hp|b s Hs Hlax _].
  - unfold client_events. rewrite lines_of_lines by done. unfold lines_of. rewrite (lines_from_none [] p) by done.
    cbn [fst]. rewrite app_nil_r. by rewrite client_plain.
  - change (strict s = false) in Hlax. apply visited_cfg in Hs. unfold cfg in Hs. injection Hs as _ _ _ E4 _ _. congruence.
Qed.

Lemma strict_drain (cap : Z) (src : list (bytes * option read_error)) (s : rewriteState) :
  strict s = true -> Forall (safe_payload s) (client_events (w_out (drain cap src (newSSERewriter src s)))).
Proof.
  intros Hst. destruct (drain_cut cap s src) as (evs & evs' & rest & _ & -> & HF & Hrest).
  assert (Hshow : exists shown, shows (concat evs') shown /\ Forall (safe_payload s) shown).
  { induction HF as [|b b' l l' Hb _ (v & Hv & Hall)].
    - exists []. split; [|constructor]. by exists [].
    - destruct (event_safe cap s b b' Hst Hb) as (v0 & Hv0 & Hall0). exists (v0 ++ v). cbn [concat].
      split; [by apply shows_app|by apply Forall_app]. }
  destruct Hshow as (shown & Hs & Hall). rewrite (shows_events _ _ _ Hs), (rest_shows_nothing _ _ _ Hst Hrest).
  by rewrite app_nil_r.
Qed.

(** C8. Strict processing fails closed on streams too: whatever the source,
however it is cut into reads and whatever the buffer, in the stream a reader of
the rewriter is given no event that the gateway takes for the answer to one of
the request's listings (by an id that is not also that of a scanned call) holds
a tool whose name the policy does not allow, for a client that ends lines at a
newline. *)
Theorem sse_strict_safe (cap : Z) (src : list (bytes * option read_error)) (s : rewriteState) (n : nat) :
  strict s = true -> (0 < n)%nat ->
  exists fuel bs e s', read_all cap fuel n (newSSERewriter src s) = Some (bs, e, s') /\
    Forall (safe_payload s) (client_events bs).
Proof.
  intros Hst Hn. destruct (read_all_drained cap n (newSSERewriter src s)) as (fuel & e & _ & Hr); [done|done|].
  do 4 eexists. split; [exact Hr|]. by apply strict_drain.
Qed.

End safety.

(** ** Where chunks show *)

Section boundaries.
Context {L : GoLib} {E : ScanEnv}.

Definition full_text (cap : Z) : bytes := repeat x61 (Z.to_nat (cap - 1)).

(** A line of [cap] bytes that is not a data line. *)
Definition full_line (cap : Z) : bytes := full_text cap ++ [x0a].

Lemma full_line_facts cap : 2 <= cap ->
  len (full_line cap) = cap /\ x0a ∉ full_text cap /\ blank (full_line cap) = false /\ is_data (full_line cap) = false.
Proof.
  intros Hc. unfold full_line, full_text. split_and!.
  - rewrite len_app. change (len [x0a]) with 1. unfold len. rewrite repeat_length. lia.
  - intros Hin%list_elem_of_In%repeat_spec. done.
  - rewrite blank_line, bool_decide_eq_false_2; [done|]. destruct (Z.to_nat (cap - 1)) eqn:Ek; [lia|]. by intros [?|?].
  - assert (Hd : data_of (repeat x61 (Z.to_nat (cap - 1)) ++ [x0a]) = None).
    { apply data_of_not_d. by destruct (Z.to_nat (cap - 1)). }
    unfold data_of in Hd. by destruct (is_data _).
Qed.

Definition start (s : rewriteState) : sseRewriter rewriteState := newSSERewriter [] s.

Lemma lines_of_full cap t : 2 <= cap ->
  lines_of (full_line cap ++ t) = (full_line cap :: fst (lines_of t), snd (lines_of t)).
Proof.
  intros Hc. pose proof (lines_of_lines [full_line cap] t) as H. simpl concat in H. rewrite app_nil_r in H. apply H.
  constructor; [|constructor]. exists (full_text cap). split; [done|by apply full_line_facts].
Qed.

Lemma uncut_output cap s : 2 <= cap -> spec_output cap (full_line cap ++ [x0d; x0a]) s = full_line cap ++ [x0d; x0a].
Proof.
  intros Hc. destruct (full_line_facts cap Hc) as (Hlen & Hn & Hb & Hd).
  unfold spec_output, spec_view. rewrite lines_of_full by done.
  change (lines_of [x0d; x0a]) with ([[x0d; x0a]], @nil byte). unfold spec_run. cbn [fst snd fold_left].
  assert (H1 : spec_step cap ((Collecting [], s), []) (full_line cap) = ((Collecting [full_line cap], s), [])).
  { unfold spec_step, spec_line. cbn [fst snd]. rewrite Hb. unfold size_of at 1. cbn [fold_left].
    by rewrite (proj2 (Z.ltb_ge cap (0 + len (full_line cap)))) by lia. }
  rewrite H1. unfold spec_step, spec_line, spec_event. cbn [fst snd omap list_omap]. unfold data_of. rewrite Hd.
  change (blank [x0d; x0a]) with true. cbn [fst snd spec_partial concat app]. rewrite app_nil_r.
  assert ((cap <? size_of [] + len (@nil byte)) = false) as -> by (apply Z.ltb_ge; change (0 <= cap); lia).
  by rewrite app_nil_r.
Qed.

Lemma full_collected cap s : 2 <= cap ->
  completeLine cap (full_line cap) (start s) = set_event [full_line cap] [false] [] cap (start s).
Proof.
  intros Hc. destruct (full_line_facts cap Hc) as (Hlen & Hn & Hb & Hd). unfold completeLine.
  fold (blank (full_line cap)). rewrite Hb. change (evSize (start s)) with 0.
  rewrite (proj2 (Z.ltb_ge cap (0 + len (full_line cap)))) by lia. fold (is_data (full_line cap)). rewrite Hd.
  by rewrite Hlen.
Qed.

(** The cut falls after the carriage return. *)
Lemma cut_first cap s : 2 <= cap ->
  ingest cap (full_line cap ++ [x0d]) (start s)
  = overflowPartial (set_line [x0d] (set_event [full_line cap] [false] [] cap (start s))).
Proof.
  intros Hc. destruct (full_line_facts cap Hc) as (Hlen & Hn & Hb & Hd). unfold ingest.
  assert (Hs : split_byte x0a (full_line cap ++ [x0d]) = Some (full_text cap, [x0d])).
  { apply split_byte_Some. unfold full_line. by rewrite <- app_assoc. }
  destruct (full_line cap ++ [x0d]) as [|c0 t0] eqn:Eb; [by destruct (full_line cap)|].
  destruct t0 as [|c1 t1].
  { apply (f_equal len) in Eb. rewrite len_app, Hlen in Eb. change (cap + 1 = 1) in Eb. lia. }
  cbn [length ingest_loop]. rewrite Hs. change (raw (start s) || discard (start s)) with false. cbn iota.
  change (line (start s) ++ full_text cap ++ [x0a]) with (full_line cap). change (set_line [] (start s)) with (start s).
  rewrite full_collected by done. cbn [raw discard set_event start newSSERewriter orb split_byte].
  change (Byte.eqb x0d x0a) with false. cbn iota. cbn [line set_line set_event start newSSERewriter app evSize].
  change (len [x0d]) with 1. by rewrite (proj2 (Z.ltb_lt cap (1 + cap))) by lia.
Qed.

(** Chunks can show: when an event is exactly as large as the cap and the
read ends between the carriage return and the newline of its blank line,
strict processing replaces the event by an error; when the read goes on, the
event is delivered. *)
Lemma sse_chunk_dependence (cap : Z) (s : rewriteState) :
  2 <= cap -> strict s = true ->
  exists b1 b2, w_out (finish (ingest cap (b1 ++ b2) (start s))) = b1 ++ b2 /\
    w_out (finish (ingest cap b2 (ingest cap b1 (start s)))) = cap_error (noteOnce cap_reason s).
Proof.
  intros Hc Hst. exists (full_line cap ++ [x0d]), [x0a]. rewrite <- app_assoc. cbn [app]. split.
  - assert (Hl : snd (lines_of (full_line cap ++ [x0d; x0a])) = []) by by rewrite lines_of_full.
    destruct (ingest_reaches cap (length (full_line cap ++ [x0d; x0a])) (full_line cap ++ [x0d; x0a]) s [] [] (start s))
      as [Hr _]; [lia|done|apply reaches_start; lia|by apply not_tight_line|by apply not_tight_line|].
    destruct (finish_reaches cap _ _ _ _ Hr) as [Ho _]. simpl app in Ho. rewrite uncut_output in Ho by done. exact Ho.
  - rewrite cut_first by done. unfold overflowPartial. cbn [st set_line set_event start newSSERewriter].
    change (handler_strict s) with (strict s). rewrite Hst. reflexivity.
Qed.

End boundaries.

(** ** A client with other line endings

The event-stream grammar also ends lines with a lone carriage return. *)
Fixpoint standard_lines (p x : bytes) : list bytes :=
  match x with
  | [] => []
  | c :: t =>
      if Byte.eqb c x0a then p :: standard_lines [] t
      else if Byte.eqb c x0d then
        match t with
        | c' :: t' => if Byte.eqb c' x0a then p :: standard_lines [] t' else p :: standard_lines [] t
        | [] => [p]
        end
      else standard_lines (p ++ [c]) t
  end.

Definition standard_step (acc : list bytes * list bytes) (l : bytes) : list bytes * list bytes :=
  let '(ds, evs) := acc in
  if bool_decide (l = []) then ([], evs ++ (if bool_decide (ds = []) then [] else [join [x0a] ds]))
  else if has_prefix l data_prefix then (ds ++ [data_value l], evs) else acc.

Definition standard_events (x : bytes) : list bytes := snd (fold_left standard_step (standard_lines [] x) ([], [])).

(** C39. A stream without a newline is one unfinished line to the rewriter: up to
the cap it leaves as it came, whatever its carriage returns say, however it is
cut into reads and whatever the processing. *)
Theorem no_newline_passes {St : Type} {H : MessageHandler St} (cap : Z)
    (src : list (bytes * option read_error)) (s : St) (n : nat) :
  (0 < n)%nat -> x0a ∉ stream src -> len (stream src) <= cap ->
  exists fuel e s', read_all cap fuel n (newSSERewriter src s) = Some (stream src, e, s').
Proof.
  intros Hn Hno Hlen. destruct (read_all_drained cap n (newSSERewriter src s)) as (fuel & e & _ & Hr); [done|done|].
  change (drained cap (newSSERewriter src s)) with (drain cap src (newSSERewriter src s)) in Hr.
  destruct (drain_cut cap s src) as (evs & evs' & rest & H1 & H2 & HF & _). exists fuel, e. eexists. rewrite Hr.
  assert (Hnil : evs = [] /\ evs' = []) by (inversion HF as [|b b' l l' Hb _]; subst; [done|exfalso];
    cbn [concat] in H1; rewrite H1, <- app_assoc in Hno, Hlen; rewrite elem_of_app in Hno; rewrite len_app in Hlen;
    pose proof (len_nonneg (concat l ++ rest)); destruct (event_ends cap s b b' Hb) as [?|?]; [tauto|lia]).
  destruct Hnil as [-> ->]. by rewrite H2, H1.
Qed.

(** Under an allowlist a client that follows the grammar is so shown a tool that
is not on the list. *)
Lemma sse_cr_bypass :
  let _ := plain_lib in let _ := fixed_env (Ok (MkScanResult "ok" 0 [])) in
  exists x d, w_out (drain maxRPCPeek [(x, None)] (newSSERewriter [(x, None)] (list_state "read"))) = x /\ standard_events x = [d] /\
    listed_tools d = Some ["{'name':'delete'}"%js] /\ allows (policy (list_state "read")) "delete" = false.
Proof.
  exists ("data: " ++ "{'jsonrpc':'2.0','id':1,'result':{'tools':[{'name':'delete'}]}}"%js ++ [x0d; x0d]).
  exists "{'jsonrpc':'2.0','id':1,'result':{'tools':[{'name':'delete'}]}}"%js. by vm_compute.
Qed.

(** *** Concrete instances *)

Section instances.
#[local] Existing Instance plain_lib.
#[local] Existing Instance clean_env.

Definition listing_event : bytes :=
  "event: message" ++ [x0a] ++ "data: {'id':1,"%js ++ [x0a]
  ++ "data: 'result':{'tools':[{'name':'read'},{'name':'delete'}]}}"%js ++ [x0d; x0a; x0d; x0a] ++ ": bye" ++ [x0a].

Definition filtered_event : bytes :=
  "event: message" ++ [x0a] ++ "data: {'jsonrpc':'2.0','id':1,'result':{'tools':[{'name':'read'}]}}"%js
  ++ [x0a; x0d; x0a] ++ ": bye" ++ [x0a].

(** The same stream in reads of seven bytes. *)
Fixpoint in_reads (fuel n : nat) (x : bytes) : list (bytes * option read_error) :=
  match fuel, x with
  | S fuel, _ :: _ => (take n x, None) :: in_reads fuel n (drop n x)
  | _, _ => []
  end.

Definition seven_reads : list (bytes * option read_error) := in_reads 50 7 listing_event.

Fixpoint check_tight (cap : Z) (x : bytes) (s : rewriteState) (src : list (bytes * option read_error)) : bool :=
  negb (bool_decide (snd (lines_of x) = [x0d])) &&
  match src with
  | [] => true
  | (b, None) :: src => check_tight cap (x ++ b) s src
  | (b, Some _) :: _ => negb (bool_decide (snd (lines_of (x ++ b)) = [x0d]))
  end.

Lemma no_cr_not_tight cap x s : negb (bool_decide (snd (lines_of x) = [x0d])) = true -> ~ tight cap x s.
Proof.
  intros Hn (ls & s' & E & _). rewrite negb_true_iff, bool_decide_eq_false in Hn. apply Hn. by rewrite E.
Qed.

Lemma check_tight_spec cap x s src : check_tight cap x s src = true -> never_tight cap x s src.
Proof.
  revert x. induction src as [|[b [e|]] src IH]; intros x; cbn [check_tight never_tight]; intros [H1 H2]%andb_true_iff;
    (split; [by apply no_cr_not_tight|]); [done|by apply no_cr_not_tight|by apply IH].
Qed.

Lemma sse_read_all_witness :
  stream seven_reads = listing_event /\ spec_output maxRPCPeek listing_event (list_state "read") = filtered_event /\
  exists fuel, read_all maxRPCPeek fuel 5 (newSSERewriter seven_reads (list_state "read"))
    = Some (spec_output maxRPCPeek (stream seven_reads) (list_state "read"), EOF,
            spec_final maxRPCPeek (stream seven_reads) (list_state "read")).
Proof.
  split; [by vm_compute|]. split; [by vm_compute|].
  apply (sse_read_all maxRPCPeek seven_reads (list_state "read") 5); [done|lia|].
  apply check_tight_spec. by vm_compute.
Defined.

Lemma sse_strict_safe_witness :
  client_events filtered_event = ["{'jsonrpc':'2.0','id':1,'result':{'tools':[{'name':'read'}]}}"%js] /\
  w_out (drain maxRPCPeek seven_reads (newSSERewriter seven_reads (list_state "read"))) = filtered_event /\
  exists fuel bs e s', read_all maxRPCPeek fuel 5 (newSSERewriter seven_reads (list_state "read")) = Some (bs, e, s') /\
    Forall (safe_payload (list_state "read")) (client_events bs).
Proof.
  split; [by vm_compute|]. split; [by vm_compute|].
  apply (sse_strict_safe maxRPCPeek seven_reads (list_state "read") 5 eq_refl). lia.
Defined.


Definition cr_stream : bytes := "data: " ++ "{'jsonrpc':'2.0','id':1,'result':{'tools':[{'name':'delete'}]}}"%js ++ [x0d; x0d].

Lemma no_newline_passes_witness :
  exists fuel e s', read_all maxRPCPeek fuel 5 (newSSERewriter [(cr_stream, None)] (list_state "read"))
    = Some (stream [(cr_stream, None)], e, s').
Proof.
  apply (no_newline_passes maxRPCPeek [(cr_stream, None)] (list_state "read") 5); [lia|by apply (bool_decide_unpack _); vm_compute|by vm_compute].
Defined.

Lemma sse_chunk_dependence_witness :
  strict (list_state "read") = true /\
  exists b1 b2, w_out (finish (ingest maxRPCPeek (b1 ++ b2) (start (list_state "read")))) = b1 ++ b2 /\
    w_out (finish (ingest maxRPCPeek b2 (ingest maxRPCPeek b1 (start (list_state "read")))))
    = cap_error (noteOnce cap_reason (list_state "read")).
Proof.
  split; [reflexivity|]. apply (sse_chunk_dependence maxRPCPeek (list_state "read")); [done|reflexivity].
Defined.

End instances.
