(* ===== verification/AuditTrail.v ===== *)
(** * The audit trail (gateway/audit.go)

Entries, their JSON encoding, and the auditor that writes them one to a
line. *)

From S2P Require Export Http JsonDecode.
Local Open Scope Z_scope.
Local Open Scope go_scope.

(** ** Entries

[DurationMS] is kept in microseconds: the program divides them by 1000 in
binary64 and encoding/json prints the shortest decimal that reads back, which
is the quotient itself for every duration of at most 15 digits. *)
Record Entry := MkEntry {
  Time : bytes;
  UpstreamName : bytes;
  Remote : bytes;
  HTTPMethod : bytes;
  ReqPath : bytes;
  SessionID : bytes;
  ProtocolVersion : bytes;
  RPCMethods : list bytes;
  RPCIDs : list bytes;
  EntryTools : list bytes;
  RPCBatch : bool;
  RPCInvalid : bool;
  ToolsFiltered : Z;
  ToolsDrift : bool;
  PromptProofVerdict : bytes;
  PromptProofScore : Z;
  PromptProofCategories : list bytes;
  PromptProofBlocked : bool;
  PromptProofError : bytes;
  EntryStatus : Z;
  SSE : bool;
  BytesIn : Z;
  BytesOut : Z;
  DurationUS : Z;
  EntryError : bytes
}.

(** *** Encoding *)

(** Digits of a natural number, padded with zeros to a width. *)
Fixpoint digits_padded (width : nat) (n : Z) (acc : bytes) : bytes :=
  match width with O => acc | S width => digits_padded width (n / 10) (zb (0x30 + n mod 10) :: acc) end.

Definition trim_zeros (s : bytes) : bytes :=
  reverse ((fix go (l : bytes) := match l with x30 :: t => go t | _ => l end) (reverse s)).

(** [n] thousandths. *)
Definition thousandths (n : Z) : bytes :=
  let frac := trim_zeros (digits_padded 3 (n mod 1000) []) in
  itoa (n / 1000) ++ (if bool_decide (frac = []) then [] else "." ++ frac).

(** A field of a struct: its value, its type, and its name; nothing when
[omitempty] leaves it out. *)
Definition m_string (v k : bytes) : list (mgap * json) :=
  [(MGap [] (escape_string k) [] [] [], JStr (escape_string v))].
Definition m_opt_string (v k : bytes) : list (mgap * json) := if bool_decide (v = []) then [] else m_string v k.
Definition m_strings (l : list bytes) (k : bytes) : list (mgap * json) :=
  if bool_decide (l = []) then []
  else [(MGap [] (escape_string k) [] [] [], JArr [] (map (fun s => (no_gap, JStr (escape_string s))) l))].
Definition m_flag (b : bool) (k : bytes) : list (mgap * json) :=
  if b then [(MGap [] (escape_string k) [] [] [], JTrue)] else [].
Definition m_int (n : Z) (k : bytes) : list (mgap * json) := [(MGap [] (escape_string k) [] [] [], JNum (itoa n))].
Definition m_opt_int (n : Z) (k : bytes) : list (mgap * json) := if n =? 0 then [] else m_int n k.
Definition m_millis (us : Z) (k : bytes) : list (mgap * json) :=
  [(MGap [] (escape_string k) [] [] [], JNum (thousandths us))].

Definition entry_fields (e : Entry) : list (bytes * (bytes -> list (mgap * json))) := [
  ("ts" : bytes, m_string (Time e));
  ("upstream" : bytes, m_string (UpstreamName e));
  ("remote" : bytes, m_opt_string (Remote e));
  ("http_method" : bytes, m_string (HTTPMethod e));
  ("path" : bytes, m_string (ReqPath e));
  ("session_id" : bytes, m_opt_string (SessionID e));
  ("protocol_version" : bytes, m_opt_string (ProtocolVersion e));
  ("rpc_methods" : bytes, m_strings (RPCMethods e));
  ("rpc_ids" : bytes, m_strings (RPCIDs e));
  ("tools" : bytes, m_strings (EntryTools e));
  ("rpc_batch" : bytes, m_flag (RPCBatch e));
  ("rpc_invalid" : bytes, m_flag (RPCInvalid e));
  ("tools_filtered" : bytes, m_opt_int (ToolsFiltered e));
  ("tools_drift" : bytes, m_flag (ToolsDrift e));
  ("promptproof_verdict" : bytes, m_opt_string (PromptProofVerdict e));
  ("promptproof_score" : bytes, m_opt_int (PromptProofScore e));
  ("promptproof_categories" : bytes, m_strings (PromptProofCategories e));
  ("promptproof_blocked" : bytes, m_flag (PromptProofBlocked e));
  ("promptproof_error" : bytes, m_opt_string (PromptProofError e));
  ("status" : bytes, m_int (EntryStatus e));
  ("sse" : bytes, m_flag (SSE e));
  ("bytes_in" : bytes, m_int (BytesIn e));
  ("bytes_out" : bytes, m_int (BytesOut e));
  ("duration_ms" : bytes, m_millis (DurationUS e));
  ("error" : bytes, m_opt_string (EntryError e))
].

Definition members_of (f : bytes * (bytes -> list (mgap * json))) : list (mgap * json) := snd f (fst f).

Definition entry_json (e : Entry) : json := JObj [] (concat (map members_of (entry_fields e))).

Definition marshal_entry_line (e : Entry) : bytes := render (entry_json e) ++ [x0a].

(** ** The auditor

[sink] is what has been written, [failed] the flag that suppresses further
reports, and [reports] the lines on the error stream.  Whether a write
succeeds is an argument. *)
Record Auditor := MkAuditor { sink : bytes; failed : bool; reports : list bytes }.

Definition NewAuditorWriter : Auditor := MkAuditor [] false [].

Definition reportFailure {L : GoLib} (e : goerror) (a : Auditor) : Auditor :=
  if failed a then a
  else MkAuditor (sink a) true
         (reports a ++ ["mcp-gateway-lite: audit write failed (further failures suppressed): " ++ Error e ++ [x0a]]).

(** [outcome]: the bytes the writer took and the error it returned.  An entry
always encodes, so the other error path of [Log] is dead. *)
Definition Log {L : GoLib} (e : Entry) (outcome : nat * option goerror) (a : Auditor) : Auditor :=
  let a' := MkAuditor (sink a ++ take (fst outcome) (marshal_entry_line e)) (failed a) (reports a) in
  match snd outcome with None => a' | Some err => reportFailure err a' end.

(** A writer that takes everything. *)
Definition write_ok (e : Entry) : nat * option goerror := (length (marshal_entry_line e), None).

(** ** Numbers as the encoder writes them *)

Lemma udigits_head fuel n acc :
  0 < n < 10 ^ Z.of_nat fuel -> forallb is_digit acc = true ->
  exists d t, udigits fuel n acc = d :: t /\ is_digit19 d = true /\ is_digit d = true /\ forallb is_digit t = true.
Proof.
  revert n acc. induction fuel as [|fuel IH]; intros n acc Hn Ha; [simpl in Hn; lia|].
  rewrite Nat2Z.inj_succ, Z.pow_succ_r in Hn by lia. cbn [udigits].
  pose proof (Z.mod_pos_bound n 10 ltac:(lia)) as Hm.
  assert (Hb : bz (zb (0x30 + n mod 10)) = 0x30 + n mod 10) by (apply bz_zb_small; lia).
  destruct (n <? 10) eqn:E; zbool.
  - rewrite Z.mod_small in * by lia. do 2 eexists. split; [done|]. unfold is_digit19, is_digit. rewrite Hb.
    split_and!; [..|done]; apply andb_true_iff; rewrite !Z.leb_le; lia.
  - apply IH; [split; [apply Z.div_str_pos; lia|apply Z.div_lt_upper_bound; lia]|].
    cbn [forallb]. rewrite Ha, andb_true_r. unfold is_digit. rewrite Hb. apply andb_true_iff. rewrite !Z.leb_le. lia.
Qed.

Lemma num_run_digits l : forallb is_digit l = true -> num_run NInt l = true.
Proof. induction l as [|c t IH]; simpl; [done|]. intros [-> Ht]%andb_true_iff. auto. Qed.

(** The digits of a positive number are a JSON integer literal. *)
Lemma digits_literal n : 0 < n < 10 ^ 20 ->
  exists d t, udigits 20 n [] = d :: t /\ forallb is_digit (d :: t) = true /\
    num_run NNeg (d :: t) = true /\ num_run NStart (d :: t) = true.
Proof.
  intros Hn. destruct (udigits_head 20 n [] ltac:(simpl; lia) eq_refl) as (d & t & -> & H19 & Hd & Ht).
  exists d, t. split; [done|]. cbn [forallb num_run num_step]. rewrite Hd, Ht, H19.
  pose proof H19 as H. unfold is_digit19 in H. zbool.
  rewrite !(proj2 (Z.eqb_neq _ _)) by lia. split_and!; try done; by apply num_run_digits.
Qed.

Lemma itoa_literal n : - 2 ^ 63 <= n < 2 ^ 63 -> num_ok (itoa n) = true /\ int_literal (itoa n) = Some n.
Proof.
  intros Hn. assert (Hrange : (- 2 ^ 63 <=? n) && (n <? 2 ^ 63) = true) by (apply andb_true_iff; rewrite Z.leb_le, Z.ltb_lt; lia).
  destruct (Z.eq_dec n 0) as [->|Hnz]; [by vm_compute|].
  pose proof (udigits_value 20 (Z.abs n) [] ltac:(simpl; lia)) as Hv.
  change (fold_left digit_step [] (Z.abs n)) with (Z.abs n) in Hv.
  destruct (digits_literal (Z.abs n) ltac:(lia)) as (d & t & Hd & Hall & Hneg & Hpos).
  rewrite Hd in Hv. unfold itoa, num_ok, int_literal. destruct (Z.ltb_spec n 0) as [E|E].
  - rewrite (Z.abs_neq n) in * by lia. rewrite Hd. split; [done|]. cbn [app].
    change (Byte.eqb x2d x2d) with true. cbv iota. rewrite Hall.
    rewrite bool_decide_eq_false_2 by done. cbn [negb andb]. fold (udecimal (d :: t)) in Hv.
    rewrite Hv, Z.opp_involutive, Hrange. done.
  - rewrite (Z.abs_eq n) in * by lia. rewrite Hd. split; [done|].
    destruct (Byte.eqb d x2d) eqn:Ed; [apply byte_eqb_eq in Ed as ->; done|]. rewrite Hall.
    rewrite bool_decide_eq_false_2 by done. cbn [negb andb]. fold (udecimal (d :: t)) in Hv. by rewrite Hv, Hrange.
Qed.

(** *** Milliseconds *)

Definition millis_frac (r : Z) : bytes := trim_zeros (digits_padded 3 r []).

(** The microseconds a decimal number of milliseconds stands for. *)
Definition read_millis (l : bytes) : Z :=
  let '(q, f, _) := cut l "." in udecimal q * 1000 + udecimal f * 10 ^ (3 - len f).

Definition frac_check (r : Z) : bool :=
  let f := millis_frac r in
  forallb is_digit f && (udecimal f * 10 ^ (3 - len f) =? r) && num_run NFrac f.

Lemma frac_checked r : 0 <= r < 1000 ->
  forallb is_digit (millis_frac r) = true /\ udecimal (millis_frac r) * 10 ^ (3 - len (millis_frac r)) = r /\
  num_run NFrac (millis_frac r) = true.
Proof.
  intros Hr. assert (H : forallb frac_check (seqZ 0 1000) = true) by by vm_compute.
  rewrite forallb_forall in H. specialize (H r). rewrite <- list_elem_of_In, elem_of_seqZ in H.
  specialize (H ltac:(lia)). unfold frac_check in H.
  apply andb_true_iff in H as [[H1 H2%Z.eqb_eq]%andb_true_iff H3]. done.
Qed.

Lemma no_dot l : forallb is_digit l = true -> x2e ∉ l.
Proof.
  intros H%forallb_Forall Hin. rewrite Forall_forall in H. by specialize (H _ Hin).
Qed.

Lemma num_run_app_digits l k : forallb is_digit l = true -> num_run NInt (l ++ k) = num_run NInt k.
Proof. induction l as [|c t IH]; simpl; [done|]. intros [-> Ht]%andb_true_iff. auto. Qed.

Lemma num_run_itoa_dot q k : 0 <= q < 10 ^ 20 -> num_run NStart (itoa q ++ x2e :: k) = num_run NDot k.
Proof.
  intros Hq. destruct (Z.eq_dec q 0) as [->|Hnz]; [done|].
  unfold itoa. rewrite (proj2 (Z.ltb_ge q 0)) by lia.
  destruct (udigits_head 20 q [] ltac:(simpl; lia) eq_refl) as (d & t & -> & H19 & Hd & Ht).
  cbn [app num_run num_step]. pose proof H19 as H. unfold is_digit19 in H. apply andb_true_iff in H as [H1 H2].
  apply Z.leb_le in H1. apply Z.leb_le in H2.
  rewrite !(proj2 (Z.eqb_neq _ _)) by lia. rewrite H19. by rewrite num_run_app_digits.
Qed.

Lemma thousandths_literal us : 0 <= us < 10 ^ 22 ->
  num_ok (thousandths us) = true /\ read_millis (thousandths us) = us.
Proof.
  intros Hus. assert (Hq : 0 <= us / 1000 < 10 ^ 20).
  { split; [apply Z.div_pos; lia|apply Z.div_lt_upper_bound; lia]. }
  pose proof (Z.mod_pos_bound us 1000 ltac:(lia)) as Hr. pose proof (Z.div_mod us 1000 ltac:(lia)) as Hus'.
  destruct (itoa_nat _ Hq) as [Hqd Hqv]. destruct (frac_checked _ Hr) as (Hfd & Hfv & Hfn).
  unfold thousandths, read_millis. fold (millis_frac (us mod 1000)).
  set (f := millis_frac (us mod 1000)) in *. destruct (decide (f = [])) as [E|E].
  - rewrite bool_decide_eq_true_2, app_nil_r by done. rewrite cut_byte_absent by by apply no_dot.
    rewrite E in Hfv. change (udecimal [] * 10 ^ (3 - len [])) with 0 in *. split; [|lia].
    unfold num_ok. destruct (Z.eq_dec (us / 1000) 0) as [->|Hnz]; [done|].
    unfold itoa. rewrite (proj2 (Z.ltb_ge _ 0)) by lia.
    destruct (digits_literal (us / 1000) ltac:(lia)) as (d & t & -> & _ & _ & Hp). done.
  - rewrite bool_decide_eq_false_2 by done. change ("." ++ f)%go with (x2e :: f).
    rewrite cut_byte by by apply no_dot. split; [|lia].
    unfold num_ok. rewrite num_run_itoa_dot by lia. destruct f as [|c t]; [done|].
    cbn [forallb] in Hfd. apply andb_true_iff in Hfd as [Hc _]. cbn [num_run num_step] in Hfn |- *. by rewrite Hc in *.
Qed.

(** ** A reader of the trail *)

(** The value of the member of a given name. *)
Definition member (k : bytes) (ms : list (mgap * json)) : option json :=
  snd <$> find (fun m => bool_decide (unquote (m_key (fst m)) = k)) ms.

Definition read_string (o : option json) : bytes := match o with Some (JStr b) => unquote b | _ => [] end.
Definition read_strings (o : option json) : list bytes :=
  match o with Some (JArr _ es) => map (fun e => read_string (Some (snd e))) es | _ => [] end.
Definition read_flag (o : option json) : bool := match o with Some JTrue => true | _ => false end.
Definition read_int (o : option json) : Z := match o with Some (JNum l) => default 0 (int_literal l) | _ => 0 end.
Definition read_duration (o : option json) : Z := match o with Some (JNum l) => read_millis l | _ => 0 end.

Definition read_entry (j : json) : option Entry :=
  match j with
  | JObj _ ms =>
      let str k := read_string (member k ms) in let strs k := read_strings (member k ms) in
      let flag k := read_flag (member k ms) in let int k := read_int (member k ms) in
      Some (MkEntry (str "ts") (str "upstream") (str "remote") (str "http_method") (str "path") (str "session_id")
        (str "protocol_version") (strs "rpc_methods") (strs "rpc_ids") (strs "tools") (flag "rpc_batch")
        (flag "rpc_invalid") (int "tools_filtered") (flag "tools_drift") (str "promptproof_verdict")
        (int "promptproof_score") (strs "promptproof_categories") (flag "promptproof_blocked")
        (str "promptproof_error") (int "status") (flag "sse") (int "bytes_in") (int "bytes_out")
        (read_duration (member "duration_ms" ms)) (str "error"))
  | _ => None
  end.

(** The lines of a text, every one of which ends in a newline. *)
Fixpoint text_lines (acc s : bytes) : list bytes :=
  match s with
  | [] => if bool_decide (acc = []) then [] else [acc]
  | c :: t => if Byte.eqb c x0a then acc :: text_lines [] t else text_lines (acc ++ [c]) t
  end.

Definition read_trail (s : bytes) : option (list Entry) :=
  mapM (fun l => j ← parse_doc l; read_entry j) (text_lines [] s).

(** An entry whose strings are the well-formed text a reader sees. *)
Definition sanitized (e : Entry) : Entry :=
  MkEntry (sanitize (Time e)) (sanitize (UpstreamName e)) (sanitize (Remote e)) (sanitize (HTTPMethod e))
    (sanitize (ReqPath e)) (sanitize (SessionID e)) (sanitize (ProtocolVersion e)) (map sanitize (RPCMethods e))
    (map sanitize (RPCIDs e)) (map sanitize (EntryTools e)) (RPCBatch e) (RPCInvalid e) (ToolsFiltered e)
    (ToolsDrift e) (sanitize (PromptProofVerdict e)) (PromptProofScore e) (map sanitize (PromptProofCategories e))
    (PromptProofBlocked e) (sanitize (PromptProofError e)) (EntryStatus e) (SSE e) (BytesIn e) (BytesOut e)
    (DurationUS e) (sanitize (EntryError e)).

(** The machine's integers, and a duration below 31 years. *)
Definition int64 (n : Z) : Prop := - 2 ^ 63 <= n < 2 ^ 63.

Record entry_ok (e : Entry) : Prop := {
  eo_filtered : int64 (ToolsFiltered e);
  eo_score : int64 (PromptProofScore e);
  eo_status : int64 (EntryStatus e);
  eo_in : int64 (BytesIn e);
  eo_out : int64 (BytesOut e);
  eo_duration : 0 <= DurationUS e < 10 ^ 15
}.

(** *** The members of an entry *)

(** Every member a field writes has the field's name. *)
Definition segment (f : bytes * (bytes -> list (mgap * json))) : Prop :=
  Forall (fun m => unquote (m_key (fst m)) = fst f) (members_of f).

Lemma member_here k g j rest : unquote (m_key g) = k -> member k ((g, j) :: rest) = Some j.
Proof. intros H. unfold member. simpl. by rewrite bool_decide_eq_true_2. Qed.

Lemma member_app k a b : member k (a ++ b) = match member k a with Some j => Some j | None => member k b end.
Proof.
  unfold member. induction a as [|m a IH]; [done|]. simpl. destruct (bool_decide _); [done|]. exact IH.
Qed.

Lemma member_other k f : segment f -> fst f <> k -> member k (members_of f) = None.
Proof.
  unfold member, segment. induction 1 as [|m ms Hm _ IH]; intros Hk; [done|].
  simpl. rewrite bool_decide_eq_false_2 by congruence. by apply IH.
Qed.

Lemma member_none k fs : Forall segment fs -> k ∉ map fst fs -> member k (concat (map members_of fs)) = None.
Proof.
  induction 1 as [|f fs Hf _ IH]; intros Hk; [done|]. cbn [map concat] in *.
  rewrite not_elem_of_cons in Hk. destruct Hk as [Hk Hks]. rewrite member_app, member_other by done. by apply IH.
Qed.

(** A name's member is the one its own field wrote. *)
Lemma member_field k g fs i : Forall segment fs -> NoDup (map fst fs) -> fs !! i = Some (k, g) ->
  member k (concat (map members_of fs)) = member k (g k).
Proof.
  intros Hfs. revert i. induction Hfs as [|f fs Hf Hfs IH]; intros i Hnd Hi; [done|].
  cbn [map concat] in *. apply NoDup_cons in Hnd as [Hni Hnd]. destruct i as [|i].
  - injection Hi as ->. rewrite member_app, (member_none k) by done. unfold members_of. simpl.
    by destruct (member k (g k)).
  - simpl in Hi. rewrite member_app, member_other; [by apply (IH i)|done|]. intros <-. apply Hni.
    apply list_elem_of_lookup. exists i. rewrite list_lookup_fmap. by rewrite Hi.
Qed.

Lemma key_kept k : forallb is_ascii k = true -> unquote (escape_string k) = k.
Proof. intros H. rewrite unquote_escape. by apply ascii_valid_utf8. Qed.

Lemma string_segment k v : forallb is_ascii k = true -> segment (k, m_string v).
Proof. intros H. constructor; [by apply key_kept|done]. Qed.

Lemma opt_string_segment k v : forallb is_ascii k = true -> segment (k, m_opt_string v).
Proof. intros H. unfold segment, members_of, m_opt_string. simpl. case_bool_decide; [done|]. by apply string_segment. Qed.

Lemma strings_segment k v : forallb is_ascii k = true -> segment (k, m_strings v).
Proof.
  intros H. unfold segment, members_of, m_strings. simpl. case_bool_decide; [done|].
  constructor; [by apply key_kept|done].
Qed.

Lemma flag_segment k v : forallb is_ascii k = true -> segment (k, m_flag v).
Proof. intros H. unfold segment, members_of, m_flag. simpl. destruct v; [|done]. constructor; [by apply key_kept|done]. Qed.

Lemma int_segment k v : forallb is_ascii k = true -> segment (k, m_int v).
Proof. intros H. constructor; [by apply key_kept|done]. Qed.

Lemma opt_int_segment k v : forallb is_ascii k = true -> segment (k, m_opt_int v).
Proof. intros H. unfold segment, members_of, m_opt_int. simpl. destruct (v =? 0); [done|]. by apply int_segment. Qed.

Lemma millis_segment k v : forallb is_ascii k = true -> segment (k, m_millis v).
Proof. intros H. constructor; [by apply key_kept|done]. Qed.

Create HintDb audit.
#[export] Hint Resolve string_segment opt_string_segment strings_segment flag_segment int_segment opt_int_segment
  millis_segment : audit.

Lemma entry_segments e : Forall segment (entry_fields e).
Proof. unfold entry_fields. repeat (apply Forall_cons_2; [by auto with audit|]). apply Forall_nil_2. Qed.

Definition field_names (e : Entry) : list bytes := map fst (entry_fields e).

Lemma field_names_nodup e : NoDup (field_names e).
Proof. apply (bool_decide_unpack _). by vm_compute. Qed.

(** A field's member, by the field's position. *)
Lemma entry_member e i k g : entry_fields e !! i = Some (k, g) ->
  member k (concat (map members_of (entry_fields e))) = member k (g k).
Proof. apply member_field; [apply entry_segments|apply field_names_nodup]. Qed.

Ltac read_fields e :=
  repeat match goal with |- context [member ?k (concat (map members_of (entry_fields e)))] =>
    let i := eval vm_compute in (default 0%nat (fst <$> list_find (fun x => k = x) (field_names e))) in
    rewrite (entry_member e i k _ eq_refl)
  end.

(** *** What each type reads back as *)

Section read_back.
Variable (k : bytes).
Hypothesis k_ascii : forallb is_ascii k = true.

Lemma read_m_string v : read_string (member k (m_string v k)) = sanitize v.
Proof. unfold m_string. rewrite member_here by by apply key_kept. apply unquote_escape. Qed.

Lemma read_m_opt_string v : read_string (member k (m_opt_string v k)) = sanitize v.
Proof. unfold m_opt_string. case_bool_decide; [by subst|]. apply read_m_string. Qed.

Lemma read_m_strings l : read_strings (member k (m_strings l k)) = map sanitize l.
Proof.
  unfold m_strings. case_bool_decide; [by subst|]. rewrite member_here by by apply key_kept.
  simpl. rewrite map_map. apply map_ext. intros s. apply unquote_escape.
Qed.

Lemma read_m_flag b : read_flag (member k (m_flag b k)) = b.
Proof. unfold m_flag. destruct b; [|done]. by rewrite member_here by by apply key_kept. Qed.

Lemma read_m_int n : int64 n -> read_int (member k (m_int n k)) = n.
Proof.
  intros H. unfold m_int. rewrite member_here by by apply key_kept. simpl. by rewrite (proj2 (itoa_literal n H)).
Qed.

Lemma read_m_opt_int n : int64 n -> read_int (member k (m_opt_int n k)) = n.
Proof.
  intros H. unfold m_opt_int. destruct (Z.eqb_spec n 0) as [->|_]; [done|]. by apply read_m_int.
Qed.

Lemma read_m_millis us : 0 <= us < 10 ^ 15 -> read_duration (member k (m_millis us k)) = us.
Proof.
  intros H. unfold m_millis. rewrite member_here by by apply key_kept. apply thousandths_literal. lia.
Qed.
End read_back.

Lemma read_entry_json e : entry_ok e -> read_entry (entry_json e) = Some (sanitized e).
Proof.
  intros [H1 H2 H3 H4 H5 H6]. unfold read_entry, entry_json, sanitized. f_equal.
  read_fields e.
  rewrite ?read_m_opt_string, ?read_m_string, ?read_m_strings, ?read_m_flag, ?read_m_int, ?read_m_opt_int, ?read_m_millis by done.
  done.
Qed.

(** *** Lines *)

Definition is_printable (c : byte) : bool := 0x20 <=? bz c.

(** No white space between tokens. *)
Definition empty (s : bytes) : bool := match s with [] => true | _ => false end.

Fixpoint spaceless (j : json) : bool :=
  match j with
  | JArr w es => empty w && forallb (fun e => empty (g_pre (fst e)) && empty (g_post (fst e)) && spaceless (snd e)) es
  | JObj w ms =>
      empty w && forallb (fun m => empty (m_pre (fst m)) && empty (m_mid (fst m)) && empty (m_sep (fst m)) &&
                                   empty (m_post (fst m)) && spaceless (snd m)) ms
  | _ => true
  end.

Lemma empty_nil s : empty s = true -> s = [].
Proof. by destruct s. Qed.

Lemma str_printable s st : str_run st s = true -> forallb is_printable s = true.
Proof.
  revert st. induction s as [|c t IH]; intros st; [done|]. cbn [str_run forallb].
  destruct (str_step st c) as [st'|] eqn:E; [|done]. intros H. rewrite (IH _ H), andb_true_r.
  unfold is_printable. apply Z.leb_le. destruct st; cbn [str_step] in E.
  - destruct (Byte.eqb c x22) eqn:E1; [by apply byte_eqb_eq in E1 as ->|].
    destruct (Byte.eqb c x5c) eqn:E2; [by apply byte_eqb_eq in E2 as ->|].
    destruct (bz c <? 0x20) eqn:E3; zbool; [done|lia].
  - destruct (Byte.eqb c x75) eqn:Eu; [by apply byte_eqb_eq in Eu as ->|].
    destruct (is_escape c) eqn:Ee; [|done]. unfold is_escape in Ee. apply existsb_Exists in Ee.
    rewrite !Exists_cons, Exists_nil in Ee. by destruct_or! Ee; apply byte_eqb_eq in Ee as ->.
  - destruct (is_hex c) eqn:Eh; [|done]. unfold is_hex in Eh. destruct (hex_val c) eqn:Ev; [|done].
    unfold hex_val in Ev. repeat case_in Ev; simplify_eq; zbool; lia.
Qed.

Lemma num_printable s st : num_run st s = true -> forallb is_printable s = true.
Proof.
  revert st. induction s as [|c t IH]; intros st; [done|]. cbn [num_run forallb].
  destruct (num_step st c) as [st'|] eqn:E; [|done]. intros H. rewrite (IH _ H), andb_true_r.
  unfold is_printable. apply Z.leb_le.
  assert (is_num_byte c = true) as Hc by (destruct (is_num_byte c) eqn:Hn; [done|by rewrite num_step_stop in E]).
  unfold is_num_byte, is_digit, is_e in Hc. lia.
Qed.

Lemma join_printable sep l : forallb is_printable sep = true -> Forall (fun s => forallb is_printable s = true) l ->
  forallb is_printable (join sep l) = true.
Proof.
  intros Hsep. induction 1 as [|x l Hx Hl IH]; [done|]. destruct l as [|y l]; [done|].
  rewrite join_cons by done. by rewrite !forallb_app, Hx, Hsep, IH.
Qed.

(** A document without white space has no control character, in particular no
newline. *)
Lemma render_printable j : wf j = true -> spaceless j = true -> forallb is_printable (render j) = true.
Proof.
  induction j as [| | |l|s|w es IH|w ms IH] using json_nested_ind; cbn [wf spaceless render]; intros Hwf Hsp; try done.
  - by apply (num_printable _ NStart).
  - unfold quoted. cbn [forallb]. rewrite forallb_app. by rewrite (str_printable _ SIn).
  - apply andb_true_iff in Hwf as [_ Hwf]. apply andb_true_iff in Hsp as [->%empty_nil Hsp].
    rewrite !forallb_app, join_printable; [done|done|]. rewrite Forall_map.
    apply forallb_Forall in Hwf, Hsp. rewrite Forall_forall in IH, Hwf, Hsp |- *. intros [g v] Hin.
    specialize (IH _ Hin). specialize (Hwf _ Hin). specialize (Hsp _ Hin). cbn [fst snd] in *. zbool.
    unfold render_elem. cbn [fst snd]. rewrite (empty_nil (g_pre g)), (empty_nil (g_post g)) by done.
    rewrite !forallb_app, IH by done. done.
  - apply andb_true_iff in Hwf as [_ Hwf]. apply andb_true_iff in Hsp as [->%empty_nil Hsp].
    rewrite !forallb_app, join_printable; [done|done|]. rewrite Forall_map.
    apply forallb_Forall in Hwf, Hsp. rewrite Forall_forall in IH, Hwf, Hsp |- *. intros [g v] Hin.
    specialize (IH _ Hin). specialize (Hwf _ Hin). specialize (Hsp _ Hin). cbn [fst snd] in *. unfold mgap_ok in Hwf. zbool.
    unfold render_member, quoted. cbn [fst snd].
    rewrite (empty_nil (m_pre g)), (empty_nil (m_mid g)), (empty_nil (m_sep g)), (empty_nil (m_post g)) by done.
    cbn [app forallb]. rewrite !forallb_app. cbn [forallb]. rewrite !forallb_app, IH, (str_printable _ SIn) by done. done.
Qed.

Definition member_good (m : mgap * json) : Prop :=
  mgap_ok (fst m) = true /\ wf (snd m) = true /\ spaceless (JObj [] [m]) = true /\ depth (snd m) <= 1.

Lemma scalar_member k j : wf j = true -> spaceless j = true -> depth j <= 1 ->
  member_good (MGap [] (escape_string k) [] [] [], j).
Proof.
  intros Hwf Hsp Hd. unfold member_good, mgap_ok. cbn. by rewrite Hwf, Hsp, escape_string_ok.
Qed.

Lemma string_member k v : Forall member_good (m_string v k).
Proof. apply Forall_singleton, scalar_member; [apply escape_string_ok|done..]. Qed.

Lemma opt_string_member k v : Forall member_good (m_opt_string v k).
Proof. unfold m_opt_string. case_bool_decide; [done|]. apply string_member. Qed.

Lemma strings_member k v : Forall member_good (m_strings v k).
Proof.
  unfold m_strings. case_bool_decide; [done|]. apply Forall_singleton, scalar_member.
  - cbn [wf]. apply andb_true_iff. split; [by destruct v|]. apply forallb_Forall. rewrite Forall_map.
    apply Forall_true. intros s. cbn. apply escape_string_ok.
  - cbn [spaceless]. apply andb_true_iff. split; [done|]. apply forallb_Forall. rewrite Forall_map. by apply Forall_true.
  - cbn [depth]. rewrite map_map. cbn [snd depth]. induction v as [|s v IH]; [done|]. simpl in *.
    destruct v; [done|]. specialize (IH ltac:(done)). lia.
Qed.

Lemma flag_member k v : Forall member_good (m_flag v k).
Proof. unfold m_flag. destruct v; [|done]. by apply Forall_singleton, scalar_member. Qed.

Lemma int_member k n : int64 n -> Forall member_good (m_int n k).
Proof. intros H. apply Forall_singleton, scalar_member; [apply (itoa_literal n H)|done..]. Qed.

Lemma opt_int_member k n : int64 n -> Forall member_good (m_opt_int n k).
Proof. intros H. unfold m_opt_int. destruct (n =? 0); [done|]. by apply int_member. Qed.

Lemma millis_member k us : 0 <= us < 10 ^ 15 -> Forall member_good (m_millis us k).
Proof. intros H. apply Forall_singleton, scalar_member; [apply thousandths_literal; lia|done..]. Qed.

#[export] Hint Resolve string_member opt_string_member strings_member flag_member int_member opt_int_member
  millis_member eo_filtered eo_score eo_status eo_in eo_out eo_duration : audit.

Lemma entry_members e : entry_ok e -> Forall member_good (concat (map members_of (entry_fields e))).
Proof.
  intros He. apply Forall_concat. rewrite Forall_map. unfold entry_fields.
  repeat (apply Forall_cons_2; [unfold members_of; cbn [fst snd]; by auto with audit|]). apply Forall_nil_2.
Qed.

Lemma entry_json_line e : entry_ok e ->
  good (entry_json e) /\ forallb is_printable (render (entry_json e)) = true.
Proof.
  intros He. pose proof (entry_members e He) as H. unfold entry_json.
  set (ms := concat (map members_of (entry_fields e))) in *. rewrite Forall_forall in H.
  assert (Hwf : wf (JObj [] ms) = true).
  { cbn [wf]. apply andb_true_iff. split; [by destruct ms|]. apply forallb_Forall, Forall_forall. intros m Hm.
    destruct (H m Hm) as (H1 & H2 & _). by rewrite H1, H2. }
  split; [split; [done|]|].
  - cbn [depth]. assert (zmax_list (map (fun m => depth (snd m)) ms) <= 1); [|unfold max_nesting; lia].
    apply zmax_list_le; [done|]. rewrite Forall_map, Forall_forall. intros m Hm. by apply H.
  - apply render_printable; [done|]. cbn [spaceless]. apply andb_true_iff. split; [done|].
    apply forallb_Forall, Forall_forall. intros m Hm. destruct (H m Hm) as (_ & _ & Hs & _).
    cbn [spaceless forallb] in Hs. by rewrite andb_true_r in Hs.
Qed.

Lemma text_lines_line acc l rest : forallb is_printable l = true ->
  text_lines acc (l ++ x0a :: rest) = (acc ++ l) :: text_lines [] rest.
Proof.
  revert acc. induction l as [|c l IH]; intros acc; cbn [app forallb text_lines]; [by rewrite app_nil_r|].
  intros [Hc Hl]%andb_true_iff. assert (Byte.eqb c x0a = false) as -> by (apply byte_eqb_neq; by intros ->).
  rewrite IH by done. by rewrite <- app_assoc.
Qed.

Section trail.
Context {L : GoLib}.

(** A run of the auditor: the entries logged, with what the writer did. *)
Definition log_run (ws : list (Entry * (nat * option goerror))) (a : Auditor) : Auditor :=
  fold_left (fun a w => Log (fst w) (snd w) a) ws a.

Definition complete (e : Entry) : Entry * (nat * option goerror) := (e, write_ok e).

Lemma log_complete es a :
  log_run (map complete es) a = MkAuditor (sink a ++ concat (map marshal_entry_line es)) (failed a) (reports a).
Proof.
  revert a. induction es as [|e es IH]; intros a; cbn [map log_run fold_left concat].
  - rewrite app_nil_r. by destruct a.
  - unfold log_run in IH. rewrite IH. unfold Log, complete, write_ok. cbn [fst snd sink failed reports].
    by rewrite take_ge, app_assoc by lia.
Qed.

(** C23. The trail cannot be forged: whatever bytes a client puts in a path, a
session id, a tool name or a request id, entries that are written one after the
other, completely, read back one to a line and in order, with only ill-formed
UTF-8 replaced; the entries' counts fit 64 bits and their durations are below
31 years. *)
Theorem audit_trail_roundtrip es :
  Forall entry_ok es -> read_trail (sink (log_run (map complete es) NewAuditorWriter)) = Some (map sanitized es).
Proof.
  intros Hes. rewrite log_complete. cbn [sink NewAuditorWriter app]. unfold read_trail.
  induction Hes as [|e es He _ IH]; [done|]. cbn [map concat].
  destruct (entry_json_line e He) as [Hg Hp]. unfold marshal_entry_line at 1.
  rewrite <- app_assoc. cbn [app]. rewrite text_lines_line by done. cbn [app mapM].
  rewrite parse_doc_render by done. cbn [mbind option_bind]. rewrite read_entry_json by done.
  simpl in IH |- *. by rewrite IH.
Qed.

(** What a run of calls leaves in the sink, on the error stream and in the
flag. *)
Lemma log_run_sink ws a :
  sink (log_run ws a) = sink a ++ concat (map (fun w => take (fst (snd w)) (marshal_entry_line (fst w))) ws).
Proof.
  revert a. induction ws as [|[e [n err]] ws IH]; intros a; [simpl; by rewrite app_nil_r|].
  cbn [log_run fold_left map concat fst snd]. unfold log_run in IH. rewrite IH, app_assoc. f_equal.
  unfold Log, reportFailure. cbn [fst snd]. destruct err; [|done]. cbn [failed]. by destruct (failed a).
Qed.

Lemma log_run_reports ws a :
  reports (log_run ws a) = (if failed a then reports a else
    reports a ++ match omap (fun w => snd (snd w)) ws with
      | [] => []
      | err :: _ => ["mcp-gateway-lite: audit write failed (further failures suppressed): " ++ Error err ++ [x0a]]
      end)
  /\ failed (log_run ws a) = failed a || negb (bool_decide (omap (fun w => snd (snd w)) ws = [])).
Proof.
  revert a. induction ws as [|[e [n err]] ws IH]; intros a.
  { simpl. rewrite app_nil_r, orb_false_r. by destruct (failed a). }
  cbn [log_run fold_left omap list_omap fst snd]. destruct (IH (Log e (n, err) a)) as [H1 H2]. unfold log_run in H1, H2.
  rewrite H1, H2. unfold Log, reportFailure. cbn [fst snd]. destruct err as [err|]; [|done]. cbn [failed].
  destruct (failed a) eqn:Hf; cbn [failed reports orb]; rewrite ?Hf; done.
Qed.

(** A failing sink is reported once: the error stream holds the first
failure only, and the entries that were taken are in the sink all the same. *)
Lemma audit_reports_once ws :
  reports (log_run ws NewAuditorWriter)
  = match omap (fun w => snd (snd w)) ws with
    | [] => []
    | err :: _ => ["mcp-gateway-lite: audit write failed (further failures suppressed): " ++ Error err ++ [x0a]]
    end
  /\ sink (log_run ws NewAuditorWriter) = concat (map (fun w => take (fst (snd w)) (marshal_entry_line (fst w))) ws).
Proof. split; [apply (log_run_reports ws NewAuditorWriter)|apply (log_run_sink ws NewAuditorWriter)]. Qed.
End trail.

(** An entry whose path and tool name try to forge a second line. *)
Definition forged_entry : Entry :=
  MkEntry "2026-01-01T00:00:00Z" "files" "127.0.0.1:9" "POST" ([x0a] ++ "{'path':'/'}"%js) [] [] ["tools/call" : bytes] ["1" : bytes]
    [[x22; x7d; x0a; xff]] false false 2 true [] (-3) [] false [] 403 false 120 90 1500 "blocked".

Lemma audit_trail_roundtrip_witness :
  Forall entry_ok [forged_entry; forged_entry] /\
  @read_trail (sink (@log_run plain_lib (map complete [forged_entry; forged_entry]) NewAuditorWriter))
  = Some (map sanitized [forged_entry; forged_entry]).
Proof.
  assert (H : Forall entry_ok [forged_entry; forged_entry]).
  { assert (entry_ok forged_entry) by (constructor; unfold int64; cbn; lia). by repeat apply Forall_cons_2. }
  split; [exact H|]. apply (@audit_trail_roundtrip plain_lib [forged_entry; forged_entry] H).
Defined.
