(* ===== verification/LockInit.v ===== *)
(** * Writing lockfiles (gateway/lockinit.go, gateway/lock.go: writeLockFile)

The client that fetches the tools of every upstream, page by page, and the
lockfile it writes or merges into.  The upstreams are a parameter: what a
request is answered may depend on the requests before it, so their state is
passed along. *)

From S2P Require Export Lock Http AuditTrail.
From S2P Require Import ResponseFilter.
Local Open Scope Z_scope.
Local Open Scope go_scope.

Definition lockProtocolVersion : bytes := "2025-06-18".
Definition maxLockPages : nat := 100.

(** ** Lockfiles as text *)

Definition newline (d : nat) : bytes := x0a :: repeat x20 (2 * d).

(** [json.Indent] with two spaces: white space before every element and
before the bracket that closes a container that has any. *)
Definition closing {A} (d : nat) (l : list A) : bytes := match l with [] => newline d | _ => [] end.

Fixpoint space_elems (d : nat) (es : list (gap * json)) : list (gap * json) :=
  match es with
  | [] => []
  | e :: es => (Gap (newline (S d)) (closing d es), snd e) :: space_elems d es
  end.

Fixpoint space_members (d : nat) (ms : list (mgap * json)) : list (mgap * json) :=
  match ms with
  | [] => []
  | m :: ms => (MGap (newline (S d)) (m_key (fst m)) [] " " (closing d ms), snd m) :: space_members d ms
  end.

Fixpoint indent (d : nat) (j : json) : json :=
  match j with
  | JArr _ es => JArr [] (space_elems d (map (fun e => (fst e, indent (S d) (snd e))) es))
  | JObj _ ms => JObj [] (space_members d (map (fun m => (fst m, indent (S d) (snd m))) ms))
  | _ => j
  end.

(** The [servers] object, keys in order; [None] when a raw value is not JSON. *)
Definition server_member (kv : bytes * bytes) : option (mgap * json) :=
  j ← parse_doc (snd kv); Some (MGap [] (escape_string (fst kv)) [] [] [], compact j).

Definition generatedBy : bytes := "mcp-gateway-lite " ++ Version.

Definition file_json (version : Z) (gen : bytes) (ms : list (mgap * json)) : json :=
  JObj [] (m_string gen "generatedBy" ++ m_int version "lockfileVersion" ++ [(MGap [] "servers" [] [] [], JObj [] ms)]).

(** The text [writeLockFile] writes. *)
Definition lockfile_text (lf : lockFile) : result bytes :=
  match mapM server_member (sorted_entries (default ∅ (lf_servers lf))) with
  | Some ms => Ok (render (indent 0 (file_json (lf_version lf) generatedBy ms)) ++ [x0a])
  | None => Err (EDecode "lockfile" [])
  end.

(** [json.Marshal] of a server record. *)
Definition string_entry (kv : bytes * bytes) : mgap * json :=
  (MGap [] (escape_string (fst kv)) [] [] [], JStr (escape_string (snd kv))).

Definition strings_json (l : list bytes) : json := JArr [] (map (fun s => (no_gap, JStr (escape_string s))) l).

Definition server_json (r : lockServer) : json := JObj [] (
  m_string (ls_command r) "command"
  ++ [(MGap [] "args" [] [] [], strings_json (ls_args r)); (MGap [] "envKeys" [] [] [], strings_json (ls_envKeys r))]
  ++ m_opt_string (ls_entryHash r) "entryHash"
  ++ [(MGap [] "toolsHash" [] [] [], match ls_toolsHash r with Some h => JStr (escape_string h) | None => JNull end)]
  ++ m_opt_string (ls_url r) "url"
  ++ (if bool_decide (ls_toolsDetail r = ∅) then []
      else [(MGap [] "toolsDetail" [] [] [], JObj [] (map string_entry (sorted_entries (ls_toolsDetail r))))])).

(** ** The client *)

Record rpc_request := MkRpcRequest { rr_url : bytes; rr_header : header; rr_body : bytes }.
Record rpc_response := MkRpcResponse { rs_code : Z; rs_header : header; rs_body : source }.

Definition rpc_headers (session : bytes) : header :=
  let h := h_set ∅ "Content-Type" "application/json" in
  let h := h_set h "Accept" "application/json, text/event-stream" in
  let h := h_set h "MCP-Protocol-Version" lockProtocolVersion in
  if bool_decide (session = []) then h else h_set h "Mcp-Session-Id" session.

(** [truncateForError]. *)
Definition truncateForError (b : bytes) : bytes := if len b <=? 200 then b else take 200 b ++ "...".

(** *** The first response of an event stream *)

(** [bytes.ReplaceAll(data, "\r\n", "\n")]. *)
Fixpoint unify_newlines (s : bytes) : bytes :=
  match s with
  | x0d :: ((x0a :: _) as t) => unify_newlines t
  | c :: t => c :: unify_newlines t
  | [] => []
  end.

(** [bytes.Split] at a newline, and at an empty line. *)
Fixpoint split_lines (acc s : bytes) : list bytes :=
  match s with
  | [] => [acc]
  | c :: t => if Byte.eqb c x0a then acc :: split_lines [] t else split_lines (acc ++ [c]) t
  end.

Fixpoint split_events (acc s : bytes) : list bytes :=
  match s with
  | [] => [acc]
  | x0a :: x0a :: t => acc :: split_events [] t
  | c :: t => split_events (acc ++ [c]) t
  end.

(** The data of one event: its data lines, joined.  A line is joined with a
newline only when something has been collected. *)
Definition add_data (payload line : bytes) : bytes :=
  if has_prefix line "data:" then
    let v := match drop 5 line with x20 :: v => v | v => v end in
    (if 0 <? len payload then payload ++ [x0a] else payload) ++ v
  else payload.

Definition event_data (chunk : bytes) : bytes := fold_left add_data (split_lines [] chunk) [].

Record rpcAnswer := MkAnswer { an_result : bytes; an_error : bytes }.

Definition answer_fields : fields rpcAnswer := [
  fld "result" an_result (fun v a => MkAnswer v (an_error a)) dec_raw;
  fld "error" an_error (fun v a => MkAnswer (an_result a) v) dec_raw ].

Definition answer_of (b : bytes) : option rpcAnswer := unmarshal (dec_struct answer_fields) (MkAnswer [] []) b.

Definition is_response (payload : bytes) : bool :=
  negb (bool_decide (payload = [])) &&
  match answer_of payload with Some a => (0 <? len (an_result a)) || (0 <? len (an_error a)) | None => false end.

Definition firstSSEResponse (data : bytes) : option bytes :=
  find is_response (map event_data (split_events [] (unify_newlines data))).

(** *** One exchange *)

Section client.
Context {L : GoLib} {W : Type} (Do : rpc_request -> W -> W * result rpc_response).

Definition message_json (method : bytes) (params : option json) (id : Z) : json := JObj [] (
  m_int id "id" ++ m_string "2.0" "jsonrpc" ++ m_string method "method"
  ++ match params with Some p => [(MGap [] "params" [] [] [], p)] | None => [] end).

(** The answer to a request, read up to the cap. *)
Definition read_answer (method : bytes) (resp : rpc_response) : result (bytes * header) :=
  let '(data, err, _) := read_limited maxRPCPeek (rs_body resp) in
  match err with
  | Some e => Err e
  | None =>
      if (rs_code resp <? 200) || (299 <? rs_code resp)
      then Err (ENew (method ++ ": HTTP " ++ itoa (rs_code resp) ++ ": " ++ truncateForError data))
      else
        payload ← (if has_prefix (h_get (rs_header resp) "Content-Type") "text/event-stream"
                   then opt_or (firstSSEResponse data) (ENew (method ++ ": no JSON-RPC response found in SSE stream"))
                   else mret data);
        rpc ← opt_or (answer_of payload) (EWrap (method ++ ": response not parseable: ") (EDecode "rpc" payload));
        _ ← check ((0 <? len (an_error rpc)) && negb (bool_decide (an_error rpc = "null")))
              (ENew (method ++ ": JSON-RPC error: " ++ truncateForError (an_error rpc)));
        _ ← check (bool_decide (an_result rpc = [])) (ENew (method ++ ": response has no result"));
        mret (an_result rpc, rs_header resp)
  end.

(** [params] is JSON the client made itself. *)
Definition doRPC (url session method : bytes) (params : option json) (id : Z) (w : W) : W * result (bytes * header) :=
  let '(w, resp) := Do (MkRpcRequest url (rpc_headers session) (render (message_json method params id))) w in
  (w, resp ≫= read_answer method).

(** Failures are ignored. *)
Definition notifyInitialized (url session : bytes) (w : W) : W :=
  fst (Do (MkRpcRequest url (rpc_headers session)
             "{'jsonrpc':'2.0','method':'notifications/initialized'}"%js) w).

(** ** Fetching *)

Definition init_params : json := JObj [] (
  m_string lockProtocolVersion "protocolVersion" ++ [(MGap [] "capabilities" [] [] [], JObj [] [])]
  ++ [(MGap [] "clientInfo" [] [] [], JObj [] (m_string "mcp-gateway-lite" "name" ++ m_string Version "version"))]).

Definition page_params (cursor : bytes) : json :=
  if bool_decide (cursor = []) then JObj [] [] else JObj [] (m_string cursor "cursor").

Record toolsPage := MkPage { pg_tools : option (list bytes); pg_next : bytes }.

Definition page_fields : fields toolsPage := [
  fld "tools" pg_tools (fun v p => MkPage v (pg_next p)) dec_raws;
  fld "nextCursor" pg_next (fun v p => MkPage (pg_tools p) v) dec_string ].

Definition read_page (result_ : bytes) : result (list bytes * bytes) :=
  lst ← opt_or (unmarshal (dec_struct page_fields) (MkPage None []) result_)
          (EWrap "tools/list result: " (EDecode "page" result_));
  tools ← opt_or (pg_tools lst) (ENew "tools/list result has no tools array");
  mret (tools, pg_next lst).

(** The loop over the pages; [fuel] is the number of pages still allowed. *)
Fixpoint fetch_pages (fuel : nat) (url session : bytes) (page : Z) (cursor : bytes) (all : list bytes) (w : W) :
    W * result (list bytes) :=
  match fuel with
  | O => (w, Err (ENew "tools/list pagination exceeded the page limit"))
  | S fuel =>
      let '(w, res) := doRPC url session "tools/list" (Some (page_params cursor)) (page + 2) w in
      match (res ← wrap "tools/list: " res; read_page (fst res)) with
      | Err e => (w, Err e)
      | Ok (tools, next) =>
          let all := all ++ tools in
          if bool_decide (next = []) then (w, Ok all) else fetch_pages fuel url session (page + 1) next all w
      end
  end.

Definition fetchAllTools (url : bytes) (w : W) : W * result (list bytes) :=
  let '(w, res) := doRPC url [] "initialize" (Some init_params) 1 w in
  match wrap "initialize: " res with
  | Err e => (w, Err e)
  | Ok (_, hdr) =>
      let session := h_get hdr "Mcp-Session-Id" in
      let w := notifyInitialized url session w in
      fetch_pages maxLockPages url session 0 [] [] w
  end.

(** ** Locking *)

(** The digests of the named tools. *)
Definition detail_step (u : Upstream) (detail : gmap bytes bytes) (tool : rawTool) : result (gmap bytes bytes) :=
  _ ← check (bool_decide (name tool = [])) (ENew ("upstream " ++ quote (Name u) ++ ": tools/list entry without a name"));
  match detail !! name tool with
  | Some _ => Err (ENew ("upstream " ++ quote (Name u) ++ ": duplicate tool name " ++ quote (name tool)))
  | None => mret (<[name tool := hash tool]> detail)
  end.

(** The record of one upstream and the line printed about it. *)
Definition lock_record (u : Upstream) (elems : list bytes) : result (lockServer * bytes) :=
  let pre := "upstream " ++ quote (Name u) ++ ": " in
  tools ← wrap pre (parseLockTools elems);
  detail ← foldM (detail_step u) ∅ tools;
  whole ← wrap pre (toolsListHash elems);
  mret (MkLockServer [] [] [] emptyEntryHash (Some whole) (URL u) detail,
        "locked " ++ Name u ++ ": " ++ itoa (len tools) ++ " tools (" ++ whole ++ ")" ++ [x0a]).

Definition lock_upstream (u : Upstream) (servers : gmap bytes bytes) (w : W) : W * result (gmap bytes bytes * bytes) :=
  let '(w, res) := fetchAllTools (URL u) w in
  (w,
   elems ← wrap ("upstream " ++ quote (Name u) ++ ": ") res;
   '(rec, line) ← lock_record u elems;
   mret (<[Name u := render (server_json rec)]> servers, line)).

Fixpoint lock_upstreams (us : list Upstream) (servers : gmap bytes bytes) (out : bytes) (w : W) :
    W * bytes * result (gmap bytes bytes) :=
  match us with
  | [] => (w, out, Ok servers)
  | u :: us =>
      match lock_upstream u servers w with
      | (w, Err e) => (w, out, Err e)
      | (w, Ok (servers, line)) => lock_upstreams us servers (out ++ line) w
      end
  end.

(** [existing] is the file at [path], if there is one; [write] is the outcome
of writing the text.  The result is what was printed, the text that was to be
written, and the error. *)
Definition LockInit (cfg : Config) (path : bytes) (existing : option (result bytes)) (write : bytes -> option goerror) (w : W) :
    W * bytes * option bytes * result unit :=
  let '(cfg, valid) := Validate cfg in
  match valid with
  | Err e => (w, [], None, Err e)
  | Ok _ =>
      match (match existing with
             | None => Ok (MkLockFile LockfileVersion [] (Some ∅))
             | Some data => wrap "refusing to overwrite unrecognized lockfile: " (loadLockFile path data)
             end) with
      | Err e => (w, [], None, Err e)
      | Ok lf =>
          match lock_upstreams (Upstreams cfg) (default ∅ (lf_servers lf)) [] w with
          | (w, out, Err e) => (w, out, None, Err e)
          | (w, out, Ok servers) =>
              match lockfile_text (MkLockFile (lf_version lf) (lf_generatedBy lf) (Some servers)) with
              | Err e => (w, out, None, Err e)
              | Ok text =>
                  match write text with
                  | Some e => (w, out, Some text, Err e)
                  | None => (w, out ++ "wrote " ++ path ++ [x0a], Some text, Ok tt)
                  end
              end
          end
      end
  end.

End client.
