(* ===== verification/LockText.v ===== *)
(** * The text of a lockfile read back

What [lockfile_text] writes, [loadLockFile] and [server_lock] read: the
indentation does not show in any decoder, and a server record written as JSON
decodes to itself. *)

From S2P Require Export LockInit JsonCompact.
Local Open Scope Z_scope.
Local Open Scope go_scope.

(** ** Indentation *)

Lemma newline_ws d : all_ws (newline d) = true.
Proof. unfold newline. generalize (2 * d)%nat. intros n. simpl. by induction n. Qed.

Lemma closing_ws {A} d (l : list A) : all_ws (closing d l) = true.
Proof. destruct l; [apply newline_ws|done]. Qed.

Lemma space_elems_values d es : map snd (space_elems d es) = map snd es.
Proof. induction es as [|e es IH]; [done|]. simpl. by rewrite IH. Qed.

Definition key_value (m : mgap * json) : bytes * json := (m_key (fst m), snd m).

Lemma space_members_values d ms : map key_value (space_members d ms) = map key_value ms.
Proof. induction ms as [|m ms IH]; [done|]. simpl. by rewrite IH. Qed.

Lemma map_through {A B C} (f : A -> C) (k : A -> B) (g : B -> C) l : (forall x, f x = g (k x)) -> map f l = map g (map k l).
Proof. intros H. rewrite map_map. by apply map_ext. Qed.

Lemma compact_indent d j : compact (indent d j) = compact j.
Proof.
  revert d. induction j as [| | | | |w es IH|w ms IH] using json_nested_ind; intros d; try done; cbn [indent compact]; f_equal.
  - rewrite !(map_through (fun e => (no_gap, compact (snd e))) snd (fun v => (no_gap, compact v))) by done.
    rewrite space_elems_values, !map_map. cbn [snd]. apply map_ext_Forall. eapply Forall_impl; [exact IH|].
    intros e He. by rewrite He.
  - rewrite !(map_through (fun m => (compact_mgap (fst m), compact (snd m))) key_value
      (fun kv => (MGap [] (html_escape (fst kv)) [] [] [], compact (snd kv)))) by done.
    rewrite space_members_values, !map_map. unfold key_value. cbn [fst snd]. apply map_ext_Forall.
    eapply Forall_impl; [exact IH|]. intros m Hm. by rewrite Hm.
Qed.

Lemma indent_depth d j : depth (indent d j) = depth j.
Proof. by rewrite <- (compact_depth (indent d j)), compact_indent, compact_depth. Qed.

Lemma space_elems_wf d es :
  forallb (fun e => wf (snd e)) es = true ->
  forallb (fun e => gap_ok (fst e) && wf (snd e)) (space_elems d es) = true.
Proof.
  induction es as [|e es IH]; [done|]. simpl. intros [-> H]%andb_true_iff. rewrite (IH H).
  unfold gap_ok. cbn [g_pre g_post]. by rewrite newline_ws, closing_ws.
Qed.

Lemma space_members_wf d ms :
  forallb (fun m => str_ok (m_key (fst m)) && wf (snd m)) ms = true ->
  forallb (fun m => mgap_ok (fst m) && wf (snd m)) (space_members d ms) = true.
Proof.
  induction ms as [|m ms IH]; [done|]. cbn [forallb space_members fst snd].
  intros [[Hk ->]%andb_true_iff H]%andb_true_iff. rewrite (IH H).
  unfold mgap_ok. cbn [m_pre m_key m_mid m_sep m_post]. by rewrite newline_ws, Hk, closing_ws.
Qed.

Lemma indent_wf d j : wf j = true -> wf (indent d j) = true.
Proof.
  revert d. induction j as [| | | | |w es IH|w ms IH] using json_nested_ind; intros d; try done; cbn [indent wf];
    intros [_ H]%andb_true_iff; rewrite forallb_Forall in H; apply andb_true_iff.
  - split; [by destruct es|]. apply space_elems_wf, forallb_Forall, Forall_map.
    eapply Forall_impl; [apply Forall_and; split; [exact IH|exact H]|].
    intros e [He [_ Hw]%andb_true_iff]. by apply He.
  - split; [by destruct ms|]. apply space_members_wf, forallb_Forall, Forall_map.
    eapply Forall_impl; [apply Forall_and; split; [exact IH|exact H]|].
    intros m [Hm [Hk Hw]%andb_true_iff]. cbn [fst snd]. unfold mgap_ok in Hk. zbool. rewrite Hm by done. by apply andb_true_iff.
Qed.

Lemma indent_good d j : good j -> good (indent d j).
Proof. intros [Hw Hd]. split; [by apply indent_wf|by rewrite indent_depth]. Qed.

#[export] Hint Resolve indent_good : golib.

(** A value written compactly and then indented reads as it did. *)
Lemma reread {S} (d : decoder S) z n j :
  compact_blind d -> good j -> unmarshal d z (render (indent n (compact j))) = unmarshal d z (render j).
Proof.
  intros Hd Hg. unfold unmarshal. rewrite !parse_doc_render by auto with golib.
  assert (Hc : good (compact j)) by auto with golib.
  by rewrite <- (Hd z (indent n (compact j))), compact_indent, !Hd by (apply Hg || apply Hc || apply indent_wf, Hc).
Qed.

Lemma reread_value n j : good j -> same_value (render j) (render (indent n (compact j))).
Proof.
  intros Hg. exists j, (indent n (compact j)). rewrite !parse_doc_render by auto with golib.
  split_and!; [done..|]. rewrite <- (to_any_compact (indent n (compact j))), compact_indent, !to_any_compact; auto.
  all: try apply indent_wf; try apply compact_wf; apply Hg.
Qed.

(** ** Server records *)

Lemma dec_each_blind {T} (zero : T) (d : decoder T) olds es :
  compact_blind d -> forallb (fun e => gap_ok (fst e) && wf (snd e)) es = true ->
  dec_each zero d olds (map (fun e => (no_gap, compact (snd e))) es) = dec_each zero d olds es.
Proof.
  intros Hd. revert olds. induction es as [|e es IH]; intros olds; [done|]. simpl.
  intros [[_ He]%andb_true_iff Hes]%andb_true_iff. rewrite Hd by done. destruct (d _ (snd e)). by rewrite IH.
Qed.

Lemma dec_strings_blind : compact_blind dec_strings.
Proof.
  intros cur j Hw. unfold dec_strings. destruct j as [| | | | |w es|]; try done. cbn [compact dec_list].
  rewrite dec_each_blind; [done|apply dec_string_blind|]. by apply andb_true_iff in Hw as [_ Hw].
Qed.

Lemma dec_ptr_blind {T} (zero : T) (d : decoder T) : compact_blind d -> compact_blind (dec_ptr zero d).
Proof.
  intros Hd cur j Hw. pose proof (Hd (default zero cur) j Hw) as H.
  destruct j; try done; cbn [compact dec_ptr] in *; by rewrite H.
Qed.

Lemma dec_string_map_blind : compact_blind dec_string_map.
Proof.
  intros cur j Hw. destruct j as [| | | | | |w ms]; try done. cbn [compact dec_string_map].
  cbn [wf] in Hw. apply andb_true_iff in Hw as [_ Hw]. generalize (cur, true).
  induction ms as [|m ms IH]; intros acc; [done|]. simpl in *. apply andb_true_iff in Hw as [Hm Hw].
  unfold mgap_ok in Hm. zbool. rewrite IH by done. f_equal.
  rewrite unquote_html_escape by done. by rewrite (dec_string_blind [] (snd m)).
Qed.

Lemma lockServer_blind : compact_blind (dec_struct lockServer_fields).
Proof.
  apply dec_struct_blind. unfold lockServer_fields.
  repeat constructor; apply fld_blind;
    auto using dec_string_blind, dec_strings_blind, dec_string_map_blind, dec_ptr_blind.
Qed.

(** Entries read into a map. *)
Lemma dec_entries (l : list (bytes * bytes)) (acc : gmap bytes bytes) :
  Forall (fun kv => valid_utf8 (fst kv) /\ valid_utf8 (snd kv)) l -> NoDup (map fst l) ->
  fold_left (fun (acc : gmap bytes bytes * bool) m => let '(v, ok) := dec_string [] (snd m) in
    (<[unquote (m_key (fst m)) := v]> (fst acc), snd acc && ok)) (map string_entry l) (acc, true)
  = ((list_to_map l : gmap bytes bytes) ∪ acc, true).
Proof.
  intros Hl. revert acc. induction Hl as [|[k v] l [Hk Hv] _ IH]; intros acc Hnd; [simpl; by rewrite (left_id_L ∅ (∪))|].
  cbn [map] in Hnd. apply NoDup_cons in Hnd as [Hni Hnd]. cbn [map fold_left string_entry fst snd m_key dec_string].
  rewrite !unquote_escape. rewrite Hk, Hv. simpl. rewrite IH by done. f_equal.
  rewrite <- insert_union_r by by apply not_elem_of_list_to_map_1. by rewrite insert_union_l.
Qed.

Lemma sorted_entries_nodup (m : gmap bytes bytes) : NoDup (map fst (sorted_entries m)).
Proof. rewrite (Permutation_map fst (sorted_entries_perm m)). apply NoDup_fst_map_to_list. Qed.

Lemma sorted_entries_map (m : gmap bytes bytes) : (list_to_map (sorted_entries m) : gmap bytes bytes) = m.
Proof.
  rewrite (list_to_map_proper _ (map_to_list m)); [apply list_to_map_to_list|apply sorted_entries_nodup|apply sorted_entries_perm].
Qed.

Lemma sorted_entries_elem (m : gmap bytes bytes) kv : kv ∈ sorted_entries m <-> m !! fst kv = Some (snd kv).
Proof. rewrite sorted_entries_perm. destruct kv. apply elem_of_map_to_list. Qed.

Lemma dec_each_strings l olds :
  Forall valid_utf8 l -> dec_each [] dec_string olds (map (fun s => (no_gap, JStr (escape_string s))) l) = (l, true).
Proof.
  intros Hl. revert olds. induction Hl as [|s l Hs _ IH]; intros olds; [done|]. cbn [map dec_each dec_string snd].
  rewrite IH, unquote_escape, Hs. done.
Qed.

Lemma dec_strings_json l cur : Forall valid_utf8 l -> dec_strings cur (strings_json l) = (l, true).
Proof. intros H. unfold dec_strings, strings_json. cbn [dec_list]. by rewrite dec_each_strings. Qed.

Lemma valid_nil : valid_utf8 [].
Proof. done. Qed.

(** The text of a record is UTF-8; its URL may not be. *)
Record text_ok (r : lockServer) : Prop := {
  tx_command : valid_utf8 (ls_command r);
  tx_args : Forall valid_utf8 (ls_args r);
  tx_envKeys : Forall valid_utf8 (ls_envKeys r);
  tx_entryHash : valid_utf8 (ls_entryHash r);
  tx_toolsHash : forall h, ls_toolsHash r = Some h -> valid_utf8 h;
  tx_detail : map_Forall (fun k v => valid_utf8 k /\ valid_utf8 v) (ls_toolsDetail r)
}.

Lemma dec_step {S} (fs : fields S) d s g j ms :
  find_field fs (unquote (m_key g)) = Some d ->
  fold_left (dec_member fs) ((g, j) :: ms) (s, true) = fold_left (dec_member fs) ms (d s j).
Proof. intros H. cbn [fold_left]. unfold dec_member at 2. cbn [fst snd]. rewrite H. by destruct (d s j). Qed.

Definition valid_url (r : lockServer) : lockServer :=
  MkLockServer (ls_command r) (ls_args r) (ls_envKeys r) (ls_entryHash r) (ls_toolsHash r) (sanitize (ls_url r)) (ls_toolsDetail r).

Lemma find_field_nth {S} (fs : fields S) i k d : NoDup (map fst fs) -> fs !! i = Some (k, d) -> find_field fs k = Some d.
Proof.
  intros Hnd Hi. unfold find_field.
  enough (find (fun f => bool_decide (fst f = k)) fs = Some (k, d)) as -> by done.
  revert i Hi. induction fs as [|[k' d'] fs IH]; intros i Hi; [done|]. cbn [map] in Hnd.
  apply NoDup_cons in Hnd as [Hni Hnd]. destruct i as [|i]; cbn [find fst].
  - injection Hi as -> ->. by rewrite bool_decide_true.
  - change (fs !! i = Some (k, d)) in Hi. rewrite bool_decide_false; [by apply (IH Hnd i)|]. cbn [fst] in Hni. intros ->. apply Hni.
    apply list_elem_of_lookup. exists i. rewrite list_lookup_fmap. by rewrite Hi.
Qed.

Lemma lockServer_names : NoDup (map fst lockServer_fields).
Proof. apply (bool_decide_unpack _). by vm_compute. Qed.

(** Reading one member of a record that was written. *)
Lemma server_step i k k' j d s ms :
  lockServer_fields !! i = Some (k, d) -> unquote k' = k ->
  fold_left (dec_member lockServer_fields) ((MGap [] k' [] [] [], j) :: ms) (s, true)
  = fold_left (dec_member lockServer_fields) ms (d s j).
Proof. intros Hi Hk. apply dec_step. cbn [m_key]. rewrite Hk. by eapply find_field_nth, Hi; apply lockServer_names. Qed.

(** A string left out when empty. *)
Lemma server_opt i k get set v s ms :
  lockServer_fields !! i = Some (fld k get set dec_string) -> forallb is_ascii k = true -> set [] s = s ->
  fold_left (dec_member lockServer_fields) (m_opt_string v k ++ ms) (s, true)
  = fold_left (dec_member lockServer_fields) ms (set (sanitize v) s, true).
Proof.
  intros Hi Hk Hs. unfold m_opt_string. case_bool_decide as E; [by rewrite E, <- Hs at 1|].
  unfold m_string. cbn [app]. rewrite (server_step i k _ _ _ _ _ Hi) by by apply key_kept.
  cbn [snd fld dec_string]. by rewrite unquote_escape.
Qed.

Ltac read_member i :=
  erewrite (server_step i) by (reflexivity || by vm_compute);
  cbn [snd fld dec_string ls_command ls_args ls_envKeys ls_entryHash ls_toolsHash ls_url ls_toolsDetail].

Lemma server_json_read r : text_ok r -> dec_struct lockServer_fields zero_lockServer (server_json r) = (valid_url r, true).
Proof.
  intros [H1 H2 H3 H4 H5 H6]. unfold server_json. destruct r as [cmd args env eh th url det]. unfold zero_lockServer, valid_url.
  cbn [ls_command ls_args ls_envKeys ls_entryHash ls_toolsHash ls_url ls_toolsDetail] in *.
  unfold m_string. cbn [dec_struct app].
  read_member 0%nat. rewrite unquote_escape, H1.
  read_member 1%nat. rewrite dec_strings_json by done.
  read_member 2%nat. rewrite dec_strings_json by done.
  erewrite (server_opt 3) by done. rewrite H4.
  read_member 4%nat.
  assert (Hh : dec_ptr [] dec_string None (match th with Some h => JStr (escape_string h) | None => JNull end) = (th, true)).
  { destruct th as [h|]; [|done]. cbn. by rewrite unquote_escape, (H5 h eq_refl). }
  rewrite Hh. erewrite (server_opt 5) by done. case_bool_decide as E; [by subst|].
  read_member 6%nat. cbn [dec_string_map]. rewrite dec_entries.
  - rewrite sorted_entries_map. by rewrite (right_id_L ∅ (∪)).
  - apply Forall_forall. intros kv Hkv%sorted_entries_elem. by apply (H6 _ _ Hkv).
  - apply sorted_entries_nodup.
Qed.

Lemma strings_json_good l : wf (strings_json l) = true /\ depth (strings_json l) <= 1.
Proof.
  unfold strings_json. split.
  - cbn [wf]. apply andb_true_iff. split; [by destruct l|]. apply forallb_Forall, Forall_map, Forall_true.
    intros s. apply escape_string_ok.
  - cbn [depth]. enough (zmax_list (map (fun e => depth (snd e)) (map (fun s => (no_gap, JStr (escape_string s))) l)) <= 0) by lia.
    apply zmax_list_le; [done|]. rewrite map_map. by apply Forall_map, Forall_true.
Qed.

Definition fits (b : Z) (m : mgap * json) : Prop := mgap_ok (fst m) = true /\ wf (snd m) = true /\ depth (snd m) <= b.

Lemma members_fit b ms : 0 <= b -> Forall (fits b) ms -> wf (JObj [] ms) = true /\ depth (JObj [] ms) <= 1 + b.
Proof.
  intros Hb Hms. split.
  - cbn [wf]. apply andb_true_iff. split; [by destruct ms|]. apply forallb_Forall.
    eapply Forall_impl; [exact Hms|]. by intros m (-> & -> & _).
  - cbn [depth]. enough (zmax_list (map (fun m => depth (snd m)) ms) <= b) by lia.
    apply zmax_list_le; [done|]. apply Forall_map. eapply Forall_impl; [exact Hms|]. by intros m (_ & _ & ?).
Qed.

Lemma fits_string b k v : 0 <= b -> fits b (MGap [] (escape_string k) [] [] [], JStr (escape_string v)).
Proof. intros Hb. split_and!; [|apply escape_string_ok|done]. unfold mgap_ok. cbn. by rewrite escape_string_ok. Qed.

Lemma fits_opt_string b k v : 0 <= b -> Forall (fits b) (m_opt_string v k).
Proof. intros Hb. unfold m_opt_string. case_bool_decide; [done|]. by apply Forall_singleton, fits_string. Qed.

Lemma entries_fit l : wf (JObj [] (map string_entry l)) = true /\ depth (JObj [] (map string_entry l)) <= 1.
Proof. apply (members_fit 0); [done|]. apply Forall_map, Forall_true. intros kv. by apply fits_string. Qed.

Lemma server_json_fits r : wf (server_json r) = true /\ depth (server_json r) <= 2.
Proof.
  apply (members_fit 1); [done|].
  assert (Hs : forall (k : bytes) l, str_ok k = true -> fits 1 (MGap [] k [] [] [], strings_json l)).
  { intros k l Hk. destruct (strings_json_good l) as [Hw Hd]. split_and!; [|done..]. unfold mgap_ok. cbn [fst m_pre m_key m_mid m_sep m_post]. by rewrite Hk. }
  repeat (apply Forall_app; split); try by apply fits_opt_string.
  - by apply Forall_singleton, fits_string.
  - repeat (apply Forall_cons; split); [by apply Hs|by apply Hs|done].
  - apply Forall_singleton. destruct (ls_toolsHash r); [|by split_and!].
    split_and!; [done|apply escape_string_ok|done].
  - case_bool_decide; [done|]. apply Forall_singleton. by destruct (entries_fit (sorted_entries (ls_toolsDetail r))).
Qed.

Lemma server_json_good r : good (server_json r).
Proof. destruct (server_json_fits r) as [Hw Hd]. split; [done|]. unfold max_nesting. lia. Qed.

(** A record that was written and indented decodes to itself. *)
Lemma record_reread r n : text_ok r ->
  unmarshal (dec_struct lockServer_fields) zero_lockServer (render (indent n (compact (server_json r)))) = Some (valid_url r).
Proof.
  intros Hr. rewrite reread by (apply lockServer_blind || apply server_json_good).
  unfold unmarshal. rewrite parse_doc_render by apply server_json_good. by rewrite server_json_read.
Qed.

(** ** The servers table *)

(** A raw record that fits in a lockfile. *)
Definition nested (raw : bytes) : Prop := exists j, raw = render j /\ good j /\ depth j + 2 <= max_nesting.

Lemma nested_server r : nested (render (server_json r)).
Proof. exists (server_json r). destruct (server_json_fits r). split_and!; [done|apply server_json_good|unfold max_nesting; lia]. Qed.

Definition table_ok (servers : gmap bytes bytes) : Prop := map_Forall (fun k raw => valid_utf8 k /\ nested raw) servers.

Definition written (kv : bytes * bytes) (m : mgap * json) : Prop :=
  exists j, snd kv = render j /\ good j /\ depth j + 2 <= max_nesting /\
    m = (MGap [] (escape_string (fst kv)) [] [] [], compact j).

Lemma servers_written servers ms :
  table_ok servers -> mapM server_member (sorted_entries servers) = Some ms ->
  Forall2 written (sorted_entries servers) ms.
Proof.
  intros Hn Hm%mapM_Some_1.
  assert (Hs : Forall (fun kv => nested (snd kv)) (sorted_entries servers)).
  { apply Forall_forall. intros kv Hkv%sorted_entries_elem. by apply (Hn _ _ Hkv). }
  induction Hm as [|kv m l ms E Hm IH]; [done|]. apply Forall_cons in Hs as [(j & Hj & Hg & Hd) Hs].
  constructor; [|by apply IH]. exists j. split_and!; [done..|]. unfold server_member in E.
  rewrite Hj, parse_doc_render in E by done. by injection E as <-.
Qed.

(** The members of the indented table. *)
Definition reads_back (kv : bytes * bytes) (m : mgap * json) : Prop :=
  exists j, snd kv = render j /\ good j /\ unquote (m_key (fst m)) = sanitize (fst kv) /\ snd m = indent 2 (compact j).

Definition table_members (ms : list (mgap * json)) : list (mgap * json) :=
  space_members 1 (map (fun m => (fst m, indent 2 (snd m))) ms).

Lemma servers_indented kvs ms : Forall2 written kvs ms -> Forall2 reads_back kvs (table_members ms).
Proof.
  induction 1 as [|kv m kvs ms (j & Hj & Hg & _ & ->) _ IH]; [constructor|]. constructor; [|exact IH].
  exists j. cbn. by rewrite unquote_escape.
Qed.

Definition read_table (ms : list (mgap * json)) : gmap bytes bytes := fold_left insert_member ms ∅.

(** An entry is found again, and nothing else is. *)
Lemma table_read servers ms k raw :
  table_ok servers -> Forall2 reads_back (sorted_entries servers) ms -> servers !! k = Some raw ->
  exists j, good j /\ raw = render j /\ read_table ms !! k = Some (render (indent 2 (compact j))).
Proof.
  intros Ht Hms Hk. pose proof (sorted_entries_nodup servers) as Hnd.
  assert (Hv : Forall (fun kv => valid_utf8 (fst kv)) (sorted_entries servers)).
  { apply Forall_forall. intros kv Hkv%sorted_entries_elem. by apply (Ht _ _ Hkv). }
  assert (Hin : (k, raw) ∈ sorted_entries servers) by by apply sorted_entries_elem.
  apply list_elem_of_split in Hin as (l1 & l2 & E). rewrite E in *.
  apply Forall2_app_inv_l in Hms as (ms1 & ms' & _ & H2 & ->).
  apply Forall2_cons_inv_l in H2 as (m & ms2 & (j & Hj & Hg & Hu & Hr) & H2 & ->).
  apply Forall_app in Hv as [_ [Hv Hv2]%Forall_cons]. cbn [fst snd] in *.
  exists j. split_and!; [done..|]. rewrite <- Hr. apply insert_members_split; [by rewrite Hu|].
  rewrite map_app in Hnd. apply NoDup_app in Hnd as (_ & _ & Hnd). cbn [map fst] in Hnd.
  apply NoDup_cons in Hnd as [Hnd _]. clear E Hk. induction H2 as [|kv m' l2 ms2 (j' & _ & _ & Hu' & _) _ IH]; [done|].
  apply Forall_cons in Hv2 as [Hv' Hv2]. cbn [map] in Hnd. apply not_elem_of_cons in Hnd as [Hne Hnd].
  constructor; [|by apply IH]. rewrite Hu', Hv'. congruence.
Qed.

Lemma lockfile_json_fits version gen servers ms :
  num_ok (itoa version) = true -> Forall2 written (sorted_entries servers) ms ->
  good (file_json version gen ms).
Proof.
  unfold file_json.
  intros Hv Hms.
  assert (Hm : Forall (fits (max_nesting - 2)) ms).
  { clear Hv. induction Hms as [|kv m l ms (j & _ & Hg & Hd & ->) _ IH]; [done|]. constructor; [|done].
    split_and!; [|by apply compact_wf, Hg|cbn [snd]; rewrite compact_depth; lia].
    unfold mgap_ok. cbn [fst m_pre m_key m_mid m_sep m_post]. by rewrite escape_string_ok. }
  apply members_fit in Hm as [Hw Hd]; [|done].
  destruct (members_fit (max_nesting - 1) (m_string gen "generatedBy" ++ m_int version "lockfileVersion"
    ++ [(MGap [] "servers" [] [] [], JObj [] ms)])) as [H1 H2]; [done| |split; [done|lia]].
  repeat (apply Forall_cons; split); [by apply fits_string|by split_and!|split_and!; [done..|cbn [snd]; lia]|done].
Qed.

(** ** Reading the file *)

Lemma lockFile_names : NoDup (map fst lockFile_fields).
Proof. apply (bool_decide_unpack _). by vm_compute. Qed.

Lemma file_step i k g j d s ms :
  lockFile_fields !! i = Some (k, d) -> unquote (m_key g) = k ->
  fold_left (dec_member lockFile_fields) ((g, j) :: ms) (s, true) = fold_left (dec_member lockFile_fields) ms (d s j).
Proof. intros Hi Hk. apply dec_step. rewrite Hk. by eapply find_field_nth, Hi; apply lockFile_names. Qed.

(** The table of the file read is the table written, each record indented. *)
Definition stored (servers : gmap bytes bytes) (lf : lockFile) : Prop :=
  forall k raw, servers !! k = Some raw ->
  exists j, good j /\ raw = render j /\ default ∅ (lf_servers lf) !! k = Some (render (indent 2 (compact j))).

Lemma version_read s : dec_int s (JNum (itoa LockfileVersion)) = (LockfileVersion, true).
Proof. done. Qed.

Lemma file_json_read gen ms :
  dec_struct lockFile_fields zero_lockFile (indent 0 (file_json LockfileVersion gen ms))
  = (MkLockFile LockfileVersion (sanitize gen) (Some (read_table (table_members ms))), true).
Proof.
  unfold file_json, m_string, m_int. cbn [app indent map space_members fst snd m_key dec_struct].
  erewrite (file_step 1) by (reflexivity || by vm_compute). cbn [snd fld dec_string]. rewrite unquote_escape.
  erewrite (file_step 0) by (reflexivity || by vm_compute). cbn [snd fld]. rewrite version_read.
  erewrite (file_step 2) by (reflexivity || by vm_compute). cbn [snd fld dec_raw_map lf_version lf_generatedBy lf_servers].
  cbn [fold_left]. done.
Qed.

Lemma load_spec path data j lf servers :
  parse_doc data = Some j -> dec_struct lockFile_fields zero_lockFile j = (lf, true) ->
  lf_servers lf = Some servers -> lf_version lf = LockfileVersion -> loadLockFile path (Ok data) = Ok lf.
Proof.
  intros Hp Hd Hs Hv. unfold loadLockFile, unmarshal. cbn [mbind result_bind]. rewrite Hp, Hd. cbn [opt_or mbind result_bind].
  rewrite Hs, Hv. done.
Qed.

Lemma lockfile_read path lf text :
  lf_version lf = LockfileVersion -> table_ok (default ∅ (lf_servers lf)) -> lockfile_text lf = Ok text ->
  exists lf', loadLockFile path (Ok text) = Ok lf' /\ stored (default ∅ (lf_servers lf)) lf'.
Proof.
  intros Hv Ht. unfold lockfile_text. rewrite Hv.
  destruct (mapM server_member (sorted_entries (default ∅ (lf_servers lf)))) as [ms|] eqn:Hms; [|done].
  apply servers_written in Hms; [|done]. generalize generatedBy. intros gen Htext.
  assert (text = render (indent 0 (file_json LockfileVersion gen ms)) ++ [x0a]) as -> by congruence. clear Htext.
  exists (MkLockFile LockfileVersion (sanitize gen) (Some (read_table (table_members ms)))). split.
  - eapply load_spec; [|apply file_json_read|done..]. apply parse_doc_spec. exists [], [x0a].
    split_and!; [done..|]. by eapply indent_good, lockfile_json_fits.
  - intros k raw Hk. eapply table_read; [exact Ht|by apply servers_indented|done].
Qed.

Lemma table_ok_empty : table_ok ∅.
Proof. intros k raw. by rewrite lookup_empty. Qed.

(** A file that loads has a supported version and a table of JSON values. *)
Lemma loaded_table path data lf :
  loadLockFile path data = Ok lf -> lf_version lf = LockfileVersion /\ table_ok (default ∅ (lf_servers lf)).
Proof.
  unfold loadLockFile. destruct data as [data|]; [|done]. cbn [mbind result_bind].
  unfold unmarshal. destruct (parse_doc data) as [j|] eqn:Hp; [|done]. apply parse_doc_good in Hp.
  pose proof (dec_struct_inv (fun f => table_ok (default ∅ (lf_servers f))) lockFile_fields zero_lockFile j) as Hinv.
  destruct (dec_struct lockFile_fields zero_lockFile j) as [v []]; [|done]. cbn [opt_or mbind result_bind fst] in *.
  destruct (lf_servers v) as [servers|] eqn:Hs; [|done]. destruct (lf_version v =? LockfileVersion) eqn:Hv; [|done].
  intros [= <-]. split; [by apply Z.eqb_eq|]. rewrite Hs. apply Hinv; [exact table_ok_empty|].
  intros w ms m f s -> Hm Hf Ht. destruct (good_member _ _ _ Hp Hm) as [Hg Hd].
  unfold lockFile_fields in Hf. rewrite !elem_of_cons, elem_of_nil in Hf. destruct Hf as [->|[->|[->|[]]]].
  - cbn. by destruct (dec_int _ _).
  - cbn. by destruct (dec_string _ _).
  - cbn [snd fld]. destruct (snd m) as [| | | | | |w' ms'] eqn:Em; try done.
    cbn [dec_raw_map fst lf_servers default]. intros k raw Hk.
    apply insert_members_source in Hk as [Hk|(m' & Hm' & <- & ->)]; [by apply Ht|].
    destruct (good_member _ _ _ Hg Hm') as [Hg' _]. pose proof (depth_member w' ms' m' Hm').
    split; [by apply unquote_valid, (good_obj w' ms')|]. exists (snd m'). split_and!; [done..|lia].
Qed.
