(* ===== verification/LockInitSafety.v ===== *)
(** * Locking: what is written is what is verified

The client stops after a bounded number of requests, what it returns is the
pages of the server in order, and the lockfile it writes prepares locks that
accept what was fetched. *)

From S2P Require Export LockText.
From S2P Require Import ResponseFilter.
Local Open Scope Z_scope.
Local Open Scope go_scope.

Section locking.
Context {L : GoLib} {W : Type} (Do : rpc_request -> W -> W * result rpc_response).

(** ** Records *)

Definition entries_of (tools : list rawTool) : list (bytes * bytes) := map (fun t => (name t, hash t)) tools.

Lemma entries_names tools : map fst (entries_of tools) = map name tools.
Proof. unfold entries_of. by rewrite map_map. Qed.

Lemma detail_spec u tools detail :
  foldM (detail_step u) ∅ tools = Ok detail ->
  NoDup (map name tools) /\ Forall (fun t => name t <> []) tools /\ detail = list_to_map (entries_of tools).
Proof.
  apply (foldM_inv (fun acc seen => NoDup (map name seen) /\ Forall (fun t => name t <> []) seen /\
    acc = list_to_map (entries_of seen))); [|by repeat constructor].
  intros acc seen t (Hnd & Hne & ->) acc' H. unfold detail_step in H.
  apply bind_unit_ok in H as [Hn%check_ok%bool_decide_eq_false H].
  destruct (list_to_map (entries_of seen) !! name t) eqn:E; [done|]. injection H as <-.
  apply not_elem_of_list_to_map in E. change ((entries_of seen).*1) with (map fst (entries_of seen)) in E.
  split_and!.
  - rewrite map_app. apply NoDup_app. split_and!; [done| |by apply NoDup_singleton].
    intros x Hx ->%list_elem_of_singleton. by rewrite entries_names in E.
  - by apply Forall_app_2; [|apply Forall_singleton].
  - unfold entries_of. rewrite map_app. symmetry. by apply list_to_map_snoc.
Qed.

(** What is known of a record and the listing it was made from. *)
Record recorded (u : Upstream) (elems : list bytes) (tools : list rawTool) (rec : lockServer) : Prop := {
  rc_tools : parseLockTools elems = Ok tools;
  rc_distinct : NoDup (map name tools);
  rc_named : Forall (fun t => name t <> []) tools;
  rc_whole : exists whole, toolsListHash elems = Ok whole /\ ls_toolsHash rec = Some whole;
  rc_detail : ls_toolsDetail rec = list_to_map (entries_of tools);
  rc_empty : ls_command rec = [] /\ ls_args rec = [] /\ ls_envKeys rec = [] /\ ls_entryHash rec = emptyEntryHash
}.

Lemma lock_record_spec u elems rec line :
  lock_record u elems = Ok (rec, line) -> exists tools, recorded u elems tools rec.
Proof.
  unfold lock_record. rewrite result_bind_ok. intros (tools & Ht%wrap_ok & H).
  apply result_bind_ok in H as (detail & Hd & H). apply result_bind_ok in H as (whole & Hw%wrap_ok & H).
  injection H as <- _. apply detail_spec in Hd as (Hnd & Hne & ->). exists tools.
  constructor; try done. by exists whole.
Qed.

Lemma hex_digit_ascii n : 0 <= n < 16 -> is_ascii (hex_digit n) = true.
Proof.
  intros H. unfold is_ascii, hex_digit. destruct (n <? 10) eqn:E; zbool; rewrite bz_zb_small by lia; apply Z.ltb_lt; lia.
Qed.

Lemma sentinelHash_valid b : valid_utf8 (sentinelHash b).
Proof.
  unfold sentinelHash. apply ascii_valid_utf8. rewrite forallb_app. apply andb_true_iff. split; [done|].
  unfold hex_encode. induction (sha256 b) as [|c s IH]; [done|]. cbn [map concat]. rewrite forallb_app, IH.
  unfold hex2. cbn [forallb]. rewrite !hex_digit_ascii; [done|apply Z.mod_pos_bound; lia..].
Qed.

Lemma toolsListHash_valid elems h : toolsListHash elems = Ok h -> valid_utf8 h.
Proof.
  unfold toolsListHash. intros (fps & _ & (buf & _ & [= <-])%result_bind_ok)%result_bind_ok. apply sentinelHash_valid.
Qed.

Lemma emptyEntryHash_valid : valid_utf8 emptyEntryHash.
Proof. unfold emptyEntryHash. destruct (canonicalAppend _ _); [apply sentinelHash_valid|done]. Qed.

Lemma recorded_text u elems tools rec : recorded u elems tools rec -> text_ok rec.
Proof.
  intros [Ht _ _ (whole & Hw & Hh) Hd (H1 & H2 & H3 & H4)]. constructor.
  - by rewrite H1.
  - by rewrite H2.
  - by rewrite H3.
  - rewrite H4. apply emptyEntryHash_valid.
  - intros h. rewrite Hh. intros [= <-]. by eapply toolsListHash_valid.
  - rewrite Hd. intros k v Hkv%elem_of_list_to_map_2. unfold entries_of in Hkv.
    apply list_elem_of_fmap in Hkv as (t & [= -> ->] & Hin).
    destruct (mapM_Ok_source _ _ _ _ Ht Hin) as (el & Hel & _).
    destruct (lockTool_spec el t Hel) as (d & g & _ & _ & Hn & _ & c & _ & ->). split; [done|apply sentinelHash_valid].
Qed.

(** ** Preparing what was written *)

Definition names_server (u : Upstream) (lc : LockConfig) : Prop := Server lc = [] \/ Server lc = Name u.

Lemma prepared_spec u lc lf servers rec whole :
  names_server u lc -> stored servers lf -> servers !! Name u = Some (render (server_json rec)) ->
  text_ok rec -> ls_toolsHash rec = Some whole ->
  server_lock u lc lf
  = Ok (MkPrepared (File lc) (Name u) (negb (bool_decide (Mode lc = "warn"))) whole (ls_toolsDetail rec)).
Proof.
  intros Hs Hst Hu Hr Hh. destruct (Hst _ _ Hu) as (j & Hg & Hj & Hl).
  apply render_inj in Hj as <-; [|apply server_json_good|done]. unfold server_lock.
  assert ((if bool_decide (Server lc = []) then Name u else Server lc) = Name u) as ->.
  { case_bool_decide; [done|]. by destruct Hs. }
  rewrite Hl, record_reread by done. cbn [opt_or mbind result_bind valid_url ls_toolsHash ls_toolsDetail]. by rewrite Hh.
Qed.

Lemma prepared_accepts u lc elems tools rec whole listing :
  recorded u elems tools rec -> ls_toolsHash rec = Some whole -> listing ⊆ elems ->
  verify (MkPrepared (File lc) (Name u) (negb (bool_decide (Mode lc = "warn"))) whole (ls_toolsDetail rec)) listing = [].
Proof.
  intros [Ht Hnd _ (whole' & Hw & Hh) Hd _] Hh' Hsub. destruct elems as [|el elems].
  - assert (listing = []) as -> by (destruct listing as [|x l]; [done|]; by specialize (Hsub x ltac:(by left)); apply elem_of_nil in Hsub).
    unfold parseLockTools in Ht. injection Ht as <-. unfold verify. rewrite Hd. cbn [detail wholeHash].
    rewrite Hw. rewrite bool_decide_true by congruence. done.
  - by eapply lock_roundtrip; [exact Ht|..].
Qed.

(** ** The loop over the upstreams *)

Definition locked_in (servers : gmap bytes bytes) (u : Upstream) : Prop :=
  exists w1 w2 elems tools rec, fetchAllTools Do (URL u) w1 = (w2, Ok elems) /\ recorded u elems tools rec /\
    servers !! Name u = Some (render (server_json rec)).

Lemma lock_upstream_spec u servers w w' servers' line :
  lock_upstream Do u servers w = (w', Ok (servers', line)) ->
  exists elems tools rec, fetchAllTools Do (URL u) w = (w', Ok elems) /\ recorded u elems tools rec /\
    servers' = <[Name u := render (server_json rec)]> servers.
Proof.
  unfold lock_upstream. destruct (fetchAllTools Do (URL u) w) as [w1 res].
  intros [= -> H]. apply result_bind_ok in H as (elems & ->%wrap_ok & H).
  apply result_bind_ok in H as ([rec ln] & (tools & Hr)%lock_record_spec & [= <- <-]). by exists elems, tools, rec.
Qed.

Lemma lock_upstreams_spec us servers out w w' out' servers' :
  lock_upstreams Do us servers out w = (w', out', Ok servers') ->
  (forall k, k ∉ map Name us -> servers' !! k = servers !! k) /\
  (NoDup (map Name us) -> Forall (locked_in servers') us) /\
  (forall k raw, servers' !! k = Some raw -> servers !! k = Some raw \/ k ∈ map Name us /\ exists rec, raw = render (server_json rec)).
Proof.
  revert servers out w. induction us as [|u us IH]; intros servers out w H; cbn [lock_upstreams] in H.
  - injection H as <- <- <-. split_and!; [done|done|by left].
  - destruct (lock_upstream Do u servers w) as [w1 [[s1 line]|]] eqn:E; [|done].
    apply lock_upstream_spec in E as (elems & tools & rec & Hf & Hr & ->).
    destruct (IH _ _ _ H) as (H1 & H2 & H3). split_and!.
    + intros k [Hk Hks]%not_elem_of_cons. rewrite H1 by done. by apply lookup_insert_ne.
    + cbn [map]. intros [Hni Hnd]%NoDup_cons. constructor; [|by apply H2].
      exists w, w1, elems, tools, rec. split_and!; [done..|]. rewrite H1 by done. apply lookup_insert_eq.
    + intros k raw [Hk|[Hk Hrec]]%H3; [|right; split; [by right|done]].
      apply lookup_insert_Some in Hk as [[<- <-]|[_ Hk]]; [|by left]. right. split; [by left|eauto].
Qed.

(** ** The whole run *)

(** The table the run starts from. *)
Definition prior (path : bytes) (existing : option (result bytes)) : gmap bytes bytes :=
  match existing with
  | Some data => match loadLockFile path data with Ok lf => default ∅ (lf_servers lf) | Err _ => ∅ end
  | None => ∅
  end.

Lemma name_tail_ascii c : name_tail c = true -> is_ascii c = true.
Proof. destruct c; try done; by vm_compute. Qed.

Lemma name_ascii s : nameRE s = true -> forallb is_ascii s = true.
Proof.
  unfold nameRE. destruct s as [|c t]; [done|]. intros [Hc Ht]%andb_true_iff. cbn [forallb].
  rewrite name_tail_ascii by (unfold name_tail; by rewrite Hc). cbn [andb].
  induction t as [|b t IH]; [done|]. cbn [forallb] in *. apply andb_true_iff in Ht as [Hb Ht].
  by rewrite name_tail_ascii, IH.
Qed.

Lemma config_names cfg : config_taken cfg ->
  NoDup (map Name (Upstreams cfg)) /\ Forall (fun u => valid_utf8 (Name u)) (Upstreams cfg).
Proof.
  intros [_ _ Hus Hnd]. split.
  - unfold route_key in Hnd. rewrite <- map_map in Hnd. by apply NoDup_fmap_1 in Hnd.
  - eapply Forall_impl; [exact Hus|]. intros u [Hn _ _ _ _ _ _ _ _ _]. apply ascii_valid_utf8.
    apply name_ascii, Hn.
Qed.

(** What a run that reports success has done. *)
Record run_done (cfg : Config) (path : bytes) (existing : option (result bytes)) (text : bytes) (servers : gmap bytes bytes) : Prop := {
  rd_config : config_taken cfg;
  rd_loads : exists lf, loadLockFile path (Ok text) = Ok lf /\ stored servers lf;
  rd_kept : forall k, k ∉ map Name (Upstreams cfg) -> servers !! k = prior path existing !! k;
  rd_locked : Forall (locked_in servers) (Upstreams cfg)
}.

Lemma LockInit_spec cfg path existing write w w' out text :
  LockInit Do cfg path existing write w = (w', out, Some text, Ok tt) -> exists servers, run_done cfg path existing text servers.
Proof.
  unfold LockInit. destruct (Validate cfg) as [cfg' valid] eqn:Hv.
  pose proof (Validate_fst cfg) as Hc. pose proof (Validate_accepts cfg) as Ha. rewrite Hv in Hc, Ha. cbn [fst snd] in Hc, Ha.
  destruct valid as [[]|]; [|done]. assert (Hok : config_taken cfg) by by apply Ha. clear Hv Ha. subst cfg'.
  destruct (config_names _ Hok) as [Hnd Hnames].
  set (start := match existing with None => _ | Some data => _ end).
  destruct start as [lf|] eqn:Hs; [|done].
  assert (Hlf : lf_version lf = LockfileVersion /\ table_ok (default ∅ (lf_servers lf)) /\ default ∅ (lf_servers lf) = prior path existing).
  { unfold start, prior in *. destruct existing as [data|]; [|injection Hs as <-; split_and!; [done|apply table_ok_empty|done]].
    apply wrap_ok in Hs. rewrite Hs. by destruct (loaded_table _ _ _ Hs). }
  destruct Hlf as (Hver & Htab & Hprior). clear start Hs.
  rewrite with_listen_upstreams.
  destruct (lock_upstreams Do (Upstreams cfg) (default ∅ (lf_servers lf)) [] w) as [[w1 out1] [servers|]] eqn:Hl; [|done].
  apply lock_upstreams_spec in Hl as (Hkeep & Hlocked & Hfrom).
  destruct (lockfile_text _) as [txt|] eqn:Ht; [|done]. destruct (write txt); [done|]. intros [= <- <- <-].
  exists servers. constructor; [done| | |by apply Hlocked].
  - apply (lockfile_read path _ _) in Ht; [done|done|]. cbn [lf_servers default]. intros k raw Hk.
    destruct (Hfrom _ _ Hk) as [Hk'|[(u & -> & Hu)%list_elem_of_fmap [rec ->]]]; [by apply Htab|].
    split; [by eapply Forall_forall in Hnames|apply nested_server].
  - intros k Hk. by rewrite <- Hprior, Hkeep.
Qed.

(** C14. The lockfile a run reports as written loads, prepares a lock for
every upstream, and that lock accepts any page, reordering or subset of the
listing that was fetched from the upstream; the records of servers the
gateway does not manage keep their value. *)
Theorem lock_init_roundtrip (cfg : Config) (path : bytes) (existing : option (result bytes))
    (write : bytes -> option goerror) (w w' : W) (out text : bytes) :
  LockInit Do cfg path existing write w = (w', out, Some text, Ok tt) ->
  exists lf, loadLockFile path (Ok text) = Ok lf /\
    (forall k raw, k ∉ map Name (Upstreams cfg) -> prior path existing !! k = Some raw ->
       exists raw', default ∅ (lf_servers lf) !! k = Some raw' /\ same_value raw raw') /\
    (forall u lc, u ∈ Upstreams cfg -> names_server u lc ->
       exists w1 w2 elems lock, fetchAllTools Do (URL u) w1 = (w2, Ok elems) /\ server_lock u lc lf = Ok lock /\
         enforce lock = negb (bool_decide (Mode lc = "warn")) /\ toolsListHash elems = Ok (wholeHash lock) /\
         forall listing, listing ⊆ elems -> verify lock listing = []).
Proof.
  intros (servers & [Hok (lf & Hlf & Hst) Hkept Hlocked])%LockInit_spec. exists lf. split_and!; [done| |].
  - intros k raw Hk Hp. rewrite <- Hkept in Hp by done. destruct (Hst _ _ Hp) as (j & Hg & -> & Hl).
    eexists. split; [exact Hl|by apply reread_value].
  - intros u lc Hu Hs. eapply Forall_forall in Hlocked as (w1 & w2 & elems & tools & rec & Hf & Hr & Hl); [|exact Hu].
    destruct (rc_whole _ _ _ _ Hr) as (whole & Hw & Hh).
    exists w1, w2, elems. eexists. split_and!; [done|by eapply prepared_spec; [..|eapply recorded_text|]|done|done|].
    intros listing Hsub. by eapply prepared_accepts.
Qed.

(** ** Pages *)

(** A run of [tools/list] calls, each asking for the page the one before it
named. *)
Inductive chain (url session : bytes) : Z -> bytes -> W -> list (list bytes) -> W -> Prop :=
| chain_last page cursor w res hdr tools w' :
    doRPC Do url session "tools/list" (Some (page_params cursor)) (page + 2) w = (w', Ok (res, hdr)) ->
    read_page res = Ok (tools, []) -> chain url session page cursor w [tools] w'
| chain_more page cursor w res hdr tools next w1 pages w' :
    doRPC Do url session "tools/list" (Some (page_params cursor)) (page + 2) w = (w1, Ok (res, hdr)) ->
    read_page res = Ok (tools, next) -> next <> [] ->
    chain url session (page + 1) next w1 pages w' -> chain url session page cursor w (tools :: pages) w'.

Lemma chain_nonempty url session page cursor w pages w' :
  chain url session page cursor w pages w' -> (1 <= length pages)%nat.
Proof. intros []; simpl; lia. Qed.

Lemma fetch_pages_sound fuel url session page cursor all w w' elems :
  fetch_pages Do fuel url session page cursor all w = (w', Ok elems) ->
  exists pages, chain url session page cursor w pages w' /\ (length pages <= fuel)%nat /\ elems = all ++ concat pages.
Proof.
  revert page cursor all w. induction fuel as [|fuel IH]; intros page cursor all w; [done|]. cbn [fetch_pages].
  destruct (doRPC _ _ _ _ _ _ w) as [w1 res] eqn:Hd. destruct res as [[res hdr]|]; [|done].
  cbn [wrap mbind result_bind fst]. destruct (read_page res) as [[tools next]|] eqn:Hp; [|done].
  case_bool_decide as E.
  - intros [= <- <-]. subst next. exists [tools]. split_and!; [by econstructor|simpl; lia|]. cbn. by rewrite app_nil_r.
  - intros (pages & Hc & Hl & ->)%IH. exists (tools :: pages). split_and!; [by econstructor|simpl; lia|]. cbn. by rewrite app_assoc.
Qed.

Lemma fetch_pages_complete url session page cursor w pages w' :
  chain url session page cursor w pages w' -> forall fuel all, (length pages <= fuel)%nat ->
  fetch_pages Do fuel url session page cursor all w = (w', Ok (all ++ concat pages)).
Proof.
  induction 1 as [page cursor w res hdr tools w' Hd Hp|page cursor w res hdr tools next w1 pages w' Hd Hp Hn _ IH];
    intros [|fuel] all Hl; simpl in Hl; try lia; cbn [fetch_pages]; rewrite Hd; cbn [wrap mbind result_bind fst]; rewrite Hp.
  - cbn. by rewrite app_nil_r.
  - rewrite bool_decide_false by done. rewrite IH by lia. cbn. by rewrite app_assoc.
Qed.

(** C34. Fetching succeeds exactly when the server answers the handshake and
then at most [maxLockPages] pages, each naming the next and the last naming
none; what is returned is those pages in order, none left out. *)
Theorem fetch_all_pages (url : bytes) (w w' : W) (elems : list bytes) :
  fetchAllTools Do url w = (w', Ok elems) <->
  exists w1 res hdr pages,
    doRPC Do url [] "initialize" (Some init_params) 1 w = (w1, Ok (res, hdr)) /\
    let session := h_get hdr "Mcp-Session-Id" in
    chain url session 0 [] (notifyInitialized Do url session w1) pages w' /\
    (length pages <= maxLockPages)%nat /\ elems = concat pages.
Proof.
  unfold fetchAllTools. destruct (doRPC _ url [] _ _ _ w) as [w1 [[res hdr]|e]] eqn:Hd; cbn [wrap].
  - split.
    + intros (pages & Hc & Hl & ->)%fetch_pages_sound. by exists w1, res, hdr, pages.
    + intros (w2 & res2 & hdr2 & pages & [= <- <- <-] & Hc & Hl & ->). by rewrite (fetch_pages_complete _ _ _ _ _ _ _ Hc).
  - split; [done|]. by intros (w2 & res2 & hdr2 & pages & ? & _).
Qed.

(** ** Requests *)

Section requests.
Context (count : W -> nat) (Hcount : forall r w, (count (fst (Do r w)) <= S (count w))%nat).

Lemma doRPC_count url session method params id w :
  (count (fst (doRPC Do url session method params id w)) <= S (count w))%nat.
Proof.
  unfold doRPC. pose proof (Hcount (MkRpcRequest url (rpc_headers session) (render (message_json method params id))) w).
  by destruct (Do _ w).
Qed.

Lemma fetch_pages_count fuel url session page cursor all w :
  (count (fst (fetch_pages Do fuel url session page cursor all w)) <= fuel + count w)%nat.
Proof.
  revert page cursor all w. induction fuel as [|fuel IH]; intros page cursor all w; [done|]. cbn [fetch_pages].
  pose proof (doRPC_count url session "tools/list" (Some (page_params cursor)) (page + 2) w) as H.
  destruct (doRPC _ _ _ _ _ _ w) as [w1 res]. cbn [fst] in H.
  destruct (wrap _ res ≫= _) as [[tools next]|]; [|cbn [fst]; lia]. case_bool_decide; [cbn [fst]; lia|].
  specialize (IH (page + 1) next (all ++ tools) w1). lia.
Qed.

Lemma fetch_count url w : (count (fst (fetchAllTools Do url w)) <= maxLockPages + 2 + count w)%nat.
Proof.
  unfold fetchAllTools. pose proof (doRPC_count url [] "initialize" (Some init_params) 1 w) as H.
  destruct (doRPC _ _ _ _ _ _ w) as [w1 res]. cbn [fst] in H. destruct (wrap _ res) as [[body hdr]|]; [|cbn [fst]; lia].
  set (w2 := notifyInitialized _ _ _ _). assert (Hw2 : (count w2 <= S (count w1))%nat) by apply Hcount.
  pose proof (fetch_pages_count maxLockPages url (h_get hdr "Mcp-Session-Id") 0 [] [] w2). lia.
Qed.

Lemma lock_upstreams_count us servers out w :
  (count (fst (fst (lock_upstreams Do us servers out w))) <= length us * (maxLockPages + 2) + count w)%nat.
Proof.
  revert servers out w. induction us as [|u us IH]; intros servers out w; [done|]. cbn [lock_upstreams].
  unfold lock_upstream. pose proof (fetch_count (URL u) w) as H. destruct (fetchAllTools Do (URL u) w) as [w1 res].
  cbn [fst length] in *. rewrite Nat.mul_succ_l. destruct (wrap _ res ≫= _) as [[s1 line]|]; [|cbn [fst]; lia].
  specialize (IH s1 (out ++ line) w1). lia.
Qed.

End requests.
End locking.

(** ** Concrete instances *)

Existing Instance plain_lib.

Definition json_reply (body : bytes) : rpc_response :=
  MkRpcResponse 200 (h_set ∅ "Mcp-Session-Id" "s1") (Source body None).

Definition event_reply (body : bytes) : rpc_response :=
  MkRpcResponse 200 (h_set ∅ "Content-Type" "text/event-stream") (Source ("data: " ++ body ++ [x0a; x0a]) None).

(** A server with two pages; the state counts the requests. *)
Definition paged_server (r : rpc_request) (n : nat) : nat * result rpc_response :=
  (S n, Ok (match n with
   | O => json_reply "{'jsonrpc':'2.0','id':1,'result':{}}"%js
   | 2%nat => json_reply ("{'result':{'nextCursor':'p2','tools':["%js ++ hd [] vectorTools ++ "]}}"%js)
   | 3%nat => event_reply ("{'result':{'tools':["%js ++ hd [] (tl vectorTools) ++ "]}}"%js)
   | _ => json_reply []
   end)).

Definition paged_upstream : Upstream := MkUpstream "files" "http://127.0.0.1:9000/mcp" 0 None [] [] None None [] [].
Definition paged_config : Config := MkConfig [] [] (MkAudit []) [paged_upstream].
Definition old_lockfile : bytes := "{'lockfileVersion':1,'servers':{'other':{'toolsHash':null}}}"%js.
Definition demo_run : nat * bytes * option bytes * result unit :=
  LockInit paged_server paged_config "mcp.lock" (Some (Ok old_lockfile)) (fun _ => None) 0%nat.

Definition demo_text : bytes := default [] (snd (fst demo_run)).
Definition demo_out : bytes := snd (fst (fst demo_run)).

(** Four requests are made, two of them to open the session, and both
records are in the file. *)
Lemma demo_done :
  LockInit paged_server paged_config "mcp.lock" (Some (Ok old_lockfile)) (fun _ => None) 0%nat
  = (4%nat, demo_out, Some demo_text, Ok tt).
Proof. vm_compute. reflexivity. Qed.

Definition demo_lock (lf : lockFile) : Prop :=
  exists elems lock, server_lock paged_upstream (MkLockConfig "mcp.lock" [] []) lf = Ok lock /\ enforce lock = true /\
    (forall listing, listing ⊆ elems -> verify lock listing = []).

Lemma lock_init_roundtrip_witness : exists lf, loadLockFile "mcp.lock" (Ok demo_text) = Ok lf /\ demo_lock lf.
Proof.
  destruct (lock_init_roundtrip paged_server paged_config "mcp.lock" (Some (Ok old_lockfile)) (fun _ => None)
    0%nat 4%nat demo_out demo_text demo_done) as (lf & Hl & _ & Hu).
  exists lf. split; [exact Hl|].
  destruct (Hu paged_upstream (MkLockConfig "mcp.lock" [] [])) as (w1 & w2 & elems & lock & _ & Hs & He & _ & Hv);
    [by left|by left|].
  exists elems, lock. split_and!; [exact Hs|exact He|exact Hv].
Defined.

