(* ===== verification/Proxy.v ===== *)
(** * The reverse proxy (gateway/gateway.go: newProxy, joinPath, countingWriter)

What the gateway does with one upstream: the request it sends, the response
it sends back, and its error handler, around [httputil.ReverseProxy] and
[http.ResponseWriter] as the standard library (Go 1.22, served by
[http.Server]) has them.  The upstream, with the transport in front of it, is
a parameter: a function from requests to replies.

Left out: trailers, the bytes of a connection after it has been switched to
another protocol, and flushing. *)

From S2P Require Export SseDrain Url AuditTrail.
Local Open Scope Z_scope.
Local Open Scope go_scope.

(** ** Requests and replies *)

Record request := MkRequest {
  rq_method : bytes;
  rq_path : bytes;
  rq_query : bytes;
  rq_host : bytes;
  rq_remote : bytes;
  rq_tls : bool;
  rq_header : header;
  rq_body : option source;
  rq_length : Z
}.

Definition with_request_body (b : option source) (r : request) : request :=
  MkRequest (rq_method r) (rq_path r) (rq_query r) (rq_host r) (rq_remote r) (rq_tls r) (rq_header r) b (rq_length r).

Record out_request := MkOutRequest {
  or_method : bytes;
  or_url : url;
  or_host : bytes;
  or_header : header;
  or_body : option source;
  or_length : Z
}.

Record upstream_response := MkUpstreamResponse {
  ur_code : Z;
  ur_status : bytes;
  ur_header : header;
  ur_source : source;
  ur_length : Z;
  ur_encoding : list bytes
}.

Definition received (u : upstream_response) : response :=
  MkResponse (ur_code u) (ur_status u) (ur_header u) (Plain (ur_source u)) (ur_length u) (ur_encoding u).

(** The informational responses that came first, how much of the request body
was read, and the response or the transport's error. *)
Record reply := MkReply {
  rp_infos : list (Z * header);
  rp_read : Z;
  rp_answer : result upstream_response
}.

(** [pieces] is how a response body arrives: the reads it takes. *)
Class Transport := {
  RoundTrip : out_request -> reply;
  pieces : bytes -> list bytes;
  pieces_concat : forall b, concat (pieces b) = b
}.

(** ** Response writers *)

(** The server's writer: informational responses sent, the final status with
the headers it went out with, the body the client is sent, how many more bytes
the client takes, and whether the request is a [HEAD]. *)
Record writer := MkWriter {
  wr_header : header;
  wr_infos : list (Z * header);
  wr_final : option (Z * header);
  wr_body : bytes;
  wr_room : Z;
  wr_head : bool
}.

Definition new_writer (room : Z) : writer := MkWriter ∅ [] None [] room false.

Definition set_wr_header (h : header) (w : writer) : writer :=
  MkWriter h (wr_infos w) (wr_final w) (wr_body w) (wr_room w) (wr_head w).

(** [WriteHeader]; a second final status is ignored. *)
Definition wr_write_header (code : Z) (w : writer) : writer :=
  match wr_final w with
  | Some _ => w
  | None =>
      if (100 <=? code) && (code <=? 199) && negb (code =? 101)
      then MkWriter (wr_header w) (wr_infos w ++ [(code, wr_header w)]) None (wr_body w) (wr_room w) (wr_head w)
      else MkWriter (wr_header w) (wr_infos w) (Some (code, wr_header w)) (wr_body w) (wr_room w) (wr_head w)
  end.

(** [bodyAllowedForStatus]. *)
Definition body_allowed (code : Z) : bool :=
  negb ((100 <=? code) && (code <=? 199)) && negb (code =? 204) && negb (code =? 304).

(** The status the client sees once the handler has returned. *)
Definition client_status (w : writer) : Z := match wr_final w with Some (c, _) => c | None => StatusOK end.

(** [Write]: the number of bytes taken; an error when it is not all of them.  A
status without a body takes none, and the answer to a [HEAD] takes all and
sends none. *)
Definition wr_write (b : bytes) (w : writer) : Z * writer :=
  let w := wr_write_header StatusOK w in
  if negb (body_allowed (client_status w)) then (0, w)
  else if wr_head w then (len b, w)
  else
    let n := Z.min (len b) (wr_room w) in
    (n, MkWriter (wr_header w) (wr_infos w) (wr_final w) (wr_body w ++ take (Z.to_nat n) b) (wr_room w - n) false).

(** A final status stays. *)
Lemma wr_write_final b f w : wr_final w = Some f -> wr_final (snd (wr_write b w)) = Some f.
Proof.
  intros H. unfold wr_write, wr_write_header. rewrite H. destruct (negb _); [done|]. by destruct (wr_head w).
Qed.

Record countingWriter := MkCounting { cw_writer : writer; cw_status : Z; cw_written : Z }.

Definition cw_header (w : countingWriter) : header := wr_header (cw_writer w).
Definition cw_set_header (h : header) (w : countingWriter) : countingWriter :=
  MkCounting (set_wr_header h (cw_writer w)) (cw_status w) (cw_written w).

Definition WriteHeader (code : Z) (w : countingWriter) : countingWriter :=
  MkCounting (wr_write_header code (cw_writer w)) (if cw_status w =? 0 then code else cw_status w) (cw_written w).

Definition Write (b : bytes) (w : countingWriter) : Z * countingWriter :=
  let st := if cw_status w =? 0 then StatusOK else cw_status w in
  let '(n, w') := wr_write b (cw_writer w) in
  (n, MkCounting w' st (cw_written w + n)).

(** ** Header lists *)

Fixpoint split_commas (acc s : bytes) : list bytes :=
  match s with
  | [] => [acc]
  | c :: t => if Byte.eqb c x2c then acc :: split_commas [] t else split_commas (acc ++ [c]) t
  end.

Definition trim_ascii (s : bytes) : bytes := reverse (snd (take_ws (reverse (snd (take_ws s))))).

(** A header name the canonical form exists for. *)
Definition token_byte (c : byte) : bool := is_alpha c || is_digit c || one_of "!#$%&'*+-.^_`|~" c.

Definition del_listed (h : header) (k : bytes) : header := if forallb token_byte k then h_del h k else delete k h.

Definition listed_values (h : header) (k : bytes) : list bytes :=
  concat (map (fun v => map trim_ascii (split_commas [] v)) (default [] (h !! k))).

Definition contains_token (h : header) (k token : bytes) : bool :=
  existsb (fun v => bool_decide (to_lower v = to_lower token)) (listed_values h k).

Definition copyHeader (dst src : header) : header := union_with (fun a b => Some (a ++ b)) dst src.

Definition hopHeaders : list bytes :=
  ["Connection" : bytes; "Proxy-Connection" : bytes; "Keep-Alive" : bytes; "Proxy-Authenticate" : bytes;
   "Proxy-Authorization" : bytes; "Te" : bytes; "Trailer" : bytes; "Transfer-Encoding" : bytes; "Upgrade" : bytes].

Definition removeHopByHopHeaders (h : header) : header :=
  let listed := filter (fun k => k <> []) (listed_values h "Connection") in
  fold_left h_del hopHeaders (fold_left del_listed listed h).

Definition upgradeType (h : header) : bytes := if contains_token h "Connection" "upgrade" then h_get h "Upgrade" else [].

Definition ascii_print (s : bytes) : bool := forallb (fun c => (0x20 <=? bz c) && (bz c <=? 0x7E)) s.

(** [net.SplitHostPort], the host only. *)
Definition split_host (s : bytes) : option bytes :=
  match cut_last x3a s with
  | None => None
  | Some (pre, post) =>
      match s with
      | x5b :: rest =>
          match split_byte x5d rest with
          | Some (host, _) =>
              if bool_decide (x5b :: host ++ [x5d] = pre) && negb (existsb (Byte.eqb x5b) (host ++ post))
                 && negb (existsb (Byte.eqb x5d) post)
              then Some host else None
          | None => None
          end
      | _ => if existsb (Byte.eqb x3a) pre || existsb (Byte.eqb x5b) s || existsb (Byte.eqb x5d) s then None else Some pre
      end
  end.

(** ** The proxy of one upstream *)

Definition joinPath (base suffix : bytes) : bytes :=
  let base := trim_suffix base "/" in
  if bool_decide (suffix = []) || bool_decide (suffix = "/")
  then (if bool_decide (base = []) then "/" else base)
  else
    let suffix := if negb (has_prefix suffix "/") then "/" ++ suffix else suffix in
    if bool_decide (base = []) then suffix else base ++ suffix.

(** Signed 64-bit wrap-around. *)
Definition wrap64 (n : Z) : Z := (n + 2 ^ 63) mod 2 ^ 64 - 2 ^ 63.

Definition defaultHeaderTimeout : Z := 30 * 1000000000.

Record proxy := MkProxy { px_target : url; px_prefix : bytes; px_timeout : Z }.

Definition newProxy {L : GoLib} (u : Upstream) : result proxy :=
  target ← wrap "parse url: " (url_parse (URL u));
  mret (MkProxy target ("/mcp/" ++ Name u)
          (if 0 <? HeaderTimeoutSeconds u then wrap64 (HeaderTimeoutSeconds u * 1000000000) else defaultHeaderTimeout)).

Definition forwarding : list bytes :=
  ["Forwarded" : bytes; "X-Forwarded-For" : bytes; "X-Forwarded-Host" : bytes; "X-Forwarded-Proto" : bytes].

(** [SetXForwarded], after the client's own forwarding headers are gone. *)
Definition SetXForwarded (r : request) (h : header) : header :=
  let h := match split_host (rq_remote r) with
           | Some ip => h_set h "X-Forwarded-For" ip
           | None => h_del h "X-Forwarded-For"
           end in
  let h := h_set h "X-Forwarded-Host" (rq_host r) in
  h_set h "X-Forwarded-Proto" (if rq_tls r then "https" else "http").

(** The headers the proxy itself sends on, before the [Rewrite] hook. *)
Definition outgoing_header (r : request) : header :=
  let up := upgradeType (rq_header r) in
  let h := removeHopByHopHeaders (rq_header r) in
  let h := if contains_token (rq_header r) "Te" "trailers" then h_set h "Te" "trailers" else h in
  let h := if bool_decide (up = []) then h else h_set (h_set h "Connection" "Upgrade") "Upgrade" up in
  fold_left h_del forwarding h.

(** The [Rewrite] hook; [marked] is whether the request carries a
[rewriteState]. *)
Definition Rewrite (p : proxy) (marked : bool) (r : request) : out_request :=
  let h := SetXForwarded r (outgoing_header r) in
  let h := if marked then h_del h "Accept-Encoding" else h in
  let t := px_target p in
  MkOutRequest (rq_method r)
    (Url (Scheme t) (Opaque t) (User t) (Host t) (joinPath (UrlPath t) (trim_prefix (rq_path r) (px_prefix p))) (RawPath t)
       (ForceQuery t) (rq_query r) (Fragment t))
    (Host t) h (if rq_length r =? 0 then None else rq_body r) (rq_length r).

(** An absent [User-Agent] is sent as an empty one, so that the transport does
not add its own. *)
Definition with_user_agent (o : out_request) : out_request :=
  match or_header o !! ("User-Agent" : bytes) with
  | Some _ => o
  | None => MkOutRequest (or_method o) (or_url o) (or_host o) (h_set (or_header o) "User-Agent" []) (or_body o) (or_length o)
  end.

Definition unavailable_body : bytes :=
  "{'jsonrpc':'2.0','id':null,'error':{'code':-32001,'message':'upstream unavailable'}}"%js ++ [x0a].

(** The proxy's [ErrorHandler]: the writer and what it leaves in [proxyErr]. *)
Definition ErrorHandler {L : GoLib} (e : goerror) (w : countingWriter) : countingWriter * bytes :=
  if negb (cw_status w =? 0) then (w, Error e)
  else
    let w := cw_set_header (h_set (cw_header w) "Content-Type" "application/json") w in
    (snd (Write unavailable_body (WriteHeader StatusBadGateway w)), Error e).

(** ** [ReverseProxy.ServeHTTP]

[ex_sent] is the request the transport was handed, [ex_aborted] whether the
handler was left by [panic(http.ErrAbortHandler)]. *)
Record exchange := MkExchange {
  ex_sent : option out_request;
  ex_read : Z;
  ex_writer : countingWriter;
  ex_state : option rewriteState;
  ex_error : bytes;
  ex_aborted : bool
}.

(** [Got1xxResponse]. *)
Definition inform (w : countingWriter) (info : Z * header) : countingWriter :=
  let w := cw_set_header (copyHeader (cw_header w) (snd info)) w in
  cw_set_header ∅ (WriteHeader (fst info) w).

Section serve.
Context {L : GoLib} {E : ScanEnv} {T : Transport}.

(** A body as the reads it takes. *)
Definition reads (s : source) : list (bytes * option read_error) :=
  map (fun b => (b, None)) (pieces (src_data s))
  ++ [([], Some (match src_err s with None => EOF | Some e => ReadErr e end))].

(** Reading a body to its end: the bytes, the error, and the processing's
final state. *)
Definition read_body (b : body) (st : option rewriteState) : (bytes * option goerror) * option rewriteState :=
  match b, st with
  | Rewritten s, Some st0 =>
      let r := drain maxRPCPeek (reads s) (newSSERewriter (reads s) st0) in
      ((w_out r, match srcErr r with Some (ReadErr e) => Some e | _ => None end), Some (SseRewrite.st r))
  | Plain s, _ | Rewritten s, None => ((src_data s, src_err s), st)
  end.

Definition valid_code (code : Z) : bool := (100 <=? code) && (code <=? 999).

(** The response goes out: headers, status, body.  The result is whether the
handler is aborted. *)
Definition copy_response (r : response) (st : option rewriteState) (w : countingWriter) :
    countingWriter * option rewriteState * bool :=
  let w := cw_set_header (copyHeader (cw_header w) (Header r)) w in
  if negb (valid_code (StatusCode r)) then (w, st, true)
  else
    let w := WriteHeader (StatusCode r) w in
    let '((b, err), st) := read_body (Body r) st in
    if bool_decide (b = []) then (w, st, bool_decide (err <> None))
    else
      let '(n, w) := Write b w in
      (w, st, (n <? len b) || bool_decide (err <> None)).

(** A switched connection: the writer is bypassed. *)
Definition switched (h : header) (w : countingWriter) : countingWriter :=
  let merged := copyHeader (cw_header w) h in
  MkCounting (MkWriter merged (wr_infos (cw_writer w)) (Some (101, merged)) (wr_body (cw_writer w)) (wr_room (cw_writer w)) (wr_head (cw_writer w)))
    (cw_status w) (cw_written w).

Definition switch_error (requested offered : bytes) : option goerror :=
  if negb (ascii_print offered) then Some (ENew ("backend tried to switch to invalid protocol " ++ quote offered))
  else if negb (bool_decide (to_lower requested = to_lower offered))
  then Some (ENew ("backend tried to switch protocol " ++ quote offered ++ " when " ++ quote requested ++ " was requested"))
  else None.

Definition fails (o : option out_request) (n : Z) (e : goerror) (w : countingWriter) (st : option rewriteState) : exchange :=
  let '(w, t) := ErrorHandler e w in MkExchange o n w st t false.

Definition ServeHTTP (p : proxy) (r : request) (st : option rewriteState) (w : countingWriter) : exchange :=
  let up := upgradeType (rq_header r) in
  if negb (ascii_print up) then fails None 0 (ENew ("client tried to switch to invalid protocol " ++ quote up)) w st
  else
    let o := with_user_agent (Rewrite p (match st with Some _ => true | None => false end) r) in
    let a := RoundTrip o in
    let n := rp_read a in
    let w := fold_left inform (rp_infos a) w in
    match rp_answer a with
    | Err e => fails (Some o) n e w st
    | Ok u =>
        let res := received u in
        if StatusCode res =? 101 then
          let '((res, st), err) := modifyResponse res st in
          match err with
          | Some e => fails (Some o) n e w st
          | None =>
              match switch_error (upgradeType (or_header o)) (upgradeType (Header res)) with
              | Some e => fails (Some o) n e w st
              | None => MkExchange (Some o) n (switched (Header res) w) st [] false
              end
          end
        else
          let res := with_header (removeHopByHopHeaders (Header res)) res in
          let '((res, st), err) := modifyResponse res st in
          match err with
          | Some e => fails (Some o) n e w st
          | None =>
              let '(w, st, aborted) := copy_response res st w in
              MkExchange (Some o) n w st [] aborted
          end
    end.

End serve.

(** ** What the upstream is sent *)

Definition del_key (k : bytes) : bytes := if forallb token_byte k then canonical_key k else k.

Lemma del_listed_key h k : del_listed h k = delete (del_key k) h.
Proof. unfold del_listed, del_key, h_del. by destruct (forallb _ _). Qed.

Lemma fold_delete {X} (f : header -> X -> header) (key : X -> bytes) (l : list X) (h : header) k :
  (forall h x, f h x = delete (key x) h) -> Forall (fun x => key x <> k) l -> fold_left f l h !! k = h !! k.
Proof.
  intros Hf Hl. revert h. induction Hl as [|x l Hx _ IH]; intros h; [done|]. cbn [fold_left].
  rewrite IH, Hf. by apply lookup_delete_ne.
Qed.

Lemma hop_headers_canonical : map canonical_key hopHeaders = hopHeaders.
Proof. by vm_compute. Qed.

Lemma forwarding_canonical : map canonical_key forwarding = forwarding.
Proof. by vm_compute. Qed.

Lemma canonical_in l c : map canonical_key l = l -> c ∈ l -> canonical_key c = c.
Proof.
  intros E [i Hi]%list_elem_of_lookup. apply (f_equal (lookup i)) in E. rewrite list_lookup_fmap, Hi in E.
  simpl in E. congruence.
Qed.

Lemma removeHop_kept h k :
  k ∉ hopHeaders -> Forall (fun c => del_key c <> k) (listed_values h "Connection") ->
  removeHopByHopHeaders h !! k = h !! k.
Proof.
  intros Hk Hl. unfold removeHopByHopHeaders. rewrite (fold_delete h_del canonical_key).
  - apply (fold_delete _ del_key); [apply del_listed_key|]. rewrite Forall_forall in Hl |- *.
    intros c [_ Hc]%list_elem_of_filter. by apply Hl.
  - done.
  - rewrite Forall_forall. intros c Hc. rewrite (canonical_in _ _ hop_headers_canonical Hc). by intros ->.
Qed.

(** A header that is not the proxy's own business: not one of the connection's,
not named by the client in [Connection], and not about forwarding. *)
Record end_to_end (marked : bool) (r : request) (k : bytes) : Prop := {
  ee_hop : k ∉ hopHeaders;
  ee_listed : Forall (fun c => del_key c <> k) (listed_values (rq_header r) "Connection");
  ee_forwarding : k ∉ forwarding;
  ee_encoding : marked = true -> k <> "Accept-Encoding";
  ee_agent : k = "User-Agent" -> rq_header r !! k <> None
}.

Lemma h_set_other h k k' v : canonical_key k = k -> k' <> k -> h_set h k v !! k' = h !! k'.
Proof. intros Hc Hk. unfold h_set. rewrite Hc. by apply lookup_insert_ne. Qed.

Lemma outgoing_kept r k : k ∉ hopHeaders -> k ∉ forwarding ->
  Forall (fun c => del_key c <> k) (listed_values (rq_header r) "Connection") ->
  outgoing_header r !! k = rq_header r !! k.
Proof.
  intros H1 H3 H2. unfold outgoing_header. rewrite (fold_delete h_del canonical_key); [|done|].
  2: { rewrite Forall_forall. intros c Hc. rewrite (canonical_in _ _ forwarding_canonical Hc). by intros ->. }
  assert (Hhop : forall h n v, n ∈ hopHeaders -> h_set h n v !! k = h !! k).
  { intros h n v Hn. apply h_set_other; [by apply (canonical_in _ _ hop_headers_canonical)|]. by intros ->. }
  set (h0 := removeHopByHopHeaders (rq_header r)).
  set (h1 := if contains_token _ "Te" "trailers" then _ else _).
  assert (E1 : h1 !! k = h0 !! k).
  { unfold h1. destruct (contains_token _ _ _); [|done]. apply Hhop. by apply (bool_decide_unpack _). }
  transitivity (h1 !! k); [|rewrite E1; by apply removeHop_kept].
  case_bool_decide; [done|].
  rewrite !Hhop by by apply (bool_decide_unpack _). done.
Qed.

Section sent.
Variables (p : proxy) (marked : bool) (r : request).

Definition sent : out_request := with_user_agent (Rewrite p marked r).

Lemma agent_other k : k <> "User-Agent" -> or_header sent !! k = or_header (Rewrite p marked r) !! k.
Proof.
  intros Hk. unfold sent, with_user_agent. destruct (or_header (Rewrite p marked r) !! ("User-Agent" : bytes)); [done|].
  cbn [or_header]. by apply h_set_other.
Qed.

Lemma agent_there k : or_header (Rewrite p marked r) !! k <> None ->
  or_header sent !! k = or_header (Rewrite p marked r) !! k.
Proof.
  intros Hk. unfold sent, with_user_agent. destruct (or_header (Rewrite p marked r) !! ("User-Agent" : bytes)) eqn:E; [done|].
  cbn [or_header]. apply h_set_other; [done|]. intros ->. by rewrite E in Hk.
Qed.

Lemma encoding_other k : k <> "Accept-Encoding" ->
  or_header (Rewrite p marked r) !! k = SetXForwarded r (outgoing_header r) !! k.
Proof. intros Hk. cbn [or_header Rewrite]. destruct marked; [|done]. apply lookup_delete_ne. intros E. by apply Hk. Qed.

Lemma rewrite_kept k : end_to_end marked r k -> or_header (Rewrite p marked r) !! k = rq_header r !! k.
Proof.
  intros [H1 H2 H3 H4 _]. cbn [or_header Rewrite]. unfold forwarding in H3.
  assert (Hx : k <> "X-Forwarded-For" /\ k <> "X-Forwarded-Host" /\ k <> "X-Forwarded-Proto") by set_solver.
  destruct Hx as (Hx1 & Hx2 & Hx3).
  transitivity (SetXForwarded r (outgoing_header r) !! k).
  - destruct marked; [|done]. apply lookup_delete_ne. intros E. by apply H4.
  - unfold SetXForwarded. rewrite !h_set_other by done. rewrite <- outgoing_kept by done.
    destruct (split_host _); [by apply h_set_other|]. apply lookup_delete_ne. intros E. by apply Hx1.
Qed.

(** C6. What an upstream is sent is what the client sent: the method, the raw
query, the body and its length, and every end-to-end header with all its
values; the path is the upstream's own, joined with the part of the client's
path behind the route; and the forwarding headers name the peer, the host and
the scheme the gateway saw, whatever the client claimed in them. *)
Theorem sent_intact (k : bytes) :
  or_method sent = rq_method r /\ or_length sent = rq_length r /\ RawQuery (or_url sent) = rq_query r /\
  or_body sent = (if rq_length r =? 0 then None else rq_body r) /\
  Scheme (or_url sent) = Scheme (px_target p) /\ Host (or_url sent) = Host (px_target p) /\ or_host sent = Host (px_target p) /\
  UrlPath (or_url sent) = joinPath (UrlPath (px_target p)) (trim_prefix (rq_path r) (px_prefix p)) /\
  (end_to_end marked r k -> or_header sent !! k = rq_header r !! k) /\
  or_header sent !! ("X-Forwarded-For" : bytes) = (fun ip => [ip]) <$> split_host (rq_remote r) /\
  or_header sent !! ("X-Forwarded-Host" : bytes) = Some [rq_host r] /\
  or_header sent !! ("X-Forwarded-Proto" : bytes) = Some [if rq_tls r then "https" : bytes else "http"].
Proof.
  split_and!; try (unfold sent, with_user_agent; destruct (or_header (Rewrite p marked r) !! ("User-Agent" : bytes)); done).
  - intros He. destruct (decide (k = "User-Agent")) as [->|Hk].
    + rewrite agent_there; rewrite rewrite_kept by done; [done|]. by apply (ee_agent _ _ _ He).
    + rewrite agent_other by done. by apply rewrite_kept.
  - rewrite agent_other, encoding_other by done.
    unfold SetXForwarded. rewrite !h_set_other by done. destruct (split_host (rq_remote r)); [apply lookup_insert_eq|apply lookup_delete_eq].
  - rewrite agent_other, encoding_other by done.
    unfold SetXForwarded. rewrite h_set_other by done. apply lookup_insert_eq.
  - rewrite agent_other, encoding_other by done.
    unfold SetXForwarded. apply lookup_insert_eq.
Qed.
End sent.

(** The path sent is the upstream's base path or lies below it. *)
Lemma joinPath_below base suffix :
  exists t, joinPath base suffix = trim_suffix base "/" ++ t /\
    (t = [] \/ exists u, t = x2f :: u).
Proof.
  unfold joinPath. generalize (trim_suffix base "/"). intros b.
  assert (Hb : forall t : bytes, (if bool_decide (b = []) then t else b ++ t) = b ++ t).
  { intros t. by destruct b. }
  destruct (bool_decide (suffix = []) || bool_decide (suffix = "/")).
  - destruct b as [|c b]; [exists "/"; eauto|exists []; rewrite app_nil_r; auto].
  - cbn zeta. rewrite Hb. destruct (has_prefix suffix "/") eqn:Hp; cbn [negb].
    + apply has_prefix_spec in Hp as [t Ht]. exists suffix. split; [done|]. right. by exists t.
    + exists ("/" ++ suffix). split; [done|]. right. by exists suffix.
Qed.
