(* ===== verification/Gateway.v ===== *)
(** * The gateway (gateway/gateway.go, gateway/wellknown.go)

The routing table and its construction, the handler of proxied requests with
every branch, the metadata and health handlers, and [ServeHTTP].  One call of
a handler is a function from the gateway's state, the request and the
client's writer to the state and the writer afterwards. *)

From S2P Require Export Proxy.
From S2P Require Import RateLimit.
Local Open Scope Z_scope.
Local Open Scope go_scope.

(** ** State *)

Record Gateway := MkGateway {
  g_cfg : Config;
  auditor : Auditor;
  routes : gmap bytes proxy;
  upstreams : gmap bytes Upstream;
  limits : gmap bytes (tokenBucket float64);
  sessionLimits : gmap bytes (sessionLimiter float64);
  policies : gmap bytes toolPolicy;
  locks : gmap bytes preparedLock;
  scanners : gmap bytes scannerConfig
}.

Definition set_auditor (a : Auditor) (g : Gateway) : Gateway :=
  MkGateway (g_cfg g) a (routes g) (upstreams g) (limits g) (sessionLimits g) (policies g) (locks g) (scanners g).
Definition set_limits (m : gmap bytes (tokenBucket float64)) (g : Gateway) : Gateway :=
  MkGateway (g_cfg g) (auditor g) (routes g) (upstreams g) m (sessionLimits g) (policies g) (locks g) (scanners g).
Definition set_sessions (m : gmap bytes (sessionLimiter float64)) (g : Gateway) : Gateway :=
  MkGateway (g_cfg g) (auditor g) (routes g) (upstreams g) (limits g) m (policies g) (locks g) (scanners g).
Definition set_policies (m : gmap bytes toolPolicy) (g : Gateway) : Gateway :=
  MkGateway (g_cfg g) (auditor g) (routes g) (upstreams g) (limits g) (sessionLimits g) m (locks g) (scanners g).
Definition set_locks (m : gmap bytes preparedLock) (g : Gateway) : Gateway :=
  MkGateway (g_cfg g) (auditor g) (routes g) (upstreams g) (limits g) (sessionLimits g) (policies g) m (scanners g).
Definition set_scanners (m : gmap bytes scannerConfig) (g : Gateway) : Gateway :=
  MkGateway (g_cfg g) (auditor g) (routes g) (upstreams g) (limits g) (sessionLimits g) (policies g) (locks g) m.
Definition set_route (n : bytes) (p : proxy) (u : Upstream) (g : Gateway) : Gateway :=
  MkGateway (g_cfg g) (auditor g) (<[n := p]> (routes g)) (<[n := u]> (upstreams g)) (limits g) (sessionLimits g)
    (policies g) (locks g) (scanners g).

(** What a run of the program depends on besides its inputs: when things
happen (the time stamp, the duration, and the limiter's readings of the
clock), what the audit sink does, and the order of a map. *)
Record moment := MkMoment {
  stamp : bytes;
  elapsed_us : Z;
  clock_new : Z;
  clock_seen : Z;
  clock_allow : Z;
  session_order : list (bytes * Z);
  sink_takes : Entry -> nat * option goerror
}.

(** ** Construction

[at_start] is the clock when a bucket is made, [read] reads a lockfile,
[start u i] is the error of starting the [i]th coprocess of an upstream. *)
Section build.
Context {L : GoLib} {A : Arch}.
Variables (at_start : Z) (read : bytes -> result bytes) (start : bytes -> nat -> option goerror).

Definition add_limits (u : Upstream) (g : Gateway) : Gateway :=
  match RateLimit u with
  | None => g
  | Some r =>
      if PerSession r
      then set_sessions (<[Name u := newSessionLimiter (RequestsPerSecond r) (Burst r) maxSessionBuckets]> (sessionLimits g)) g
      else set_limits (<[Name u := newTokenBucket (RequestsPerSecond r) (Burst r) at_start]> (limits g)) g
  end.

Definition add_policy (u : Upstream) (g : Gateway) : Gateway :=
  match newToolPolicy u with Some pol => set_policies (<[Name u := pol]> (policies g)) g | None => g end.

Definition route_error {X} (u : Upstream) (r : result X) : result X := wrap ("gateway: upstream " ++ quote (Name u) ++ ": ") r.

(** One iteration of the loop of [New], up to the scanner; the state is the
gateway and the cache of lockfiles. *)
Definition add_route (st : Gateway * gmap bytes lockFile) (u : Upstream) : result (Gateway * gmap bytes lockFile) :=
  let '(g, cache) := st in
  p ← route_error u (newProxy u);
  let g := add_policy u (add_limits u (set_route (Name u) p u g)) in
  match ToolsLock u with
  | None => mret (g, cache)
  | Some _ =>
      let '(r, cache) := prepareLock read u cache in
      pl ← route_error u r;
      mret (match pl with Some l => set_locks (<[Name u := l]> (locks g)) g | None => g end, cache)
  end.

(** The scanner an upstream asks for. *)
Definition wants_scanner (u : Upstream) : option PromptProofConfig :=
  pp ← PromptProof u; if Enabled pp then Some pp else None.

Definition add_scanner (u : Upstream) (sc : scannerConfig) (g : Gateway) : Gateway :=
  set_scanners (<[Name u := sc]> (scanners g)) g.

Definition add_upstream (st : Gateway * gmap bytes lockFile) (u : Upstream) : result (Gateway * gmap bytes lockFile) :=
  '(g, cache) ← add_route st u;
  match wants_scanner u with
  | Some pp =>
      '(sc, _) ← route_error u (snd (newScanner (start (Name u)) pp));
      mret (add_scanner u sc g, cache)
  | None => mret (g, cache)
  end.

(** [None] is the nil auditor. *)
Definition New (cfg : Config) (a : option Auditor) : result Gateway :=
  a ← opt_or a (ENew "gateway: auditor must not be nil");
  let '(cfg, valid) := Validate cfg in
  _ ← valid;
  '(g, _) ← foldM add_upstream (MkGateway cfg a ∅ ∅ ∅ ∅ ∅ ∅ ∅, ∅) (Upstreams cfg);
  mret g.

End build.

(** ** Answering *)

Definition writeJSONError (status code : Z) (msg : bytes) (w : writer) : writer :=
  let w := set_wr_header (h_set (wr_header w) "Content-Type" "application/json") w in
  snd (wr_write (jsonrpcError [] code msg ++ [x0a]) (wr_write_header status w)).

Definition writeJSON (b : bytes) (w : writer) : writer :=
  snd (wr_write b (set_wr_header (h_set (wr_header w) "Content-Type" "application/json") w)).

Definition handleHealth (g : Gateway) (w : writer) : writer :=
  writeJSON ("{'status':'ok','upstreams':"%js ++ itoa (Z.of_nat (size (routes g))) ++ "}" ++ [x0a]) w.

(** *** Protected-resource metadata (wellknown.go) *)

Definition wellKnownPrefix : bytes := "/.well-known/oauth-protected-resource/mcp/".

Record resourceMetadata := MkMetadata {
  Resource : bytes;
  md_servers : list bytes;
  BearerMethodsSupported : list bytes;
  md_name : bytes
}.

Definition metadata_json (m : resourceMetadata) : json := JObj [] (
  m_string (Resource m) "resource" ++ m_strings (md_servers m) "authorization_servers"
  ++ m_strings (BearerMethodsSupported m) "bearer_methods_supported" ++ m_opt_string (md_name m) "resource_name").

Definition metadata_of (g : Gateway) (host name : bytes) (u : Upstream) : resourceMetadata :=
  let base := if bool_decide (PublicBaseURL (g_cfg g) = []) then "http://" ++ host else PublicBaseURL (g_cfg g) in
  MkMetadata (trim_suffix base "/" ++ "/mcp/" ++ name) (AuthorizationServers u) ["header" : bytes] (ResourceName u).

Definition handleWellKnown (g : Gateway) (r : request) (w : writer) : writer :=
  let name := trim_prefix (rq_path r) wellKnownPrefix in
  match upstreams g !! name with
  | None => writeJSONError StatusNotFound (-32001) "unknown resource" w
  | Some u =>
      let w := set_wr_header (h_set (wr_header w) "Content-Type" "application/json") w in
      let w := set_wr_header (h_set (wr_header w) "Cache-Control" "public, max-age=3600") w in
      snd (wr_write (render (metadata_json (metadata_of g (rq_host r) name u)) ++ [x0a]) w)
  end.

(** ** Proxied requests *)

Definition log_entry {L : GoLib} (e : Entry) (m : moment) (g : Gateway) : Gateway :=
  set_auditor (Log e (sink_takes m e) (auditor g)) g.

Definition base_entry (m : moment) (r : request) (name : bytes) : Entry :=
  MkEntry (stamp m) name (rq_remote r) (rq_method r) (rq_path r) (h_get (rq_header r) "Mcp-Session-Id")
    (h_get (rq_header r) "MCP-Protocol-Version") [] [] [] false false 0 false [] 0 [] false [] 0 false 0 0 0 [].

Definition unknown_entry (m : moment) (r : request) : Entry :=
  MkEntry (stamp m) [] (rq_remote r) (rq_method r) (rq_path r) [] [] [] [] [] false false 0 false [] 0 [] false []
    StatusNotFound false 0 0 0 "unknown upstream".

Definition with_error (e : bytes) (x : Entry) : Entry :=
  MkEntry (Time x) (UpstreamName x) (Remote x) (HTTPMethod x) (ReqPath x) (SessionID x) (ProtocolVersion x)
    (RPCMethods x) (RPCIDs x) (EntryTools x) (RPCBatch x) (RPCInvalid x) (ToolsFiltered x) (ToolsDrift x)
    (PromptProofVerdict x) (PromptProofScore x) (PromptProofCategories x) (PromptProofBlocked x) (PromptProofError x)
    (EntryStatus x) (SSE x) (BytesIn x) (BytesOut x) (DurationUS x) e.

Definition with_summary (s : rpcSummary) (x : Entry) : Entry :=
  MkEntry (Time x) (UpstreamName x) (Remote x) (HTTPMethod x) (ReqPath x) (SessionID x) (ProtocolVersion x)
    (Methods s) (IDs s) (Tools s) (Batch s) (Invalid s) (ToolsFiltered x) (ToolsDrift x)
    (PromptProofVerdict x) (PromptProofScore x) (PromptProofCategories x) (PromptProofBlocked x) (PromptProofError x)
    (EntryStatus x) (SSE x) (BytesIn x) (BytesOut x) (DurationUS x) (EntryError x).

Definition with_result (status : Z) (sse : bool) (bin bout us : Z) (x : Entry) : Entry :=
  MkEntry (Time x) (UpstreamName x) (Remote x) (HTTPMethod x) (ReqPath x) (SessionID x) (ProtocolVersion x)
    (RPCMethods x) (RPCIDs x) (EntryTools x) (RPCBatch x) (RPCInvalid x) (ToolsFiltered x) (ToolsDrift x)
    (PromptProofVerdict x) (PromptProofScore x) (PromptProofCategories x) (PromptProofBlocked x) (PromptProofError x)
    status sse bin bout us (EntryError x).

(** The outcome of the response processing. *)
Definition with_state (s : rewriteState) (x : Entry) : Entry :=
  MkEntry (Time x) (UpstreamName x) (Remote x) (HTTPMethod x) (ReqPath x) (SessionID x) (ProtocolVersion x)
    (RPCMethods x) (RPCIDs x) (EntryTools x) (RPCBatch x) (RPCInvalid x) (filtered s) (drift s)
    (scanVerdict s) (scanScore s) (scanCategories s) (scanBlocked s) (scanErr s)
    (EntryStatus x) (SSE x) (BytesIn x) (BytesOut x) (DurationUS x)
    (if negb (bool_decide (note s = [])) && bool_decide (EntryError x = []) then note s else EntryError x).

Section handle.
Context {L : GoLib} {A : Arch} {E : ScanEnv} {T : Transport}.

(** The limiter's verdict and the time to wait. *)
Definition check_limit (g : Gateway) (name : bytes) (r : request) (m : moment) : Gateway * (bool * Z) :=
  match sessionLimits g !! name with
  | Some sl =>
      let '(sl, res) := session_allow sl (h_get (rq_header r) "Mcp-Session-Id") (session_order m)
                          (clock_new m) (clock_seen m) (clock_allow m) in
      (set_sessions (<[name := sl]> (sessionLimits g)) g, res)
  | None =>
      match limits g !! name with
      | Some b => let '(b, res) := allow b (clock_allow m) in (set_limits (<[name := b]> (limits g)) g, res)
      | None => (g, (true, 0))
      end
  end.

(** The value of [Retry-After]. *)
Definition retry_seconds (wait : Z) : Z :=
  let secs := f_to_int (fceil (Seconds wait)) in if secs <? 1 then 1 else secs.

(** The look at the body: its metadata, the bytes buffered, what is left
unread, what the upstream will be given, and the error the read ended with. *)
Record peeked := MkPeeked {
  pk_sum : rpcSummary;
  pk_buffered : Z;
  pk_rest : Z;
  pk_body : option source;
  pk_err : option goerror
}.

Definition peek (b : option source) : peeked :=
  match b with
  | None => MkPeeked zero_summary 0 0 None None
  | Some s =>
      let '(buf, err, rest) := read_limited (maxRPCPeek + 1) s in
      if len buf <=? maxRPCPeek
      then MkPeeked (summarizeRPC buf) (len buf) 0 (Some (Source buf None)) err
      else MkPeeked (set_Invalid zero_summary) (len buf) (len (src_data rest))
             (Some (Source (buf ++ src_data rest) (src_err rest))) err
  end.

(** The processing state a request's response needs, if any. *)
Definition rewrite_for (g : Gateway) (name : bytes) (sum : rpcSummary) : option rewriteState :=
  let pol := policies g !! name in
  let lk := locks g !! name in
  let sc := scanners g !! name in
  let needList := (bool_decide (pol <> None) || bool_decide (lk <> None)) && (0 <? len (ToolsListIDs sum)) in
  let needScan := bool_decide (sc <> None) && (0 <? len (ToolsCallIDs sum)) in
  if needList || needScan then
    Some (MkState (if needList then ToolsListIDs sum else []) (if needList then pol else None)
            (if needList then lk else None) (policy_allow pol || lock_enforces lk) 0 false []
            (if needScan then sc else None) (if needScan then ToolsCallIDs sum else []) [] 0 [] false false [] [])
  else None.

(** The answer to a request that is not allowed, and the one that is. *)
Definition limited (g : Gateway) (name : bytes) (r : request) (m : moment) (wait : Z) (w : writer) : Gateway * writer :=
  let w := set_wr_header (h_set (wr_header w) "Retry-After" (itoa (retry_seconds wait))) w in
  let e := with_error "rate limited" (with_result StatusTooManyRequests false 0 0 0 (base_entry m r name)) in
  (log_entry e m g, writeJSONError StatusTooManyRequests (-32002) "rate limited" w).

Definition blocked_by (reason : bytes) (pk : peeked) (m : moment) (e : Entry) : Entry :=
  with_error reason (with_result StatusForbidden false (pk_buffered pk) 0 (elapsed_us m) (with_summary (pk_sum pk) e)).

(** [countingReader]: the bytes read of what the look left unread. *)
Definition extraIn (pk : peeked) (read : Z) : Z := Z.max 0 (Z.min (read - pk_buffered pk) (pk_rest pk)).

Definition proxied (pk : peeked) (m : moment) (x : exchange) (e : Entry) : Entry :=
  let rec := ex_writer x in
  let e := with_summary (pk_sum pk) e in
  let e := with_result (if cw_status rec =? 0 then StatusOK else cw_status rec)
             (has_prefix (h_get (cw_header rec) "Content-Type") "text/event-stream")
             (pk_buffered pk + extraIn pk (ex_read x)) (cw_written rec) (elapsed_us m) e in
  let e := if bool_decide (ex_error x = []) then e else with_error (ex_error x) e in
  match ex_state x with Some s => with_state s e | None => e end.

(** The handler of a request that has passed the limiter: the gateway, the
client's writer, and the exchange with the upstream if there was one. *)
Definition forward (g : Gateway) (name : bytes) (p : proxy) (r : request) (m : moment) (w : writer) :
    Gateway * writer * option exchange :=
  let pk := peek (rq_body r) in
  let e := base_entry m r name in
  let e := match pk_err pk with Some err => with_error ("request body read: " ++ Error err) e | None => e end in
  let reason := blockReason (policies g !! name) (pk_sum pk) in
  if negb (bool_decide (reason = [])) then
    (log_entry (blocked_by reason pk m e) m g, writeJSONError StatusForbidden (-32003) reason w, None)
  else
    let x := ServeHTTP p (with_request_body (pk_body pk) r) (rewrite_for g name (pk_sum pk)) (MkCounting w 0 0) in
    (if ex_aborted x then g else log_entry (proxied pk m x e) m g, cw_writer (ex_writer x), Some x).

Definition route_name (path : bytes) : bytes := fst (fst (cut (trim_prefix path "/mcp/") "/")).

Definition handleProxy (g : Gateway) (r : request) (m : moment) (w : writer) : Gateway * writer * option exchange :=
  let name := route_name (rq_path r) in
  match routes g !! name with
  | None => (log_entry (unknown_entry m r) m g, writeJSONError StatusNotFound (-32001) "unknown upstream" w, None)
  | Some p =>
      let '(g, (allowed, wait)) := check_limit g name r m in
      if negb allowed then (limited g name r m wait w, None) else forward g name p r m w
  end.

(** [ServeHTTP]. *)
Definition serve (g : Gateway) (r : request) (m : moment) (w : writer) : Gateway * writer * option exchange :=
  if bool_decide (rq_path r = "/healthz") then (g, handleHealth g w, None)
  else if has_prefix (rq_path r) wellKnownPrefix then (g, handleWellKnown g r w, None)
  else if has_prefix (rq_path r) "/mcp/" then handleProxy g r m w
  else (g, writeJSONError StatusNotFound (-32001) "not found" w, None).

End handle.
