(* ===== verification/GatewaySafety.v ===== *)
(** * What the gateway guarantees (gateway/gateway.go)

Theorems about whole calls of the request handler: what reaches an upstream,
what a refusal looks like, what is audited and when it is not, and that one
route's traffic does not touch another's state. *)

From S2P Require Import FilterBodies.
From S2P Require Export Gateway.
Local Open Scope Z_scope.
Local Open Scope go_scope.

(** ** The parts of a call *)

Section calls.
Context {L : GoLib} {A : Arch} {E : ScanEnv} {T : Transport}.

(** The limiter changes the state of its own route's limiter only. *)
Lemma check_limit_frame g name r m g' res :
  check_limit g name r m = (g', res) ->
  g_cfg g' = g_cfg g /\ auditor g' = auditor g /\ routes g' = routes g /\ upstreams g' = upstreams g /\
  policies g' = policies g /\ locks g' = locks g /\ scanners g' = scanners g /\
  (forall n, n <> name -> limits g' !! n = limits g !! n /\ sessionLimits g' !! n = sessionLimits g !! n).
Proof.
  unfold check_limit. intros H. destruct (sessionLimits g !! name) as [sl|].
  - destruct (RateLimit.session_allow _ _ _ _ _ _) as [sl' res']. injection H as <- <-. split_and!; try done.
    intros n Hn. split; [done|]. cbn. by rewrite lookup_insert_ne.
  - destruct (limits g !! name) as [b|]; [|injection H as <- <-; by split_and!].
    destruct (RateLimit.allow _ _) as [b' res']. injection H as <- <-. split_and!; try done.
    intros n Hn. split; [|done]. cbn. by rewrite lookup_insert_ne.
Qed.

(** What was looked at is what is sent on: a body within the cap as read, a
larger one with its unread rest. *)
Lemma peek_small s : len (src_data s) <= maxRPCPeek ->
  peek (Some s) = MkPeeked (summarizeRPC (src_data s)) (len (src_data s)) 0 (Some (Source (src_data s) None)) (src_err s).
Proof.
  intros Hl. unfold peek, read_limited. rewrite (proj2 (Z.leb_gt _ _)) by lia.
  by rewrite (proj2 (Z.leb_le _ _)) by lia.
Qed.

Lemma peek_large s : maxRPCPeek < len (src_data s) ->
  peek (Some s) = MkPeeked (set_Invalid zero_summary) (maxRPCPeek + 1) (len (src_data s) - (maxRPCPeek + 1))
                    (Some s) None.
Proof.
  intros Hl. unfold peek, read_limited. rewrite (proj2 (Z.leb_le _ _)) by lia.
  assert (Ht : len (take (Z.to_nat (maxRPCPeek + 1)) (src_data s)) = maxRPCPeek + 1).
  { unfold len in *. rewrite length_take. unfold maxRPCPeek in *. lia. }
  rewrite Ht. rewrite (proj2 (Z.leb_gt _ _)) by lia. cbn [src_data src_err]. rewrite take_drop.
  assert (Hd : len (drop (Z.to_nat (maxRPCPeek + 1)) (src_data s)) = len (src_data s) - (maxRPCPeek + 1)).
  { unfold len in *. rewrite length_drop. unfold maxRPCPeek in *. lia. }
  rewrite Hd. by destruct s.
Qed.

Lemma peek_cases s :
  (len (src_data s) <= maxRPCPeek /\
   peek (Some s) = MkPeeked (summarizeRPC (src_data s)) (len (src_data s)) 0 (Some (Source (src_data s) None)) (src_err s)) \/
  (maxRPCPeek < len (src_data s) /\
   peek (Some s) = MkPeeked (set_Invalid zero_summary) (maxRPCPeek + 1) (len (src_data s) - (maxRPCPeek + 1)) (Some s) None).
Proof.
  destruct (Z.le_gt_cases (len (src_data s)) maxRPCPeek) as [H|H]; [left|right].
  - split; [done|]. by apply peek_small.
  - split; [lia|]. apply peek_large. lia.
Qed.

(** The transport is handed one request at most, made from the client's. *)
Lemma serve_sent p r st w o :
  ex_sent (ServeHTTP p r st w) = Some o ->
  o = sent p (match st with Some _ => true | None => false end) r.
Proof.
  unfold ServeHTTP. destruct (negb _).
  { unfold fails. destruct (ErrorHandler _ _). done. }
  set (o0 := with_user_agent _). intros H. transitivity o0; [|done]. revert H.
  unfold fails. destruct (rp_answer _) as [u|e].
  - destruct (StatusCode (received u) =? 101).
    + destruct (modifyResponse _ _) as [[res st'] [e|]]; [destruct (ErrorHandler _ _); by intros [= ->]|].
      destruct (switch_error _ _); [destruct (ErrorHandler _ _)|]; by intros [= ->].
    + destruct (modifyResponse _ _) as [[res st'] [e|]]; [destruct (ErrorHandler _ _); by intros [= ->]|].
      destruct (copy_response _ _ _) as [[w' st''] ab]. by intros [= ->].
  - destruct (ErrorHandler _ _). by intros [= ->].
Qed.

Lemma sent_body p marked r : or_body (sent p marked r) = if rq_length r =? 0 then None else rq_body r.
Proof. unfold sent, with_user_agent. by destruct (or_header (Rewrite p marked r) !! ("User-Agent" : bytes)). Qed.

(** A call that ends with an exchange. *)
Lemma handle_exchange g r m w g' w' x :
  handleProxy g r m w = (g', w', Some x) ->
  exists p g1 wait, routes g !! route_name (rq_path r) = Some p /\
    check_limit g (route_name (rq_path r)) r m = (g1, (true, wait)) /\
    blockReason (policies g !! route_name (rq_path r)) (pk_sum (peek (rq_body r))) = [] /\
    x = ServeHTTP p (with_request_body (pk_body (peek (rq_body r))) r)
          (rewrite_for g (route_name (rq_path r)) (pk_sum (peek (rq_body r)))) (MkCounting w 0 0) /\
    w' = cw_writer (ex_writer x) /\
    forward g1 (route_name (rq_path r)) p r m w = (g', w', Some x).
Proof.
  unfold handleProxy. cbn zeta. set (name := route_name (rq_path r)). destruct (routes g !! name) as [p|]; [|done].
  destruct (check_limit g name r m) as [g1 [ok wait]] eqn:Hl. destruct ok; [cbn [negb]|done].
  destruct (check_limit_frame _ _ _ _ _ _ Hl) as (_ & _ & _ & _ & Hp & Hk & Hs & _).
  intros H. exists p, g1, wait. pose proof H as H0. unfold forward in H. rewrite Hp in H.
  destruct (bool_decide_reflect (blockReason (policies g !! name) (pk_sum (peek (rq_body r))) = [])) as [Hb|Hb];
    cbn [negb] in H; [|done].
  assert (Hr : rewrite_for g1 name (pk_sum (peek (rq_body r))) = rewrite_for g name (pk_sum (peek (rq_body r)))).
  { unfold rewrite_for. by rewrite Hp, Hk, Hs. }
  rewrite Hr in H. injection H as Hg Hw <-. by split_and!.
Qed.

(** C3. What an upstream executes is what was judged: behind an allowlist, a
body the transport is handed was read in full, is within the cap, and each
[tools/call] message the gateway reads in these very bytes names exactly one
tool, which is on the list. *)
Theorem forwarded_is_judged g r m w g' w' x o b pol a :
  policies g !! route_name (rq_path r) = Some pol -> allow pol = Some a ->
  handleProxy g r m w = (g', w', Some x) -> ex_sent x = Some o -> or_body o = Some b ->
  src_err b = None /\ len (src_data b) <= maxRPCPeek /\
  exists ps, body_probes (src_data b) = Some ps /\
    Forall (fun p => is_call p = true -> exists n, probe_tools p = [n] /\ n ∈ a) ps.
Proof.
  intros Hpol Ha Hh Ho Hb. destruct (handle_exchange _ _ _ _ _ _ _ Hh) as (p & g1 & wait & _ & _ & Hr & -> & _).
  apply serve_sent in Ho. subst o. rewrite sent_body in Hb. cbn [rq_length rq_body with_request_body] in Hb.
  destruct (rq_length r =? 0); [done|]. destruct (rq_body r) as [s|]; [|done]. rewrite Hpol in Hr.
  destruct (peek_cases s) as [[Hl Hk]|[Hl Hk]]; rewrite Hk in Hr, Hb; cbn [pk_sum pk_body] in Hr, Hb.
  - injection Hb as <-. cbn [src_data src_err]. split_and!; [done|done|]. by apply (allowed_calls pol).
  - apply blockReason_nil in Hr. unfold passes in Hr. rewrite Ha in Hr. by destruct Hr.
Qed.

(** ** Refusals *)

Definition error_answer (status code : Z) (msg : bytes) (h : header) (w : writer) : writer :=
  writeJSONError status code msg (set_wr_header h w).

Lemma error_answer_spec status code msg h w :
  wr_final w = None -> 200 <= status -> body_allowed status = true ->
  client_status (error_answer status code msg h w) = status /\
  wr_final (error_answer status code msg h w) = Some (status, h_set h "Content-Type" "application/json") /\
  wr_body (error_answer status code msg h w) = wr_body w ++
    (if wr_head w then [] else take (Z.to_nat (Z.min (len (jsonrpcError [] code msg ++ [x0a])) (wr_room w))) (jsonrpcError [] code msg ++ [x0a])).
Proof.
  intros Hw Hs Hb. unfold error_answer, writeJSONError, wr_write, wr_write_header, client_status.
  cbn [wr_final set_wr_header wr_header wr_infos wr_body wr_room]. rewrite Hw.
  rewrite (proj2 (Z.leb_le 100 status)), (proj2 (Z.leb_gt status 199)) by lia. cbn [andb snd wr_final wr_body wr_room wr_head].
  rewrite Hb. cbn [negb set_wr_header wr_head]. destruct (wr_head w); cbn [snd wr_final wr_body]; rewrite ?app_nil_r; by split_and!.
Qed.

(** The three ways a request is refused. *)
Inductive refused (g : Gateway) (r : request) (m : moment) (w : writer) : Z -> Z -> bytes -> header -> Prop :=
| refused_unknown :
    routes g !! route_name (rq_path r) = None ->
    refused g r m w StatusNotFound (-32001) "unknown upstream" (wr_header w)
| refused_limit wait :
    is_Some (routes g !! route_name (rq_path r)) ->
    snd (check_limit g (route_name (rq_path r)) r m) = (false, wait) ->
    refused g r m w StatusTooManyRequests (-32002) "rate limited"
      (h_set (wr_header w) "Retry-After" (itoa (retry_seconds wait)))
| refused_policy wait reason :
    is_Some (routes g !! route_name (rq_path r)) ->
    snd (check_limit g (route_name (rq_path r)) r m) = (true, wait) ->
    reason = blockReason (policies g !! route_name (rq_path r)) (pk_sum (peek (rq_body r))) -> reason <> [] ->
    refused g r m w StatusForbidden (-32003) reason (wr_header w).

(** What every entry of a request says about it. *)
Definition entry_of (r : request) (m : moment) (e : Entry) : Prop :=
  Time e = stamp m /\ Remote e = rq_remote r /\ HTTPMethod e = rq_method r /\ ReqPath e = rq_path r.

Lemma with_state_of r m s e : entry_of r m e -> entry_of r m (with_state s e).
Proof. done. Qed.

(** The gateway once the limiter of the request's route, if it has one, has been
asked. *)
Definition charged (g : Gateway) (r : request) (m : moment) : Gateway :=
  match routes g !! route_name (rq_path r) with
  | None => g
  | Some _ => fst (check_limit g (route_name (rq_path r)) r m)
  end.

Lemma charged_auditor g r m : auditor (charged g r m) = auditor g.
Proof.
  unfold charged. destruct (routes g !! _); [|done]. destruct (check_limit _ _ r m) as [g1 res] eqn:Hl.
  by apply check_limit_frame in Hl as (_ & H & _).
Qed.

Lemma handle_refused g r m w g' w' :
  handleProxy g r m w = (g', w', None) ->
  exists status code msg h e, refused g r m w status code msg h /\
    w' = error_answer status code msg h w /\ g' = log_entry e m (charged g r m) /\
    entry_of r m e /\ EntryStatus e = status /\ EntryError e = msg /\ BytesOut e = 0.
Proof.
  unfold handleProxy, charged. cbn zeta. set (name := route_name (rq_path r)).
  destruct (routes g !! name) as [p|] eqn:Hroute.
  2: { intros [= <- <-]. exists StatusNotFound, (-32001), "unknown upstream", (wr_header w), (unknown_entry m r).
       split_and!; try done. by apply refused_unknown. }
  destruct (check_limit g name r m) as [g1 [ok wait]] eqn:Hl.
  destruct (check_limit_frame _ _ _ _ _ _ Hl) as (_ & Haud & _ & _ & Hp & _). destruct ok; cbn [negb].
  - unfold forward. rewrite Hp. destruct (bool_decide_reflect (blockReason (policies g !! name) (pk_sum (peek (rq_body r))) = [])) as [Hb|Hb];
      cbn [negb]; [done|]. intros [= <- <-].
    eexists StatusForbidden, (-32003), _, (wr_header w), _.
    split; [eapply refused_policy; [by exists p|exact (f_equal snd Hl)|reflexivity|exact Hb]|].
    split; [by destruct w|]. split; [reflexivity|].
    split_and!; try done. by destruct (pk_err (peek (rq_body r))).
  - intros [= <- <-]. eexists StatusTooManyRequests, (-32002), "rate limited", _, _.
    split; [eapply refused_limit; [by exists p|exact (f_equal snd Hl)]|]. split; [reflexivity|].
    split; [reflexivity|done].
Qed.

(** C4. Every refusal is complete: a request without an exchange with the
upstream is one for an unknown route, one the limiter turned down, or one the
policy blocks; the client gets the status and, unless it asked for the head
only, the JSON-RPC error for it, as far as it takes it, the second with
[Retry-After]; and the gateway is left with one more audit entry, with that
status and that reason, and what the limiter of the route has become, and is
otherwise as it was. *)
Theorem refusal_complete g r m w g' w' :
  wr_final w = None -> handleProxy g r m w = (g', w', None) ->
  exists status code msg h e, refused g r m w status code msg h /\ client_status w' = status /\
    wr_final w' = Some (status, h_set h "Content-Type" "application/json") /\
    wr_body w' = wr_body w ++
      (if wr_head w then [] else take (Z.to_nat (Z.min (len (jsonrpcError [] code msg ++ [x0a])) (wr_room w))) (jsonrpcError [] code msg ++ [x0a])) /\
    g' = log_entry e m (charged g r m) /\ entry_of r m e /\ EntryStatus e = status /\ EntryError e = msg.
Proof.
  intros Hw H. destruct (handle_refused _ _ _ _ _ _ H) as (status & code & msg & h & e & Href & -> & Hg & He & Hs & Hm & _).
  assert (Hst : 200 <= status /\ body_allowed status = true) by (destruct Href; done). destruct Hst as [Hst Hb].
  destruct (error_answer_spec status code msg h w Hw Hst Hb) as (H1 & H2 & H3).
  exists status, code, msg, h, e. by split_and!.
Qed.

(** ** Audited exchanges *)

(** The counting writer knows what the client was sent, except that the answer to
a [HEAD] is counted and not sent. *)
Definition tracks (w0 : writer) (w : countingWriter) : Prop :=
  (wr_head (cw_writer w) = wr_head w0 /\
   if wr_head w0 then wr_body (cw_writer w) = wr_body w0 else cw_written w = len (wr_body (cw_writer w)) - len (wr_body w0)) /\
  match wr_final (cw_writer w) with None => cw_status w = 0 | Some (c, _) => cw_status w = c /\ 200 <= c end.

Lemma tracks_header w0 h w : tracks w0 w -> tracks w0 (cw_set_header h w).
Proof. done. Qed.

Lemma tracks_write_header w0 code w : 200 <= code -> tracks w0 w -> tracks w0 (WriteHeader code w) /\
  wr_final (cw_writer (WriteHeader code w)) <> None.
Proof.
  intros Hc [[H0 H1] H2]. unfold tracks, WriteHeader, wr_write_header. cbn [cw_writer cw_status cw_written].
  destruct (wr_final (cw_writer w)) as [[c h]|] eqn:Ef.
  - destruct H2 as [-> H2]. rewrite Ef. rewrite (proj2 (Z.eqb_neq c 0)) by lia. by split_and!.
  - rewrite H2. cbn [Z.eqb]. rewrite (proj2 (Z.leb_le 100 code)), (proj2 (Z.leb_gt code 199)) by lia.
    cbn [andb wr_final wr_body wr_head]. by split_and!.
Qed.

Lemma tracks_write w0 b w : 0 <= wr_room (cw_writer w) -> tracks w0 w -> tracks w0 (snd (Write b w)) /\
  wr_final (cw_writer (snd (Write b w))) <> None.
Proof.
  intros Hr [[H0 H1] H2]. set (w1 := wr_write_header StatusOK (cw_writer w)).
  assert (Hs : (if cw_status w =? 0 then StatusOK else cw_status w) = client_status w1 /\ wr_final w1 <> None /\
    200 <= client_status w1 /\ wr_head w1 = wr_head (cw_writer w) /\ wr_body w1 = wr_body (cw_writer w) /\ wr_room w1 = wr_room (cw_writer w)).
  { unfold w1, wr_write_header, client_status. destruct (wr_final (cw_writer w)) as [[c h]|] eqn:Ef.
    - rewrite Ef. destruct H2 as [-> H2]. rewrite (proj2 (Z.eqb_neq c 0)) by lia. by split_and!.
    - rewrite H2. by split_and!. }
  destruct Hs as (Hs1 & Hs2 & Hs3 & Hs4 & Hs5 & Hs6). unfold tracks, Write, wr_write. fold w1. rewrite Hs1, <- H0, <- Hs4 in *.
  assert (Hfin : forall st, st = client_status w1 -> match wr_final w1 with None => st = 0 | Some (c, _) => st = c /\ 200 <= c end).
  { intros st ->. unfold client_status in *. destruct (wr_final w1) as [[c h]|]; [done|by destruct Hs2]. }
  assert (Hlen : forall l : bytes, len (l ++ take (Z.to_nat (Z.min (len b) (wr_room w1))) b) = len l + Z.min (len b) (wr_room w1)).
  { intros l. rewrite len_app. unfold len in *. rewrite length_take. lia. }
  destruct (body_allowed (client_status w1)); cbn [negb]; [destruct (wr_head w1) eqn:Eh|];
    cbn [snd cw_writer cw_status cw_written wr_final wr_body wr_room wr_head]; rewrite ?Eh, ?Hlen, ?Hs5;
    (split; [split; [split; [done|]|by apply Hfin]|done]); try done; try lia.
  destruct (wr_head w1); [done|lia].
Qed.

Lemma room_write_header code w : wr_room (wr_write_header code w) = wr_room w.
Proof. unfold wr_write_header. destruct (wr_final w); [done|]. by destruct (_ && _). Qed.

Lemma tracks_error w0 e w : 0 <= wr_room (cw_writer w) -> tracks w0 w ->
  tracks w0 (fst (ErrorHandler e w)) /\ wr_final (cw_writer (fst (ErrorHandler e w))) <> None.
Proof.
  intros Hr Ht. unfold ErrorHandler. destruct (Z.eqb_spec (cw_status w) 0) as [E0|E0]; cbn [negb fst].
  - destruct (tracks_write_header w0 StatusBadGateway
      (cw_set_header (h_set (cw_header w) "Content-Type" "application/json") w)) as [H1 _]; [done|done|].
    apply tracks_write; [|done]. cbn [cw_writer WriteHeader]. by rewrite room_write_header.
  - split; [done|]. destruct Ht as [_ Ht]. destruct (wr_final (cw_writer w)); [done|congruence].
Qed.

(** The response processing leaves the status, or makes it 200 or 403. *)
Lemma modify_status r st r' st' :
  modifyResponse r st = ((r', st'), None) -> StatusCode r' = StatusCode r \/ StatusCode r' = StatusOK \/ StatusCode r' = StatusForbidden.
Proof.
  unfold modifyResponse. destruct st as [s|]; [|intros [= <- _]; by left].
  destruct (negb (StatusCode r =? StatusOK)); [intros [= <- _]; by left|]. destruct (has_prefix _ _).
  - destruct (processJSONBody r s) as [[r1 s1] e] eqn:Hp. intros H. destruct e as [e|]; [by destruct (_ && _)|].
    assert (Hc : StatusCode r' = StatusCode r1) by (destruct (_ && _); by injection H as <- _).
    rewrite Hc. apply process_body_cases in Hp as [[H1 _]|[(_ & H1 & _)|(_ & s0 & br & _ & [(_ & _ & H1 & _)|(b & _ & _ & H1 & _)])]]; auto.
  - destruct (has_prefix _ _); [intros [= <- _]; by left|]. destruct (ResponseFilter.strict s); [|intros [= <- _]; by left].
    intros [= <- _]. by right; right.
Qed.

(** A reply without informational responses whose final status is final. *)
Definition plain_reply (a : reply) : Prop :=
  rp_infos a = [] /\ forall u, rp_answer a = Ok u -> 200 <= ur_code u.

Definition exchange_tracks (w0 : writer) (x : exchange) : Prop :=
  ex_aborted x = false -> tracks w0 (ex_writer x) /\ wr_final (cw_writer (ex_writer x)) <> None.

Lemma fails_tracks w0 o n e w st : 0 <= wr_room (cw_writer w) -> tracks w0 w -> exchange_tracks w0 (fails o n e w st).
Proof.
  intros Hr Ht _. unfold fails. pose proof (tracks_error w0 e w Hr Ht) as H. by destruct (ErrorHandler e w).
Qed.

Lemma copy_tracks w0 r st w : 0 <= wr_room (cw_writer w) -> tracks w0 w -> 200 <= StatusCode r ->
  let '(w', _, aborted) := copy_response r st w in
  aborted = false -> tracks w0 w' /\ wr_final (cw_writer w') <> None.
Proof.
  intros Hr Ht Hc. unfold copy_response. destruct (valid_code (StatusCode r)); cbn [negb]; [|done].
  destruct (read_body (Body r) st) as [[b err] st'].
  pose proof (tracks_write_header w0 (StatusCode r) _ Hc (tracks_header w0 (copyHeader (cw_header w) (Header r)) w Ht)) as [H1 H2].
  set (w1 := WriteHeader (StatusCode r) _) in *. case_bool_decide; [done|].
  destruct (Write b w1) as [n w2] eqn:Ew. intros _.
  pose proof (tracks_write w0 b w1) as Hwr. rewrite Ew in Hwr. apply Hwr; [|done].
  unfold w1. cbn [cw_writer WriteHeader]. by rewrite room_write_header.
Qed.

Lemma serve_tracks p r st w0 : 0 <= wr_room w0 -> wr_final w0 = None ->
  let x := ServeHTTP p r st (MkCounting w0 0 0) in
  (forall o, ex_sent x = Some o -> plain_reply (RoundTrip o)) -> exchange_tracks w0 x.
Proof.
  intros Hr Hf. cbn zeta.
  assert (Ht : tracks w0 (MkCounting w0 0 0)).
  { unfold tracks. cbn [cw_writer cw_status cw_written]. rewrite Hf. split; [split; [done|]|done]. destruct (wr_head w0); [done|lia]. }
  intros Hplain. pose proof (serve_sent p r st (MkCounting w0 0 0)) as Hsent.
  assert (Hcall : ascii_print (upgradeType (rq_header r)) = true ->
    plain_reply (RoundTrip (with_user_agent (Rewrite p (match st with Some _ => true | None => false end) r)))).
  { intros Hu. apply Hplain. unfold ServeHTTP. rewrite Hu. cbn [negb]. destruct (rp_answer _) as [u|e].
    2: { unfold fails. by destruct (ErrorHandler _ _). }
    destruct (_ =? 101); destruct (modifyResponse _ _) as [[res st'] [e|]]; try (unfold fails; by destruct (ErrorHandler _ _)).
    - destruct (switch_error _ _); [unfold fails; by destruct (ErrorHandler _ _)|done].
    - by destruct (copy_response _ _ _) as [[? ?] ?]. }
  clear Hplain Hsent. unfold ServeHTTP. destruct (ascii_print _); cbn [negb]; [|by apply fails_tracks].
  specialize (Hcall eq_refl). set (o := with_user_agent _) in *. destruct Hcall as [Hi Hu]. rewrite Hi. cbn [fold_left].
  destruct (rp_answer (RoundTrip o)) as [u|e]; [|by apply fails_tracks]. specialize (Hu u eq_refl).
  cbn [StatusCode received]. rewrite (proj2 (Z.eqb_neq _ _)) by lia.
  destruct (modifyResponse _ _) as [[res st'] [e|]] eqn:Hm; [by apply fails_tracks|].
  apply modify_status in Hm. cbn [StatusCode with_header received] in Hm.
  assert (Hc : 200 <= StatusCode res) by (unfold StatusOK, StatusForbidden in *; lia).
  pose proof (copy_tracks w0 res st' (MkCounting w0 0 0) Hr Ht Hc) as H.
  destruct (copy_response _ _ _) as [[w' st''] ab]. exact H.
Qed.

Lemma proxied_entry r m pk x e : entry_of r m e ->
  entry_of r m (proxied pk m x e) /\
  EntryStatus (proxied pk m x e) = (if cw_status (ex_writer x) =? 0 then StatusOK else cw_status (ex_writer x)) /\
  BytesOut (proxied pk m x e) = cw_written (ex_writer x).
Proof. intros He. unfold proxied. case_bool_decide; destruct (ex_state x); done. Qed.

(** C5. The audit trail is accurate, for an upstream that sends no informational
response and does not switch protocols: a call that is not aborted logs exactly
one entry, which names the request, carries the status the client was sent,
and for a proxied request that is not a [HEAD] the number of body bytes the
client was sent (the answer to a [HEAD] has no body, whatever is counted); a
call that is aborted logs nothing. *)
Theorem audit_accurate g r m w g' w' x :
  0 <= wr_room w -> wr_final w = None -> handleProxy g r m w = (g', w', x) ->
  (forall ex o, x = Some ex -> ex_sent ex = Some o -> plain_reply (RoundTrip o)) ->
  match x with
  | Some ex =>
      if ex_aborted ex then auditor g' = auditor g
      else exists e, auditor g' = Log e (sink_takes m e) (auditor g) /\ entry_of r m e /\
             EntryStatus e = client_status w' /\ wr_final w' <> None /\
             (if wr_head w then wr_body w' = wr_body w else BytesOut e = len (wr_body w') - len (wr_body w))
  | None =>
      exists e, auditor g' = Log e (sink_takes m e) (auditor g) /\ entry_of r m e /\
        EntryStatus e = client_status w' /\ wr_final w' <> None
  end.
Proof.
  intros Hr Hw Hh Hplain. destruct x as [ex|].
  - destruct (handle_exchange _ _ _ _ _ _ _ Hh) as (p & g1 & wait & _ & Hl & _ & Hx & Hw' & Hf).
    destruct (check_limit_frame _ _ _ _ _ _ Hl) as (_ & Haud & _).
    unfold forward in Hf. destruct (negb _); [done|]. injection Hf as Hg _ Hx'. rewrite Hx' in Hg.
    destruct (ex_aborted ex) eqn:Hab; [by rewrite <- Hg|].
    assert (Ht : exchange_tracks w ex).
    { rewrite Hx. apply serve_tracks; [done|done|]. intros o Ho. rewrite <- Hx in Ho. by eapply Hplain. }
    destruct (Ht Hab) as [[[_ H1] H2] H3]. rewrite <- Hg. cbn [auditor log_entry set_auditor]. rewrite Haud.
    eexists. split; [done|]. match goal with |- entry_of r m (proxied ?pk m ex ?e) /\ _ =>
      destruct (proxied_entry r m pk ex e) as (E1 & E2 & E3); [by destruct (pk_err (peek (rq_body r)))|] end.
    split; [exact E1|]. rewrite E2, E3, Hw'. unfold client_status.
    destruct (wr_final (cw_writer (ex_writer ex))) as [[c h]|]; [|done]. destruct H2 as [-> H2].
    rewrite (proj2 (Z.eqb_neq c 0)) by lia. by split_and!; [..|destruct (wr_head w)].
  - destruct (handle_refused _ _ _ _ _ _ Hh) as (status & code & msg & h & e & Href & -> & -> & He & Hs & _).
    assert (Hst : 200 <= status /\ body_allowed status = true) by (destruct Href; done). destruct Hst as [Hst Hb].
    destruct (error_answer_spec status code msg h w Hw Hst Hb) as (E1 & E2 & _).
    exists e. rewrite E1, E2. split; [cbn [auditor log_entry set_auditor]; by rewrite charged_auditor|done].
Qed.

(** A request that is passed to its upstream. *)
Record passed_on (g : Gateway) (r : request) (m : moment) (p : proxy) : Prop := {
  po_route : routes g !! route_name (rq_path r) = Some p;
  po_limit : fst (snd (check_limit g (route_name (rq_path r)) r m)) = true;
  po_policy : blockReason (policies g !! route_name (rq_path r)) (pk_sum (peek (rq_body r))) = [];
  po_upgrade : upgradeType (rq_header r) = []
}.

Definition request_state (g : Gateway) (r : request) : option rewriteState :=
  rewrite_for g (route_name (rq_path r)) (pk_sum (peek (rq_body r))).

(** The exchange of a request that is passed on. *)
Definition exchange_of (g : Gateway) (r : request) (p : proxy) (w : writer) : exchange :=
  ServeHTTP p (with_request_body (pk_body (peek (rq_body r))) r) (request_state g r) (MkCounting w 0 0).

Lemma handle_passed g r m w p :
  passed_on g r m p ->
  let x := exchange_of g r p w in
  exists g' e, handleProxy g r m w = (g', cw_writer (ex_writer x), Some x) /\ entry_of r m e /\
    auditor g' = if ex_aborted x then auditor g
                 else Log (proxied (peek (rq_body r)) m x e) (sink_takes m (proxied (peek (rq_body r)) m x e)) (auditor g).
Proof.
  intros [H1 H2 H3 _]. cbn zeta. unfold handleProxy. cbn zeta. rewrite H1.
  destruct (check_limit g (route_name (rq_path r)) r m) as [g1 [ok wait]] eqn:Hl. cbn [fst snd] in H2. subst ok. cbn [negb].
  destruct (check_limit_frame _ _ _ _ _ _ Hl) as (_ & Haud & _ & _ & Hp & Hk & Hs & _).
  unfold forward. rewrite Hp, H3, bool_decide_eq_true_2 by done. cbn [negb].
  assert (Hst : rewrite_for g1 (route_name (rq_path r)) (pk_sum (peek (rq_body r))) = request_state g r).
  { unfold request_state, rewrite_for. by rewrite Hp, Hk, Hs. }
  rewrite Hst. fold (exchange_of g r p w). do 2 eexists. split; [reflexivity|].
  split; [shelve|]. destruct (ex_aborted _); [exact Haud|]. cbn [auditor log_entry set_auditor]. rewrite Haud. reflexivity.
  Unshelve. by destruct (pk_err (peek (rq_body r))).
Qed.

(** ** Where the trail and the client are misled *)

Definition outgoing (p : proxy) (marked : bool) (r : request) : out_request :=
  sent p marked (with_request_body (pk_body (peek (rq_body r))) r).

Lemma exchange_passed g r m p w : passed_on g r m p ->
  exchange_of g r p w =
  let st := request_state g r in
  let o := outgoing p (match st with Some _ => true | None => false end) r in
  let a := RoundTrip o in
  let w1 := fold_left inform (rp_infos a) (MkCounting w 0 0) in
  match rp_answer a with
  | Err e => fails (Some o) (rp_read a) e w1 st
  | Ok u =>
      if ur_code u =? 101 then
        let '((res, st), err) := modifyResponse (received u) st in
        match err with
        | Some e => fails (Some o) (rp_read a) e w1 st
        | None =>
            match switch_error (upgradeType (or_header o)) (upgradeType (Header res)) with
            | Some e => fails (Some o) (rp_read a) e w1 st
            | None => MkExchange (Some o) (rp_read a) (switched (Header res) w1) st [] false
            end
        end
      else
        let '((res, st), err) :=
          modifyResponse (with_header (removeHopByHopHeaders (ur_header u)) (received u)) st in
        match err with
        | Some e => fails (Some o) (rp_read a) e w1 st
        | None => let '(w2, st, aborted) := copy_response res st w1 in MkExchange (Some o) (rp_read a) w2 st [] aborted
        end
  end.
Proof.
  intros [_ _ _ Hu]. unfold exchange_of, ServeHTTP. cbn [rq_header with_request_body]. rewrite Hu. done.
Qed.

(** The transport is handed the request made from the client's. *)
Lemma exchange_sent g r m p w : passed_on g r m p ->
  ex_sent (exchange_of g r p w)
  = Some (outgoing p (match request_state g r with Some _ => true | None => false end) r).
Proof.
  intros Hp. rewrite (exchange_passed g r m p w Hp). cbn zeta. unfold fails.
  destruct (rp_answer _) as [u|e']; [|by destruct (ErrorHandler _ _)].
  destruct (_ =? 101); destruct (modifyResponse _ _) as [[res st'] [e1|]]; try by destruct (ErrorHandler _ _).
  - destruct (switch_error _ _); [by destruct (ErrorHandler _ _)|done].
  - by destruct (copy_response _ _ _) as [[? ?] ?].
Qed.

(** C40. A response cut short is not audited: when the upstream's body ends in
an error, the client has been sent the status and the first part, the handler
is aborted, and the trail holds no entry for the request. *)
Theorem broken_body_unaudited g r m w p n u e :
  passed_on g r m p -> request_state g r = None -> wr_final w = None ->
  (forall o, RoundTrip o = MkReply [] n (Ok u)) ->
  200 <= ur_code u <= 999 -> src_err (ur_source u) = Some e ->
  exists g' w' x, handleProxy g r m w = (g', w', Some x) /\ auditor g' = auditor g /\
    client_status w' = ur_code u /\ is_Some (ex_sent x).
Proof.
  intros Hp Hst Hw Ha Hc He. destruct (handle_passed g r m w p Hp) as (g' & en & Hh & _ & Haud).
  rewrite (exchange_passed g r m p w Hp), Hst in *. cbn zeta in *. rewrite Ha in *. cbn [rp_answer rp_infos rp_read fold_left] in *.
  rewrite (proj2 (Z.eqb_neq (ur_code u) 101)) in * by lia. cbn [modifyResponse] in *.
  assert (Hcopy : forall res, StatusCode res = ur_code u -> Body res = Plain (ur_source u) ->
    exists w2, copy_response res None (MkCounting w 0 0) = (w2, None, true) /\ client_status (cw_writer w2) = ur_code u).
  { intros res Hs Hb. unfold copy_response. rewrite Hs. unfold valid_code.
    rewrite (proj2 (Z.leb_le 100 _)), (proj2 (Z.leb_le _ 999)) by lia. cbn [andb negb]. rewrite Hb. cbn [read_body]. rewrite He.
    set (w0 := WriteHeader _ _).
    assert (Hw0 : exists h, wr_final (cw_writer w0) = Some (ur_code u, h)).
    { unfold w0, WriteHeader, wr_write_header. cbn [cw_writer wr_final cw_set_header set_wr_header]. rewrite Hw.
      rewrite (proj2 (Z.leb_le 100 _)), (proj2 (Z.leb_gt _ 199)) by lia. cbn [andb wr_final]. by eexists. }
    clearbody w0. destruct Hw0 as [h Hw0]. case_bool_decide.
    - exists w0. split; [done|]. unfold client_status. by rewrite Hw0.
    - destruct (Write _ w0) as [k w2] eqn:Ew. exists w2. rewrite orb_true_r. split; [done|].
      unfold Write in Ew. pose proof (wr_write_final (src_data (ur_source u)) _ _ Hw0) as Hf.
      destruct (wr_write _ _) as [k' w']. injection Ew as _ <-. unfold client_status. cbn [cw_writer snd] in *. by rewrite Hf. }
  destruct (Hcopy (with_header (removeHopByHopHeaders (ur_header u)) (received u)) eq_refl eq_refl) as (w2 & Hc2 & Hs2).
  rewrite Hc2 in *. cbn [ex_writer ex_aborted] in *. do 3 eexists. split; [exact Hh|]. by split_and!.
Qed.

(** An informational response hides a failure: when the upstream sends one
and then breaks, the error handler takes the response for one that has
started, so the client is sent an empty 200, and the entry says 103. *)
Lemma early_hint_hides_failure g r m w p n h e :
  passed_on g r m p -> wr_final w = None -> (forall o, RoundTrip o = MkReply [(103, h)] n (Err e)) ->
  exists g' w' x en, handleProxy g r m w = (g', w', Some x) /\ client_status w' = StatusOK /\ wr_body w' = wr_body w /\
    auditor g' = Log en (sink_takes m en) (auditor g) /\ EntryStatus en = 103.
Proof.
  intros Hp Hw Ha. destruct (handle_passed g r m w p Hp) as (g' & en & Hh & _ & Haud).
  rewrite (exchange_passed g r m p w Hp) in *. cbn zeta in *. rewrite Ha in *. cbn [rp_answer rp_infos rp_read fold_left] in *.
  set (w1 := inform _ _) in *.
  assert (Hw1 : cw_status w1 = 103 /\ wr_final (cw_writer w1) = None /\ wr_body (cw_writer w1) = wr_body w).
  { unfold w1, inform, WriteHeader, wr_write_header. cbn [fst snd cw_writer cw_status cw_set_header set_wr_header wr_final]. by rewrite Hw. }
  destruct Hw1 as (E1 & E2 & E3). unfold fails, ErrorHandler in *. rewrite E1 in *. change (negb (103 =? 0)) with true in *.
  cbn [ex_writer ex_aborted] in *. do 4 eexists. split; [exact Hh|]. unfold client_status. rewrite E2, E3.
  split_and!; [done|done|exact Haud|]. unfold proxied. cbn [ex_writer ex_error ex_state].
  rewrite E1. case_bool_decide; by destruct (request_state g r).
Qed.

(** A body cut short is sent on as a whole one: when reading a chunked
request fails, the upstream is handed the part that was read as if it had
ended there. *)
Lemma truncated_body_forwarded g r m w p s e :
  passed_on g r m p -> rq_body r = Some s -> len (src_data s) <= maxRPCPeek -> src_err s = Some e -> rq_length r = -1 ->
  exists g' w' x o, handleProxy g r m w = (g', w', Some x) /\ ex_sent x = Some o /\
    or_body o = Some (Source (src_data s) None).
Proof.
  intros Hp Hb Hl He Hlen. destruct (handle_passed g r m w p Hp) as (g' & en & Hh & _ & _).
  set (o := outgoing p (match request_state g r with Some _ => true | None => false end) r).
  exists g', (cw_writer (ex_writer (exchange_of g r p w))), (exchange_of g r p w), o. split; [exact Hh|].
  split; [by apply (exchange_sent g r m)|].
  unfold o, outgoing. rewrite sent_body. cbn [rq_length rq_body with_request_body]. rewrite Hlen, Hb.
  by rewrite peek_small.
Qed.

(** ** Isolation of routes *)

(** What the gateway keeps for one route. *)
Definition route_view (g : Gateway) (n : bytes) :=
  (routes g !! n, upstreams g !! n, limits g !! n, sessionLimits g !! n, policies g !! n, locks g !! n, scanners g !! n).

Lemma view_auditor a g n : route_view (set_auditor a g) n = route_view g n.
Proof. done. Qed.

(** C21. Routes do not touch each other: a request changes nothing of what is
kept for any other route, and of its own route only the limiter; health,
metadata and unroutable requests change nothing and are not audited. *)
Theorem routes_isolated g r m w g' w' x :
  serve g r m w = (g', w', x) ->
  g_cfg g' = g_cfg g /\
  (forall n, n <> route_name (rq_path r) -> route_view g' n = route_view g n) /\
  (forall n, routes g' !! n = routes g !! n /\ upstreams g' !! n = upstreams g !! n /\ policies g' !! n = policies g !! n /\
    locks g' !! n = locks g !! n /\ scanners g' !! n = scanners g !! n) /\
  (has_prefix (rq_path r) "/mcp/" = false -> g' = g /\ x = None).
Proof.
  unfold serve. case_bool_decide as Hh; [|destruct (has_prefix (rq_path r) wellKnownPrefix)].
  1,2: intros [= <- <- <-]; by split_and!.
  destruct (has_prefix (rq_path r) "/mcp/"); [|intros [= <- <- <-]; by split_and!].
  unfold handleProxy. cbn zeta. set (name := route_name (rq_path r)).
  destruct (routes g !! name) as [p|]; [|intros [= <- <- <-]; by split_and!].
  destruct (check_limit g name r m) as [g1 [ok wait]] eqn:Hl.
  destruct (check_limit_frame _ _ _ _ _ _ Hl) as (F1 & F2 & F3 & F4 & F5 & F6 & F7 & F8).
  assert (Hframe : forall g2, (exists a, g2 = set_auditor a g1) -> g_cfg g2 = g_cfg g /\
    (forall n, n <> name -> route_view g2 n = route_view g n) /\
    (forall n, routes g2 !! n = routes g !! n /\ upstreams g2 !! n = upstreams g !! n /\ policies g2 !! n = policies g !! n /\
      locks g2 !! n = locks g !! n /\ scanners g2 !! n = scanners g !! n) /\ (true = false -> g2 = g /\ x = None)).
  { intros g2 [a ->]. split_and!; [done| | |done].
    - intros n Hn. destruct (F8 n Hn) as [E1 E2]. unfold route_view. cbn. by rewrite F3, F4, F5, F6, F7, E1, E2.
    - intros n. cbn. by rewrite F3, F4, F5, F6, F7. }
  destruct ok; cbn [negb].
  - unfold forward. destruct (negb _).
    + intros [= <- _ _]. apply Hframe. by eexists.
    + intros [= <- _ _]. apply Hframe. destruct (ex_aborted _); [exists (auditor g1); by destruct g1|by eexists].
  - intros [= <- _ _]. apply Hframe. by eexists.
Qed.

(** ** What the trail reveals *)

(** A request with another body. *)
Definition carrying (j : json) (r : request) : request := with_request_body (Some (Source (render j) None)) r.

(** What an exchange leaves, but for what was sent. *)
Definition outcome_of (x : exchange) := (ex_read x, ex_writer x, ex_state x, ex_error x, ex_aborted x).

Lemma agent_header o o' : or_header o = or_header o' -> or_header (with_user_agent o) = or_header (with_user_agent o').
Proof. unfold with_user_agent. intros H. rewrite <- H. by destruct (or_header o !! _). Qed.

(** An exchange sees the body of its request only through the transport. *)
Lemma serve_blind p r b b' st w :
  let out b := sent p (match st with Some _ => true | None => false end) (with_request_body b r) in
  RoundTrip (out b) = RoundTrip (out b') ->
  outcome_of (ServeHTTP p (with_request_body b r) st w) = outcome_of (ServeHTTP p (with_request_body b' r) st w).
Proof.
  unfold sent. intros H. unfold ServeHTTP. cbn [rq_header with_request_body]. cbn zeta. rewrite H.
  destruct (negb _); [done|].
  assert (Hf : forall o o' n e w st, outcome_of (fails o n e w st) = outcome_of (fails o' n e w st))
    by by intros; unfold fails; destruct (ErrorHandler _ _).
  destruct (rp_answer _) as [u|e]; [|apply Hf]. destruct (_ =? 101).
  - destruct (modifyResponse _ _) as [[res st'] [e|]]; [apply Hf|].
    rewrite (agent_header (Rewrite p _ (with_request_body b r)) (Rewrite p (match st with Some _ => true | None => false end) (with_request_body b' r))) by done.
    destruct (switch_error _ _); [apply Hf|done].
  - destruct (modifyResponse _ _) as [[res st'] [e|]]; [apply Hf|]. by destruct (copy_response _ _ _) as [[]].
Qed.

Lemma forward_blind g name p r j j' m w :
  summarizeRPC (render j) = summarizeRPC (render j') -> len (render j) = len (render j') -> len (render j) <= maxRPCPeek ->
  (forall marked, RoundTrip (outgoing p marked (carrying j r)) = RoundTrip (outgoing p marked (carrying j' r))) ->
  fst (forward g name p (carrying j r) m w) = fst (forward g name p (carrying j' r) m w).
Proof.
  intros Hs Hl Hc Hb. unfold forward, outgoing, carrying in *. cbn [rq_body with_request_body] in *.
  rewrite !peek_small in * by (cbn [src_data]; lia). cbn [src_data src_err pk_body pk_sum pk_err] in *. rewrite <- Hs, <- Hl.
  change (base_entry m (with_request_body (Some (Source (render j') None)) r) name) with (base_entry m r name).
  change (base_entry m (with_request_body (Some (Source (render j) None)) r) name) with (base_entry m r name).
  destruct (negb _); [done|].
  pose proof (serve_blind p r (Some (Source (render j) None)) (Some (Source (render j') None))
    (rewrite_for g name (summarizeRPC (render j))) (MkCounting w 0 0) (Hb _)) as Hx.
  unfold with_request_body in *. cbn [rq_method rq_path rq_query rq_host rq_remote rq_tls rq_header rq_length] in *. cbn zeta.
  destruct (ServeHTTP p _ _ _) as [o1 n1 w1 s1 e1 a1]. destruct (ServeHTTP p _ _ _) as [o2 n2 w2 s2 e2 a2].
  unfold outcome_of in Hx. cbn [ex_read ex_writer ex_state ex_error ex_aborted] in Hx.
  injection Hx as -> -> -> -> ->. done.
Qed.

(** C22. Parameters stay out of the trail: two requests that differ only in
those parts of their bodies that are not metadata (everything but the method,
the id and the tool's name of each message), with bodies of one size within
the cap, to which the upstream gives one answer, are handled alike: the whole
gateway afterwards is the same, its trail included, and so is what the client
is sent. *)
Theorem trail_is_metadata_only g r j j' m w :
  good j -> good j' -> same_metadata j j' -> len (render j) = len (render j') -> len (render j) <= maxRPCPeek ->
  (forall p marked, RoundTrip (outgoing p marked (carrying j r)) = RoundTrip (outgoing p marked (carrying j' r))) ->
  fst (serve g (carrying j r) m w) = fst (serve g (carrying j' r) m w).
Proof.
  intros Hg Hg' Hs Hl Hc Hb. pose proof (summary_same_metadata j j' Hg Hg' Hs) as Hsum.
  unfold serve. cbn [rq_path carrying with_request_body]. case_bool_decide; [done|].
  destruct (has_prefix (rq_path r) wellKnownPrefix); [done|]. destruct (has_prefix (rq_path r) "/mcp/"); [|done].
  unfold handleProxy. cbn [rq_path carrying with_request_body]. destruct (routes g !! _) as [p|]; [|done].
  change (check_limit g (route_name (rq_path r)) (carrying j r) m) with (check_limit g (route_name (rq_path r)) r m).
  change (check_limit g (route_name (rq_path r)) (carrying j' r) m) with (check_limit g (route_name (rq_path r)) r m).
  destruct (check_limit _ _ _ _) as [g1 [[] wait]]; [|done]. cbn [negb]. by apply forward_blind.
Qed.

End calls.
