(* ===== verification/Concurrent.v ===== *)
(** * Handlers side by side (gateway/gateway.go, ratelimit.go, audit.go)

The server runs every request in a goroutine of its own.  Here a call of
[ServeHTTP] is a thread with the steps at which it touches what it shares
with the others: it looks up its route; takes the lock of its route's
limiter, reads it, and stores what [allow] leaves before it unlocks; does the
rest of its work on its own; takes the auditor's lock, writes its line a few
bytes at a time, unlocks; and, when the write failed, takes the lock again for
[reportFailure] and prints once it has let it go.

The mutex of a session limiter guards its buckets too: a bucket's own mutex is
only ever taken under it.

What the upstreams and the scanners answer comes from outside, and may depend
on what reaches them first: a request brings the answers it gets with it, a
network and a scanner of its own, and everything is stated for all of them. *)

From S2P Require Import RateLimit.
From S2P Require Export GatewaySafety.
Local Open Scope Z_scope.
Local Open Scope go_scope.

(** ** What handlers share and how they use it *)

(** The limiter of a route: of a session limiter and a bucket the first one
found counts. *)
Inductive limiter := LSession (sl : sessionLimiter float64) | LBucket (b : tokenBucket float64).

Definition read_limiter (g : Gateway) (name : bytes) : option limiter :=
  match sessionLimits g !! name with
  | Some sl => Some (LSession sl)
  | None => LBucket <$> limits g !! name
  end.

Definition store_limiter (name : bytes) (l : limiter) (g : Gateway) : Gateway :=
  match l with
  | LSession sl => set_sessions (<[name := sl]> (sessionLimits g)) g
  | LBucket b => set_limits (<[name := b]> (limits g)) g
  end.

(** A request, the moment it is handled at, its client's writer, and what the
scanners and the upstream say to it. *)
Record job := MkJob {
  jb_request : request;
  jb_moment : moment;
  jb_writer : writer;
  jb_scan : ScanEnv;
  jb_net : Transport
}.

Definition jb_route (j : job) : bytes := route_name (rq_path (jb_request j)).

(** What a handler has to say once its work is done: the entry it logs, unless
it was aborted, the client's writer and the exchange with the upstream. *)
Record answered := MkAnswered { an_entry : option Entry; an_writer : writer; an_exchange : option exchange }.

(** How far a handler is. *)
Inductive phase :=
| PArrived
| PRouted (p : proxy)
| PDecide (p : proxy) (l : limiter)
| PPassed (p : proxy) (v : bool * Z)
| PAnswered (an : answered)
| PWriting (an : answered) (todo : bytes)
| PReport (an : answered) (e : goerror)
| PReportHeld (an : answered) (e : goerror)
| PPrint (an : answered) (e : goerror)
| PDone (an : answered).

Inductive dispatched := DAnswered (an : answered) | DRouted (p : proxy).

Record system := MkSystem {
  sy_gateway : Gateway;
  sy_limiter_mu : gmap bytes nat;
  sy_audit_mu : option nat;
  sy_phases : list phase
}.

Section handlers.
Context {L : GoLib} {A : Arch}.

Definition take_token (l : limiter) (j : job) : limiter * (bool * Z) :=
  let m := jb_moment j in
  match l with
  | LSession sl =>
      let '(sl, v) := session_allow sl (h_get (rq_header (jb_request j)) "Mcp-Session-Id") (session_order m)
                        (clock_new m) (clock_seen m) (clock_allow m) in
      (LSession sl, v)
  | LBucket b => let '(b, v) := RateLimit.allow b (clock_allow m) in (LBucket b, v)
  end.

(** [ServeHTTP] and the start of [handleProxy]. *)
Definition dispatch (g : Gateway) (j : job) : dispatched :=
  let r := jb_request j in
  let w := jb_writer j in
  if bool_decide (rq_path r = "/healthz") then DAnswered (MkAnswered None (handleHealth g w) None)
  else if has_prefix (rq_path r) wellKnownPrefix then DAnswered (MkAnswered None (handleWellKnown g r w) None)
  else if has_prefix (rq_path r) "/mcp/" then
    match routes g !! jb_route j with
    | None => DAnswered (MkAnswered (Some (unknown_entry (jb_moment j) r)) (writeJSONError StatusNotFound (-32001) "unknown upstream" w) None)
    | Some p => DRouted p
    end
  else DAnswered (MkAnswered None (writeJSONError StatusNotFound (-32001) "not found" w) None).

(** The part of [handleProxy] that no other handler can see: a refusal by the
limiter, or the look at the body, the policy and the exchange. *)
Definition limited_answer (j : job) (wait : Z) : answered :=
  let w := set_wr_header (h_set (wr_header (jb_writer j)) "Retry-After" (itoa (retry_seconds wait))) (jb_writer j) in
  let e := base_entry (jb_moment j) (jb_request j) (jb_route j) in
  MkAnswered (Some (with_error "rate limited" (with_result StatusTooManyRequests false 0 0 0 e)))
    (writeJSONError StatusTooManyRequests (-32002) "rate limited" w) None.

Definition forward_answer (g : Gateway) (p : proxy) (j : job) : answered :=
  let '(name, r, m, w) := (jb_route j, jb_request j, jb_moment j, jb_writer j) in
  let pk := peek (rq_body r) in
  let e := base_entry m r name in
  let e := match pk_err pk with Some err => with_error ("request body read: " ++ Error err) e | None => e end in
  let reason := blockReason (policies g !! name) (pk_sum pk) in
  if negb (bool_decide (reason = [])) then
    MkAnswered (Some (blocked_by reason pk m e)) (writeJSONError StatusForbidden (-32003) reason w) None
  else
    let x := ServeHTTP (E := jb_scan j) (T := jb_net j) p (with_request_body (pk_body pk) r) (rewrite_for g name (pk_sum pk)) (MkCounting w 0 0) in
    MkAnswered (if ex_aborted x then None else Some (proxied pk m x e)) (cw_writer (ex_writer x)) (Some x).

Definition answer (g : Gateway) (p : proxy) (j : job) (v : bool * Z) : answered :=
  if negb (fst v) then limited_answer j (snd v) else forward_answer g p j.

(** ** One step

[took] is what the sink does with a handler's line: the bytes it takes and its
error. *)
Definition took (j : job) (an : answered) : bytes * option goerror :=
  match an_entry an with
  | None => ([], None)
  | Some e => let '(n, err) := sink_takes (jb_moment j) e in (take n (marshal_entry_line e), err)
  end.

Definition report_line (e : goerror) : bytes :=
  "mcp-gateway-lite: audit write failed (further failures suppressed): " ++ Error e ++ [x0a].

Definition append_sink (b : bytes) (a : Auditor) : Auditor := MkAuditor (sink a ++ b) (failed a) (reports a).
Definition mark_failed (a : Auditor) : Auditor := MkAuditor (sink a) true (reports a).
Definition append_report (e : goerror) (a : Auditor) : Auditor := MkAuditor (sink a) (failed a) (reports a ++ [report_line e]).
Definition on_auditor (f : Auditor -> Auditor) (g : Gateway) : Gateway := set_auditor (f (auditor g)) g.

Variable jobs : list job.

(** The [i]th handler's next step, if it has one and need not wait for a lock;
[n] is how many bytes a write takes at once. *)
Definition advance (n i : nat) (s : system) : option system :=
  let '(MkSystem g lmu amu phs) := s in
  let go g lmu amu ph := Some (MkSystem g lmu amu (<[i := ph]> phs)) in
  match jobs !! i, phs !! i with
  | Some j, Some ph =>
      let name := jb_route j in
      match ph with
      | PArrived => go g lmu amu (match dispatch g j with DAnswered an => PAnswered an | DRouted p => PRouted p end)
      | PRouted p =>
          match read_limiter g name with
          | None => go g lmu amu (PPassed p (true, 0))
          | Some l => match lmu !! name with None => go g (<[name := i]> lmu) amu (PDecide p l) | Some _ => None end
          end
      | PDecide p l => let '(l, v) := take_token l j in go (store_limiter name l g) (delete name lmu) amu (PPassed p v)
      | PPassed p v => go g lmu amu (PAnswered (answer g p j v))
      | PAnswered an =>
          match an_entry an with
          | None => go g lmu amu (PDone an)
          | Some _ => match amu with None => go g lmu (Some i) (PWriting an (fst (took j an))) | Some _ => None end
          end
      | PWriting an [] =>
          go g lmu None (match snd (took j an) with None => PDone an | Some e => PReport an e end)
      | PWriting an todo => go (on_auditor (append_sink (take (S n) todo)) g) lmu amu (PWriting an (drop (S n) todo))
      | PReport an e => match amu with None => go g lmu (Some i) (PReportHeld an e) | Some _ => None end
      | PReportHeld an e => go (on_auditor mark_failed g) lmu None (if failed (auditor g) then PDone an else PPrint an e)
      | PPrint an e => go (on_auditor (append_report e) g) lmu amu (PDone an)
      | PDone _ => None
      end
  | _, _ => None
  end.

Definition step (s s' : system) : Prop := exists n i, advance n i s = Some s'.

Definition start (g : Gateway) : system := MkSystem g ∅ None (map (fun _ => PArrived) jobs).

Definition is_done (ph : phase) : bool := match ph with PDone _ => true | _ => false end.
Definition finished (s : system) : Prop := Forall (fun ph => is_done ph = true) (sy_phases s).

(** ** Schedules: which handler steps next, and how much a write takes *)

Definition run_schedule (l : list (nat * nat)) (s : system) : option system :=
  fold_left (fun s ni => s ≫= advance (fst ni) (snd ni)) l (Some s).

(** The handlers that make a step of some kind, in the order in which they
make it; a kind is told from the phases before and after. *)
Definition stepped (P : phase -> phase -> bool) (i : nat) (s s' : system) : list nat :=
  match sy_phases s !! i, sy_phases s' !! i with
  | Some ph, Some ph' => if P ph ph' then [i] else []
  | _, _ => []
  end.

Fixpoint order_of (P : phase -> phase -> bool) (l : list (nat * nat)) (s : system) : list nat :=
  match l with
  | [] => []
  | (n, i) :: l =>
      match advance n i s with
      | Some s' => stepped P i s s' ++ order_of P l s'
      | None => []
      end
  end.

(** A handler has joined once it is past its limiter, or needs not get past
one. *)
Definition joined (ph : phase) : bool :=
  match ph with PArrived | PRouted _ | PDecide _ _ => false | _ => true end.

Definition joins (ph ph' : phase) : bool := negb (joined ph) && joined ph'.

(** The end of the write of a line, and of the critical section of
[reportFailure]. *)
Definition writes (ph ph' : phase) : bool :=
  match ph with PWriting an [] => bool_decide (an_entry an <> None) | _ => false end.

Definition marks (ph ph' : phase) : bool := match ph with PReportHeld _ _ => true | _ => false end.

(** ** The handlers one after the other *)

Definition serially (g : Gateway) (order : list nat) : Gateway * list (writer * option exchange) :=
  fold_left (fun st i =>
    match jobs !! i with
    | Some j => let '(g, w, x) := serve (E := jb_scan j) (T := jb_net j) (fst st) (jb_request j) (jb_moment j) (jb_writer j) in (g, snd st ++ [(w, x)])
    | None => st
    end) order (g, []).

End handlers.
