(* ===== verification/ConcurrentSafety.v ===== *)
(** * What handlers guarantee side by side

Whatever the interleaving of the handlers' steps: the outcome is that of the
handlers one after the other, in the order in which they got past their
limiters; the lines of the trail are whole; and every run ends, with every
request handled. *)

From S2P Require Import RateLimit.
From S2P Require Export Concurrent.
Local Open Scope Z_scope.
Local Open Scope go_scope.

Section handlers.
Context {L : GoLib} {A : Arch}.

(** ** A handler on its own *)

(** What no handler changes.  Two gateways are equivalent when they agree on
it, whatever their limiters and their audit trails; what a handler decides
outside the two mutexes respects the equivalence. *)
Definition rules (g : Gateway) := (g_cfg g, routes g, upstreams g, policies g, locks g, scanners g).

#[local] Instance same_rules : Equiv Gateway := fun g g' => rules g = rules g'.

#[local] Instance same_rules_equivalence : Equivalence (≡@{Gateway}).
Proof. split; unfold equiv, same_rules; [by intros ?|by intros ?? ->|by intros ??? -> ->]. Qed.

Definition handle (g : Gateway) (j : job) : Gateway * answered :=
  match dispatch g j with
  | DAnswered an => (g, an)
  | DRouted p =>
      match read_limiter g (jb_route j) with
      | None => (g, answer g p j (true, 0))
      | Some l => let '(l, v) := take_token l j in let g := store_limiter (jb_route j) l g in (g, answer g p j v)
      end
  end.

Lemma rules_store name l g : store_limiter name l g ≡ g.
Proof. by destruct l. Qed.

Lemma rules_auditor a g : set_auditor a g ≡ g.
Proof. done. Qed.

#[local] Instance answer_proper : Proper ((≡) ==> eq ==> eq ==> eq ==> eq) answer.
Proof.
  intros g g' [= _ _ _ Hp Hl Hs] p ? <- j ? <- v ? <-. unfold answer. destruct (negb (fst v)); [done|].
  unfold forward_answer, rewrite_for. by rewrite Hp, Hl, Hs.
Qed.

#[local] Instance dispatch_proper : Proper ((≡) ==> eq ==> eq) dispatch.
Proof.
  intros g g' [= Hc Hr Hu _ _ _] j ? <-. unfold dispatch, handleHealth, handleWellKnown, metadata_of. by rewrite Hc, Hr, Hu.
Qed.

Lemma check_limit_steps g name r m w E T :
  check_limit g name r m =
  match read_limiter g name with
  | None => (g, (true, 0))
  | Some l => let '(l, v) := take_token l (MkJob r m w E T) in (store_limiter name l g, v)
  end.
Proof.
  unfold check_limit, read_limiter. destruct (sessionLimits g !! name) as [sl|]; cbn.
  - by destruct (session_allow _ _ _ _ _ _).
  - destruct (limits g !! name) as [b|]; [|done]. cbn. by destruct (RateLimit.allow _ _).
Qed.

Definition log_answer (an : answered) (m : moment) (g : Gateway) : Gateway :=
  match an_entry an with Some e => log_entry e m g | None => g end.

Lemma forward_answers g name p r m w E T :
  name = route_name (rq_path r) ->
  forward g name p r m w =
  let an := forward_answer g p (MkJob r m w E T) in (log_answer an m g, an_writer an, an_exchange an).
Proof.
  intros ->. unfold forward, forward_answer, jb_route. cbn [jb_request jb_moment jb_writer jb_scan jb_net].
  destruct (negb _); [done|]. cbn [an_entry an_writer an_exchange]. unfold log_answer. cbn [an_entry]. by destruct (ex_aborted _).
Qed.

(** A call of the handler is its steps in a row. *)
Lemma serve_steps g j :
  serve (E := jb_scan j) (T := jb_net j) g (jb_request j) (jb_moment j) (jb_writer j)
  = let '(g', an) := handle g j in (log_answer an (jb_moment j) g', an_writer an, an_exchange an).
Proof.
  destruct j as [r m w E T]. cbn [jb_request jb_moment jb_writer jb_scan jb_net]. unfold serve, handle, dispatch.
  cbn [jb_request jb_moment jb_writer]. case_bool_decide; [done|]. destruct (has_prefix (rq_path r) wellKnownPrefix); [done|].
  destruct (has_prefix (rq_path r) "/mcp/"); [|done]. unfold handleProxy, jb_route. cbn [jb_request].
  destruct (routes g !! _) as [p|]; [|done]. rewrite (check_limit_steps g _ r m w E T).
  destruct (read_limiter g _) as [l|].
  - destruct (take_token l _) as [l' [ok wait]]. unfold answer. cbn [fst snd]. destruct ok; cbn [negb]; [|done].
    by rewrite forward_answers.
  - unfold answer. cbn [fst negb]. by rewrite forward_answers.
Qed.

Lemma handle_auditor a g j : handle (set_auditor a g) j = (set_auditor a (fst (handle g j)), snd (handle g j)).
Proof.
  unfold handle. rewrite rules_auditor. destruct (dispatch g j) as [an|p]; [done|].
  change (read_limiter (set_auditor a g) (jb_route j)) with (read_limiter g (jb_route j)).
  destruct (read_limiter g _) as [l|].
  - destruct (take_token l j) as [l' v]. cbn [fst snd]. f_equal; [by destruct l'|]. by rewrite !rules_store, rules_auditor.
  - done.
Qed.

Lemma handle_rules g j : fst (handle g j) ≡ g.
Proof.
  unfold handle. destruct (dispatch g j) as [an|p]; [done|]. destruct (read_limiter g _) as [l|]; [|done].
  destruct (take_token l j). apply rules_store.
Qed.

(** ** The steps as rules *)

Variable jobs : list job.

Inductive moves (n i : nat) (j : job) : 
  Gateway -> gmap bytes nat -> option nat -> phase -> Gateway -> gmap bytes nat -> option nat -> phase -> Prop :=
| mv_answered g lm am an : dispatch g j = DAnswered an -> moves n i j g lm am PArrived g lm am (PAnswered an)
| mv_routed g lm am p : dispatch g j = DRouted p -> moves n i j g lm am PArrived g lm am (PRouted p)
| mv_free g lm am p : read_limiter g (jb_route j) = None ->
    moves n i j g lm am (PRouted p) g lm am (PPassed p (true, 0))
| mv_lock g lm am p l : read_limiter g (jb_route j) = Some l -> lm !! jb_route j = None ->
    moves n i j g lm am (PRouted p) g (<[jb_route j := i]> lm) am (PDecide p l)
| mv_decide g lm am p l :
    moves n i j g lm am (PDecide p l) (store_limiter (jb_route j) (fst (take_token l j)) g) (delete (jb_route j) lm) am
      (PPassed p (snd (take_token l j)))
| mv_answer g lm am p v : moves n i j g lm am (PPassed p v) g lm am (PAnswered (answer g p j v))
| mv_silent g lm am an : an_entry an = None -> moves n i j g lm am (PAnswered an) g lm am (PDone an)
| mv_grab g lm an e : an_entry an = Some e ->
    moves n i j g lm None (PAnswered an) g lm (Some i) (PWriting an (fst (took j an)))
| mv_write g lm am an todo : todo <> [] ->
    moves n i j g lm am (PWriting an todo) (on_auditor (append_sink (take (S n) todo)) g) lm am (PWriting an (drop (S n) todo))
| mv_written g lm am an : snd (took j an) = None -> moves n i j g lm am (PWriting an []) g lm None (PDone an)
| mv_broken g lm am an e : snd (took j an) = Some e -> moves n i j g lm am (PWriting an []) g lm None (PReport an e)
| mv_regrab g lm an e : moves n i j g lm None (PReport an e) g lm (Some i) (PReportHeld an e)
| mv_first g lm am an e : failed (auditor g) = false ->
    moves n i j g lm am (PReportHeld an e) (on_auditor mark_failed g) lm None (PPrint an e)
| mv_again g lm am an e : failed (auditor g) = true ->
    moves n i j g lm am (PReportHeld an e) (on_auditor mark_failed g) lm None (PDone an)
| mv_print g lm am an e : moves n i j g lm am (PPrint an e) (on_auditor (append_report e) g) lm am (PDone an).

Lemma advance_moves n i s s' :
  advance jobs n i s = Some s' <->
  exists j ph g' lm' am' ph', jobs !! i = Some j /\ sy_phases s !! i = Some ph /\
    moves n i j (sy_gateway s) (sy_limiter_mu s) (sy_audit_mu s) ph g' lm' am' ph' /\
    s' = MkSystem g' lm' am' (<[i := ph']> (sy_phases s)).
Proof.
  destruct s as [g lm am phs]. cbn [advance sy_gateway sy_limiter_mu sy_audit_mu sy_phases]. split.
  - destruct (jobs !! i) as [j|]; [|done]. destruct (phs !! i) as [ph|]; [|done]. intros H. exists j, ph.
    enough (exists g' lm' am' ph', moves n i j g lm am ph g' lm' am' ph' /\ s' = MkSystem g' lm' am' (<[i := ph']> phs))
      as (g' & lm' & am' & ph' & ? & ?) by by exists g', lm', am', ph'.
    destruct ph as [|p|p l|p v|an|an todo|an e|an e|an e|an].
    + injection H as <-. destruct (dispatch g j) eqn:Hd; do 4 eexists; (split; [|done]); by constructor.
    + destruct (read_limiter g _) eqn:Hr; [destruct (lm !! jb_route j) eqn:Hl; [done|]|];
        injection H as <-; do 4 eexists; (split; [|done]); by constructor.
    + pose proof (mv_decide n i j g lm am p l) as Hm. destruct (take_token l j) as [l' v]. injection H as <-.
      do 4 eexists. by split; [exact Hm|].
    + injection H as <-. do 4 eexists. (split; [|done]). constructor.
    + destruct (an_entry an) eqn:He; [destruct am; [done|]|]; injection H as <-; do 4 eexists; (split; [|done]); by econstructor.
    + destruct todo as [|b todo].
      * injection H as <-. destruct (snd (took j an)) eqn:Ht; do 4 eexists; (split; [|done]); by constructor.
      * injection H as <-. do 4 eexists. (split; [|done]). by constructor.
    + destruct am; [done|]. injection H as <-. do 4 eexists. (split; [|done]). constructor.
    + injection H as <-. destruct (failed (auditor g)) eqn:Hf; do 4 eexists; (split; [|done]); by constructor.
    + injection H as <-. do 4 eexists. (split; [|done]). constructor.
    + done.
  - intros (j & ph & g' & lm' & am' & ph' & -> & -> & Hm & ->). destruct Hm; try done.
    + by rewrite H.
    + by rewrite H.
    + by rewrite H.
    + by rewrite H, H0.
    + by destruct (take_token l j).
    + by rewrite H.
    + by rewrite H.
    + by destruct todo.
    + by rewrite H.
    + by rewrite H.
    + by rewrite H.
    + by rewrite H.
Qed.

Lemma phase_after (phs : list phase) i ph ph' k q :
  phs !! i = Some ph -> <[i := ph']> phs !! k = Some q <-> (k = i /\ q = ph') \/ (k <> i /\ phs !! k = Some q).
Proof.
  intros Hi. pose proof (lookup_lt_Some _ _ _ Hi) as Hlt. destruct (decide (k = i)) as [->|Hne].
  - rewrite list_lookup_insert_eq by done. split; [intros [= <-]; by left|]. by intros [[_ ->]|[? _]].
  - rewrite list_lookup_insert_ne by done. split; [by right|]. by intros [[? _]|[_ ?]].
Qed.

(** Which order a step extends. *)
Lemma stepped_at P i ph ph' s s' :
  sy_phases s !! i = Some ph -> sy_phases s' = <[i := ph']> (sy_phases s) -> stepped P i s s' = if P ph ph' then [i] else [].
Proof.
  intros Hp Hs. unfold stepped. rewrite Hs, Hp, list_lookup_insert_eq by (by eapply lookup_lt_Some). done.
Qed.

(** ** Locks

A lock is held by the handler that is inside, and by no other. *)
Definition holds_audit (ph : phase) : bool := match ph with PWriting _ _ | PReportHeld _ _ => true | _ => false end.
Definition holds_limiter (ph : phase) : bool := match ph with PDecide _ _ => true | _ => false end.

Record locked (s : system) : Prop := {
  lk_length : length (sy_phases s) = length jobs;
  lk_limiter : forall nm k, sy_limiter_mu s !! nm = Some k <->
    exists j ph, jobs !! k = Some j /\ sy_phases s !! k = Some ph /\ holds_limiter ph = true /\ jb_route j = nm;
  lk_audit : forall k, sy_audit_mu s = Some k <-> exists ph, sy_phases s !! k = Some ph /\ holds_audit ph = true
}.

Lemma locked_start g : locked (start jobs g).
Proof.
  constructor; cbn.
  - apply length_map.
  - intros nm k. rewrite lookup_empty. split; [done|]. intros (j & ph & _ & Hp & Hh & _).
    apply list_lookup_fmap_Some in Hp as (? & -> & _). done.
  - intros k. split; [done|]. intros (ph & Hp & Hh). apply list_lookup_fmap_Some in Hp as (? & -> & _). done.
Qed.

(** The locks a move takes and gives back are the ones its phases say. *)
Lemma moves_limiter n i j g lm am ph g' lm' am' ph' :
  moves n i j g lm am ph g' lm' am' ph' ->
  (holds_limiter ph = holds_limiter ph' /\ lm' = lm) \/
  (holds_limiter ph = false /\ holds_limiter ph' = true /\ lm !! jb_route j = None /\ lm' = <[jb_route j := i]> lm) \/
  (holds_limiter ph = true /\ holds_limiter ph' = false /\ lm' = delete (jb_route j) lm).
Proof. destruct 1; try (left; done); [by right; left|by right; right]. Qed.

Lemma moves_audit n i j g lm am ph g' lm' am' ph' :
  moves n i j g lm am ph g' lm' am' ph' ->
  (holds_audit ph = holds_audit ph' /\ am' = am) \/
  (holds_audit ph = false /\ holds_audit ph' = true /\ am = None /\ am' = Some i) \/
  (holds_audit ph = true /\ holds_audit ph' = false /\ am' = None).
Proof. destruct 1; first [left; done|right; left; done|right; right; done]. Qed.

Lemma locked_step s s' : locked s -> step jobs s s' -> locked s'.
Proof.
  intros [Hlen Hlim Haud] (n & i & Hs). apply advance_moves in Hs as (j & ph & g' & lm' & am' & ph' & Hj & Hph & Hm & ->).
  destruct s as [g lm am phs]. cbn [sy_gateway sy_limiter_mu sy_audit_mu sy_phases] in *.
  pose proof (fun k q => phase_after phs i ph ph' k q Hph) as Hat.
  constructor; cbn [sy_limiter_mu sy_audit_mu sy_phases].
  - by rewrite length_insert.
  - intros nm k. setoid_rewrite Hat. destruct (moves_limiter _ _ _ _ _ _ _ _ _ _ _ Hm) as [[E0 ->]|[(E1 & E2 & E3 & ->)|(E1 & E2 & ->)]].
    + rewrite Hlim. split; intros (j1 & q & H1 & H2 & H3 & H4).
      * destruct (decide (k = i)) as [->|Hne]; [|by eauto 10]. simplify_eq. eexists _, ph'. rewrite <- E0. split_and!; [done|by left|done|done].
      * destruct H2 as [[-> ->]|[Hne H2]]; [|by eauto 10]. simplify_eq. eexists _, ph. rewrite E0. by split_and!.
    + destruct (decide (nm = jb_route j)) as [->|Hnm].
      * rewrite lookup_insert_eq. split.
        { intros [= <-]. exists j, ph'. eauto 10. }
        intros (j1 & q & H1 & [[-> ->]|[Hne H2]] & H3 & H4); [done|].
        exfalso. apply (eq_None_not_Some (lm !! jb_route j)); [done|]. exists k. apply Hlim. eauto 10.
      * rewrite lookup_insert_ne by done. rewrite Hlim. split; intros (j1 & q & H1 & H2 & H3 & H4).
        { exists j1, q. split_and!; try done. right. split; [intros ->|done]. simplify_eq. }
        destruct H2 as [[-> ->]|[Hne H2]]; [simplify_eq|]. eauto 10.
    + assert (Hhold : lm !! jb_route j = Some i) by (apply Hlim; eauto 10). destruct (decide (nm = jb_route j)) as [->|Hnm].
      * rewrite lookup_delete_eq. split; [done|]. intros (j1 & q & H1 & [[-> ->]|[Hne H2]] & H3 & H4); [congruence|].
        exfalso. apply Hne. assert (Hk : lm !! jb_route j = Some k) by (apply Hlim; eauto 10). congruence.
      * rewrite lookup_delete_ne by done. rewrite Hlim. split; intros (j1 & q & H1 & H2 & H3 & H4).
        { exists j1, q. split_and!; try done. right. split; [intros ->|done]. simplify_eq. }
        destruct H2 as [[-> ->]|[Hne H2]]; [simplify_eq; congruence|]. eauto 10.
  - intros k. setoid_rewrite Hat. destruct (moves_audit _ _ _ _ _ _ _ _ _ _ _ Hm) as [[E0 ->]|[(E1 & E2 & -> & ->)|(E1 & E2 & ->)]].
    + rewrite Haud. split; intros (q & H1 & H2).
      * destruct (decide (k = i)) as [->|Hne]; [|by eauto 10]. simplify_eq. exists ph'. rewrite <- E0. eauto 10.
      * destruct H1 as [[-> ->]|[Hne H1]]; [|by eauto 10]. exists ph. rewrite E0. eauto 10.
    + split; [intros [= <-]; eauto|]. intros (q & [[-> ->]|[Hne H1]] & H2); [done|].
      assert (H : None = Some k) by (apply Haud; eauto). done.
    + split; [done|]. assert (Hi : am = Some i) by (apply Haud; eauto).
      intros (q & [[-> ->]|[Hne H1]] & H2); [congruence|]. assert (H : am = Some k) by (apply Haud; eauto). congruence.
Qed.

(** ** The order of the limiters

[state_after] is the gateway after some handlers in a row; a handler joins
the order when it gets past its limiter, or has no limiter to get past. *)
Definition state_after (g : Gateway) (order : list nat) : Gateway :=
  fold_left (fun g i => match jobs !! i with Some j => fst (handle g j) | None => g end) order g.

(** A handler that has joined works on what it would have found in its turn. *)
Definition agrees (g : Gateway) (j : job) (ph : phase) : Prop :=
  match ph with
  | PArrived | PRouted _ | PDecide _ _ => False
  | PPassed p v => answer g p j v = snd (handle g j)
  | PAnswered an | PWriting an _ | PReport an _ | PReportHeld an _ | PPrint an _ | PDone an => an = snd (handle g j)
  end.

(** A handler that has not knows what the gateway holds. *)
Definition waits (g : Gateway) (j : job) (ph : phase) : Prop :=
  match ph with
  | PRouted p => dispatch g j = DRouted p
  | PDecide p l => dispatch g j = DRouted p /\ read_limiter g (jb_route j) = Some l
  | _ => True
  end.

Record serial (g0 : Gateway) (s : system) (order : list nat) : Prop := {
  sr_nodup : NoDup order;
  sr_in : forall i, i ∈ order <-> exists ph, sy_phases s !! i = Some ph /\ joined ph = true;
  sr_state : set_auditor (auditor g0) (sy_gateway s) = state_after g0 order;
  sr_agrees : forall pre i post j ph, order = pre ++ i :: post -> jobs !! i = Some j -> sy_phases s !! i = Some ph ->
    agrees (state_after g0 pre) j ph;
  sr_waits : forall i j ph, jobs !! i = Some j -> sy_phases s !! i = Some ph -> waits (sy_gateway s) j ph
}.

Lemma state_after_rules g order : state_after g order ≡ g.
Proof.
  unfold state_after. revert g. induction order as [|i order IH]; intros g; [done|]. cbn [fold_left]. rewrite IH.
  destruct (jobs !! i); [apply handle_rules|done].
Qed.

Lemma state_after_app g l1 l2 : state_after g (l1 ++ l2) = state_after (state_after g l1) l2.
Proof. apply fold_left_app. Qed.

Lemma serial_start g : serial g (start jobs g) [].
Proof.
  assert (H : forall i ph, sy_phases (start jobs g) !! i = Some ph -> ph = PArrived).
  { intros i ph Hp. cbn in Hp. by apply list_lookup_fmap_Some in Hp as (? & -> & _). }
  constructor.
  - constructor.
  - intros i. split; [by intros ?%elem_of_nil|]. by intros (ph & ->%H & Hj).
  - by destruct g.
  - by intros [].
  - by intros i j ph _ ->%H.
Qed.

Lemma agrees_auditor a g j ph : agrees (set_auditor a g) j ph <-> agrees g j ph.
Proof.
  destruct ph; cbn [agrees]; by rewrite ?handle_auditor.
Qed.

Lemma moves_serial n i j g lm am ph g' lm' am' ph' :
  moves n i j g lm am ph g' lm' am' ph' ->
  (joined ph = true /\ joined ph' = true /\ (exists a, g' = set_auditor a g) /\
    (forall G, G ≡ g -> agrees G j ph -> agrees G j ph')) \/
  (joined ph = false /\ joined ph' = false /\ g' = g /\ (waits g j ph -> waits g j ph')) \/
  (joined ph = false /\ joined ph' = true /\ (waits g j ph -> g' = fst (handle g j) /\ agrees g j ph') /\
    (g' = g \/ holds_limiter ph = true /\ exists l, g' = store_limiter (jb_route j) l g)).
Proof.
  assert (Hself : exists a, g = set_auditor a g) by (exists (auditor g); by destruct g).
  destruct 1; try (left; split_and!; [done|done|first [exact Hself|by eexists]|by intros G _ Hag]).
  - right; right. split_and!; [done|done| |by left]. intros _. cbn. unfold handle. by rewrite H.
  - by right; left.
  - right; right. split_and!; [done|done| |by left]. cbn. intros Hw. unfold handle. by rewrite Hw, H.
  - right; left. by split_and!.
  - right; right. split_and!; [done|done| |right; split; [done|by eexists]]. cbn. intros [Hw1 Hw2]. unfold handle.
    rewrite Hw1, Hw2. destruct (take_token l j) as [l' v]. cbn [fst snd]. split; [done|].
    by rewrite rules_store.
  - left. split_and!; [done|done|exact Hself|]. cbn. intros G HG <-. by rewrite HG.
Qed.

Lemma waits_auditor a g j ph : waits g j ph -> waits (set_auditor a g) j ph.
Proof. destruct ph; cbn; by rewrite ?rules_auditor. Qed.

Lemma read_store_ne name l g nm : nm <> name -> read_limiter (store_limiter name l g) nm = read_limiter g nm.
Proof. intros H. unfold read_limiter. destruct l; cbn; by rewrite lookup_insert_ne. Qed.

Lemma waits_store name l g j ph : (holds_limiter ph = true -> jb_route j <> name) -> waits g j ph -> waits (store_limiter name l g) j ph.
Proof.
  intros Hne. destruct ph; cbn; rewrite ?(read_store_ne name l g) by (by apply Hne); by rewrite ?rules_store.
Qed.

Lemma locked_apart s i k j1 j2 p1 p2 : locked s -> i <> k -> jobs !! i = Some j1 -> jobs !! k = Some j2 ->
  sy_phases s !! i = Some p1 -> sy_phases s !! k = Some p2 -> holds_limiter p1 = true -> holds_limiter p2 = true ->
  jb_route j2 <> jb_route j1.
Proof.
  intros Hl Hne H1 H2 H3 H4 H5 H6 Heq.
  assert (E1 : sy_limiter_mu s !! jb_route j1 = Some i) by (apply (lk_limiter _ Hl); eauto 10).
  assert (E2 : sy_limiter_mu s !! jb_route j2 = Some k) by (apply (lk_limiter _ Hl); eauto 10). congruence.
Qed.

Lemma serial_step g0 n i s s' order : locked s -> serial g0 s order -> advance jobs n i s = Some s' ->
  serial g0 s' (order ++ stepped joins i s s').
Proof.
  intros Hlk [Hnd Hin Hst Hag Hw] Hs. apply advance_moves in Hs as (j & ph & g' & lm' & am' & ph' & Hj & Hph & Hm & ->).
  rewrite (stepped_at joins i ph ph' s) by done. unfold joins.
  pose proof (fun k q => phase_after (sy_phases s) i ph ph' k q Hph) as Hat.
  pose proof (Hw i j ph Hj Hph) as Hwi. set (g := sy_gateway s) in *.
  assert (Hrg : forall pre, state_after g0 pre ≡ g).
  { intros pre. rewrite state_after_rules, <- (state_after_rules g0 order), <- Hst. done. }
  assert (Hothers : forall order' : list nat, (forall k, k <> i -> k ∈ order' <-> k ∈ order) -> (i ∈ order' <-> joined ph' = true) ->
    forall k, k ∈ order' <-> exists q, <[i := ph']> (sy_phases s) !! k = Some q /\ joined q = true).
  { intros order' Ho Hi k. setoid_rewrite Hat. destruct (decide (k = i)) as [->|Hne].
    - rewrite Hi. split; [intros Hjn; exists ph'; by split; [left|]|]. by intros (q & [[_ ->]|[? _]] & Hq).
    - rewrite Ho, Hin by done. split; intros (q & Hq & Hjq); exists q; (split; [|done]); [by right|]. by destruct Hq as [[? _]|[_ ?]]. }
  destruct (moves_serial _ _ _ _ _ _ _ _ _ _ _ Hm) as [(J1 & J2 & [a ->] & Hagree)|[(J1 & J2 & -> & Hwait)|(J1 & J2 & Hjoin & Hhow)]].
  - rewrite J1. cbn [negb andb]. rewrite app_nil_r. constructor; cbn [sy_gateway sy_phases]; try done.
    + apply Hothers; [done|]. rewrite Hin. split; [done|eauto].
    + intros pre k post j' q Ho Hjk [[-> ->]|[Hne Hq]]%Hat; [|by eapply Hag]. simplify_eq. apply Hagree; [apply Hrg|]. by eapply Hag.
    + intros k j' q Hjk [[-> ->]|[Hne Hq]]%Hat; [by destruct ph'|]. apply waits_auditor. by eapply Hw.
  - rewrite J1, J2. cbn [negb andb]. rewrite app_nil_r. constructor; cbn [sy_gateway sy_phases]; try done.
    + apply Hothers; [done|]. rewrite Hin. split; [intros (q & Hq & Hjq); simplify_eq; congruence|congruence].
    + intros pre k post j' q Ho Hjk [[-> ->]|[Hne Hq]]%Hat; [|by eapply Hag]. exfalso.
      assert (Hi : i ∈ order) by (rewrite Ho; set_solver). apply Hin in Hi as (q & Hq & Hjq). simplify_eq. congruence.
    + intros k j' q Hjk [[-> ->]|[Hne Hq]]%Hat; [simplify_eq; by apply Hwait|by eapply Hw].
  - destruct (Hjoin Hwi) as [Hg' Ha]. assert (Hni : i ∉ order).
    { intros (q & Hq & Hjq)%Hin. simplify_eq. congruence. }
    rewrite J1, J2. cbn [negb andb]. constructor; cbn [sy_gateway sy_phases].
    + apply NoDup_app. split_and!; [done|set_solver|apply NoDup_singleton].
    + apply Hothers; [set_solver|]. split; [done|set_solver].
    + rewrite state_after_app, <- Hst, Hg'. cbn. by rewrite Hj, handle_auditor.
    + intros pre k post j' q Ho Hjk Hq. destruct (decide (k = i)) as [->|Hne].
      * simplify_eq. apply Hat in Hq as [[_ ->]|[? _]]; [|done].
        assert (Hpre : pre = order).
        { destruct post as [|x post] using rev_ind; [by apply app_inj_tail in Ho as [-> _]|].
          rewrite app_comm_cons, app_assoc in Ho. apply app_inj_tail in Ho as [-> _]. set_solver. }
        rewrite Hpre, <- Hst. by apply agrees_auditor.
      * apply Hat in Hq as [[? _]|[_ Hq]]; [done|].
        destruct post as [|x post] using rev_ind; [apply app_inj_tail in Ho as [_ ->]; done|].
        rewrite app_comm_cons, app_assoc in Ho. apply app_inj_tail in Ho as [-> _]. by eapply Hag.
    + intros k j' q Hjk [[-> ->]|[Hne Hq]]%Hat; [by destruct ph'|].
      destruct Hhow as [->|[Hh [l ->]]]; [by eapply Hw|]. apply waits_store; [|by eapply Hw]. intros Hhq.
      by apply (locked_apart s i k j j' ph q).
Qed.

(** ** The order of the lines

[ws] are the entries whose write is over, in the order of the writes, and
[part] is what has been written of the line that is being written. *)
Definition wrote (ph : phase) : option Entry :=
  match ph with PReport an _ | PReportHeld an _ | PPrint an _ | PDone an => an_entry an | _ => None end.

Definition line_taken (w : nat * Entry) : bytes :=
  match jobs !! fst w with
  | Some j => take (fst (sink_takes (jb_moment j) (snd w))) (marshal_entry_line (snd w))
  | None => []
  end.

Definition in_flight (s : system) (part : bytes) : Prop :=
  match sy_audit_mu s with
  | Some i =>
      match jobs !! i, sy_phases s !! i with
      | Some j, Some (PWriting an todo) => part ++ todo = fst (took j an)
      | _, _ => part = []
      end
  | None => part = []
  end.

Record trail (a0 : Auditor) (s : system) (ws : list (nat * Entry)) (part : bytes) : Prop := {
  tr_nodup : NoDup (map fst ws);
  tr_in : forall i e, (i, e) ∈ ws <-> exists ph, sy_phases s !! i = Some ph /\ wrote ph = Some e;
  tr_sink : sink (auditor (sy_gateway s)) = sink a0 ++ concat (map line_taken ws) ++ part;
  tr_part : in_flight s part
}.

Lemma trail_start g : trail (auditor g) (start jobs g) [] [].
Proof.
  constructor; cbn.
  - constructor.
  - intros i e. split; [by intros ?%elem_of_nil|]. intros (ph & Hp & Hw). by apply list_lookup_fmap_Some in Hp as (? & -> & _).
  - by rewrite app_nil_r.
  - done.
Qed.

(** What a move does to the sink. *)
Lemma moves_sink n i j g lm am ph g' lm' am' ph' :
  moves n i j g lm am ph g' lm' am' ph' ->
  (wrote ph' = wrote ph /\ sink (auditor g') = sink (auditor g) /\ holds_audit ph = false /\ holds_audit ph' = false) \/
  (am = None /\ am' = Some i /\ wrote ph' = wrote ph /\ g' = g /\
    ((exists an, ph' = PWriting an (fst (took j an))) \/ exists an e, ph' = PReportHeld an e)) \/
  (exists an todo, ph = PWriting an todo /\ ph' = PWriting an (drop (S n) todo) /\ am' = am /\
    sink (auditor g') = sink (auditor g) ++ take (S n) todo) \/
  (exists an, ph = PWriting an [] /\ am' = None /\ g' = g /\ wrote ph' = an_entry an) \/
  (exists an e, ph = PReportHeld an e /\ am' = None /\ sink (auditor g') = sink (auditor g) /\ wrote ph' = an_entry an).
Proof.
  destruct 1; try (left; split_and!; try done; by destruct l).
  - left. split_and!; try done. by destruct (fst (take_token l j)).
  - right; left. split_and!; try done. left. by eexists.
  - right; right; left. by do 2 eexists.
  - right; right; right; left. by eexists.
  - right; right; right; left. by eexists.
  - right; left. split_and!; try done. right. by do 2 eexists.
  - right; right; right; right. by do 2 eexists.
  - right; right; right; right. by do 2 eexists.
Qed.

(** The entries written stay the same while no write comes to its end. *)
Lemma wrote_same (phs : list phase) i ph ph' (ws : list (nat * Entry)) : phs !! i = Some ph -> wrote ph' = wrote ph ->
  (forall k e, (k, e) ∈ ws <-> exists q, phs !! k = Some q /\ wrote q = Some e) ->
  forall k e, (k, e) ∈ ws <-> exists q, <[i := ph']> phs !! k = Some q /\ wrote q = Some e.
Proof.
  intros Hph Hw Hin k e. rewrite Hin. setoid_rewrite (phase_after phs i ph ph' k _ Hph). split.
  - intros (q & Hq & He). destruct (decide (k = i)) as [->|Hne]; [simplify_eq; exists ph'; rewrite Hw; auto|by exists q; auto].
  - intros (q & [[-> ->]|[Hne Hq]] & He); [exists ph; by rewrite <- Hw|by exists q].
Qed.

Lemma trail_step a0 n i s s' ws part : locked s -> trail a0 s ws part -> advance jobs n i s = Some s' ->
  exists ws' part', trail a0 s' ws' part' /\ map fst ws' = map fst ws ++ stepped writes i s s'.
Proof.
  intros Hlk [Hnd Hin Hsk Hpt] Hs. apply advance_moves in Hs as (j & ph & g' & lm' & am' & ph' & Hj & Hph & Hm & ->).
  pose proof (moves_audit _ _ _ _ _ _ _ _ _ _ _ Hm) as Ham.
  assert (Hholder : forall q, sy_phases s !! i = Some q -> holds_audit q = true -> sy_audit_mu s = Some i)
    by (intros q Hq Hh; apply (lk_audit _ Hlk); eauto).
  assert (Hi : forall q, <[i := q]> (sy_phases s) !! i = Some q) by (intros q; by eapply list_lookup_insert_eq, lookup_lt_Some).
  unfold in_flight in Hpt. rewrite (stepped_at writes i ph ph' s) by done.
  destruct (moves_sink _ _ _ _ _ _ _ _ _ _ _ Hm) as [(Hw & Hk & H1 & H2)|[(Ha & -> & Hw & -> & Hk)|[(an & todo & -> & -> & -> & Hk)|
    [(an & -> & -> & -> & Hw)|(an & e & -> & -> & Hk & Hw)]]]].
  - exists ws, part. assert (Hwr : writes ph ph' = false) by by destruct ph.
    rewrite Hwr, app_nil_r. split; [|done]. constructor; cbn [sy_gateway sy_phases sy_audit_mu]; [done|by eapply wrote_same|by rewrite Hk|].
    assert (Ha : am' = sy_audit_mu s) by (destruct Ham as [[_ ?]|[(_ & ? & _)|(? & _)]]; congruence).
    unfold in_flight. cbn [sy_audit_mu sy_phases]. rewrite Ha. destruct (sy_audit_mu s) as [k|] eqn:Hmu; [|done].
    rewrite list_lookup_insert_ne; [done|]. intros <-. apply (lk_audit _ Hlk) in Hmu as (q & Hq & Hh). simplify_eq. congruence.
  - rewrite Ha in Hpt. subst part. exists ws, []. assert (Hwr : writes ph ph' = false).
    { destruct ph; try done. exfalso. by rewrite (Hholder _ Hph eq_refl) in Ha. }
        rewrite Hwr, app_nil_r. split; [|done]. constructor; cbn [sy_gateway sy_phases]; [done|by eapply wrote_same|done|].
    unfold in_flight. cbn [sy_audit_mu sy_phases]. rewrite Hj, Hi. by destruct Hk as [[an ->]|(an & e & ->)].
  - rewrite (Hholder _ Hph eq_refl), Hj, Hph in Hpt. exists ws, (part ++ take (S n) todo).
    assert (Hwr : writes (PWriting an todo) (PWriting an (drop (S n) todo)) = false) by (destruct todo; [by inversion Hm|done]).
    rewrite Hwr, app_nil_r. split; [|done].
    constructor; cbn [sy_gateway sy_phases]; [done|by eapply wrote_same|by rewrite Hk, Hsk, <- !app_assoc|].
    unfold in_flight. cbn [sy_audit_mu sy_phases]. rewrite (Hholder _ Hph eq_refl), Hj, Hi. by rewrite <- app_assoc, take_drop.
  - rewrite (Hholder _ Hph eq_refl), Hj, Hph in Hpt. rewrite app_nil_r in Hpt. cbn [writes]. destruct (an_entry an) as [e|] eqn:He.
    + exists (ws ++ [(i, e)]), []. split; [|by rewrite map_app, bool_decide_eq_true_2]. constructor; cbn [sy_gateway sy_phases].
      * rewrite map_app. apply NoDup_app. split_and!; [done| |apply NoDup_singleton]. intros k Hk ->%list_elem_of_singleton.
        apply list_elem_of_In, in_map_iff in Hk as ([k e'] & [= ->] & Hk%list_elem_of_In). cbn in *.
        apply Hin in Hk as (q & Hq & Hwq). by simplify_eq.
      * intros k e'. rewrite elem_of_app, list_elem_of_singleton, Hin. setoid_rewrite (phase_after _ _ _ _ k _ Hph). split.
        { intros [(q & Hq & Hwq)|[= -> ->]]; [|exists ph'; split; [by left|by rewrite Hw]].
          exists q. split; [|done]. right. split; [|done]. intros ->. by simplify_eq. }
        intros (q & [[-> ->]|[Hne Hq]] & Hwq); [right; congruence|left; eauto].
      * rewrite map_app, concat_app, Hsk, Hpt, app_nil_r. cbn. rewrite app_nil_r. unfold line_taken, took. cbn. rewrite Hj, He.
        by destruct (sink_takes _ _).
      * done.
    + exists ws, []. rewrite bool_decide_eq_false_2, app_nil_r by (by intros []). split; [|done]. assert (Hz : part = []) by (rewrite Hpt; unfold took; by rewrite He).
      constructor; cbn [sy_gateway sy_phases]; [done|by eapply wrote_same|by rewrite Hsk, Hz|done].
  - rewrite (Hholder _ Hph eq_refl), Hj, Hph in Hpt. subst part. exists ws, []. cbn [writes]. rewrite app_nil_r. split; [|done].
    constructor; cbn [sy_gateway sy_phases]; [done|by eapply wrote_same|by rewrite Hk|done].
Qed.

(** ** Reports

The first handler to mark the failure prints, and no other does. *)
Definition printing (ph : phase) : bool := match ph with PPrint _ _ => true | _ => false end.

Definition knows_error (j : job) (ph : phase) : Prop :=
  match ph with PReport an e | PReportHeld an e | PPrint an e => snd (took j an) = Some e | _ => True end.

(** Handlers that are done, or printing, and what their writes ended with. *)
Definition is_over (ph : phase) : option answered := match ph with PPrint an _ | PDone an => Some an | _ => None end.

Definition quiet_phases (s : system) : Prop := forall k ph, sy_phases s !! k = Some ph -> printing ph = false.

(** A handler that has marked its failure. *)
Definition marked (s : system) (k : nat) : Prop :=
  exists j ph an e, jobs !! k = Some j /\ sy_phases s !! k = Some ph /\ is_over ph = Some an /\ snd (took j an) = Some e.

(** The one handler that reports. *)
Definition reporter (a0 : Auditor) (s : system) (k : nat) : Prop :=
  exists j ph an e, jobs !! k = Some j /\ sy_phases s !! k = Some ph /\ is_over ph = Some an /\ snd (took j an) = Some e /\
    (forall k' q, k' <> k -> sy_phases s !! k' = Some q -> printing q = false) /\
    reports (auditor (sy_gateway s)) = reports a0 ++ (if printing ph then [] else [report_line e]).

(** [ms] are the handlers that have marked their failure, in the order in
which they did. *)
Definition reported (a0 : Auditor) (s : system) (ms : list nat) : Prop :=
  match ms with
  | k :: _ =>
      if failed a0 then reports (auditor (sy_gateway s)) = reports a0 /\ quiet_phases s else reporter a0 s k
  | [] => reports (auditor (sy_gateway s)) = reports a0 /\ quiet_phases s
  end.

Record reporting (a0 : Auditor) (s : system) (ms : list nat) : Prop := {
  rp_knows : forall k j ph, jobs !! k = Some j -> sy_phases s !! k = Some ph -> knows_error j ph;
  rp_nodup : NoDup ms;
  rp_marked : forall k, k ∈ ms <-> marked s k;
  rp_failed : failed (auditor (sy_gateway s)) = failed a0 || bool_decide (ms <> []);
  rp_reported : reported a0 s ms
}.

Lemma reporting_start g : reporting (auditor g) (start jobs g) [].
Proof.
  assert (H : forall i ph, sy_phases (start jobs g) !! i = Some ph -> ph = PArrived).
  { intros i ph Hp. cbn in Hp. by apply list_lookup_fmap_Some in Hp as (? & -> & _). }
  constructor.
  - by intros k j ph _ ->%H.
  - constructor.
  - intros k. split; [by intros ?%elem_of_nil|]. by intros (j & ph & an & e & _ & ->%H & Ho & _).
  - by rewrite bool_decide_eq_false_2, orb_false_r by (by intros []).
  - split; [done|]. by intros k ph ->%H.
Qed.

Lemma moves_knows n i j g lm am ph g' lm' am' ph' :
  moves n i j g lm am ph g' lm' am' ph' -> knows_error j ph -> knows_error j ph'.
Proof. by destruct 1. Qed.

(** What a move does to the flag and the error stream: nothing; or it marks a
failure, and prints if it was the first; or it prints. *)
Lemma moves_reports n i j g lm am ph g' lm' am' ph' :
  moves n i j g lm am ph g' lm' am' ph' -> knows_error j ph ->
  (marks ph ph' = false /\ failed (auditor g') = failed (auditor g) /\ reports (auditor g') = reports (auditor g) /\
    is_over ph = None /\ printing ph' = false /\ (forall an, is_over ph' = Some an -> snd (took j an) = None)) \/
  (exists an e, ph = PReportHeld an e /\ is_over ph' = Some an /\ snd (took j an) = Some e /\ 
    printing ph' = negb (failed (auditor g)) /\
    failed (auditor g') = true /\ reports (auditor g') = reports (auditor g)) \/
  (exists an e, ph = PPrint an e /\ ph' = PDone an /\ failed (auditor g') = failed (auditor g) /\
    reports (auditor g') = reports (auditor g) ++ [report_line e]).
Proof.
  assert (Hst : forall nm l, failed (auditor (store_limiter nm l g)) = failed (auditor g) /\
    reports (auditor (store_limiter nm l g)) = reports (auditor g)) by by intros nm [].
  destruct 1; intros Hk; try (left; split_and!; try done; by apply Hst).
  - left. split_and!; try done. intros an' [= <-]. unfold took. by rewrite H.
  - left. split_and!; try done. by intros an' [= <-].
  - right; left. do 2 eexists. split_and!; try done. by rewrite H.
  - right; left. do 2 eexists. split_and!; try done. by rewrite H.
  - right; right. by do 2 eexists.
Qed.

(** Who has marked a failure after a move. *)
Lemma marked_after s i j ph g' lm' am' ph' : jobs !! i = Some j -> sy_phases s !! i = Some ph ->
  let s' := MkSystem g' lm' am' (<[i := ph']> (sy_phases s)) in
  (forall k, k <> i -> marked s' k <-> marked s k) /\
  (marked s' i <-> exists an e, is_over ph' = Some an /\ snd (took j an) = Some e).
Proof.
  intros Hj Hph s'. pose proof (fun k q => phase_after (sy_phases s) i ph ph' k q Hph) as Hat.
  unfold marked, s'. cbn [sy_phases]. setoid_rewrite Hat. split.
  - intros k Hk. split; intros (j1 & q & an & e & H1 & H2 & H3); exists j1, q, an, e; [|by auto].
    by destruct H2 as [[? _]|[_ ?]].
  - split; [intros (j1 & q & an & e & H1 & [[_ ->]|[? _]] & H3 & H4)|intros (an & e & H1 & H2)]; simplify_eq; eauto 10.
Qed.

Lemma reporting_step a0 n i s s' ms : reporting a0 s ms -> advance jobs n i s = Some s' ->
  reporting a0 s' (ms ++ stepped marks i s s').
Proof.
  intros [Hkn Hnd Hmk Hfl Hrp] Hs. apply advance_moves in Hs as (j & ph & g' & lm' & am' & ph' & Hj & Hph & Hm & ->).
  rewrite (stepped_at marks i ph ph' s) by done.
  pose proof (fun k q => phase_after (sy_phases s) i ph ph' k q Hph) as Hat.
  destruct (marked_after s i j ph g' lm' am' ph' Hj Hph) as [Ha1 Ha2].
  set (s' := MkSystem g' lm' am' (<[i := ph']> (sy_phases s))) in *.
  assert (Hkn' : forall k j ph, jobs !! k = Some j -> sy_phases s' !! k = Some ph -> knows_error j ph).
  { intros k j' q Hjk [[-> ->]|[_ Hq]]%Hat; [simplify_eq|by eapply Hkn]. by eapply moves_knows; [|eapply Hkn]. }
  assert (Hquiet : printing ph' = false -> quiet_phases s -> quiet_phases s').
  { intros H1 H2 k q [[-> ->]|[_ Hq]]%Hat; [done|by eapply H2]. }
  destruct (moves_reports _ _ _ _ _ _ _ _ _ _ _ Hm (Hkn _ _ _ Hj Hph)) as
    [(-> & Hf & Hr & Ho & Hp & He)|[(an & e & -> & Ho & He & Hp & Hf & Hr)|(an & e & -> & -> & Hf & Hr)]].
  - rewrite app_nil_r. assert (Hni : i ∉ ms).
    { intros (j1 & q & an & e & H1 & H2 & H3 & _)%Hmk. simplify_eq. }
    constructor; [done|done| |by rewrite <- Hfl|].
    + intros k. destruct (decide (k = i)) as [->|Hk]; [|by rewrite Ha1 by done]. rewrite Ha2. split; [done|].
      intros (an & e & H1 & H2). rewrite (He an H1) in H2. done.
    + unfold reported in *. cbn [s' sy_gateway]. rewrite Hr. destruct ms as [|k ms]; [destruct Hrp; by auto|].
      destruct (failed a0); [destruct Hrp; by auto|]. destruct Hrp as (j1 & q & an & e & H1 & H2 & H3 & H4 & H5 & H6).
      exists j1, q, an, e. cbn [s' sy_gateway]. split_and!; try done; [apply Hat; right; split; [set_solver|done]| |by rewrite Hr].
      intros k' q' Hk' [[-> ->]|[_ Hq]]%Hat; [done|by eapply H5].
  - cbn [marks]. assert (Hni : i ∉ ms).
    { intros (j1 & q & an' & e' & H1 & H2 & H3 & _)%Hmk. by simplify_eq. }
    constructor; [done| | | |].
    + apply NoDup_app. split_and!; [done|set_solver|apply NoDup_singleton].
    + intros k. rewrite elem_of_app, list_elem_of_singleton. destruct (decide (k = i)) as [->|Hk].
      * rewrite Ha2. split; [eauto|by right].
      * rewrite Ha1, Hmk by done. naive_solver.
    + cbn [s' sy_gateway]. rewrite Hf, bool_decide_eq_true_2, orb_true_r; [done|]. by destruct ms.
    + unfold reported in *. cbn [s' sy_gateway]. rewrite Hr. rewrite Hfl in Hp. destruct ms as [|k ms]; cbn [app].
      * rewrite bool_decide_eq_false_2, orb_false_r in Hp by (by intros []). destruct Hrp as [H1 H2].
        destruct (failed a0); [by auto|]. exists j, ph', an, e. cbn [s' sy_gateway]. rewrite Hr, H1, Hp, app_nil_r.
        split_and!; try done; [apply Hat; by left|]. intros k q Hk [[? _]|[_ Hq]]%Hat; [done|by eapply H2].
      * rewrite bool_decide_eq_true_2, orb_true_r in Hp by done. destruct (failed a0); [destruct Hrp; by auto|].
        destruct Hrp as (j1 & q & an' & e' & H1 & H2 & H3 & H4 & H5 & H6). exists j1, q, an', e'. cbn [s' sy_gateway].
        split_and!; try done; [apply Hat; right; split; [set_solver|done]| |by rewrite Hr].
        intros k' q' Hk' [[-> ->]|[_ Hq]]%Hat; [done|by eapply H5].
  - cbn [marks]. rewrite app_nil_r. pose proof (Hkn _ _ _ Hj Hph) as Hke. cbn in Hke.
    constructor; [done|done| |by rewrite <- Hfl|].
    + intros k. destruct (decide (k = i)) as [->|Hk]; [|by rewrite Ha1 by done]. rewrite Ha2, Hmk. split; intros _; [by eauto|].
      by exists j, (PPrint an e), an, e.
    + unfold reported in *. destruct ms as [|k ms]; [destruct Hrp as [_ Hq]; by specialize (Hq i _ Hph)|].
      destruct (failed a0); [destruct Hrp as [_ Hq]; by specialize (Hq i _ Hph)|].
      destruct Hrp as (j1 & q & an1 & e1 & H1 & H2 & H3 & H4 & H5 & H6).
      assert (Hki : k = i) by (destruct (decide (k = i)) as [|Hne]; [done|]; by specialize (H5 i _ (not_eq_sym Hne) Hph)).
      subst k. rewrite Hph in H2. injection H2 as <-. rewrite Hj in H1. injection H1 as <-.
      cbn [is_over] in H3. injection H3 as <-. rewrite Hke in H4. injection H4 as <-. exists j, (PDone an), an, e.
      cbn [s' sy_gateway printing]. rewrite Hr, H6. cbn [printing]. rewrite app_nil_r. split_and!; try done; [apply Hat; by left|].
      intros k q Hk [[? _]|[_ Hq]]%Hat; [done|by eapply H5].
Qed.

End handlers.
