(* ===== verification/Serializable.v ===== *)
(** * Side by side is one after the other

The theorems about concurrent handlers: every run ends with every request
handled, no deadlock on the way; lines of the trail are whole; and a run's
outcome is that of its handlers in a row. *)

From S2P Require Import RateLimit.
From S2P Require Export ConcurrentSafety.
Local Open Scope Z_scope.
Local Open Scope go_scope.

Section handlers.
Context {L : GoLib} {A : Arch}.
Variable jobs : list job.

(** ** Every run ends *)

(** What is left to do for a handler, writes apart, and the bytes it still has
to write. *)
Definition rank (ph : phase) : nat :=
  match ph with
  | PArrived => 9 | PRouted _ => 8 | PDecide _ _ => 7 | PPassed _ _ => 6 | PAnswered _ => 5
  | PWriting _ _ => 4 | PReport _ _ => 3 | PReportHeld _ _ => 2 | PPrint _ _ => 1 | PDone _ => 0
  end.

Definition to_write (ph : phase) : nat := match ph with PWriting _ todo => length todo | _ => 0 end.

Lemma sum_insert {X} (f : X -> nat) l i x y : l !! i = Some x ->
  (sum_list_with f (<[i := y]> l) + f x = sum_list_with f l + f y)%nat.
Proof.
  revert i. induction l as [|z l IH]; intros [|i] H; try done; [cbn in *; injection H as ->; lia|].
  specialize (IH i H). change (<[S i := y]> (z :: l)) with (z :: <[i := y]> l). cbn [sum_list_with]. lia.
Qed.

Lemma moves_rank n i j g lm am ph g' lm' am' ph' : moves n i j g lm am ph g' lm' am' ph' ->
  (rank ph' < rank ph)%nat \/ (rank ph' = rank ph /\ (to_write ph' < to_write ph)%nat).
Proof.
  destruct 1; cbn [rank]; try (left; lia). right. split; [done|]. cbn [to_write].
  rewrite length_drop. destruct todo; [done|]. cbn. lia.
Qed.

Lemma runs_end s : Acc (fun a b => step jobs b a) s.
Proof.
  remember (sum_list_with rank (sy_phases s)) as r eqn:Hr. revert s Hr.
  induction r as [r IHr] using lt_wf_ind. intros s Hr.
  remember (sum_list_with to_write (sy_phases s)) as t eqn:Ht. revert s Hr Ht.
  induction t as [t IHt] using lt_wf_ind. intros s Hr Ht. constructor. intros s' (n & i & Hs).
  apply advance_moves in Hs as (j & ph & g' & lm' & am' & ph' & _ & Hph & Hm & ->).
  pose proof (sum_insert rank _ i ph ph' Hph) as H1. pose proof (sum_insert to_write _ i ph ph' Hph) as H2.
  apply moves_rank in Hm as [Hm|[Hm1 Hm2]].
  - eapply IHr; [|reflexivity]. cbn. lia.
  - eapply IHt; [|cbn; lia|reflexivity]. cbn. lia.
Qed.

(** *** No deadlock *)

Lemma move_step n s i j ph g' lm' am' ph' : jobs !! i = Some j -> sy_phases s !! i = Some ph ->
  moves n i j (sy_gateway s) (sy_limiter_mu s) (sy_audit_mu s) ph g' lm' am' ph' -> exists s', step jobs s s'.
Proof. intros Hj Hp Hm. eexists _, n, i. apply advance_moves. by eauto 10. Qed.

Lemma job_of s i ph : locked jobs s -> sy_phases s !! i = Some ph -> exists j, jobs !! i = Some j.
Proof.
  intros Hl Hp%lookup_lt_Some. rewrite (lk_length _ _ Hl) in Hp. by apply lookup_lt_is_Some in Hp.
Qed.

(** A handler inside a critical section can go on. *)
Lemma holder_moves s i ph : locked jobs s -> sy_phases s !! i = Some ph -> holds_audit ph = true \/ holds_limiter ph = true ->
  exists s', step jobs s s'.
Proof.
  intros Hl Hp Hh. destruct (job_of s i ph Hl Hp) as [j Hj]. destruct ph as [| |p l| | |an todo| |an e| |]; try by destruct Hh.
  - eapply (move_step 0); [done..|]. apply mv_decide.
  - destruct todo as [|b todo].
    + destruct (snd (took j an)) eqn:He; (eapply (move_step 0); [done..|]); by constructor.
    + eapply (move_step 0); [done..|]. by constructor.
  - destruct (failed (auditor (sy_gateway s))) eqn:He; (eapply (move_step 0); [done..|]); by constructor.
Qed.

Lemma audit_free s i ph : locked jobs s -> sy_phases s !! i = Some ph ->
  (sy_audit_mu s = None -> exists s', step jobs s s') -> exists s', step jobs s s'.
Proof.
  intros Hl Hp Hfree. destruct (sy_audit_mu s) as [k|] eqn:Hk; [|by apply Hfree].
  apply (lk_audit _ _ Hl) in Hk as (q & Hq & Hh). apply (holder_moves s k q); auto.
Qed.

Lemma progress s : locked jobs s -> ~ finished s -> exists s', step jobs s s'.
Proof.
  intros Hl Hn. apply not_Forall_Exists in Hn; [|intros x; solve_decision]. apply Exists_exists in Hn as (ph & Hin & Hd).
  apply list_elem_of_lookup in Hin as [i Hp]. destruct (job_of s i ph Hl Hp) as [j Hj].
  destruct ph as [|p|p l|p v|an|an todo|an e|an e|an e|an]; try done;
    try by (eapply holder_moves; [done|exact Hp|auto]).
  - destruct (dispatch (sy_gateway s) j) eqn:Hdis; (eapply (move_step 0); [done..|]); by constructor.
  - destruct (read_limiter (sy_gateway s) (jb_route j)) eqn:Hr; [|eapply (move_step 0); [done..|]; by constructor].
    destruct (sy_limiter_mu s !! jb_route j) as [k|] eqn:Hk; [|eapply (move_step 0); [done..|]; by econstructor].
    apply (lk_limiter _ _ Hl) in Hk as (j' & q & _ & Hq & Hh & _). apply (holder_moves s k q); auto.
  - eapply (move_step 0); [done..|]. constructor.
  - destruct (an_entry an) eqn:He; [|eapply (move_step 0); [done..|]; by constructor].
    apply (audit_free s i _ Hl Hp). intros Hf. eapply (move_step 0); [done..|]. rewrite Hf. by econstructor.
  - apply (audit_free s i _ Hl Hp). intros Hf. eapply (move_step 0); [done..|]. rewrite Hf. by constructor.
  - eapply (move_step 0); [done..|]. constructor.
Qed.

Lemma finished_stuck s s' : finished s -> ~ step jobs s s'.
Proof.
  intros Hf (n & i & Hs). apply advance_moves in Hs as (j & ph & g' & lm' & am' & ph' & _ & Hph & Hm & _).
  unfold finished in Hf. rewrite Forall_lookup in Hf. specialize (Hf i ph Hph). by destruct Hm.
Qed.

(** ** Reachable states

[o], [w] and [m] are the handlers that have got past their limiters, written
their lines and marked a failure, in the orders in which they did. *)

Record reached (g0 : Gateway) (s : system) (o w m : list nat) : Prop := {
  rc_locked : locked jobs s;
  rc_serial : serial jobs g0 s o;
  rc_trail : exists ws part, trail jobs (auditor g0) s ws part /\ map fst ws = w;
  rc_reporting : reporting jobs (auditor g0) s m
}.

Lemma reached_start g0 : reached g0 (start jobs g0) [] [] [].
Proof.
  constructor; [apply locked_start|apply serial_start| |apply reporting_start].
  exists [], []. by split; [apply trail_start|].
Qed.

Lemma reached_step g0 n i s s' o w m : reached g0 s o w m -> advance jobs n i s = Some s' ->
  reached g0 s' (o ++ stepped joins i s s') (w ++ stepped writes i s s') (m ++ stepped marks i s s').
Proof.
  intros [H1 H2 (ws & part & H3 & <-) H4] Hs. constructor.
  - eapply locked_step; [done|by exists n, i].
  - by eapply serial_step.
  - destruct (trail_step _ _ _ _ _ _ _ _ H1 H3 Hs) as (ws' & part' & ? & ?). by exists ws', part'.
  - by eapply reporting_step.
Qed.

Lemma run_schedule_cons n i l s : run_schedule jobs ((n, i) :: l) s = advance jobs n i s ≫= run_schedule jobs l.
Proof.
  unfold run_schedule. cbn [fold_left mbind option_bind fst snd]. destruct (advance jobs n i s) as [s1|]; [done|]. by induction l.
Qed.

Lemma reached_run g0 l s s' o w m : reached g0 s o w m -> run_schedule jobs l s = Some s' ->
  reached g0 s' (o ++ order_of jobs joins l s) (w ++ order_of jobs writes l s) (m ++ order_of jobs marks l s).
Proof.
  revert s o w m. induction l as [|[n i] l IH]; intros s o w m Hr Hs.
  { injection Hs as <-. cbn [order_of]. by rewrite !app_nil_r. }
  rewrite run_schedule_cons in Hs. cbn [order_of]. destruct (advance jobs n i s) as [s1|] eqn:H1; [|done].
  rewrite !app_assoc. eapply IH; [by eapply reached_step|done].
Qed.

Lemma reachable_reached g0 s : rtc (step jobs) (start jobs g0) s -> exists o w m, reached g0 s o w m.
Proof.
  revert s. apply (rtc_ind_r (fun s => exists o w m, reached g0 s o w m)).
  - do 3 eexists. apply reached_start.
  - intros s s' _ (n & i & Hs) (o & w & m & H). do 3 eexists. by eapply reached_step.
Qed.

Lemma reachable_locked g0 s : rtc (step jobs) (start jobs g0) s -> locked jobs s.
Proof. by intros (o & w & m & [])%reachable_reached. Qed.

(** Schedules are all there is. *)
Lemma schedule_steps l s s' : run_schedule jobs l s = Some s' -> rtc (step jobs) s s'.
Proof.
  revert s. induction l as [|[n i] l IH]; intros s; [intros [= ->]; reflexivity|]. rewrite run_schedule_cons.
  destruct (advance jobs n i s) as [s1|] eqn:Hs; [|done]. intros H. eapply rtc_l; [by exists n, i|]. by apply IH.
Qed.

Lemma steps_schedule s s' : rtc (step jobs) s s' -> exists l, run_schedule jobs l s = Some s'.
Proof.
  induction 1 as [s|s s1 s2 (n & i & Hs) _ [l IH]]; [by exists []|]. exists ((n, i) :: l). by rewrite run_schedule_cons, Hs.
Qed.

Lemma can_finish g0 s : rtc (step jobs) (start jobs g0) s -> exists s', rtc (step jobs) s s' /\ finished s'.
Proof.
  intros Hr. induction (runs_end s) as [s _ IH].
  assert (Hdec : Decision (finished s)) by (unfold finished; solve_decision).
  destruct Hdec as [Hf|Hn]; [by exists s|]. destruct (progress s) as [s1 Hs]; [by eapply reachable_locked|done|].
  destruct (IH s1 Hs) as (s2 & H1 & H2); [by eapply rtc_r|]. exists s2. split; [by eapply rtc_l|done].
Qed.

(** C12. Every run ends, and no handler is stuck: from whatever state the
handlers have come to there is no infinite sequence of steps, some sequence
has every handler done, and a state in which no handler can take a step is one
in which all of them are. *)
Theorem handlers_finish g0 s : rtc (step jobs) (start jobs g0) s ->
  Acc (fun a b => step jobs b a) s /\
  (exists s', rtc (step jobs) s s' /\ finished s') /\
  ((forall s', ~ step jobs s s') <-> finished s).
Proof.
  intros Hr. split; [apply runs_end|]. split; [by eapply can_finish|]. split; [|by intros Hf s'; apply finished_stuck].
  intros Hstuck. assert (Hdec : Decision (finished s)) by (unfold finished; solve_decision).
  destruct Hdec as [Hf|Hn]; [done|]. destruct (progress s) as [s1 Hs]; [by eapply reachable_locked|done|].
  by destruct (Hstuck s1).
Qed.

(** ** The trail at any moment *)

(** C13. Lines are never torn: at any moment, whatever the handlers are doing
and however few bytes a write takes at once, the trail is what it was, then
what the sink took of the line of each handler whose write is over, one after
the other, then a beginning of the line of the one handler that is writing,
if one is. *)
Theorem lines_whole g0 s : rtc (step jobs) (start jobs g0) s ->
  exists ws part,
    sink (auditor (sy_gateway s)) = sink (auditor g0) ++ concat (map (line_taken jobs) ws) ++ part /\
    NoDup (map fst ws) /\
    (forall i e, (i, e) ∈ ws <-> exists ph, sy_phases s !! i = Some ph /\ wrote ph = Some e) /\
    (part <> [] -> exists i j an todo, sy_audit_mu s = Some i /\ jobs !! i = Some j /\
      sy_phases s !! i = Some (PWriting an todo) /\ part ++ todo = fst (took j an)).
Proof.
  intros Hr. destruct (reachable_reached g0 s Hr) as (o & w & m & [_ _ (ws & part & [H1 H2 H3 H4] & _) _]). exists ws, part. split_and!; try done.
  intros Hne. unfold in_flight in H4. destruct (sy_audit_mu s) as [i|]; [|done]. destruct (jobs !! i) as [j|] eqn:Hj; [|done].
  destruct (sy_phases s !! i) as [[]|] eqn:Hph; try done. by eauto 10.
Qed.

(** A handler that is still at work when the program exits leaves nothing in
the trail, although its client may have been answered. *)
Lemma unfinished_unaudited g0 s i p v : rtc (step jobs) (start jobs g0) s -> sy_phases s !! i = Some (PPassed p v) ->
  exists ws part, sink (auditor (sy_gateway s)) = sink (auditor g0) ++ concat (map (line_taken jobs) ws) ++ part /\
    (forall e, (i, e) ∉ ws) /\ (sy_audit_mu s = None -> part = []) /\ sy_audit_mu s <> Some i.
Proof.
  intros Hr Hp. destruct (reachable_reached g0 s Hr) as (o & w & m & [Hl _ (ws & part & [H1 H2 H3 H4] & _) _]). exists ws, part. split_and!; try done.
  - intros e He. apply H2 in He as (ph & Hph & Hw). by simplify_eq.
  - unfold in_flight in H4. by intros Hn; rewrite Hn in H4.
  - intros (ph & Hph & Hh)%(lk_audit _ _ Hl). by simplify_eq.
Qed.

(** ** One after the other *)

(** The entries of a sequential run, and what each client gets. *)
Fixpoint entries_from (g : Gateway) (order : list nat) : list (nat * Entry) :=
  match order with
  | [] => []
  | i :: order =>
      match jobs !! i with
      | Some j => option_list (pair i <$> an_entry (snd (handle g j))) ++ entries_from (fst (handle g j)) order
      | None => entries_from g order
      end
  end.

Fixpoint results_from (g : Gateway) (order : list nat) : list (writer * option exchange) :=
  match order with
  | [] => []
  | i :: order =>
      match jobs !! i with
      | Some j => let an := snd (handle g j) in (an_writer an, an_exchange an) :: results_from (fst (handle g j)) order
      | None => results_from g order
      end
  end.

(** What [Log] is called with, and what the sink does with it. *)
Definition logged (w : nat * Entry) : Entry * (nat * option goerror) :=
  (snd w, match jobs !! fst w with Some j => sink_takes (jb_moment j) (snd w) | None => (0%nat, None) end).

Lemma logged_at i j e : jobs !! i = Some j -> logged (i, e) = (e, sink_takes (jb_moment j) e).
Proof. intros H. unfold logged. cbn [fst snd]. by rewrite H. Qed.

Lemma entries_auditor a g order : entries_from (set_auditor a g) order = entries_from g order.
Proof.
  revert g. induction order as [|i order IH]; intros g; [done|]. cbn [entries_from].
  destruct (jobs !! i) as [j|]; [|apply IH]. by rewrite handle_auditor; cbn [fst snd]; rewrite IH.
Qed.

Lemma results_auditor a g order : results_from (set_auditor a g) order = results_from g order.
Proof.
  revert g. induction order as [|i order IH]; intros g; [done|]. cbn [results_from].
  destruct (jobs !! i) as [j|]; [|apply IH]. by rewrite handle_auditor; cbn [fst snd]; rewrite IH.
Qed.

Lemma state_after_auditor a g order : state_after jobs (set_auditor a g) order = set_auditor a (state_after jobs g order).
Proof.
  revert g. induction order as [|i order IH]; intros g; [done|]. cbn [state_after fold_left].
  destruct (jobs !! i) as [j|]; [|apply IH]. rewrite handle_auditor. cbn [fst]. apply IH.
Qed.

Lemma handle_keeps_auditor g j : auditor (fst (handle g j)) = auditor g.
Proof.
  unfold handle. destruct (dispatch g j); [done|]. destruct (read_limiter g _) as [l|]; [|done].
  destruct (take_token l j) as [l' v]. by destruct l'.
Qed.

Lemma serially_spec g order acc :
  fold_left (fun st i =>
    match jobs !! i with
    | Some j => let '(g, w, x) := serve (E := jb_scan j) (T := jb_net j) (fst st) (jb_request j) (jb_moment j) (jb_writer j) in (g, snd st ++ [(w, x)])
    | None => st
    end) order (g, acc)
  = (set_auditor (log_run (map logged (entries_from g order)) (auditor g)) (state_after jobs g order), acc ++ results_from g order).
Proof.
  revert g acc. induction order as [|i order IH]; intros g acc.
  { cbn. rewrite app_nil_r. by destruct g. }
  cbn [fold_left entries_from results_from state_after]. destruct (jobs !! i) as [j|] eqn:Hj; [|by rewrite IH].
  cbn [fst snd]. rewrite (serve_steps g j). pose proof (handle_keeps_auditor g j) as Hau.
  destruct (handle g j) as [g1 an]. cbn [fst snd] in *. rewrite IH. f_equal; [|by unfold log_answer; destruct (an_entry an);
    unfold log_entry; rewrite ?results_auditor, <- app_assoc].
  unfold log_answer. destruct (an_entry an) as [e|]; cbn [option_list fmap option_fmap option_map app map].
  - unfold log_entry. rewrite entries_auditor, state_after_auditor. change (option_list (Some (i, e)) ++ entries_from g1 order) with ((i, e) :: entries_from g1 order).
    cbn [map]. rewrite (logged_at i j e Hj). cbn [auditor set_auditor log_run fold_left fst snd]. by rewrite Hau.
  - by rewrite Hau.
Qed.

Lemma serially_eq g order : serially jobs g order
  = (set_auditor (log_run (map logged (entries_from g order)) (auditor g)) (state_after jobs g order), results_from g order).
Proof. apply serially_spec. Qed.

Lemma entries_in i e g order : (i, e) ∈ entries_from g order <->
  exists pre post j, order = pre ++ i :: post /\ jobs !! i = Some j /\ an_entry (snd (handle (state_after jobs g pre) j)) = Some e.
Proof.
  revert g. induction order as [|k order IH]; intros g; cbn [entries_from].
  { split; [by intros ?%elem_of_nil|]. by intros ([] & post & j & ? & _). }
  assert (Hcons : forall g1, state_after jobs g [k] = g1 ->
    (exists pre post j, order = pre ++ i :: post /\ jobs !! i = Some j /\ an_entry (snd (handle (state_after jobs g1 pre) j)) = Some e) \/
    (k = i /\ exists j, jobs !! i = Some j /\ an_entry (snd (handle g j)) = Some e) <->
    exists pre post j, k :: order = pre ++ i :: post /\ jobs !! i = Some j /\ an_entry (snd (handle (state_after jobs g pre) j)) = Some e).
  { intros g1 <-. split.
    - intros [(pre & post & j & -> & Hj & He)|(-> & j & Hj & He)]; [|by exists [], order, j].
      exists (k :: pre), post, j. split_and!; [done|done|]. by rewrite <- He, <- state_after_app.
    - intros ([|k' pre] & post & j & [= <- ->] & Hj & He); [right; eauto|left].
      exists pre, post, j. split_and!; [done|done|]. by rewrite <- He, <- state_after_app. }
  specialize (Hcons _ eq_refl). cbn [state_after fold_left] in Hcons. rewrite <- Hcons. destruct (jobs !! k) as [j|] eqn:Hj.
  - rewrite elem_of_app, IH. split.
    + intros [Hin|?]; [right|by left]. destruct (an_entry _) as [e'|] eqn:He; cbn in Hin; [|by apply elem_of_nil in Hin].
      apply list_elem_of_singleton in Hin as [= -> ->]. eauto.
    + intros [?|(-> & j' & Hj' & He)]; [by right|left]. simplify_eq. rewrite He. by apply list_elem_of_singleton.
  - rewrite IH. split; [by left|]. intros [?|(-> & j & Hj' & _)]; [done|congruence].
Qed.

Lemma entries_nodup g order : NoDup order -> NoDup (entries_from g order).
Proof.
  revert g. induction order as [|i order IH]; intros g Hnd; cbn [entries_from]; [constructor|].
  apply NoDup_cons in Hnd as [Hni Hnd]. destruct (jobs !! i) as [j|]; [|by apply IH]. apply NoDup_app. split_and!; [|..|by apply IH].
  - destruct (an_entry _); cbn; [apply NoDup_singleton|constructor].
  - intros [k e] Hk (pre & post & j' & -> & _)%entries_in. apply Hni. destruct (an_entry _); cbn in Hk.
    + apply list_elem_of_singleton in Hk as [= -> _]. set_solver.
    + by apply elem_of_nil in Hk.
Qed.

Lemma lines_logged ws a :
  sink (log_run (map logged ws) a) = sink a ++ concat (map (line_taken jobs) ws).
Proof.
  rewrite log_run_sink, map_map. f_equal. f_equal. apply map_ext. intros [i e]. unfold line_taken, logged. cbn [fst snd].
  by destruct (jobs !! i).
Qed.

(** The entry of a handler that is done is that of the sequential run. *)
Lemma done_outcome g0 s order i : locked jobs s -> serial jobs g0 s order -> finished s -> i ∈ order ->
  exists pre post j, order = pre ++ i :: post /\ jobs !! i = Some j /\
    sy_phases s !! i = Some (PDone (snd (handle (state_after jobs g0 pre) j))).
Proof.
  intros Hl Hs Hf Hi. pose proof Hi as (pre & post & Ho)%list_elem_of_split. apply (sr_in _ _ _ _ Hs) in Hi as (ph & Hp & _).
  destruct (job_of s i ph Hl Hp) as [j Hj]. pose proof (sr_agrees _ _ _ _ Hs pre i post j ph Ho Hj Hp) as Ha.
  unfold finished in Hf. rewrite Forall_lookup in Hf. specialize (Hf i ph Hp). destruct ph; try done. cbn in Ha. subst an.
  by exists pre, post, j.
Qed.

Lemma results_at g pre i post j : jobs !! i = Some j -> (forall k, k ∈ pre -> is_Some (jobs !! k)) ->
  results_from g (pre ++ i :: post) !! length pre
  = Some (let an := snd (handle (state_after jobs g pre) j) in (an_writer an, an_exchange an)).
Proof.
  intros Hj. revert g. induction pre as [|k pre IH]; intros g Hall; cbn [app results_from length].
  - by rewrite Hj.
  - destruct (Hall k ltac:(set_solver)) as [j' Hj']. rewrite Hj'.
    assert (Hs : state_after jobs g (k :: pre) = state_after jobs (fst (handle g j')) pre) by (cbn; by rewrite Hj').
    rewrite Hs, <- IH by (intros; apply Hall; set_solver). done.
Qed.

(** A client's answer is that of the sequential run. *)
Lemma done_result g0 s order k i : locked jobs s -> serial jobs g0 s order -> finished s -> order !! k = Some i ->
  exists e w x, results_from g0 order !! k = Some (w, x) /\ sy_phases s !! i = Some (PDone (MkAnswered e w x)).
Proof.
  intros Hl Hs Hf Hk. pose proof (list_elem_of_lookup_2 _ _ _ Hk) as Hi.
  destruct (done_outcome g0 s order i Hl Hs Hf Hi) as (pre & post & j & Ho & Hj & Hd).
  assert (Hall : forall m, m ∈ pre -> is_Some (jobs !! m)).
  { intros m Hm. assert (Hmo : m ∈ order) by (rewrite Ho; set_solver). apply (sr_in _ _ _ _ Hs) in Hmo as (q & Hq & _).
    by apply (job_of s m q). }
  pose proof (results_at g0 pre i post j Hj Hall) as Hres. rewrite <- Ho in Hres.
  assert (Hkp : k = length pre).
  { eapply NoDup_lookup; [apply Hs|exact Hk|]. rewrite Ho. by apply list_lookup_middle. }
  rewrite Hkp, Hres, Hd. destruct (snd (handle _ j)) as [oe w x]. by exists oe, w, x.
Qed.

(** When every handler is done, all have joined, and what was written is what
a sequential run logs, in another order. *)
Lemma all_joined g0 s order : locked jobs s -> serial jobs g0 s order -> finished s -> order ≡ₚ seq 0 (length jobs).
Proof.
  intros Hl Hs Hf. apply NoDup_Permutation; [apply Hs|apply NoDup_seq|]. intros i. rewrite elem_of_seq, (sr_in _ _ _ _ Hs).
  rewrite <- (lk_length _ _ Hl). split.
  - intros (ph & Hp%lookup_lt_Some & _). lia.
  - intros [_ Hi]. apply lookup_lt_is_Some in Hi as [ph Hp]. exists ph. split; [done|]. unfold finished in Hf.
    rewrite Forall_lookup in Hf. specialize (Hf i ph Hp). by destruct ph.
Qed.

Lemma same_entries g0 s order ws part a0 : locked jobs s -> serial jobs g0 s order -> trail jobs a0 s ws part -> finished s ->
  ws ≡ₚ entries_from g0 order.
Proof.
  intros Hl Hs Ht Hf. apply NoDup_Permutation.
  - apply (NoDup_fmap_1 fst). apply Ht.
  - apply entries_nodup, Hs.
  - intros [i e]. rewrite (tr_in _ _ _ _ _ Ht), entries_in. split.
    + intros (ph & Hp & Hw). assert (Hi : i ∈ order).
      { rewrite (all_joined g0 s order Hl Hs Hf), elem_of_seq, <- (lk_length _ _ Hl). apply lookup_lt_Some in Hp. lia. }
      destruct (done_outcome g0 s order i Hl Hs Hf Hi) as (pre & post & j & Ho & Hj & Hd). simplify_eq.
      by exists pre, post, j.
    + intros (pre & post & j & Ho & Hj & He). destruct (sr_in _ _ _ _ Hs i) as [Hin _].
      destruct Hin as (ph & Hp & _); [rewrite Ho; set_solver|].
      pose proof (sr_agrees _ _ _ _ Hs pre i post j ph Ho Hj Hp) as Ha.
      unfold finished in Hf. rewrite Forall_lookup in Hf. specialize (Hf i ph Hp). destruct ph; try done. cbn in Ha. subst an.
      by eexists.
Qed.

(** The trail when all is done. *)
Lemma finished_sink g0 s ws part : locked jobs s -> trail jobs (auditor g0) s ws part -> finished s ->
  sink (auditor (sy_gateway s)) = sink (log_run (map logged ws) (auditor g0)).
Proof.
  intros Hl Ht Hf. rewrite lines_logged, (tr_sink _ _ _ _ _ Ht). assert (Hpart : part = []); [|by rewrite Hpart, app_nil_r].
  pose proof (tr_part _ _ _ _ _ Ht) as Hpt. unfold in_flight in Hpt. destruct (sy_audit_mu s) as [k|] eqn:Hk; [|done].
  apply (lk_audit _ _ Hl) in Hk as (q & Hq & Hh). unfold finished in Hf. rewrite Forall_lookup in Hf. specialize (Hf k q Hq).
  by destruct q.
Qed.

(** The writes that failed. *)
Definition broken (w : nat * Entry) : Prop := snd (snd (logged w)) <> None.

(** Entries for the handlers that have marked a failure, in their order. *)
Lemma entries_for (ws : list (nat * Entry)) ms : NoDup ms -> NoDup (map fst ws) ->
  (forall k, k ∈ ms <-> exists e, (k, e) ∈ ws /\ broken (k, e)) ->
  exists bs, map fst bs = ms /\ forall w, w ∈ bs <-> w ∈ ws /\ broken w.
Proof.
  intros Hms Hws Hin. assert (Hsame : forall k e e', (k, e) ∈ ws -> (k, e') ∈ ws -> e = e').
  { intros k e e' [i Hi]%list_elem_of_lookup [i' Hi']%list_elem_of_lookup. assert (i = i') as <-; [|congruence].
    apply (NoDup_lookup (map fst ws) i i' k Hws); by rewrite list_lookup_fmap, ?Hi, ?Hi'. }
  assert (H : forall l : list nat, (forall k, k ∈ l -> k ∈ ms) ->
    exists bs, map fst bs = l /\ forall k e, (k, e) ∈ bs <-> k ∈ l /\ (k, e) ∈ ws).
  { induction l as [|k l IH]; intros Hl; [exists []; split; [done|]; set_solver|].
    destruct IH as (bs & <- & Hb); [set_solver|]. destruct (proj1 (Hin k)) as (e & He & _); [set_solver|].
    exists ((k, e) :: bs). split; [done|]. intros k' e'. cbn [map fst]. rewrite !elem_of_cons, Hb. split.
    - intros [[= -> ->]|[? ?]]; auto.
    - intros [[->|Hk] He']; [left; by rewrite (Hsame k e e')|auto]. }
  destruct (H ms ltac:(done)) as (bs & Hb1 & Hb2). exists bs. split; [done|]. intros [k e]. rewrite Hb2, Hin. split.
  - intros [(e' & He' & Hb) He]. by rewrite (Hsame k e e').
  - intros [He Hb]. eauto.
Qed.

Lemma broken_taken i j e : jobs !! i = Some j -> broken (i, e) <-> snd (sink_takes (jb_moment j) e) <> None.
Proof. intros Hj. unfold broken. by rewrite (logged_at i j e Hj). Qed.

(** A handler that has marked a failure is one whose write failed. *)
Lemma finished_marked a0 s ws part ms : locked jobs s -> trail jobs a0 s ws part -> reporting jobs a0 s ms -> finished s ->
  forall k, k ∈ ms <-> exists e, (k, e) ∈ ws /\ broken (k, e).
Proof.
  intros Hl Ht Hr Hf k. rewrite (rp_marked _ _ _ _ Hr). unfold finished in Hf. rewrite Forall_lookup in Hf.
  setoid_rewrite (tr_in _ _ _ _ _ Ht). split.
  - intros (j & ph & an & err & Hj & Hp & Ho & He). specialize (Hf k ph Hp). destruct ph; try done. injection Ho as ->.
    unfold took in He. destruct (an_entry an) as [en|] eqn:Hen; [|done]. exists en. split; [by eexists|].
    rewrite (broken_taken k j en Hj). destruct (sink_takes _ _). cbn in *. by subst.
  - intros (en & (ph & Hp & Hw) & Hb). destruct (job_of s k ph Hl Hp) as [j Hj]. specialize (Hf k ph Hp). destruct ph; try done.
    rewrite (broken_taken k j en Hj) in Hb. cbn in Hw. unfold marked.
    destruct (snd (sink_takes (jb_moment j) en)) as [err|] eqn:He; [|done]. exists j, (PDone an), an, err.
    split_and!; try done. unfold took. rewrite Hw. by destruct (sink_takes _ _).
Qed.

(** The flag and the error stream when all is done. *)
Lemma finished_reports a0 s bs ms : reporting jobs a0 s ms -> finished s ->
  map fst bs = ms -> (forall i e, (i, e) ∈ bs -> exists an, sy_phases s !! i = Some (PDone an) /\ an_entry an = Some e) ->
  (forall w, w ∈ bs -> broken w) ->
  failed (auditor (sy_gateway s)) = failed (log_run (map logged bs) a0) /\
  reports (auditor (sy_gateway s)) = reports (log_run (map logged bs) a0).
Proof.
  intros Hr Hf Hms Hin Hb. destruct (log_run_reports (map logged bs) a0) as [-> ->]. rewrite (rp_failed _ _ _ _ Hr).
  pose proof (rp_reported _ _ _ _ Hr) as Hrep. unfold reported in Hrep. subst ms. destruct bs as [|[k e] bs]; cbn [map fst] in *.
  { destruct Hrep as [-> _]. rewrite bool_decide_eq_false_2, orb_false_r by (by intros []). cbn. split; [by rewrite orb_false_r|].
    destruct (failed a0); by rewrite ?app_nil_r. }
  rewrite bool_decide_eq_true_2 by done. specialize (Hb (k, e) ltac:(set_solver)). unfold broken in Hb.
  destruct (Hin k e ltac:(set_solver)) as (an & Hp & He).
  cbn [omap list_omap]. destruct (snd (snd (logged (k, e)))) as [err|] eqn:Herr; [|done]. cbn [bool_decide].
  destruct (failed a0); [by destruct Hrep as [-> _]; rewrite ?app_nil_r|]. split; [done|].
  destruct Hrep as (j & ph & an' & err' & Hj & Hp' & Ho & He' & _ & ->). simplify_eq. cbn [is_over printing] in *. injection Ho as <-.
  unfold took in He'. rewrite He in He'. rewrite (logged_at k j e Hj) in Herr. cbn [snd] in Herr.
  destruct (sink_takes _ _) as [n o]. cbn in *. by simplify_eq.
Qed.

(** C2. Handlers running side by side do what they do one after the other: for
every run that has ended, whatever its interleaving, serving the requests one
by one in the order in which they got past their limiters leaves the gateway
in the same state, the trail apart, and answers each client with the same
bytes after the same exchange with its upstream, given the same answers of the
upstreams and of the scanners; and it logs the same entries.  The trail is
that of [Log] called for these entries in the order in which the writes came
to their end, which may be another one, since a handler can overtake another
on its way to the auditor.  The failure flag and the error stream are those of
[Log] called for the entries whose writes failed, in the order in which their
handlers marked it, so a failing sink is reported once, by the first. *)
Theorem serializable g0 l s : run_schedule jobs l (start jobs g0) = Some s -> finished s ->
  let order := order_of jobs joins l (start jobs g0) in
  let '(g1, rs) := serially jobs g0 order in
  order ≡ₚ seq 0 (length jobs) /\
  set_auditor (auditor g1) (sy_gateway s) = g1 /\
  (forall k i, order !! k = Some i -> exists e w x, rs !! k = Some (w, x) /\ sy_phases s !! i = Some (PDone (MkAnswered e w x))) /\
  auditor g1 = log_run (map logged (entries_from g0 order)) (auditor g0) /\
  exists lines marked,
    lines ≡ₚ entries_from g0 order /\ map fst lines = order_of jobs writes l (start jobs g0) /\
    sink (auditor (sy_gateway s)) = sink (log_run (map logged lines) (auditor g0)) /\
    (forall w, w ∈ marked <-> w ∈ lines /\ broken w) /\ map fst marked = order_of jobs marks l (start jobs g0) /\
    failed (auditor (sy_gateway s)) = failed (log_run (map logged marked) (auditor g0)) /\
    reports (auditor (sy_gateway s)) = reports (log_run (map logged marked) (auditor g0)).
Proof.
  intros Hr Hf order. pose proof (reached_run _ _ _ _ _ _ _ (reached_start g0) Hr) as [Hl Hs (ws & part & Ht & Hw) Hrep].
  cbn [app] in *. fold order in Hs. pose proof (same_entries _ _ _ _ _ _ Hl Hs Ht Hf) as Hws.
  pose proof (finished_marked _ _ _ _ _ Hl Ht Hrep Hf) as Hmk.
  destruct (entries_for ws _ (rp_nodup _ _ _ _ Hrep) (tr_nodup _ _ _ _ _ Ht) Hmk) as (bs & Hb1 & Hb2).
  destruct (finished_reports (auditor g0) s bs _ Hrep Hf Hb1) as [Hr1 Hr2]; [|by intros w [_ ?]%Hb2|].
  { intros i e [Hin _]%Hb2. apply (tr_in _ _ _ _ _ Ht) in Hin as (ph & Hp & He).
    unfold finished in Hf. rewrite Forall_lookup in Hf. specialize (Hf i ph Hp). destruct ph; try done. by exists an. }
  rewrite serially_eq. split_and!.
  - by eapply all_joined.
  - cbn [auditor set_auditor]. rewrite <- (sr_state _ _ _ _ Hs). done.
  - intros k i Hk. by eapply done_result.
  - done.
  - exists ws, bs. split_and!; try done.
    + by eapply finished_sink.
Qed.

End handlers.
