(* ===== verification/GatewayBuild.v ===== *)
(** * Building a gateway (gateway/gateway.go: New)

[New] gives every upstream of a valid configuration its proxy, limiter,
policy, lock and scanner, and nothing else; the cache of lockfiles does not
show. *)

From S2P Require Export GatewaySafety.
From S2P Require Import RateLimit.
Local Open Scope Z_scope.
Local Open Scope go_scope.

Section build.
Context {L : GoLib} {A : Arch}.
Variables (at_start : Z) (read : bytes -> result bytes) (start : bytes -> nat -> option goerror).

(** ** What each upstream asks for *)

Definition bucket_for (u : Upstream) : option (tokenBucket float64) :=
  r ← RateLimit u; if PerSession r then None else Some (newTokenBucket (RequestsPerSecond r) (Burst r) at_start).

Definition sessions_for (u : Upstream) : option (sessionLimiter float64) :=
  r ← RateLimit u; if PerSession r then Some (newSessionLimiter (RequestsPerSecond r) (Burst r) maxSessionBuckets) else None.

Definition scanner_for (u : Upstream) : option scannerConfig :=
  pp ← PromptProof u; if Enabled pp then Some (scanner_config pp) else None.

(** The lock of an upstream, prepared on its own. *)
Definition lock_for (u : Upstream) : result (option preparedLock) := fst (prepareLock read u ∅).

Definition configured (g : Gateway) (u : Upstream) : Prop :=
  exists p lk, newProxy u = Ok p /\ lock_for u = Ok lk /\
    route_view g (Name u) = (Some p, Some u, bucket_for u, sessions_for u, newToolPolicy u, lk, scanner_for u).

Definition unconfigured (g : Gateway) (n : bytes) : Prop := route_view g n = (None, None, None, None, None, None, None).

(** ** The cache *)

Definition cache_ok (cache : gmap bytes lockFile) : Prop :=
  forall path lf, cache !! path = Some lf -> loadLockFile path (read path) = Ok lf.

Lemma prepare_cached u cache : cache_ok cache ->
  fst (prepareLock read u cache) = lock_for u /\
  (is_Some (ToolsLock u) -> forall lk, lock_for u = Ok lk -> is_Some lk) /\
  (forall lk, lock_for u = Ok lk -> cache_ok (snd (prepareLock read u cache))).
Proof.
  intros Hc. unfold lock_for, prepareLock. destruct (ToolsLock u) as [lc|]; [|split_and!; [done|by intros []|done]].
  rewrite lookup_empty.
  assert (Hsome : forall lf lk, Some <$> server_lock u lc lf = Ok lk -> is_Some lk).
  { intros lf lk. destruct (server_lock u lc lf) as [l|e]; [|done]. intros [= <-]. done. }
  destruct (cache !! File lc) as [lf|] eqn:E; [rewrite (Hc _ _ E)|destruct (loadLockFile (File lc) (read (File lc))) as [lf|e] eqn:Hload];
    cbn [fst snd]; (split_and!; [done|intros _ lk; try done; apply Hsome|try done]).
  intros lk _ path lf'. destruct (decide (path = File lc)) as [ -> |Hne].
  - rewrite lookup_insert_eq. by intros [= <-].
  - rewrite lookup_insert_ne by done. apply Hc.
Qed.

(** ** One upstream *)

Lemma view_limits u g n : let g' := add_limits at_start u g in
  (n <> Name u -> route_view g' n = route_view g n) /\ g_cfg g' = g_cfg g /\ auditor g' = auditor g /\
  (unconfigured g (Name u) \/ (limits g !! Name u = None /\ sessionLimits g !! Name u = None) ->
   limits g' !! Name u = bucket_for u /\ sessionLimits g' !! Name u = sessions_for u) /\
  routes g' = routes g /\ upstreams g' = upstreams g /\ policies g' = policies g /\ locks g' = locks g /\ scanners g' = scanners g.
Proof.
  cbn zeta. unfold add_limits, bucket_for, sessions_for.
  assert (Hnone : unconfigured g (Name u) \/ (limits g !! Name u = None /\ sessionLimits g !! Name u = None) ->
    limits g !! Name u = None /\ sessionLimits g !! Name u = None).
  { unfold unconfigured, route_view. intros [H|H]; [by injection H|done]. }
  destruct (RateLimit u) as [r|]; cbn [mbind option_bind]; [|by split_and!].
  destruct (PerSession r); cbn.
  - split_and!; try done.
    + intros Hn. unfold route_view. cbn. by rewrite lookup_insert_ne.
    + intros H. destruct (Hnone H) as [-> _]. by rewrite lookup_insert_eq.
  - split_and!; try done.
    + intros Hn. unfold route_view. cbn. by rewrite lookup_insert_ne.
    + intros H. destruct (Hnone H) as [_ ->]. by rewrite lookup_insert_eq.
Qed.

Lemma bind_result_ok {X Y} (r : result X) (f : X -> result Y) y :
  (r ≫= f) = Ok y -> exists x, r = Ok x /\ f x = Ok y.
Proof. destruct r as [x|e]; [|done]. intros H. by exists x. Qed.

Lemma newScanner_ok procs pp s q : snd (newScanner procs pp) = Ok (s, q) -> s = scanner_config pp.
Proof. unfold newScanner. destruct (start_pool _ _ _ _ _) as [l [e|]]; [done|]. by intros [= <- _]. Qed.

(** The first half of the loop's body: all that cannot fail. *)
Lemma settled_view g u p : unconfigured g (Name u) ->
  let g3 := add_policy u (add_limits at_start u (set_route (Name u) p u g)) in
  route_view g3 (Name u) = (Some p, Some u, bucket_for u, sessions_for u, newToolPolicy u, None, None) /\
  (forall n, n <> Name u -> route_view g3 n = route_view g n) /\ g_cfg g3 = g_cfg g /\ auditor g3 = auditor g.
Proof.
  intros Hu. cbn zeta. set (g1 := set_route (Name u) p u g).
  assert (V1 : route_view g1 (Name u) = (Some p, Some u, None, None, None, None, None) /\
    forall n, n <> Name u -> route_view g1 n = route_view g n).
  { unfold unconfigured, route_view in *. cbn. rewrite !lookup_insert_eq. split; [by injection Hu as _ _ U3 U4 U5 U6 U7; rewrite U3, U4, U5, U6, U7|].
    intros n Hn. by rewrite !lookup_insert_ne. }
  destruct V1 as [V1 W1]. assert (G1 : g_cfg g1 = g_cfg g /\ auditor g1 = auditor g) by done.
  clearbody g1. destruct G1 as [G1 AU1]. destruct (view_limits u g1 (Name u)) as (_ & C2 & A2 & V2 & E1 & E2 & E3 & E4 & E5).
  unfold route_view in V1. injection V1 as R1 R2 R3 R4 R5 R6 R7. destruct V2 as [V2a V2b]; [by right|].
  set (g2 := add_limits at_start u g1) in *.
  assert (W2 : forall n, n <> Name u -> route_view g2 n = route_view g n).
  { intros n Hn. destruct (view_limits u g1 n) as (W & _). unfold g2. by rewrite W, W1. }
  clearbody g2. rewrite <- G1, <- AU1. unfold add_policy. destruct (newToolPolicy u) as [pol|].
  - unfold route_view in *. cbn. rewrite V2a, V2b, E1, E2, E4, E5, R1, R2, R6, R7, lookup_insert_eq.
    split_and!; try done. intros n Hn. specialize (W2 n Hn). rewrite E1, E2, E4, E5 in W2. by rewrite lookup_insert_ne.
  - unfold route_view in *. rewrite V2a, V2b, E1, E2, E3, E4, E5, R1, R2, R5, R6, R7.
    split_and!; try done. intros n Hn. specialize (W2 n Hn). by rewrite E1, E2, E3, E4, E5 in W2.
Qed.

Lemma add_upstream_spec g cache u g' cache' :
  add_upstream at_start read start (g, cache) u = Ok (g', cache') -> cache_ok cache -> unconfigured g (Name u) ->
  configured g' u /\ cache_ok cache' /\ (forall n, n <> Name u -> route_view g' n = route_view g n) /\
  g_cfg g' = g_cfg g /\ auditor g' = auditor g.
Proof.
  intros H Hc Hu. unfold add_upstream in H. apply bind_result_ok in H as ([g4 cache4] & Hroute & H).
  unfold add_route in Hroute. apply bind_result_ok in Hroute as (p & Hp & Hlock).
  unfold route_error in Hp. apply wrap_ok in Hp. pose proof (settled_view g u p Hu) as V3. cbn zeta in V3.
  set (g3 := add_policy u _) in *.
  destruct V3 as (V3 & W3 & C3 & A3). clearbody g3. clear -H Hlock Hc Hp V3 W3 C3 A3.
  destruct (prepare_cached u cache Hc) as (P1 & P2 & P3).
  assert (V4 : exists lk, lock_for u = Ok lk /\ cache_ok cache4 /\
    route_view g4 (Name u) = (Some p, Some u, bucket_for u, sessions_for u, newToolPolicy u, lk, None) /\
    (forall n, n <> Name u -> route_view g4 n = route_view g n) /\ g_cfg g4 = g_cfg g /\ auditor g4 = auditor g).
  { destruct (ToolsLock u) as [lc|] eqn:El.
    - destruct (prepareLock read u cache) as [rl cache5] eqn:Ep. cbn [fst snd] in P1, P3.
      apply bind_result_ok in Hlock as (lk & Hlk & Hlock). unfold route_error in Hlk. apply wrap_ok in Hlk.
      rewrite P1 in Hlk. exists lk. destruct (P2 ltac:(done) lk Hlk) as [l ->].
      injection Hlock as <- <-. split_and!; [done|by eapply P3| | |done|done].
      + unfold route_view in *. cbn. rewrite lookup_insert_eq. by injection V3 as -> -> -> -> -> _ ->.
      + intros n Hn. rewrite <- W3 by done. unfold route_view. cbn. by rewrite lookup_insert_ne.
    - injection Hlock as <- <-. exists None. split_and!; try done. unfold lock_for, prepareLock. by rewrite El. }
  destruct V4 as (lk & Hlk & Hc4 & V4 & W4 & C4 & A4). clear -H Hp Hlk Hc4 V4 W4 C4 A4.
  unfold configured, scanner_for, wants_scanner in *. destruct (PromptProof u) as [pp|]; cbn [mbind option_bind] in *.
  - destruct (Enabled pp).
    + apply bind_result_ok in H as ([sc q] & Hsc & H). unfold route_error in Hsc. apply wrap_ok in Hsc.
      apply newScanner_ok in Hsc. subst sc. injection H as <- <-. split_and!; try done.
      * exists p, lk. split_and!; [done|done|]. unfold route_view in *. cbn. rewrite lookup_insert_eq.
        by injection V4 as -> -> -> -> -> -> _.
      * intros n Hn. rewrite <- W4 by done. unfold route_view. cbn. by rewrite lookup_insert_ne.
    + injection H as <- <-. split_and!; try done. by exists p, lk.
  - injection H as <- <-. split_and!; try done. by exists p, lk.
Qed.

(** ** All of them *)

Lemma add_upstreams_spec us g cache g' cache' :
  foldM (add_upstream at_start read start) (g, cache) us = Ok (g', cache') -> cache_ok cache ->
  NoDup (map Name us) -> Forall (fun u => unconfigured g (Name u)) us ->
  Forall (configured g') us /\ (forall n, n ∉ map Name us -> route_view g' n = route_view g n) /\
  g_cfg g' = g_cfg g /\ auditor g' = auditor g.
Proof.
  revert g cache. induction us as [|u us IH]; intros g cache H Hc Hnd Hall; cbn [foldM map] in *.
  - injection H as <- <-. by split_and!.
  - destruct (add_upstream _ _ _ _ _) as [[g1 cache1]|e] eqn:Hadd; [|done].
    apply NoDup_cons in Hnd as [Hni Hnd]. apply Forall_cons in Hall as [Hu Hall].
    destruct (add_upstream_spec _ _ _ _ _ Hadd Hc Hu) as (C1 & Hc1 & W1 & G1 & A1).
    assert (Hne : forall v, v ∈ us -> Name v <> Name u).
    { intros v Hv E. apply Hni. rewrite <- E. by apply list_elem_of_fmap_2. }
    destruct (IH g1 cache1 H Hc1 Hnd) as (C2 & W2 & G2 & A2).
    { rewrite Forall_forall in Hall |- *. intros v Hv. unfold unconfigured. rewrite W1 by by apply Hne. by apply Hall. }
    rewrite G2, A2. split_and!; [|..|done|done].
    + constructor; [|done]. destruct C1 as (p & lk & H1 & H2 & H3). exists p, lk. split_and!; [done|done|]. by rewrite W2.
    + intros n Hn. apply not_elem_of_cons in Hn as [Hn Hns]. rewrite W2, W1; done.
Qed.

Lemma names_distinct us : NoDup (map route_key us) -> NoDup (map Name us).
Proof.
  intros H. apply (NoDup_fmap_1 to_lower). rewrite <- list_fmap_compose. exact H.
Qed.

Lemma New_built cfg a g :
  New at_start read start cfg (Some a) = Ok g ->
  config_taken cfg /\ g_cfg g = with_listen cfg /\ auditor g = a /\ Forall (configured g) (Upstreams cfg) /\
  (forall n, n ∉ map Name (Upstreams cfg) -> unconfigured g n).
Proof.
  intros H. unfold New in H. cbn [opt_or mbind result_bind] in H.
  destruct (Validate cfg) as [cfg' valid] eqn:Hv. apply bind_result_ok in H as ([] & -> & H).
  assert (Hok : config_taken cfg) by (apply Validate_accepts; by rewrite Hv).
  assert (Hcfg : cfg' = with_listen cfg) by (rewrite <- Validate_fst, Hv; done).
  assert (Hus : Upstreams cfg' = Upstreams cfg) by (rewrite Hcfg; unfold with_listen; by case_bool_decide).
  apply bind_result_ok in H as ([g1 cache] & Hfold & H). injection H as <-. rewrite Hus in Hfold.
  destruct (add_upstreams_spec _ _ _ _ _ Hfold) as (C & W & G & AU).
  - intros path lf. by rewrite lookup_empty.
  - apply names_distinct, (ok_distinct _ _ Hok).
  - apply Forall_forall. intros u _. unfold unconfigured, route_view. cbn. by rewrite !lookup_empty.
  - split_and!; [done|by rewrite G|by rewrite AU|done|]. intros n Hn. unfold unconfigured. rewrite W by done.
    unfold route_view. cbn. by rewrite !lookup_empty.
Qed.

(** C17. What [New] builds is what the configuration says: it fails without an
auditor or on an invalid configuration; and when it succeeds, each upstream
has the proxy, the limiter (of one kind or the other), the policy, the lock
read from its file and the scanner its configuration asks for, no other route
exists, and nothing has been audited. *)
Theorem New_configures cfg a g :
  New at_start read start cfg (Some a) = Ok g ->
  config_taken cfg /\ g_cfg g = with_listen cfg /\ auditor g = a /\ Forall (configured g) (Upstreams cfg) /\
  (forall n, n ∉ map Name (Upstreams cfg) -> unconfigured g n).
Proof. apply New_built. Qed.

End build.
