(* ===== verification/Startup.v ===== *)
(** * Starting and closing a gateway (gateway/gateway.go: New, Close)

[New] with the coprocesses it starts and what they hold of the operating
system, and [Gateway.Close]: what is running after a construction that
succeeded, after one that failed, and after a close. *)

From S2P Require Import RateLimit.
From S2P Require Export Coproc GatewayBuild.
Local Open Scope Z_scope.
Local Open Scope go_scope.

(** ** Lists of coprocesses *)

Lemma holds_perm base ps qs s : ps ≡ₚ qs -> holds base ps s -> holds base qs s.
Proof.
  intros Hp [H1 H2 H3 H4 H5 H6]. assert (Hin : forall q, q ∈ ps <-> q ∈ qs) by (intros q; by rewrite Hp).
  symmetry in Hp. apply Permutation_inj in Hp as [_ (f & Hf & Hat)]. constructor; try done.
  - rewrite Forall_forall in H2 |- *. intros q Hq%Hin. by apply H2.
  - intros x. rewrite H3. split; (intros [Hb|(i & q & Hi & Hx)]; [by left|right]);
      apply list_elem_of_lookup_2, Hin, list_elem_of_lookup in Hi as [j Hj]; eauto.
  - intros i q Hi. rewrite Hat in Hi. by eapply H4.
  - intros i j q r Hij Hi Hj. rewrite Hat in Hi, Hj. eapply (H5 (f i) (f j)); [|done..]. by intros ?%Hf.
Qed.

(** What a list of coprocesses holds does not depend on its order. *)
#[export] Instance holds_proper base : Proper ((≡ₚ) ==> eq ==> iff) (holds base).
Proof. intros ps qs Hp s ? <-. by split; apply holds_perm. Qed.

Lemma holds_app base ps qs s s' : holds base ps s -> holds (live s) qs s' -> holds base (ps ++ qs) s'.
Proof.
  intros H [J1 J2 J3 J4 J5 J6]. pose proof (holds_owned base ps s) as Hown. destruct H as [H1 H2 H3 H4 H5 H6].
  constructor; try done.
  - by apply Forall_app.
  - intros x. rewrite J3, H3. split.
    + intros [[Hb|(i & q & Hi & Hx)]|(i & q & Hi & Hx)]; [by left| |].
      * right. exists i, q. split; [|done]. by apply lookup_app_l_Some.
      * right. exists (length ps + i)%nat, q. split; [|done]. rewrite lookup_app_r by lia. by replace (length ps + i - length ps)%nat with i by lia.
    + intros [Hb|(i & q & [Hi|[_ Hi]]%lookup_app_Some & Hx)]; [by left; left| |]; eauto 7.
  - intros i q [Hi|[_ Hi]]%lookup_app_Some; [by eapply H4|]. intros x Hx Hb. apply (J4 _ _ Hi x Hx), H3. by left.
  - assert (Hcross : forall i j p q, ps !! i = Some p -> qs !! j = Some q -> owned p ## owned q).
    { intros i j p q Hi Hj x Hp Hq. apply (J4 _ _ Hj x Hq), H3. right. eauto. }
    intros i j p q Hij [Hi|[Hil Hi]]%lookup_app_Some [Hj|[Hjl Hj]]%lookup_app_Some.
    + by eapply H5.
    + by eapply Hcross.
    + symmetry. by eapply Hcross.
    + eapply (J5 (i - length ps)%nat (j - length ps)%nat); [lia|done..].
Qed.

Lemma close_all_app ps qs s : close_all (ps ++ qs) s = close_all qs (close_all ps s).
Proof. revert s. induction ps as [|p ps IH]; intros s; [done|]. cbn [app close_all]. apply IH. Qed.

(** ** Definitions *)

(** The coprocesses of a pool that are in it, and those a handler has: [busy]
says of each index whether it is out. *)
Definition numbered (l : list ppProc) : list (nat * ppProc) := zip (seq 0 (length l)) l.
Definition idle (busy : nat -> bool) (l : list ppProc) : list ppProc := map snd (filter (fun p => busy (fst p) = false) (numbered l)).
Definition out (busy : nat -> bool) (l : list ppProc) : list ppProc := map snd (filter (fun p => busy (fst p) <> false) (numbered l)).

Definition all_idle (n : bytes) (i : nat) : bool := false.

Definition all_procs (ps : gmap bytes (list ppProc)) : list ppProc := concat (map snd (map_to_list ps)).

Section startup.
Context {L : GoLib} {A : Arch}.

(** [starts n i] is what the system does when the [i]th coprocess of the
upstream [n] is started; [visit] is the order in which a map is walked. *)
Variables (at_start : Z) (read : bytes -> result bytes) (starts : bytes -> nat -> start_outcome)
  (visit : list bytes -> list bytes).

(** [newScanner]: the scanner and its coprocesses. *)
Definition newScanner_os (starts : nat -> start_outcome) (c : PromptProofConfig) (s : os) :
    result (scannerConfig * list ppProc) * os :=
  let sc := scanner_config c in
  match new_pool (map starts (seq 0 (Z.to_nat (sc_size sc)))) s with
  | (_, s, Some e) => (Err (EWrap ("promptproof: starting " ++ quote (sc_bin sc) ++ ": ") e), s)
  | (ps, s, None) => (Ok (sc, ps), s)
  end.

(** [Gateway.Close]: each scanner closes the coprocesses it finds in its pool. *)
Definition Gateway_Close (busy : bytes -> nat -> bool) (ps : gmap bytes (list ppProc)) (s : os) : os :=
  fold_left (fun s n => close_all (idle (busy n) (default [] (ps !! n))) s) (visit (map fst (map_to_list ps))) s.

(** The coprocesses it does not find. *)
Definition checked_out (busy : bytes -> nat -> bool) (ps : gmap bytes (list ppProc)) : list ppProc :=
  concat (map (fun n => out (busy n) (default [] (ps !! n))) (visit (map fst (map_to_list ps)))).

(** The gateway under construction: what [New] has so far. *)
Record building := MkBuilding { bd_gateway : Gateway; bd_cache : gmap bytes lockFile; bd_pools : gmap bytes (list ppProc) }.

(** One iteration of the loop of [New]: only the failure of a scanner closes
the scanners there are. *)
Definition add_upstream_os (b : building) (u : Upstream) (s : os) : result building * os :=
  match add_route at_start read (bd_gateway b, bd_cache b) u with
  | Err e => (Err e, s)
  | Ok (g, cache) =>
      match wants_scanner u with
      | None => (Ok (MkBuilding g cache (bd_pools b)), s)
      | Some pp =>
          let '(r, s) := newScanner_os (starts (Name u)) pp s in
          match route_error u r with
          | Err e => (Err e, Gateway_Close all_idle (bd_pools b) s)
          | Ok (sc, ps) => (Ok (MkBuilding (add_scanner u sc g) cache (<[Name u := ps]> (bd_pools b))), s)
          end
      end
  end.

Fixpoint add_upstreams_os (b : building) (us : list Upstream) (s : os) : result building * os :=
  match us with
  | [] => (Ok b, s)
  | u :: us =>
      match add_upstream_os b u s with
      | (Ok b, s) => add_upstreams_os b us s
      | (Err e, s) => (Err e, s)
      end
  end.

Definition new_building (cfg : Config) (a : Auditor) : building := MkBuilding (MkGateway cfg a ∅ ∅ ∅ ∅ ∅ ∅ ∅) ∅ ∅.

Definition New_os (cfg : Config) (a : option Auditor) (s : os) : result (Gateway * gmap bytes (list ppProc)) * os :=
  match a with
  | None => (Err (ENew "gateway: auditor must not be nil"), s)
  | Some a =>
      match Validate cfg with
      | (_, Err e) => (Err e, s)
      | (cfg, Ok _) =>
          let '(r, s) := add_upstreams_os (new_building cfg a) (Upstreams cfg) s in
          ((fun b => (bd_gateway b, bd_pools b)) <$> r, s)
      end
  end.

(** ** The construction is [New] *)

Definition start_errors (n : bytes) (i : nat) : option goerror := start_error (starts n i).

Lemma start_all_agrees (st : nat -> start_outcome) bin n i ps s procs :
  snd (start_pool (fun i => start_error (st i)) bin n i procs)
  = EWrap ("promptproof: starting " ++ quote bin ++ ": ") <$> snd (start_all (map st (seq i n)) ps s).
Proof.
  revert i ps s procs. induction n as [|n IH]; intros i ps s procs; [done|]. cbn [start_pool seq map start_all].
  pose proof (ensure_error (st i) fresh_proc s) as He. destruct (ensure (st i) fresh_proc s) as [[p s1] e].
  cbn [snd running fresh_proc cmd] in He. unfold running in He. cbn in He. rewrite <- He. destruct e; [done|]. apply IH.
Qed.

Lemma newScanner_agrees st c s :
  fst <$> snd (newScanner (fun i => start_error (st i)) c) = fst <$> fst (newScanner_os st c s).
Proof.
  unfold newScanner, newScanner_os, new_pool.
  pose proof (start_all_agrees st (sc_bin (scanner_config c)) (Z.to_nat (sc_size (scanner_config c))) 0 [] s []) as H.
  destruct (start_pool _ _ _ _ _) as [l e1]. destruct (start_all _ _ _) as [[ps s1] e2]. cbn [snd] in H.
  destruct e2 as [e2|]; cbn in H; by subst e1.
Qed.

Lemma add_upstream_agrees b u s :
  (fun b => (bd_gateway b, bd_cache b)) <$> fst (add_upstream_os b u s)
  = add_upstream at_start read start_errors (bd_gateway b, bd_cache b) u.
Proof.
  unfold add_upstream_os, add_upstream. destruct (add_route _ _ _ _) as [[g cache]|e]; [|done]. cbn [mbind result_bind].
  destruct (wants_scanner u) as [pp|]; [|done].
  pose proof (newScanner_agrees (starts (Name u)) pp s) as H. unfold start_errors.
  destruct (snd (newScanner _ pp)) as [[sc q]|e1]; destruct (newScanner_os _ _ _) as [[[sc' ps]|e2] s1]; cbn in H; try done.
  - by injection H as ->.
  - by injection H as ->.
Qed.

Lemma add_upstreams_agrees b us s :
  (fun b => (bd_gateway b, bd_cache b)) <$> fst (add_upstreams_os b us s)
  = foldM (add_upstream at_start read start_errors) (bd_gateway b, bd_cache b) us.
Proof.
  revert b s. induction us as [|u us IH]; intros b s; [done|]. cbn [add_upstreams_os foldM].
  rewrite <- (add_upstream_agrees b u s). destruct (add_upstream_os b u s) as [[b1|e] s1]; [|done]. apply IH.
Qed.

(** The gateway is the one of [New], and so are the errors. *)
Lemma New_os_agrees cfg a s : fst <$> fst (New_os cfg a s) = New at_start read start_errors cfg a.
Proof.
  unfold New_os, New. destruct a as [a|]; [|done]. cbn [opt_or mbind result_bind].
  destruct (Validate cfg) as [c [[]|e]]; [|done].
  pose proof (add_upstreams_agrees (new_building c a) (Upstreams c) s) as H. cbn [new_building bd_gateway bd_cache] in H.
  rewrite <- H. by destruct (add_upstreams_os _ _ _) as [[b|e] s1].
Qed.

(** ** What is held *)

Definition pool_sizes (g : Gateway) (ps : gmap bytes (list ppProc)) : Prop :=
  forall n, length <$> ps !! n = (fun sc => Z.to_nat (sc_size sc)) <$> scanners g !! n.

Lemma all_procs_insert (n : bytes) (l : list ppProc) (ps : gmap bytes (list ppProc)) :
  ps !! n = None -> all_procs (<[n := l]> ps) ≡ₚ all_procs ps ++ l.
Proof.
  intros Hn. unfold all_procs. rewrite map_to_list_insert by done. cbn [map concat snd]. by rewrite Permutation_app_comm.
Qed.

Lemma newScanner_holds st c s r s' :
  os_ok s -> misuse s = false -> newScanner_os st c s = (r, s') ->
  match r with
  | Ok (sc, ps) => sc = scanner_config c /\ length ps = Z.to_nat (sc_size sc) /\ holds (live s) ps s'
  | Err _ => holds (live s) [] s'
  end.
Proof.
  intros Hs Hm. unfold newScanner_os, new_pool.
  destruct (start_all _ [] s) as [[ps s1] e] eqn:Hst.
  destruct (start_all_holds (live s) (map st (seq 0 (Z.to_nat (sc_size (scanner_config c))))) [] s ps s1 e) as [Hh Hl]; [by apply holds_nil|done|].
  destruct e as [e|]; intros [= <- <-]; [by apply close_all_idle in Hh|].
  split_and!; [done| |done]. rewrite Hl by done. by rewrite length_map, length_seq.
Qed.

Hypothesis visits : forall l, visit l ≡ₚ l.

Lemma idle_out busy l : idle busy l ++ out busy l ≡ₚ l.
Proof.
  unfold idle, out. rewrite <- map_app.
  transitivity (map snd (numbered l)); [apply Permutation_map, filter_app_complement|].
  unfold numbered. apply reflexive_eq, snd_zip. by rewrite length_seq.
Qed.

Lemma out_none l : out (fun _ => false) l = [].
Proof. unfold out. by induction (numbered l) as [|x k IH]; [|rewrite filter_cons_False by (by intros [])]. Qed.

Lemma close_names (f : bytes -> list ppProc) (names : list bytes) (s : os) :
  fold_left (fun s n => close_all (f n) s) names s = close_all (concat (map f names)) s.
Proof. revert s. induction names as [|n names IH]; intros s; [done|]. cbn [fold_left map concat]. by rewrite IH, close_all_app. Qed.

Lemma concat_split {X Y} (f g h : X -> list Y) l :
  (forall x, f x ++ g x ≡ₚ h x) -> concat (map f l) ++ concat (map g l) ≡ₚ concat (map h l).
Proof.
  intros H. induction l as [|x l IH]; [done|]. cbn [map concat]. rewrite <- H, <- IH. solve_Permutation.
Qed.

Lemma named_procs (ps : gmap bytes (list ppProc)) (names : list bytes) :
  names ≡ₚ map fst (map_to_list ps) -> concat (map (fun n => default [] (ps !! n)) names) ≡ₚ all_procs ps.
Proof.
  intros ->. unfold all_procs. rewrite map_map. apply reflexive_eq. f_equal. apply map_ext_in. intros [n l] Hn. cbn [fst snd].
  apply list_elem_of_In, elem_of_map_to_list in Hn. by rewrite Hn.
Qed.

(** Closing gives back what the pools hold; what is out of them stays. *)
Lemma Gateway_Close_rest base busy ps (s : os) :
  holds base (all_procs ps) s -> holds base (checked_out busy ps) (Gateway_Close busy ps s).
Proof.
  intros H. unfold Gateway_Close. rewrite close_names. apply close_all_rest.
  unfold checked_out. rewrite concat_split by (intros; apply idle_out). by rewrite named_procs.
Qed.

Lemma checked_out_none ps : checked_out all_idle ps = [].
Proof. unfold checked_out. induction (visit _) as [|n l IH]; [done|]. cbn [map concat]. by rewrite IH, out_none. Qed.

Lemma Gateway_Close_holds base ps (s : os) : holds base (all_procs ps) s -> holds base [] (Gateway_Close all_idle ps s).
Proof. intros H. rewrite <- (checked_out_none ps). by apply Gateway_Close_rest. Qed.

Lemma add_route_scanners g cache u g' cache' :
  add_route at_start read (g, cache) u = Ok (g', cache') -> scanners g' = scanners g.
Proof.
  unfold add_route. intros H. apply bind_result_ok in H as (p & _ & H). set (g1 := add_policy u _) in *.
  assert (H1 : scanners g1 = scanners g).
  { unfold g1, add_policy, add_limits. destruct (RateLimit u) as [r|]; [destruct (PerSession r)|]; by destruct (newToolPolicy u). }
  clearbody g1. destruct (ToolsLock u) as [lc|]; [|by injection H as <- <-].
  destruct (prepareLock read u cache) as [rl c1]. apply bind_result_ok in H as (pl & _ & H). injection H as <- <-. by destruct pl.
Qed.

(** What is true between two iterations. *)
Record sound (base : gset resource) (b : building) (s : os) : Prop := {
  so_holds : holds base (all_procs (bd_pools b)) s;
  so_sizes : pool_sizes (bd_gateway b) (bd_pools b)
}.

Lemma add_upstream_sound base b u s r s' :
  sound base b s -> scanners (bd_gateway b) !! Name u = None -> add_upstream_os b u s = (r, s') ->
  match r with
  | Ok b' => sound base b' s' /\ (forall n, n <> Name u -> scanners (bd_gateway b') !! n = scanners (bd_gateway b) !! n)
  | Err e => holds base [] s' \/ (s' = s /\ add_route at_start read (bd_gateway b, bd_cache b) u = Err e)
  end.
Proof.
  intros [Hh Hsz] Hn. unfold add_upstream_os. destruct (add_route _ _ _ _) as [[g cache]|e] eqn:Hr; [|intros [= <- <-]; by right].
  apply add_route_scanners in Hr. destruct (wants_scanner u) as [pp|].
  2: { intros [= <- <-]. split; [|by intros; cbn; rewrite Hr]. constructor; [done|]. intros n. cbn. by rewrite Hr. }
  destruct (newScanner_os _ _ _) as [r1 s1] eqn:Hs1.
  apply newScanner_holds in Hs1; [|apply Hh|apply Hh]. destruct r1 as [[sc ps]|e1]; cbn.
  - destruct Hs1 as (-> & Hl & Hs1). intros [= <- <-]. split.
    + assert (Hpn : bd_pools b !! Name u = None).
      { specialize (Hsz (Name u)). rewrite Hn in Hsz. by destruct (bd_pools b !! Name u). }
      constructor; cbn [bd_pools bd_gateway].
      * rewrite all_procs_insert by done. by eapply holds_app.
      * intros n. cbn. rewrite Hr. destruct (decide (n = Name u)) as [->|Hne].
        { rewrite !lookup_insert_eq. cbn. by rewrite Hl. }
        rewrite !lookup_insert_ne by done. apply Hsz.
    + intros n Hne. cbn. by rewrite Hr, lookup_insert_ne.
  - intros [= <- <-]. left. apply Gateway_Close_holds. rewrite <- (app_nil_r (all_procs _)). by eapply holds_app.
Qed.

Lemma add_upstreams_sound base us b s r s' :
  sound base b s -> NoDup (map Name us) -> Forall (fun u => scanners (bd_gateway b) !! Name u = None) us ->
  add_upstreams_os b us s = (r, s') ->
  match r with
  | Ok b' => sound base b' s'
  | Err e => holds base [] s' \/ exists before u after b1, us = before ++ u :: after /\
      add_upstreams_os b before s = (Ok b1, s') /\ sound base b1 s' /\
      add_route at_start read (bd_gateway b1, bd_cache b1) u = Err e
  end.
Proof.
  revert b s. induction us as [|u us IH]; intros b s Hs Hnd Hall; cbn [add_upstreams_os map] in *; [by intros [= <- <-]|].
  apply NoDup_cons in Hnd as [Hni Hnd]. apply Forall_cons in Hall as [Hu Hall].
  destruct (add_upstream_os b u s) as [r1 s1] eqn:Hadd. pose proof (add_upstream_sound _ _ _ _ _ _ Hs Hu Hadd) as H1.
  destruct r1 as [b1|e].
  - destruct H1 as [H1 Hrest]. intros H. apply IH in H; [|done|done|].
    + destruct r as [b2|e]; [done|]. destruct H as [H|(before & v & after & b2 & -> & Hb & H)]; [by left|right].
      exists (u :: before), v, after, b2. cbn [app add_upstreams_os]. by rewrite Hadd.
    + rewrite Forall_forall in Hall |- *. intros v Hv. rewrite Hrest; [by apply Hall|].
      intros E. apply Hni. rewrite <- E. by apply list_elem_of_fmap_2.
  - intros [= <- <-]. destruct H1 as [H1|[-> H1]]; [by left|right]. by exists [], u, us, b.
Qed.

(** C18. What a construction leaves running.  It builds what [New] builds and
fails as [New] fails.  When it succeeds every scanner has a full pool, the
system holds for each of their coprocesses what it owns (its child, the
descriptors of its three pipes, the copier of its error stream) and nothing else
is taken, and [Close], once it has returned, gives all of it back, whatever the
order it walks the map in.  When it fails, the system holds what it held
before, with one exception: when the proxy or the lock of an upstream cannot
be prepared, the coprocesses of the upstreams before it are left running. *)
Theorem New_accounts cfg a s r s' :
  os_ok s -> misuse s = false -> New_os cfg a s = (r, s') ->
  fst <$> r = New at_start read start_errors cfg a /\
  match r with
  | Ok (g, ps) =>
      pool_sizes g ps /\ holds (live s) (all_procs ps) s' /\
      live (Gateway_Close all_idle ps s') = live s /\ misuse (Gateway_Close all_idle ps s') = false
  | Err e =>
      exists left, holds (live s) left s' /\
        (left = [] \/
         exists a' before u after b, a = Some a' /\ Upstreams cfg = before ++ u :: after /\
           add_upstreams_os (new_building (with_listen cfg) a') before s = (Ok b, s') /\
           left = all_procs (bd_pools b) /\
           add_route at_start read (bd_gateway b, bd_cache b) u = Err e)
  end.
Proof.
  intros Hs Hm H. split; [by rewrite <- (New_os_agrees cfg a s), H|]. unfold New_os in H.
  destruct a as [a|]; [|injection H as <- <-; exists []; split; [by apply holds_nil|by left]].
  pose proof (Validate_fst cfg) as Hf. pose proof (Validate_accepts cfg) as Ha.
  destruct (Validate cfg) as [c [[]|e]]; cbn [fst snd] in *; [|injection H as <- <-; exists []; split; [by apply holds_nil|by left]]. subst c.
  destruct (add_upstreams_os _ _ _) as [r1 s1] eqn:Hadd. injection H as <- <-.
  assert (H0 : sound (live s) (new_building (with_listen cfg) a) s) by (constructor; [by apply holds_nil|done]).
  apply (add_upstreams_sound _ _ _ _ _ _ H0) in Hadd.
  - destruct r1 as [b|e]; cbn.
    + destruct Hadd as [Hh Hz]. destruct (holds_idle _ _ (Gateway_Close_holds _ _ _ Hh)). by split_and!.
    + destruct Hadd as [Hh|(before & u & after & b & Hus & Hb & [Hh _] & He)].
      * exists []. split; [done|by left].
      * eexists. split; [exact Hh|]. right. exists a, before, u, after, b. split_and!; try done. by rewrite <- with_listen_upstreams.
  - rewrite with_listen_upstreams. destruct Ha as [Ha _]. specialize (Ha eq_refl). by apply names_distinct, Ha.
  - by apply Forall_forall.
Qed.

End startup.

(** ** Two upstreams, the second with a lock that cannot be read *)

#[local] Existing Instance plain_lib.
#[local] Existing Instance amd64.

Definition one_scanner : PromptProofConfig := MkPromptProof true [] [] [] 0 0 1.

Definition scanned_upstream : Upstream := MkUpstream "a" "http://127.0.0.1:9/" 0 None [] [] None (Some one_scanner) [] [].
Definition locked_upstream : Upstream :=
  MkUpstream "b" "http://127.0.0.1:9/" 0 None [] [] (Some (MkLockConfig "missing.lock" [] [])) None [] [].

Definition leaky_config : Config := MkConfig [] [] (MkAudit []) [scanned_upstream; locked_upstream].

Definition construct (us : list Upstream) : result (Gateway * gmap bytes (list ppProc)) * os :=
  New_os 0 (fun _ => Err (ENew "no such file")) (fun _ _ => starts) id (MkConfig [] [] (MkAudit []) us) (Some NewAuditorWriter) empty_os.

Definition succeeded {X} (r : result X * os) : bool := match fst r with Ok _ => true | Err _ => false end.

(** The first upstream's coprocess is running and nobody has a handle on it:
the construction failed and returned no gateway. *)
Lemma New_leaks_scanners :
  (exists e, fst (construct [scanned_upstream; locked_upstream]) = Err e) /\
  elements (live empty_os) = [] /\
  (exists k, Child k ∈ live (snd (construct [scanned_upstream; locked_upstream]))).
Proof.
  split_and!; [|done|].
  - assert (H : negb (succeeded (construct [scanned_upstream; locked_upstream])) = true) by by vm_compute.
    unfold succeeded in H. destruct (fst (construct _)) as [x|e]; [done|]. by exists e.
  - exists 9%nat. assert (H : bool_decide (Child 9 ∈ live (snd (construct [scanned_upstream; locked_upstream]))) = true)
      by by vm_compute.
    by apply bool_decide_eq_true in H.
Qed.

Lemma New_accounts_witness :
  os_ok empty_os /\ misuse empty_os = false /\
  match construct [scanned_upstream] with
  | (Ok (_, ps), s') => live (Gateway_Close id all_idle ps s') = ∅
  | _ => False
  end.
Proof.
  assert (H0 : os_ok empty_os) by (intros x; cbn; set_solver). split; [exact H0|]. split; [reflexivity|].
  assert (Hok : succeeded (construct [scanned_upstream]) = true) by (by vm_compute).
  destruct (construct [scanned_upstream]) as [[[g ps]|e] s'] eqn:E; [|discriminate Hok].
  exact (proj1 (proj2 (proj2 (proj2 (New_accounts 0 _ _ id (fun l => reflexivity l) _ _ empty_os _ s' H0 eq_refl E))))).
Defined.
