(* ===== verification/Cli.v ===== *)
(** * The command (cmd/mcp-gateway-lite/main.go)

The arguments as Go's [flag] package reads them, and [run] up to the point
where the server listens ([Lifecycle] has the rest): which configuration is used, what is printed, and
what ends the program before it serves. *)

From S2P Require Export LockInitSafety GatewayBuild.
Local Open Scope Z_scope.
Local Open Scope go_scope.

(** ** Arguments *)

Record options := MkOptions {
  configPath : bytes;
  listen : bytes;
  auditPath : bytes;
  showVersion : bool;
  checkOnly : bool;
  lockInit : bool;
  lockFilePath : bytes;
  ups : list Upstream
}.

Definition default_options : options := MkOptions [] [] [] false false false "mcp-sentinel.lock" [].

(** [strconv.ParseBool]. *)
Definition ParseBool (s : bytes) : option bool :=
  if bool_decide (s ∈ (["1"; "t"; "T"; "true"; "TRUE"; "True"] : list bytes)) then Some true
  else if bool_decide (s ∈ (["0"; "f"; "F"; "false"; "FALSE"; "False"] : list bytes)) then Some false
  else None.

Section flags.
Context {L : GoLib}.

(** A flag takes a value, or is boolean. *)
Inductive flag :=
| FValue (set : bytes -> options -> result options)
| FBool (set : bool -> options -> options).

(** [upstreamFlags.Set]. *)
Definition Set_upstream (v : bytes) (o : options) : result options :=
  up ← ParseUpstreamFlag v;
  mret (MkOptions (configPath o) (listen o) (auditPath o) (showVersion o) (checkOnly o) (lockInit o) (lockFilePath o) (ups o ++ [up])).

Definition flags : list (bytes * flag) := [
  ("config" : bytes, FValue (fun v o => Ok (MkOptions v (listen o) (auditPath o) (showVersion o) (checkOnly o) (lockInit o) (lockFilePath o) (ups o))));
  ("listen" : bytes, FValue (fun v o => Ok (MkOptions (configPath o) v (auditPath o) (showVersion o) (checkOnly o) (lockInit o) (lockFilePath o) (ups o))));
  ("audit" : bytes, FValue (fun v o => Ok (MkOptions (configPath o) (listen o) v (showVersion o) (checkOnly o) (lockInit o) (lockFilePath o) (ups o))));
  ("version" : bytes, FBool (fun v o => MkOptions (configPath o) (listen o) (auditPath o) v (checkOnly o) (lockInit o) (lockFilePath o) (ups o)));
  ("check" : bytes, FBool (fun v o => MkOptions (configPath o) (listen o) (auditPath o) (showVersion o) v (lockInit o) (lockFilePath o) (ups o)));
  ("lock-init" : bytes, FBool (fun v o => MkOptions (configPath o) (listen o) (auditPath o) (showVersion o) (checkOnly o) v (lockFilePath o) (ups o)));
  ("lock-file" : bytes, FValue (fun v o => Ok (MkOptions (configPath o) (listen o) (auditPath o) (showVersion o) (checkOnly o) (lockInit o) v (ups o))));
  ("upstream" : bytes, FValue Set_upstream) ].

(** What one argument is: text that is not a flag and ends the flags, the
terminator, a flag badly written, or a flag's name and its value, if any. *)
Inductive argument := Plain | Terminator | BadSyntax | Named (n : bytes) (value : option bytes).

Definition classify (s : bytes) : argument :=
  match s with
  | c :: d :: t =>
      if negb (Byte.eqb c x2d) then Plain
      else if Byte.eqb d x2d && bool_decide (t = []) then Terminator
      else
        let n := if Byte.eqb d x2d then t else d :: t in
        match n with
        | [] => BadSyntax
        | e :: _ =>
            if Byte.eqb e x2d || Byte.eqb e x3d then BadSyntax
            else let '(k, v, found) := cut n "=" in Named k (if found then Some v else None)
        end
  | _ => Plain
  end.

Inductive parsed := Parsed (o : options) | Help | Refused (e : goerror).

Definition refuse_value (v n : bytes) (e : goerror) : parsed :=
  Refused (EWrap ("invalid value " ++ quote v ++ " for flag -" ++ n ++ ": ") e).

(** [FlagSet.Parse]; the arguments after the flags are ignored. *)
Fixpoint Parse (o : options) (args : list bytes) : parsed :=
  match args with
  | [] => Parsed o
  | s :: args =>
      match classify s with
      | Plain | Terminator => Parsed o
      | BadSyntax => Refused (ENew ("bad flag syntax: " ++ s))
      | Named n value =>
          match find (fun f => bool_decide (fst f = n)) flags with
          | None =>
              if bool_decide (n ∈ (["help"; "h"] : list bytes)) then Help
              else Refused (ENew ("flag provided but not defined: -" ++ n))
          | Some (_, FBool set) =>
              match value with
              | None => Parse (set true o) args
              | Some v =>
                  match ParseBool v with
                  | Some b => Parse (set b o) args
                  | None => Refused (ENew ("invalid boolean value " ++ quote v ++ " for -" ++ n ++ ": parse error"))
                  end
              end
          | Some (_, FValue set) =>
              match value, args with
              | Some v, _ => match set v o with Ok o => Parse o args | Err e => refuse_value v n e end
              | None, v :: args => match set v o with Ok o => Parse o args | Err e => refuse_value v n e end
              | None, [] => Refused (ENew ("flag needs an argument: -" ++ n))
              end
          end
      end
  end.

End flags.

(** ** The run *)

(** [open] is the error of opening a path for appending. *)
Definition NewAuditor (open : bytes -> option goerror) (cfg : AuditConfig) : result Auditor :=
  if bool_decide (Path cfg = []) || bool_decide (Path cfg = "-") then Ok NewAuditorWriter
  else match open (Path cfg) with
       | Some e => Err (EWrap ("audit: open " ++ Path cfg ++ ": ") e)
       | None => Ok NewAuditorWriter
       end.

Definition override (o : options) (cfg : Config) : Config :=
  MkConfig (if bool_decide (listen o = []) then Listen cfg else listen o) (PublicBaseURL cfg)
    (if bool_decide (auditPath o = []) then AuditCfg cfg else MkAudit (auditPath o))
    (Upstreams cfg ++ ups o).

(** How [run] ends before it serves (what it printed, the lockfile it wrote and
its error), or the configuration it will serve with. *)
Inductive preparation :=
| Exits (stdout : bytes) (text : option bytes) (r : result unit)
| Ready (cfg : Config).

(** The same, with the gateway it serves with. *)
Inductive outcome :=
| Exit (stdout : bytes) (text : option bytes) (r : result unit)
| Serving (cfg : Config) (g : Gateway).

Section run.
Context {L : GoLib} {A : Arch} {W : Type} (Do : rpc_request -> W -> W * result rpc_response).

(** The world: the files, their presence, writing, the audit sink, the clock
at the start and the coprocesses. *)
Variables (read : bytes -> result bytes) (stat : bytes -> bool) (write : bytes -> bytes -> option goerror)
  (open : bytes -> option goerror) (at_start : Z) (start : bytes -> nat -> option goerror).

Definition base_config (o : options) : result Config :=
  if bool_decide (configPath o = []) then mret zero_config else Load (configPath o) (read (configPath o)).

(** [run] up to the point where the audit trail is opened. *)
Definition prepare (args : list bytes) (w : W) : W * preparation :=
  match Parse default_options args with
  | Help => (w, Exits [] None (Ok tt))
  | Refused e => (w, Exits [] None (Err e))
  | Parsed o =>
      if showVersion o then (w, Exits ("mcp-gateway-lite " ++ Version ++ [x0a]) None (Ok tt))
      else
        match base_config o with
        | Err e => (w, Exits [] None (Err e))
        | Ok base =>
            let '(cfg, valid) := Validate (override o base) in
            match valid with
            | Err e => (w, Exits [] None (Err e))
            | Ok _ =>
                if lockInit o then
                  let path := lockFilePath o in
                  let existing := if stat path then Some (read path) else None in
                  let '(w, out, text, r) := LockInit Do cfg path existing (write path) w in (w, Exits out text r)
                else if checkOnly o then
                  (w, Exits ("config ok: listen=" ++ Listen cfg ++ " upstreams=" ++ itoa (len (Upstreams cfg)) ++ [x0a]) None (Ok tt))
                else (w, Ready cfg)
            end
        end
  end.

Definition serve_with (cfg : Config) : outcome :=
  match (a ← NewAuditor open (AuditCfg cfg); New at_start read start cfg (Some a)) with
  | Err e => Exit [] None (Err e)
  | Ok g => Serving cfg g
  end.

Definition run (args : list bytes) (w : W) : W * outcome :=
  match prepare args w with
  | (w, Exits out text r) => (w, Exit out text r)
  | (w, Ready cfg) => (w, serve_with cfg)
  end.

End run.

(** ** Theorems *)

Section theorems.
Context {L : GoLib} {A : Arch} {W : Type} (Do : rpc_request -> W -> W * result rpc_response).
Variables (read : bytes -> result bytes) (stat : bytes -> bool) (write : bytes -> bytes -> option goerror)
  (open : bytes -> option goerror) (at_start : Z) (start : bytes -> nat -> option goerror).

Lemma override_listen o cfg : Listen (with_listen (override o cfg))
  = if bool_decide (listen o = []) then (if bool_decide (Listen cfg = []) then DefaultListen else Listen cfg) else listen o.
Proof. unfold with_listen, override. cbn. repeat case_bool_decide; cbn; congruence. Qed.

Lemma listen_set o cfg : Listen (with_listen (override o cfg)) <> [].
Proof. rewrite override_listen. by repeat case_bool_decide. Qed.

(** An upstream named by a flag has no limit, and so no rate that is NaN. *)
Lemma flags_numbers : Forall (fun f => match snd f with
  | FBool set => forall b o, Forall rate_number (ups o) -> Forall rate_number (ups (set b o))
  | FValue set => forall v o o', set v o = Ok o' -> Forall rate_number (ups o) -> Forall rate_number (ups o')
  end) flags.
Proof.
  unfold flags. rewrite !Forall_cons, Forall_nil. split_and!; [..|done]; cbn [snd]; try (by intros v o o' [= <-]); try done.
  unfold Set_upstream, ParseUpstreamFlag. intros v o o'. destruct (cut v "=") as [[n u] ok]. destruct (_ || _); [done|].
  intros [= <-] Ho. cbn [ups]. apply Forall_app. split; [done|]. by repeat constructor.
Qed.

Lemma Parse_numbers o args o' : Parse o args = Parsed o' -> Forall rate_number (ups o) -> Forall rate_number (ups o').
Proof.
  assert (H : forall n args o, (length args < n)%nat -> Parse o args = Parsed o' ->
    Forall rate_number (ups o) -> Forall rate_number (ups o')); [|by apply (H (S (length args))); lia].
  pose proof flags_numbers as Hf. rewrite Forall_forall in Hf.
  induction n as [|n IH]; intros [|s k] q Hn; try (cbn in Hn; lia); cbn [Parse]; [by intros [= ->]|]. cbn in Hn.
  destruct (classify s) as [| | |nm value]; [by intros [= ->]|by intros [= ->]|done|].
  destruct (find _ flags) as [[m [set|set]]|] eqn:E; [..|by case_bool_decide];
    apply find_some in E as [Hin%list_elem_of_In _]; specialize (Hf _ Hin); cbn [snd] in Hf.
  - destruct value as [v|]; [|destruct k as [|v k]; [done|]]; (destruct (set v q) as [q'|] eqn:Hs; [|done]);
      intros Hp Hq; (eapply IH; [|exact Hp|by eapply Hf]); cbn in Hn; lia.
  - destruct value as [v|]; [destruct (ParseBool v); [|done]|]; intros Hp Hq; (eapply IH; [|exact Hp|by apply Hf]); lia.
Qed.

Lemma base_numbers o base : base_config read o = Ok base -> rates_numbers base.
Proof. unfold base_config. case_bool_decide; [intros [= <-]; by constructor|]. by intros [_ ?]%Load_ok. Qed.

(** C20. When the program serves, it serves exactly what its file and its
flags ask for: the arguments parse and ask for nothing else, the flags replace
the listen address and the audit path of the file and add their upstreams
after those of the file, the result meets the documented constraints, and the
gateway is built for it on a fresh audit trail. *)
Theorem run_serves (args : list bytes) (w w' : W) (cfg : Config) (g : Gateway) :
  run Do read stat write open at_start start args w = (w', Serving cfg g) ->
  exists o base, Parse default_options args = Parsed o /\ w' = w /\
    showVersion o = false /\ lockInit o = false /\ checkOnly o = false /\
    base_config read o = Ok base /\
    Listen cfg = (if bool_decide (listen o = []) then (if bool_decide (Listen base = []) then DefaultListen else Listen base)
                  else listen o) /\
    Path (AuditCfg cfg) = (if bool_decide (auditPath o = []) then Path (AuditCfg base) else auditPath o) /\
    PublicBaseURL cfg = PublicBaseURL base /\ Upstreams cfg = Upstreams base ++ ups o /\
    config_ok cfg /\ g_cfg g = cfg /\ auditor g = NewAuditorWriter /\
    Forall (configured at_start read g) (Upstreams cfg) /\
    (forall n, n ∉ map Name (Upstreams cfg) -> unconfigured g n).
Proof.
  unfold run, prepare. destruct (Parse default_options args) as [o| |] eqn:Hp; [|done..].
  destruct (showVersion o) eqn:E1; [done|]. destruct (base_config read o) as [base|] eqn:Hb; [|done].
  destruct (Validate (override o base)) as [cfg1 valid] eqn:Hv.
  pose proof (Validate_fst (override o base)) as Hc. pose proof (Validate_accepts (override o base)) as Ha.
  rewrite Hv in Hc, Ha. cbn [fst snd] in Hc, Ha. subst cfg1. destruct valid as [[]|]; [|done].
  destruct (lockInit o) eqn:E2; [by destruct (LockInit _ _ _ _ _ _) as [[[]]]|].
  destruct (checkOnly o) eqn:E3; [done|]. unfold serve_with. intros [= <- H].
  destruct (NewAuditor open _) as [a|] eqn:Ha'; [|done]. cbn [mbind result_bind] in H.
  destruct (New _ _ _ _ _) as [g1|] eqn:Hn; [|done]. injection H as <- <-.
  apply New_built in Hn as (Hok & Hg & Hau & Hall & Hrest).
  exists o, base. split_and!; try done.
  - apply override_listen.
  - unfold with_listen, override. cbn. by repeat case_bool_decide.
  - unfold with_listen. by case_bool_decide.
  - by rewrite with_listen_upstreams.
  - apply config_taken_ok; [|done]. unfold rates_numbers. rewrite with_listen_upstreams. cbn [Upstreams override].
    apply Forall_app. split; [by apply (base_numbers o)|]. by eapply Parse_numbers.
  - rewrite Hg. unfold with_listen at 1. by rewrite bool_decide_false by apply listen_set.
  - rewrite Hau. unfold NewAuditor in Ha'. destruct (_ || _); [by injection Ha'|]. by destruct (open _); [|injection Ha'].
Qed.

End theorems.

(** ** Argument lists *)

Section roundtrip.
Context {L : GoLib}.

Definition fmt_bool (b : bool) : bytes := if b then "true" else "false".

(** A command line for the given options. *)
Definition arguments (o : options) : list bytes :=
  ["--config" : bytes; configPath o; "--listen"; listen o; "--audit"; auditPath o;
   "--version=" ++ fmt_bool (showVersion o); "--check=" ++ fmt_bool (checkOnly o);
   "--lock-init=" ++ fmt_bool (lockInit o); "--lock-file"; lockFilePath o]
  ++ concat (map (fun u => ["--upstream" : bytes; Name u ++ "=" ++ URL u]) (ups o)).

(** An upstream a flag can name. *)
Definition flag_upstream (u : Upstream) : Prop :=
  x3d ∉ Name u /\ Name u <> [] /\ URL u <> [] /\ u = MkUpstream (Name u) (URL u) 0 None [] [] None None [] [].

Lemma parse_value s n set v o args :
  classify s = Named n None -> find (fun f => bool_decide (fst f = n)) flags = Some (n, FValue set) ->
  Parse o (s :: v :: args) = match set v o with Ok o => Parse o args | Err e => refuse_value v n e end.
Proof. intros Hc Hf. cbn [Parse]. by rewrite Hc, Hf. Qed.

Lemma parse_bool s n set b o args :
  classify s = Named n (Some (fmt_bool b)) -> find (fun f => bool_decide (fst f = n)) flags = Some (n, FBool set) ->
  Parse o (s :: args) = Parse (set b o) args.
Proof. intros Hc Hf. cbn [Parse]. rewrite Hc, Hf. by destruct b. Qed.

Lemma ParseUpstreamFlag_text u : flag_upstream u -> ParseUpstreamFlag (Name u ++ "=" ++ URL u) = Ok u.
Proof.
  intros (Hn & H1 & H2 & ->). unfold ParseUpstreamFlag. cbn [Name URL] in *.
  change (Name u ++ "=" ++ URL u) with (Name u ++ x3d :: URL u). rewrite cut_byte by done.
  cbn [negb orb]. by rewrite !bool_decide_false.
Qed.

Lemma parse_upstreams us o :
  Forall flag_upstream us ->
  Parse o (concat (map (fun u => ["--upstream" : bytes; Name u ++ "=" ++ URL u]) us))
  = Parsed (MkOptions (configPath o) (listen o) (auditPath o) (showVersion o) (checkOnly o) (lockInit o) (lockFilePath o) (ups o ++ us)).
Proof.
  intros Hus. revert o. induction Hus as [|u us Hu _ IH]; intros o; [by destruct o; cbn; rewrite app_nil_r|].
  cbn [map concat app]. erewrite parse_value by reflexivity. unfold Set_upstream.
  rewrite ParseUpstreamFlag_text by done. cbn [mbind result_bind mret result_ret]. rewrite IH. cbn. by rewrite <- app_assoc.
Qed.

Ltac read_options :=
  cbn beta iota; cbn [configPath listen auditPath showVersion checkOnly lockInit lockFilePath ups app] in *.

(** Every combination of options can be asked for: the command line
written for it, with any text as paths and addresses, parses to it. *)
Lemma arguments_roundtrip (o : options) :
  Forall flag_upstream (ups o) -> Parse default_options (arguments o) = Parsed o.
Proof.
  intros Hus. unfold arguments. destruct o as [c l a v k i f us]. unfold default_options. read_options.
  do 3 (erewrite parse_value by reflexivity; read_options).
  do 3 (erewrite parse_bool by (destruct v, k, i; reflexivity); read_options).
  erewrite parse_value by reflexivity. read_options. by rewrite parse_upstreams.
Qed.

End roundtrip.
