(* ===== verification/Lifecycle.v ===== *)
(** * The command from start to end (cmd/mcp-gateway-lite/main.go)

[run] and [main] as a whole: the audit file and the gateway are opened, the
server runs until its listener fails or a signal asks it to stop, and the
deferred calls close the gateway and then the audit trail.  What the program
holds of the operating system is followed from the first call to the last. *)

From S2P Require Export Startup Cli.
Local Open Scope Z_scope.
Local Open Scope go_scope.

(** ** The audit file *)

Section lifecycle.
Context {L : GoLib} {A : Arch} {W : Type} (Do : rpc_request -> W -> W * result rpc_response).
Variables (read : bytes -> result bytes) (stat : bytes -> bool) (write : bytes -> bytes -> option goerror)
  (open : bytes -> option goerror) (at_start : Z) (starts : bytes -> nat -> start_outcome)
  (visit : list bytes -> list bytes).

(** [NewAuditor] and [Auditor.Close]: the closer is the descriptor of the
file, if there is one. *)
Definition NewAuditor_os (cfg : AuditConfig) (s : os) : result (Auditor * option nat) * os :=
  if bool_decide (Path cfg = []) || bool_decide (Path cfg = "-") then (Ok (NewAuditorWriter, None), s)
  else match open (Path cfg) with
       | Some e => (Err (EWrap ("audit: open " ++ Path cfg ++ ": ") e), s)
       | None => (Ok (NewAuditorWriter, Some (next s)), acquire (Fd (next s)) s)
       end.

Definition Auditor_Close (closer : option nat) (s : os) : os := close_opt closer s.

(** ** Serving *)

Record server := MkServer { sv_addr : bytes; sv_header_timeout : Z }.

Definition the_server (cfg : Config) : server := MkServer (Listen cfg) (10 * 1000000000).

(** How serving ends: the listener fails, or a signal comes and [Shutdown]
returns, with an error when its time is up first. *)
Inductive ending := ListenFailed (e : goerror) | Interrupted (shutdown : option goerror).

Definition ending_result (e : ending) : result unit :=
  match e with
  | ListenFailed e => Err e
  | Interrupted (Some e) => Err e
  | Interrupted None => Ok tt
  end.

(** What happened while it served: what was done with the coprocesses of each
upstream, and which of them a handler still has when [run] returns. *)
Record service := MkService {
  se_ops : list (bytes * (nat * proc_op));
  se_busy : bytes -> nat -> bool;
  se_end : ending
}.

Definition pool_op (st : gmap bytes (list ppProc) * os) (op : bytes * (nat * proc_op)) : gmap bytes (list ppProc) * os :=
  match fst st !! fst op with
  | None => st
  | Some l => let '(l, s) := run_op (l, snd st) (snd op) in (<[fst op := l]> (fst st), s)
  end.

Definition pool_ops (ops : list (bytes * (nat * proc_op))) (st : gmap bytes (list ppProc) * os) :
    gmap bytes (list ppProc) * os :=
  fold_left pool_op ops st.

(** [run] from the opening of the audit trail on; the deferred calls run in
reverse order. *)
Definition serve_os (listen : server -> Gateway -> service) (cfg : Config) (s : os) : result unit * os :=
  match NewAuditor_os (AuditCfg cfg) s with
  | (Err e, s) => (Err e, s)
  | (Ok (a, closer), s) =>
      match New_os at_start read starts visit cfg (Some a) s with
      | (Err e, s) => (Err e, Auditor_Close closer s)
      | (Ok (g, ps), s) =>
          let v := listen (the_server cfg) g in
          let '(ps, s) := pool_ops (se_ops v) (ps, s) in
          (ending_result (se_end v), Auditor_Close closer (Gateway_Close visit (se_busy v) ps s))
      end
  end.

Record ended := MkEnded { en_stdout : bytes; en_text : option bytes; en_result : result unit; en_os : os }.

Definition run_os (listen : server -> Gateway -> service) (args : list bytes) (w : W) (s : os) : W * ended :=
  match prepare Do read stat write args w with
  | (w, Exits out text r) => (w, MkEnded out text r s)
  | (w, Ready cfg) => let '(r, s) := serve_os listen cfg s in (w, MkEnded [] None r s)
  end.

(** [main]: the exit code and the last line on the error stream. *)
Definition main_exit (r : result unit) : Z * bytes :=
  match r with
  | Ok _ => (0, [])
  | Err e => (1, "mcp-gateway-lite: " ++ Error e ++ [x0a])
  end.

(** ** Theorems *)

(** Up to serving it is [run]. *)
Lemma NewAuditor_agrees cfg s : fst <$> fst (NewAuditor_os cfg s) = NewAuditor open cfg.
Proof. unfold NewAuditor_os, NewAuditor. destruct (_ || _); [done|]. by destruct (open _). Qed.

Lemma run_agrees listen args w s :
  let '(w1, o) := run Do read stat write open at_start (start_errors starts) args w in
  let '(w2, e) := run_os listen args w s in
  w1 = w2 /\
  match o with
  | Exit out text r => en_stdout e = out /\ en_text e = text /\ en_result e = r
  | Serving cfg g => en_stdout e = [] /\ en_text e = None /\ en_result e = ending_result (se_end (listen (the_server cfg) g))
  end.
Proof.
  unfold run, run_os. destruct (prepare _ _ _ _ _ _) as [w1 [out text r|cfg]]; [done|].
  unfold serve_with, serve_os. rewrite <- (NewAuditor_agrees _ s).
  destruct (NewAuditor_os _ s) as [[[a closer]|e] s1]; [|done].
  pose proof (New_os_agrees at_start read starts visit cfg (Some a) s1) as H.
  cbn [fst mbind result_bind fmap result_fmap]. rewrite <- H.
  destruct (New_os _ _ _ _ _ _ s1) as [[[g ps]|e] s2]; [|done]. cbn [fst fmap result_fmap].
  by destruct (pool_ops _ _) as [ps3 s3].
Qed.

Hypothesis visits : forall l, visit l ≡ₚ l.

(** A coprocess used in its pool. *)
Lemma run_op_app l rest (s : os) op : (fst op < length l)%nat ->
  run_op (l ++ rest, s) op = (fst (run_op (l, s) op) ++ rest, snd (run_op (l, s) op)).
Proof.
  intros Hi. unfold run_op. cbn [fst snd]. rewrite lookup_app_l by done.
  destruct (lookup_lt_is_Some_2 l (fst op) Hi) as [p Hp]. rewrite Hp.
  destruct (match snd op with OpScan o io t => _ | OpShutdown => _ | OpStderrEnds => _ end) as [p' s']. cbn [fst snd].
  by rewrite insert_app_l.
Qed.

Lemma run_op_holds base l rest (s : os) op : holds base (l ++ rest) s ->
  holds base (fst (run_op (l, s) op) ++ rest) (snd (run_op (l, s) op)).
Proof.
  intros H. destruct (decide (fst op < length l)%nat) as [Hi|Hi].
  - pose proof (run_ops_holds base [op] (l ++ rest, s) H) as H1. cbn [run_ops fold_left] in H1.
    by rewrite run_op_app in H1 by done.
  - unfold run_op. cbn [fst snd]. by rewrite lookup_ge_None_2 by lia.
Qed.

Lemma all_procs_split (ps : gmap bytes (list ppProc)) n l : ps !! n = Some l -> all_procs ps ≡ₚ l ++ all_procs (delete n ps).
Proof. intros H. unfold all_procs. by rewrite <- (map_to_list_delete ps n l H). Qed.

Lemma pool_op_holds base st op : holds base (all_procs (fst st)) (snd st) ->
  holds base (all_procs (fst (pool_op st op))) (snd (pool_op st op)).
Proof.
  destruct st as [ps s]. cbn [fst snd]. intros H. unfold pool_op. cbn [fst snd].
  destruct (ps !! fst op) as [l|] eqn:Hl; [|done]. pose proof (run_op_holds base l (all_procs (delete (fst op) ps)) s (snd op)) as H1.
  destruct (run_op (l, s) (snd op)) as [l' s']. cbn [fst snd] in *.
  rewrite (all_procs_split _ _ _ Hl) in H. rewrite <- insert_delete_eq, all_procs_insert by apply lookup_delete_eq.
  rewrite Permutation_app_comm. by apply H1.
Qed.

Lemma pool_ops_holds base ops st : holds base (all_procs (fst st)) (snd st) ->
  holds base (all_procs (fst (pool_ops ops st))) (snd (pool_ops ops st)).
Proof. revert st. induction ops as [|op ops IH]; intros st H; [done|]. by apply IH, pool_op_holds. Qed.

(** The audit file, opened before everything else and closed after it. *)
Lemma holds_close_fd base d ps s : holds ({[Fd d]} ∪ base) ps s -> Fd d ∉ base -> holds base ps (Close d s).
Proof.
  intros [H1 H2 H3 H4 H5 H6] Hd. assert (Hin : Fd d ∈ live s) by (apply H3; left; set_solver).
  assert (Hno : forall i p, ps !! i = Some p -> Fd d ∉ owned p) by (intros i p Hi Hp; specialize (H4 i p Hi); set_solver).
  constructor; try done.
  - intros x Hx. cbn in Hx |- *. apply H1. set_solver.
  - intros x. unfold Close. cbn [live release]. rewrite elem_of_difference, H3, elem_of_union, elem_of_singleton. split.
    + intros [[[->|Hb]|(i & p & Hi & Hx)] Hne]; [done|by left|right; eauto].
    + intros [Hb|(i & p & Hi & Hx)]; (split; [eauto 6|intros ->]); [done|by apply (Hno i p)].
  - intros i p Hi. specialize (H4 i p Hi). set_solver.
  - unfold Close. by rewrite release_misuse.
Qed.

Lemma audit_file cfg s a closer s1 : os_ok s -> misuse s = false -> NewAuditor_os cfg s = (Ok (a, closer), s1) ->
  a = NewAuditorWriter /\ os_ok s1 /\ misuse s1 = false /\
  (forall d, closer = Some d -> Fd d ∈ live s1 /\ Fd d ∉ live s) /\
  forall ps s2, holds (live s1) ps s2 -> holds (live s) ps (Auditor_Close closer s2).
Proof.
  intros Hs Hm. unfold NewAuditor_os. destruct (_ || _); [intros [= <- <- <-]; by split_and!|].
  destruct (open _) as [e|]; [done|]. intros [= <- <- <-]. split_and!; [done| |done| |].
  - intros x. unfold acquire. cbn. rewrite elem_of_union, elem_of_singleton. intros [->|Hx%Hs]; cbn; lia.
  - intros d [= <-]. split; [cbn; set_solver|]. intros Hx%Hs. cbn in Hx. lia.
  - intros ps s2 H. apply holds_close_fd; [exact H|]. intros Hx%Hs. cbn in Hx. lia.
Qed.

(** What a run leaves behind: the coprocesses handlers still have when it
returns; when [New] fails nothing, or the coprocesses of the upstreams before the
one it could not prepare. [s1] is the system when [New] is called. *)
Definition leaves (listen : server -> Gateway -> service) (cfg : Config) (a : Auditor) (s1 : os) (r : result unit)
    (left : list ppProc) : Prop :=
  match New_os at_start read starts visit cfg (Some a) s1 with
  | (Ok (g, ps), s2) =>
      let v := listen (the_server cfg) g in
      r = ending_result (se_end v) /\ left = checked_out visit (se_busy v) (fst (pool_ops (se_ops v) (ps, s2)))
  | (Err e, s2) =>
      r = Err e /\
      (left = [] \/
       exists before u after b, Upstreams cfg = before ++ u :: after /\
         add_upstreams_os at_start read starts visit (new_building (with_listen cfg) a) before s1 = (Ok b, s2) /\
         left = all_procs (bd_pools b) /\ add_route at_start read (bd_gateway b, bd_cache b) u = Err e)
  end.

Lemma serve_leaves listen cfg s a closer s1 r s' :
  os_ok s -> misuse s = false -> NewAuditor_os (AuditCfg cfg) s = (Ok (a, closer), s1) ->
  serve_os listen cfg s = (r, s') ->
  exists left s2, leaves listen cfg a s1 r left /\ holds (live s1) left s2 /\
    s' = Auditor_Close closer s2 /\ holds (live s) left s'.
Proof.
  intros Hs Hm Ha. unfold serve_os, leaves. rewrite Ha.
  destruct (audit_file _ _ _ _ _ Hs Hm Ha) as (-> & Hs1 & Hm1 & _ & Hclose).
  destruct (New_os _ _ _ _ _ _ s1) as [r1 s2] eqn:Hn.
  apply (New_accounts _ _ _ _ visits) in Hn as [Hnew Hn]; [|done|done]. destruct r1 as [[g ps]|e].
  - destruct Hn as (_ & Hh & _). pose proof (pool_ops_holds (live s1) (se_ops (listen (the_server cfg) g)) (ps, s2) Hh) as H3.
    destruct (pool_ops _ _) as [ps3 s3]. intros [= <- <-]. cbn [fst snd] in *.
    pose proof (Gateway_Close_rest _ visits (live s1) (se_busy (listen (the_server cfg) g)) ps3 s3 H3) as H4.
    eexists _, _. split; [done|]. split; [exact H4|]. split; [done|]. by apply Hclose.
  - intros [= <- <-]. destruct Hn as (left & Hh & Hleft). exists left, s2. split; [|split; [done|split; [done|by apply Hclose]]].
    split; [done|]. destruct Hleft as [->|(a' & before & u & after & b & [= <-] & Hus & Hb & Hl & He)]; [by left|]. right. by exists before, u, after, b.
Qed.


End lifecycle.
