(* ===== verification/EndToEnd.v ===== *)
(** * From request to client (gateway/gateway.go with responsefilter.go and sserewrite.go)

The response processing seen from outside: what a client of a route under an
allowlist or an enforced lock is sent, whatever its upstream answers. *)

From S2P Require Import FilterBodies.
From S2P Require Export SseSafety GatewaySafety.
Local Open Scope Z_scope.
Local Open Scope go_scope.

Section client.
Context {L : GoLib} {A : Arch} {E : ScanEnv} {T : Transport}.

(** ** The parts of a response *)

Lemma process_plain r s r' s' : processJSONBody r s = ((r', s'), None) -> exists src, Body r' = Plain src.
Proof.
  unfold processJSONBody. destruct (read_limited _ _) as [[buf e] rest]. destruct e; [done|]. destruct (_ <? _).
  - destruct (ResponseFilter.strict s); intros [= <- _]; by eexists.
  - destruct (process_text _ _) as [s0 [|b|c rs|e]]; try done; intros [= <- _]; by eexists.
Qed.

(** A response copied to a fresh writer without the handler being aborted. *)
Lemma copy_fresh r st w w2 st2 :
  wr_final w = None -> wr_body w = [] -> wr_head w = false -> 200 <= StatusCode r ->
  copy_response r st (MkCounting w 0 0) = (w2, st2, false) ->
  client_status (cw_writer w2) = StatusCode r /\ wr_body (cw_writer w2) = fst (fst (read_body (Body r) st)) /\
  snd (fst (read_body (Body r) st)) = None.
Proof.
  intros Hw Hb Hh Hc. unfold copy_response. destruct (valid_code (StatusCode r)); cbn [negb]; [|done].
  destruct (read_body (Body r) st) as [[b err] st']. cbn [fst snd]. set (w0 := WriteHeader _ _).
  assert (Hw0 : exists h, wr_final (cw_writer w0) = Some (StatusCode r, h) /\ wr_body (cw_writer w0) = [] /\ wr_head (cw_writer w0) = false).
  { unfold w0, WriteHeader, wr_write_header. cbn [cw_writer wr_final cw_set_header set_wr_header]. rewrite Hw.
    rewrite (proj2 (Z.leb_le 100 _)), (proj2 (Z.leb_gt _ 199)) by lia. cbn [andb wr_final wr_body wr_head]. by eexists. }
  clearbody w0. destruct Hw0 as (h & H1 & H2 & H3). case_bool_decide as Hbn.
  - intros [= <- _ Herr]. unfold client_status. rewrite H1, H2. split_and!; [done|done|]. by destruct err.
  - unfold Write, wr_write, wr_write_header. rewrite H1, H3. destruct (body_allowed _); cbn [negb].
    2: { intros [= _ _ Hab]. apply orb_false_iff in Hab as [Hn _]. apply Z.ltb_ge in Hn. destruct b; [done|]. unfold len in Hn. cbn in Hn. lia. }
    intros [= <- _ Hab]. apply orb_false_iff in Hab as [Hn Herr].
    apply Z.ltb_ge in Hn. cbn [cw_writer wr_body]. unfold client_status. cbn [wr_final]. rewrite H1, H2. cbn [app].
    split_and!; [done| |by destruct err]. apply take_ge. unfold len in *. lia.
Qed.

Lemma fails_fresh o n e w st : wr_final w = None -> client_status (cw_writer (ex_writer (fails o n e (MkCounting w 0 0) st))) = StatusBadGateway.
Proof.
  intros Hw. unfold fails, ErrorHandler, Write, wr_write, WriteHeader, wr_write_header. cbn [cw_status Z.eqb negb].
  cbn [cw_writer wr_final cw_set_header set_wr_header]. rewrite Hw. cbn. by destruct (wr_head w).
Qed.

(** C1. What a client is shown under strict processing, end to end: when an
upstream answers a request with a listing with a 200, without an informational
response before it, and the handler is not aborted, the client is sent a 403, a
502, or a 200 with JSON messages, or events, in which no answer to one of its
listings, as the gateway reads it and by an id that is not also that of a
scanned call, holds a tool whose name the policy does not allow, for a client
that ends the lines of events at a newline.  (An answer with another status is
not processed.) *)
Theorem strict_end_to_end g r m p room n u s :
  passed_on g r m p -> request_state g r = Some s -> ResponseFilter.strict s = true ->
  RoundTrip (outgoing p true r) = MkReply [] n (Ok u) -> ur_code u = StatusOK ->
  exists g' w' x, handleProxy g r m (new_writer room) = (g', w', Some x) /\
    (ex_aborted x = false ->
     client_status w' = StatusForbidden \/ client_status w' = StatusBadGateway \/
     (client_status w' = StatusOK /\
       ((exists ms ms', messages (src_data (ur_source u)) = Some ms /\ messages (wr_body w') = Some ms' /\
           Forall2 (listing_safe s) ms ms') \/
        Forall (safe_payload s) (client_events (wr_body w'))))).
Proof.
  intros Hp Hst Hs Ha Hc. destruct (handle_passed g r m (new_writer room) p Hp) as (g' & e & Hh & _ & _).
  exists g', (cw_writer (ex_writer (exchange_of g r p (new_writer room)))), (exchange_of g r p (new_writer room)).
  split; [exact Hh|]. rewrite (exchange_passed g r m p (new_writer room) Hp), Hst. cbn zeta iota. rewrite Ha.
  cbn [rp_answer rp_infos rp_read fold_left]. rewrite (proj2 (Z.eqb_neq (ur_code u) 101)) by by rewrite Hc.
  set (res := with_header _ (received u)). assert (Hsc : StatusCode res = StatusOK) by done.
  assert (Hsrc : source_of res = ur_source u) by done. clearbody res. unfold modifyResponse. rewrite Hsc. cbn [Z.eqb negb StatusOK Pos.eqb].
  destruct (has_prefix (h_get (Header res) "Content-Type") "application/json").
  - destruct (processJSONBody res s) as [[r1 s1] err] eqn:Hj. destruct err as [err|].
    + cbn [fst snd]. intros _. right; left. by apply fails_fresh.
    + set (r2 := if _ && _ then _ else r1).
      assert (H2 : StatusCode r2 = StatusCode r1 /\ Body r2 = Body r1) by (unfold r2; by destruct (_ && _)). clearbody r2.
      destruct H2 as [H2 H3]. destruct (process_plain _ _ _ _ Hj) as [src Hb]. pose proof (process_body_cases _ _ _ _ Hj) as Hcases.
      pose proof (strict_body _ _ _ _ Hs Hj) as Hsafe.
      destruct (copy_response r2 (Some s1) (MkCounting (new_writer room) 0 0)) as [[w2 st2] ab] eqn:Hcp. cbn [ex_aborted ex_writer].
      intros ->. assert (Hge : 200 <= StatusCode r2).
      { rewrite H2. destruct Hcases as [[-> _]|[(_ & -> & _)|(_ & s0 & br & _ & [(_ & _ & -> & _)|(b & _ & _ & -> & _)])]]; by rewrite ?Hsc. }
      apply copy_fresh in Hcp as (E1 & E2 & _); [|done|done|done|exact Hge]. rewrite E1, H2.
      destruct Hsafe as [[Hf _]|(ms & ms' & M1 & M2 & M3)]; [by left|].
      destruct Hcases as [[Hf _]|Hok]; [by left|]. right; right. split.
      { destruct Hok as [(_ & -> & _)|(_ & s0 & br & _ & [(_ & _ & -> & _)|(b & _ & _ & -> & _)])]; by rewrite ?Hsc. }
      left. exists ms, ms'. unfold body_data in M1, M2. rewrite Hsrc in M1. unfold source_of in M2. rewrite Hb in M2.
      rewrite E2, H3, Hb. by split_and!.
  - destruct (has_prefix (h_get (Header res) "Content-Type") "text/event-stream").
    + cbn [Body with_body]. rewrite Hsrc.
      destruct (copy_response _ (Some s) (MkCounting (new_writer room) 0 0)) as [[w2 st2] ab] eqn:Hcp. cbn [ex_aborted ex_writer].
      intros ->. apply copy_fresh in Hcp as (E1 & E2 & _); [|done|done|done|cbn [StatusCode with_body]; by rewrite Hsc].
      right; right. rewrite E1. split; [exact Hsc|]. right. rewrite E2. cbn [Body with_body read_body fst snd].
      by apply strict_drain.
    + rewrite Hs. unfold blockResponse, blockResponseCode. cbn [fst snd].
      destruct (copy_response _ _ (MkCounting (new_writer room) 0 0)) as [[w2 st2] ab] eqn:Hcp. cbn [ex_aborted ex_writer].
      intros ->. apply copy_fresh in Hcp as (E1 & _); [|done..]. left. by rewrite E1.
Qed.

End client.
