(* ===== verification/Scenarios.v ===== *)
(** * Concrete gateways

A gateway built from a small configuration, an upstream as a concrete
function, and requests that run through the handler: instances of the
theorems about it, and a scenario in which two of its features meet. *)

From S2P Require Import FilterBodies RateLimit.
From S2P Require Export EndToEnd Serializable GatewayBuild Lifecycle.
Local Open Scope Z_scope.
Local Open Scope go_scope.

#[local] Existing Instance plain_lib.
#[local] Existing Instance amd64.
#[local] Existing Instance clean_env.

Definition no_file : bytes -> result bytes := fun _ => Err (ENew "no such file").
Definition all_start : bytes -> nat -> option goerror := fun _ _ => None.

Definition read_only (pp : option PromptProofConfig) : Upstream :=
  MkUpstream "s" "http://127.0.0.1:9/base/" 0 None ["read" : bytes] [] None pp [] [].

Definition config_of (u : Upstream) : Config := MkConfig [] [] (MkAudit []) [u].

Definition empty_gateway (c : Config) : Gateway := MkGateway c NewAuditorWriter ∅ ∅ ∅ ∅ ∅ ∅ ∅.

Definition built (u : Upstream) : Gateway :=
  match New 0 no_file all_start (config_of u) (Some NewAuditorWriter) with
  | Ok g => g
  | Err _ => empty_gateway (config_of u)
  end.

Definition at_noon : moment := MkMoment "2026-01-01T12:00:00Z" 1500 0 0 0 [] write_ok.

Definition post (path : bytes) (h : header) (b : bytes) : request :=
  MkRequest "POST" path [] "localhost:8385" "127.0.0.1:5000" false h (Some (Source b None)) (len b).

Definition answers (u : upstream_response) : Transport :=
  {| RoundTrip := fun _ => MkReply [] 0 (Ok u); pieces := fun b => [b]; pieces_concat := fun b => app_nil_r b |}.

Definition json_answer (b : bytes) : upstream_response :=
  MkUpstreamResponse 200 "200 OK" {["Content-Type" : bytes := ["application/json" : bytes]]} (Source b None) (len b) [].

Definition list_request : request := post "/mcp/s" ∅ "{'jsonrpc':'2.0','id':1,'method':'tools/list'}"%js.
Definition tools_answer : bytes :=
  "{'jsonrpc':'2.0','id':1,'result':{'tools':[{'name':'read'},{'name':'delete'}]}}"%js.
Definition filtered_answer : bytes := "{'jsonrpc':'2.0','id':1,'result':{'tools':[{'name':'read'}]}}"%js.

Definition the_proxy (u : Upstream) : proxy :=
  match newProxy u with Ok p => p | Err _ => MkProxy (Url [] [] None [] [] [] false [] []) [] 0 end.

(** The gateway at work: a listing is filtered, a call of a tool that is not
on the list is refused, and both leave an entry. *)
Example filtered_listing :
  let _ := answers (json_answer tools_answer) in
  let '(g, w, _) := serve (built (read_only None)) list_request at_noon (new_writer 10000) in
  client_status w = 200 /\ wr_body w = filtered_answer /\
  (map (fun e => (EntryStatus e, ToolsFiltered e)) <$> read_trail (sink (auditor g))) = Some [(200, 1)].
Proof. by vm_compute. Qed.

Definition delete_request : request :=
  post "/mcp/s" ∅ "{'id':1,'method':'tools/call','params':{'name':'delete'}}"%js.

Example refused_call :
  let _ := answers (json_answer tools_answer) in
  let '(g, w, x) := serve (built (read_only None)) delete_request at_noon (new_writer 10000) in
  client_status w = 403 /\ match x with None => True | Some _ => False end /\
  (map (fun e => (EntryStatus e, EntryError e)) <$> read_trail (sink (auditor g)))
    = Some [(403, "tool blocked by policy: delete" : bytes)].
Proof. by vm_compute. Qed.

(** ** Two features meet

The comment at the state says that the ids of listings and of calls are
disjoint.  Nothing makes them so: a batch may use one id for both. *)
Definition scanning : PromptProofConfig := MkPromptProof true [] [] [] 0 0 0.

Definition twin_request : request :=
  post "/mcp/s" ∅
    "[{'id':1,'method':'tools/list'},{'id':1,'method':'tools/call','params':{'name':'read'}}]"%js.

Definition deletion_listed : bytes := "{'jsonrpc':'2.0','id':1,'result':{'tools':[{'name':'delete'}]}}"%js.

(** A shared id takes a listing past the allowlist: when a batch uses one
id for its listing and for a call, and the route is scanned, the answer to
the listing is scanned as a result and sent to the client with the tool the
list hides. *)
Lemma shared_id_bypass :
  let _ := answers (json_answer deletion_listed) in
  let '(g, w, x) := serve (built (read_only (Some scanning))) twin_request at_noon (new_writer 10000) in
  client_status w = 200 /\ wr_body w = deletion_listed /\
  listed_tools (wr_body w) = Some ["{'name':'delete'}"%js] /\
  allows (policies g !! ("s" : bytes)) "delete" = false /\
  (map (fun e => (EntryStatus e, ToolsFiltered e)) <$> read_trail (sink (auditor g))) = Some [(200, 0)].
Proof. by vm_compute. Qed.

(** ** Instances *)

Definition plain_gateway : Gateway := built (read_only None).
Definition s_proxy : proxy := the_proxy (read_only None).

(** The three parts of a call's result. *)
Definition after {T : Transport} (r : request) : Gateway * writer * option exchange :=
  handleProxy plain_gateway r at_noon (new_writer 10000).

Lemma after_parts {T : Transport} r x : snd (after r) = x ->
  handleProxy plain_gateway r at_noon (new_writer 10000) = (fst (fst (after r)), snd (fst (after r)), x).
Proof. unfold after. destruct (handleProxy _ _ _ _) as [[g w] y]. by intros <-. Qed.

Lemma list_passed {T : Transport} : passed_on plain_gateway list_request at_noon s_proxy.
Proof. constructor; by vm_compute. Qed.

Definition pol_of (n : bytes) : toolPolicy := default (MkPolicy None None) (policies plain_gateway !! n).

Definition allowed_of (n : bytes) : gset bytes := default ∅ (allow (pol_of n)).

(** Whether there is a value, without computing it. *)
Definition present {X} (o : option X) : bool := match o with Some _ => true | None => false end.

Lemma some_default {X} (o : option X) d : present o = true -> o = Some (default d o).
Proof. by destruct o. Qed.

Section json_upstream.
#[local] Instance listing_upstream : Transport := answers (json_answer tools_answer).

Definition list_exchange : exchange := exchange_of plain_gateway list_request s_proxy (new_writer 10000).
Definition list_out : out_request :=
  outgoing s_proxy (match request_state plain_gateway list_request with Some _ => true | None => false end) list_request.

Lemma forwarded_is_judged_witness :
  policies plain_gateway !! route_name (rq_path list_request) = Some (pol_of "s") /\
  allow (pol_of "s") = Some (allowed_of "s") /\
  exists ps, body_probes (src_data (Source (src_data (default (Source [] None) (rq_body list_request))) None)) = Some ps /\
    Forall (fun p => is_call p = true -> exists n, probe_tools p = [n] /\ n ∈ allowed_of "s") ps.
Proof.
  assert (H1 : policies plain_gateway !! route_name (rq_path list_request) = Some (pol_of "s"))
    by by apply (some_default (policies plain_gateway !! ("s" : bytes))); vm_compute.
  assert (H2 : allow (pol_of "s") = Some (allowed_of "s")) by by apply some_default; vm_compute.
  split; [exact H1|]. split; [exact H2|].
  destruct (handle_passed plain_gateway list_request at_noon (new_writer 10000) s_proxy list_passed) as (g' & e & Hh & _).
  eapply (forwarded_is_judged plain_gateway list_request at_noon (new_writer 10000) g' _ _ list_out _ (pol_of "s") _ H1 H2 Hh).
  - apply (exchange_sent _ _ at_noon). exact list_passed.
  - reflexivity.
Defined.

Lemma refusal_complete_witness :
  wr_final (new_writer 10000) = None /\ snd (after delete_request) = None /\
  exists status code msg h e, refused plain_gateway delete_request at_noon (new_writer 10000) status code msg h /\
    client_status (snd (fst (after delete_request))) = status /\
    wr_final (snd (fst (after delete_request))) = Some (status, h_set h "Content-Type" "application/json") /\
    fst (fst (after delete_request)) = log_entry e at_noon (charged plain_gateway delete_request at_noon) /\
    entry_of delete_request at_noon e /\ EntryStatus e = status /\ EntryError e = msg.
Proof.
  split; [done|]. assert (H : snd (after delete_request) = None) by by vm_compute. split; [exact H|].
  destruct (refusal_complete plain_gateway delete_request at_noon (new_writer 10000) (fst (fst (after delete_request)))
    (snd (fst (after delete_request)))) as (st & c & m & h & e & H1 & H2 & H3 & _ & H4); [done|by apply after_parts|].
  by exists st, c, m, h, e.
Defined.

Lemma audit_accurate_witness :
  exists e, auditor (fst (fst (after delete_request))) = Log e (sink_takes at_noon e) (auditor plain_gateway) /\
    entry_of delete_request at_noon e /\ EntryStatus e = client_status (snd (fst (after delete_request))) /\
    wr_final (snd (fst (after delete_request))) <> None.
Proof.
  assert (H : snd (after delete_request) = None) by by vm_compute.
  destruct (audit_accurate plain_gateway delete_request at_noon (new_writer 10000) (fst (fst (after delete_request)))
    (snd (fst (after delete_request))) None) as (e & H1); [done|done|by apply after_parts|done|].
  exists e. by destruct H1 as (H1 & H2 & H3 & H4).
Defined.
End json_upstream.

(** *** Upstreams that fail *)

Definition broken_answer : upstream_response :=
  MkUpstreamResponse 200 "200 OK" ∅ (Source "partial" (Some (ENew "unexpected EOF"))) (-1) [].

Definition ping_request : request := post "/mcp/s" ∅ "{'jsonrpc':'2.0','id':1,'method':'ping'}"%js.

Lemma ping_passed {T : Transport} : passed_on plain_gateway ping_request at_noon s_proxy.
Proof. constructor; by vm_compute. Qed.

Lemma broken_body_unaudited_witness :
  let _ := answers broken_answer in
  exists g' w' x, handleProxy plain_gateway ping_request at_noon (new_writer 10000) = (g', w', Some x) /\
    auditor g' = auditor plain_gateway /\ client_status w' = 200 /\ is_Some (ex_sent x).
Proof.
  intros T. apply (broken_body_unaudited _ _ _ (new_writer 10000) s_proxy 0 broken_answer (ENew "unexpected EOF"));
    [exact ping_passed|by vm_compute|done|done|done|done].
Defined.

Definition hint_then_failure : Transport :=
  {| RoundTrip := fun _ => MkReply [(103, ∅)] 0 (Err (ENew "EOF")); pieces := fun b => [b]; pieces_concat := fun b => app_nil_r b |}.

Lemma early_hint_hides_failure_witness :
  let _ := hint_then_failure in
  exists g' w' x en, handleProxy plain_gateway ping_request at_noon (new_writer 10000) = (g', w', Some x) /\
    client_status w' = StatusOK /\ wr_body w' = [] /\
    auditor g' = Log en (sink_takes at_noon en) (auditor plain_gateway) /\ EntryStatus en = 103.
Proof.
  intros T. apply (early_hint_hides_failure _ _ _ (new_writer 10000) s_proxy 0 ∅ (ENew "EOF"));
    [exact ping_passed|done|done].
Defined.

Definition no_tools : Upstream := MkUpstream "s" "http://127.0.0.1:9/base/" 0 None [] [] None None [] [].

Definition open_gateway : Gateway := built no_tools.

Definition chunked_request : request :=
  MkRequest "POST" "/mcp/s" [] "localhost" "127.0.0.1:5000" false ∅
    (Some (Source "{'id':1"%js (Some (ENew "invalid byte in chunk length")))) (-1).

Lemma truncated_body_forwarded_witness :
  let _ := answers (json_answer tools_answer) in
  exists g' w' x o, handleProxy open_gateway chunked_request at_noon (new_writer 10000) = (g', w', Some x) /\
    ex_sent x = Some o /\ or_body o = Some (Source "{'id':1"%js None).
Proof.
  intros T. apply (truncated_body_forwarded open_gateway chunked_request at_noon (new_writer 10000) s_proxy
    (Source "{'id':1"%js (Some (ENew "invalid byte in chunk length"))) (ENew "invalid byte in chunk length"));
    [constructor; by vm_compute|done|by vm_compute|done|done].
Defined.

(** *** The trail *)

Definition key (k : bytes) : mgap := MGap [] k [] [] [].

Definition call_json (secret : bytes) : json :=
  JObj [] [(key "id", JNum "1"); (key "method", JStr "tools/call");
           (key "params", JObj [] [(key "name", JStr "read"); (key "arguments", JStr secret)])].

Lemma calls_same s s' : same_metadata (call_json s) (call_json s').
Proof.
  apply same_meta_single, same_message_obj. apply Forall2_cons; split; [by apply same_member_read|].
  apply Forall2_cons; split; [by apply same_member_read|]. apply Forall2_cons; split; [|by constructor].
  apply same_member_params; [done|by vm_compute|by vm_compute|]. by apply same_params_obj.
Qed.

Lemma trail_is_metadata_only_witness :
  let _ := answers (json_answer tools_answer) in
  good (call_json "alpha") /\ good (call_json "bravo") /\
  fst (serve plain_gateway (carrying (call_json "alpha") list_request) at_noon (new_writer 10000))
  = fst (serve plain_gateway (carrying (call_json "bravo") list_request) at_noon (new_writer 10000)).
Proof.
  intros T. assert (G1 : good (call_json "alpha")) by by vm_compute. assert (G2 : good (call_json "bravo")) by by vm_compute.
  split; [exact G1|]. split; [exact G2|].
  apply (trail_is_metadata_only plain_gateway list_request (call_json "alpha") (call_json "bravo") at_noon (new_writer 10000)
    G1 G2 (calls_same _ _)); [reflexivity|by vm_compute|reflexivity].
Defined.

(** *** Construction *)

Definition new_gateway : result Gateway := New 0 no_file all_start (config_of (read_only None)) (Some NewAuditorWriter).

Definition has_built : bool := match new_gateway with Ok _ => true | Err _ => false end.

Lemma new_gateway_ok : New 0 no_file all_start (config_of (read_only None)) (Some NewAuditorWriter) = Ok plain_gateway.
Proof.
  assert (H : has_built = true) by by vm_compute. unfold plain_gateway, built. unfold has_built, new_gateway in H.
  by destruct (New _ _ _ _ _).
Qed.

Lemma New_configures_witness :
  New 0 no_file all_start (config_of (read_only None)) (Some NewAuditorWriter) = Ok plain_gateway /\
  config_taken (config_of (read_only None)) /\ Forall (configured 0 no_file plain_gateway) [read_only None] /\
  (forall n, n ∉ ["s" : bytes] -> unconfigured plain_gateway n).
Proof.
  split; [exact new_gateway_ok|].
  destruct (New_configures 0 no_file all_start _ _ _ new_gateway_ok) as (H1 & _ & _ & H2 & H3). by split_and!.
Defined.

(** *** End to end *)

Definition list_state_of : option rewriteState := request_state plain_gateway list_request.
Definition strict_state : rewriteState := default (list_state []) list_state_of.

Lemma strict_request : request_state plain_gateway list_request = Some strict_state.
Proof. apply (some_default list_state_of). by vm_compute. Qed.

Lemma strict_end_to_end_witness :
  let _ := answers (json_answer tools_answer) in
  exists g' w' x, handleProxy plain_gateway list_request at_noon (new_writer 10000) = (g', w', Some x) /\
    (ex_aborted x = false ->
     client_status w' = StatusForbidden \/ client_status w' = StatusBadGateway \/
     (client_status w' = StatusOK /\
       ((exists ms ms', messages tools_answer = Some ms /\ messages (wr_body w') = Some ms' /\
           Forall2 (listing_safe strict_state) ms ms') \/
        Forall (safe_payload strict_state) (client_events (wr_body w'))))).
Proof.
  intros T.
  apply (strict_end_to_end plain_gateway list_request at_noon s_proxy 10000 0 (json_answer tools_answer) strict_state).
  - exact list_passed.
  - exact strict_request.
  - by vm_compute.
  - done.
  - done.
Defined.

Lemma routes_isolated_witness :
  let _ := answers (json_answer tools_answer) in
  serve plain_gateway list_request at_noon (new_writer 10000)
    = (fst (fst (after list_request)), snd (fst (after list_request)), snd (after list_request)) /\
  route_view (fst (fst (after list_request))) "other" = route_view plain_gateway "other".
Proof.
  intros T. split; [by apply after_parts|].
  destruct (routes_isolated plain_gateway list_request at_noon (new_writer 10000)
    (fst (fst (after list_request))) (snd (fst (after list_request))) (snd (after list_request))) as (_ & H & _);
    [by apply after_parts|by apply H].
Defined.

Lemma sse_read_terminates_witness :
  (0 < 3)%nat /\ exists fuel e,
    srcErr (drain maxRPCPeek [("data: x" : bytes, None)] (newSSERewriter [("data: x" : bytes, None)] strict_state)) = Some e /\
    read_all maxRPCPeek fuel 3 (newSSERewriter [("data: x" : bytes, None)] strict_state)
    = Some (w_out (drain maxRPCPeek [("data: x" : bytes, None)] (newSSERewriter [("data: x" : bytes, None)] strict_state)), e,
        SseRewrite.st (drain maxRPCPeek [("data: x" : bytes, None)] (newSSERewriter [("data: x" : bytes, None)] strict_state))).
Proof. split; [lia|]. apply (sse_read_terminates maxRPCPeek [("data: x" : bytes, None)] strict_state 3). lia. Defined.

(** *** Handlers side by side *)

(** A gateway whose route lets one request through at a time, and two
clients. *)
Definition narrow : Upstream :=
  MkUpstream "s" "http://127.0.0.1:9/base/" 0 (Some (MkRateLimit (f_of_int 1) 1 false)) ["read" : bytes] [] None None [] [].

Definition two_clients : list job :=
  let client r := MkJob r at_noon (new_writer 10000) clean_env (answers (json_answer tools_answer)) in
  [client list_request; client delete_request].

(** Both look up their route; the first gets past the limiter, so the second
is refused, and while the second's line is being written the first is answered
and waits for its turn to write. *)
Definition overtaking : list (nat * nat) :=
  [(0, 0); (0, 1); (0, 0); (0, 0); (0, 1); (0, 1); (0, 1); (0, 1); (6, 1); (0, 0); (900, 1); (0, 1); (0, 0); (6, 0); (900, 0); (0, 0)]%nat.

Definition overtaken : option system :=
  run_schedule two_clients overtaking (start two_clients (built narrow)).

Example overtaking_run :
  (s ← overtaken;
   es ← read_trail (sink (auditor (sy_gateway s)));
   mret (map (fun ph => match ph with PDone an => client_status (an_writer an) | _ => 0 end) (sy_phases s), map EntryStatus es))
  = Some ([200; 429], [429; 200]).
Proof. by vm_compute. Qed.

Definition overtaken_state : system := default (start two_clients (built narrow)) overtaken.

Lemma overtaken_some : run_schedule two_clients overtaking (start two_clients (built narrow)) = Some overtaken_state.
Proof. unfold overtaken_state, overtaken. apply some_default. by vm_compute. Qed.

Lemma overtaken_steps : rtc (step two_clients) (start two_clients (built narrow)) overtaken_state.
Proof. apply (schedule_steps two_clients overtaking _ _). exact overtaken_some. Qed.

Lemma all_done s : forallb is_done (sy_phases s) = true -> finished s.
Proof. intros H. apply Forall_forall. intros ph Hp. rewrite forallb_forall in H. by apply H, list_elem_of_In. Qed.

Lemma overtaken_finished : finished overtaken_state.
Proof. apply all_done. by vm_compute. Qed.

(** The first gets past its limiter first, and the second writes first. *)
Lemma serializable_witness :
  run_schedule two_clients overtaking (start two_clients (built narrow)) = Some overtaken_state /\ finished overtaken_state /\
  exists g1 rs, serially two_clients (built narrow) [0; 1]%nat = (g1, rs) /\
    set_auditor (auditor g1) (sy_gateway overtaken_state) = g1 /\
    exists lines, map fst lines = [1; 0]%nat /\
      sink (auditor (sy_gateway overtaken_state)) = sink (log_run (map (logged two_clients) lines) (auditor (built narrow))).
Proof.
  split; [exact overtaken_some|]. split; [exact overtaken_finished|].
  pose proof (serializable two_clients (built narrow) overtaking overtaken_state overtaken_some overtaken_finished) as H.
  assert (Ho : order_of two_clients joins overtaking (start two_clients (built narrow)) = [0; 1]%nat) by by vm_compute.
  assert (Hw : order_of two_clients writes overtaking (start two_clients (built narrow)) = [1; 0]%nat) by by vm_compute.
  cbn zeta in H. rewrite Ho, Hw in H. destruct (serially two_clients (built narrow) [0; 1]%nat) as [g1 rs].
  destruct H as (_ & H1 & _ & _ & lines & marked & _ & H2 & H3 & _). exists g1, rs. split; [done|]. split; [exact H1|].
  exists lines. by split.
Defined.

Lemma handlers_finish_witness :
  rtc (step two_clients) (start two_clients (built narrow)) (start two_clients (built narrow)) /\
  exists s', rtc (step two_clients) (start two_clients (built narrow)) s' /\ finished s'.
Proof.
  split; [reflexivity|].
  exact (proj1 (proj2 (handlers_finish two_clients (built narrow) _ (rtc_refl _ _)))).
Defined.

Lemma lines_whole_witness :
  rtc (step two_clients) (start two_clients (built narrow)) overtaken_state /\
  exists ws part, sink (auditor (sy_gateway overtaken_state))
    = sink (auditor (built narrow)) ++ concat (map (line_taken two_clients) ws) ++ part /\ NoDup (map fst ws).
Proof.
  split; [exact overtaken_steps|].
  destruct (lines_whole two_clients (built narrow) overtaken_state overtaken_steps) as (ws & part & H1 & H2 & _).
  exists ws, part. split; [exact H1|exact H2].
Defined.

(** *** The command line *)

Definition no_network (r : rpc_request) (w : unit) : unit * result rpc_response := (w, Err (ENew "no network")).

Definition served (args : list bytes) : unit * outcome :=
  run no_network no_file (fun _ => false) (fun _ _ => None) (fun _ => None) 0 all_start args tt.

Definition serve_args : list bytes :=
  ["--listen=:9000" : bytes; "--upstream"; "files=http://127.0.0.1:3001/mcp"; "-audit"; "audit.jsonl"].

Definition served_config (r : unit * outcome) : Config := match snd r with Serving c _ => c | _ => config_of (read_only None) end.
Definition served_gateway (r : unit * outcome) : Gateway := match snd r with Serving _ g => g | _ => plain_gateway end.
Definition does_serve (r : unit * outcome) : bool := match snd r with Serving _ _ => true | _ => false end.

Lemma serving_parts r : does_serve r = true -> r = (tt, Serving (served_config r) (served_gateway r)).
Proof. destruct r as [[] []]; done. Qed.

Lemma run_serves_witness :
  run no_network no_file (fun _ => false) (fun _ _ => None) (fun _ => None) 0 all_start serve_args tt
    = (tt, Serving (served_config (served serve_args)) (served_gateway (served serve_args))) /\
  exists o, Parse default_options serve_args = Parsed o /\ Listen (served_config (served serve_args)) = listen o.
Proof.
  assert (H : served serve_args = (tt, Serving (served_config (served serve_args)) (served_gateway (served serve_args))))
    by (apply serving_parts; by vm_compute).
  split; [exact H|].
  destruct (run_serves no_network no_file (fun _ => false) (fun _ _ => None) (fun _ => None) 0 all_start serve_args tt tt _ _ H)
    as (o & base & Hp & _ & _ & _ & _ & _ & Hl & _).
  exists o. split; [exact Hp|]. rewrite Hl. unfold serve_args in Hp. vm_compute in Hp. by injection Hp as <-.
Defined.

(** *** From start to end *)

Definition lived (v : service) (args : list bytes) : unit * ended :=
  run_os no_network no_file (fun _ => false) (fun _ _ => None) (fun _ => None) 0 (fun _ _ => starts) id (fun _ _ => v) args tt empty_os.

Definition held_after (r : unit * ended) : list resource := elements (live (en_os (snd r))).

(** A signal ends the program with code 0, a listener that fails with code 1;
a shutdown whose time is up before the streams end is a failure too.  The
audit file is closed every time. *)
Example endings :
  let quits := lived (MkService [] all_idle (Interrupted None)) serve_args in
  let late := lived (MkService [] all_idle (Interrupted (Some (ENew "context deadline exceeded")))) serve_args in
  let taken := lived (MkService [] all_idle (ListenFailed (ENew "listen tcp :9000: address already in use"))) serve_args in
  map (fun r => (fst (main_exit (en_result (snd r))), held_after r)) [quits; late; taken] = [(0, []); (1, []); (1, [])] /\
  snd (main_exit (en_result (snd taken))) = "mcp-gateway-lite: listen tcp :9000: address already in use" ++ [x0a].
Proof. by vm_compute. Qed.

(** The configuration of the run, and the audit file it has opened. *)
Definition lived_config : Config :=
  match snd (prepare no_network no_file (fun _ => false) (fun _ _ => None) serve_args tt) with
  | Ready cfg => cfg
  | Exits _ _ _ => config_of (read_only None)
  end.

Definition audit_opened : os := snd (NewAuditor_os (fun _ => None) (AuditCfg lived_config) empty_os).

Lemma lived_ready :
  snd (prepare no_network no_file (fun _ => false) (fun _ _ => None) serve_args tt) = Ready lived_config /\
  NewAuditor_os (fun _ => None) (AuditCfg lived_config) empty_os = (Ok (NewAuditorWriter, Some 3%nat), audit_opened).
Proof. split; by vm_compute. Qed.


Definition two_upstreams : options :=
  MkOptions [] ":9000" [] false true false "mcp.lock"
    [MkUpstream "a" "http://a/x=1" 0 None [] [] None None [] []; MkUpstream "b" "http://b" 0 None [] [] None None [] []].

Lemma arguments_roundtrip_witness :
  Forall flag_upstream (ups two_upstreams) /\ Parse default_options (arguments two_upstreams) = Parsed two_upstreams.
Proof.
  assert (H : Forall flag_upstream (ups two_upstreams)).
  { repeat constructor; try done; apply (bool_decide_unpack _); by vm_compute. }
  split; [exact H|]. apply (arguments_roundtrip two_upstreams H).
Defined.
